(* ===== verification/_CoqProject ===== *)
-Q . S2P
Prelude.v
ByteQueue.v
Buffer.v
LoopQueue.v
Monitor.v
Locks.v
Singleton.v
Sockets.v
ThreadDeque.v
TimeoutQueue.v
Wire.v
Message.v
AsyncProcThread.v
Connection.v
Transceiver.v
ObjectProxy.v
BindAdapter.v
ObjectProxyFactory.v
ThreadData.v
Epoller.v
CommunicatorEpoll.v
ServantProxy.v
SyncCall.v
CoroList.v
Stacks.v
Contexts.v
Scheduler.v
RoundRobin.v
NetThread.v
EpollServer.v
ServantManager.v
Servants.v
ServantHandle.v
HandlerRun.v
Rpc.v
Pipeline.v
AsyncClient.v
Communicator.v
Application.v
Server.v
System.v
Progress.v
Clients.v
Programs.v
