(* ===== verification/Prelude.v ===== *)
(** * tarsx: a verification library

    tarsx is a remote procedure call framework: clients call functions of servers
    by name over TCP.  This library models its C++ code and proves what the parts,
    and the parts together, do.

    ** The program

    A client thread calls [tars_invoke] or [tars_invoke_async] of a ServantProxy.
    The call becomes a ReqMessage in a LoopQueue between that thread and a network
    thread (CommunicatorEpoll), which is notified, takes the message and gives it
    to the ObjectProxy of the address.  The ObjectProxy numbers the request, files
    it in a TimeoutQueueNew and writes it with a length header through its
    Transceiver.  A response is found again by its number: a waiting thread is
    woken through the Monitor of the message, the message of an asynchronous call
    goes on to an AsyncProcThread, which runs the callback.  Communicator,
    ObjectProxyFactory and ServantProxyThreadData make and keep these objects.

    In the server a NetThread accepts Connections, cuts what they receive (in a
    Buffer) into requests and puts them into the ThreadDeque of a BindAdapter.  The
    handlers of the adapter's HandleGroup (ServantHandle) run a coroutine that
    takes requests off these queues and makes a coroutine of CoroutineScheduler
    for each; it calls the function that ServantHelperManager has for the adapter
    and passes the result through EpollServer to the send queue of a network
    thread, which writes it to the connection.  Application puts a server
    together.

    ** The files

    One file per component, each with a Module of the name of the class; a
    function has the name of the method it translates and takes the state of the
    object as its last arguments ([new], [init] are constructors, [set_x] stores
    to the member [x]).

    - Prelude (this file): outcomes of C++ code, machine integers, memory blocks,
      sequences of operations and their refinement.
    - ByteQueue: the interface between Connection and its buffer, as a class with
      laws.  Buffer (Buffer.h, .cc) is its instance.
    - LoopQueue (LoopQueue.hpp), sequentially and as a step relation of a producer
      and a consumer; Monitor (Monitor.hpp, Condition.cc); Locks (Mutex.cc, Lock.hpp,
      and the threads in a monitor as a step relation); Singleton (Singleton.h);
      Sockets (NetworkUtil.cc, Socket.cc, ClientSocket.cc), over a log of the system
      calls and the results that are still to come; ThreadDeque (ThreadDeque.hpp); TimeoutQueue (TimeoutQueueNew.hpp).
    - Wire: the bytes of requests and responses.  Message: Message.h.
    - the client: AsyncProcThread, Transceiver, ObjectProxy, ObjectProxyFactory,
      ThreadData (ServantProxyThreadData), CommunicatorEpoll, ServantProxy, and
      SyncCall, the steps of the two threads at the end of a synchronous call.
    - the server: Connection, BindAdapter (with HandleGroup and the ordered map
      StringMap), Epoller, NetThread, EpollServer, ServantManager
      (ServantManager.h, TarsNodeF, NodeF.h), ServantHandle.
    - coroutines: Stacks (the allocator) and CoroList (the intrusive lists) of
      CoroutineScheduler.h, .cc; Contexts, the assembly routines that switch
      contexts and the jumps made with them; Scheduler; RoundRobin, the queue that a
      scheduler without sleeping coroutines is; HandlerRun, a handler thread with
      its scheduler.
    - Servants: the servants of the programs and the registry.
    - Rpc: a client and a server connected with each other; Pipeline: calls in
      flight together; Clients: a server and many clients that take turns.
    - the threads in any order, each file with an abstract specification of its
      own: AsyncClient, the threads of a client that makes asynchronous calls;
      Server, those of a server; System, many clients and a server with calls of
      all of them on their way at the same time; Progress, how it all ends.
    - Communicator and Application: how clients and servers are put together, and
      the main programs of the servers; Programs: those of the clients.

    ** Outcomes, state and the outside

    A function that can fail returns an [outcome]: [Ok], a failed [assert], a C++
    exception, undefined behaviour (a null or dangling pointer, an index out of
    range), or [Spin], an endless loop.  [NDEBUG] is taken to be off.  Objects that
    several others point to live in a store: adapters and groups in
    [NetThread.Shared], everything of a client in [CommunicatorEpoll.world], whose
    [heap] has the messages made with [new]; a [shared_ptr] is a [handle], an
    index into a store or null.  Integers are [Z] with the wrap-around of their
    width written out ([u32], [u64], [i32]); Buffer keeps its bytes cell by cell,
    so that reading a byte that was never written is seen.

    What code outside does is an argument: the results of system calls, in the
    order in which they are asked for ([read_result], [send_result], [answers]);
    the descriptors that sockets get; the events that [epoll_wait] reports; the
    time; the values of members without initial value ([garbage]); what other
    threads do while a thread waits ([others]).  A critical section of a monitor is
    one step; [Locks.Threads] shows why.  Where the interleaving inside such a step
    matters it is modelled separately: LoopQueue.spsc_step, SyncCall, Locks and
    Singleton.

    Loops that the data bounds are structural.  The others have fuel, and [Spin]
    is their result when it is used up: 64 rounds in Buffer, as a capacity doubles
    at most that often; one round per byte in the buffer in Connection; one per
    request in TimeoutQueue.  That this is enough is part of the theorems, which
    say that the result is [Ok].  Endless loops ([run] of a thread) take the list
    of what happens in each round and are [Spin] behind its end.

    ** What is proved

    - many clients and a server, with calls, reads, writes, passes of the scheduler
      and callbacks in any order and requests cut anywhere, within the bounds of
      the queues: every client gets the results of its own calls, in order and once
      ([System.every_interleaving_answers]), and from every state that is reached
      all calls can be completed ([Progress.every_call_completes]).  The two halves:
      a server does what a network of queues does, whatever bytes its clients send,
      and crashes exactly when that does ([Server.server_refines]), sends
      responses in the order of the requests ([Server.responses_in_order]) and
      answers everything ([Server.every_request_answered]); a client runs the right
      callback whatever the order of the responses
      ([AsyncClient.callbacks_in_any_order]).
    - whole programs: HelloServer and client_test together, from the start of both
      to the response and the end of the client ([Programs.client_meets_server]),
      and the same for client_async_test, to the callback
      ([Programs.async_client_meets_server]); a server with many clients that
      connect, call and leave in any order, each of which gets the responses to
      its own calls and no other bytes ([Clients.clients_get_their_responses]).
    - whole calls: any sequence of synchronous calls returns the servant's
      response to each ([Rpc.remote_calls_return]); asynchronous calls, made one
      after the other ([Rpc.async_calls_complete]) or in flight together
      ([Pipeline.flight_completes]), run each callback once with its response; all
      this from a server as it is after its start ([Application.server_hosts]) and a
      client that has just registered ([Communicator.first_proxy_registers]).  A
      server that is told to stop stops ([Application.server_stops]).
    - the server: one exchange from the read to the write
      ([ServantHandle.server_answers_requests]); framing
      ([Connection.recv_reassembles]); the invariant [NetThread.ok] of the network
      thread under everything it does ([NetThread.network_thread_safe]), with
      the conditions under which nothing brings it down.
    - the handler thread with its scheduler and coroutines, from [init] to the last
      stack that it gives back, refines a loop without any of these, unless the limit
      on stacks is such that it aborts in giving them back
      ([HandlerRun.handler_run_refines]); no request is lost or overtaken in it
      ([HandlerRun.no_request_is_lost]).
    - coroutines: a jump back to a context goes on where its owner jumped away,
      register by register ([Contexts.Fcontext.jump_roundtrip]); a new context lies
      inside its stack and enters its function
      ([Contexts.Fcontext.make_fcontext_enters]); the jumps of the program implement
      a table of suspended coroutines ([Contexts.Entry.contexts_implement_coroutines]),
      which is what Scheduler works with; the scheduler's lists and counters
      ([Scheduler.scheduler_consistent]), its wake-ups, and the order in which it
      runs coroutines ([RoundRobin.scheduler_is_round_robin]); what is allocated for
      a stack ([Stacks.stack_roundtrip]).
    - one thread at a time in a monitor, and the wake-ups that its [unlock] and its
      waits make ([Locks.Threads.monitor_excludes]), one object of a singleton
      ([Singleton.singleton_is_one]), every descriptor that a socket owns closed
      once ([Sockets.SocketFacts.socket_closes_what_it_opens]).
    - the client: requests reach the wire in order
      ([ServantProxy.calls_reach_the_wire]), responses find their requests by the ids
      that they start with ([Wire.request_id_roundtrip]), a synchronous call ends
      ([SyncCall.sync_call_completes]).
    - the containers refine lists, maps or queues, every operation included:
      Buffer, LoopQueue, ThreadDeque, TimeoutQueue, Transceiver, AsyncProcThread,
      ObjectProxyFactory.
    - the servants' search for a method is a look-up in their table.
    - what goes wrong, as theorems whose conclusion is the failure: among others a
      response to a client that has left, the two-thousandth connection, a second
      thread that calls before the network thread looks, a full queue of calls,
      negative lengths, requests that could not be sent at once, registrations,
      the admin servant.

    The theorems about whole calls are about one network thread on each side, one
    calling thread per client, a server whose handler has one adapter, messages that
    the sockets take whole and responses that are read one by one.  They keep to the
    bounds of the program: 2000 clients, a thousand calls of a client that are not
    sent yet, a hundred responses that wait for their callbacks, as many calls as
    there are ids, payloads below 2^30 bytes, 2^62 bytes or messages in a buffer or
    queue; and every stack that a scheduler asks for is granted ([alloc_total]).
    What happens outside these conditions is the subject of the theorems on the
    failures ([ServantProxy.full_queue_loses_call],
    [Scheduler.failed_allocation_aborts_next], [Connection.negative_length_aborts]
    and others) and of those on the components.

    ** Not modelled

    - what waits have no effect on: the wait of [CoroutineScheduler::run] on its
      monitor, [getchar]; logging.
    - the sockets of NetThread and the contexts of Scheduler are modelled on their
      own (Sockets, Contexts): NetThread and CommunicatorEpoll take the descriptors
      and the results of [accept] as arguments, Scheduler keeps what is left of a
      coroutine as a value, and whether a stack is granted is a predicate.
    - C++ exceptions that [CommunicatorEpoll::handle] and [run] catch: what they
      leave behind is not followed.
    - the class Coroutine, whose code is commented out; functions that are declared
      and have no body; tc_fcontext_i386.h, which is not in the repository.

    Not composed: several calling threads or proxies of one client (the second
    thread's first call can hide the first one's,
    [ServantProxy.second_caller_hides_first]) and several network threads of a
    server. *)

From Stdlib Require Export ZArith Lia Ascii Sorting.Sorted.
From stdpp Require Export base numbers list list_numbers option gmap strings.

#[global] Open Scope Z_scope.

(** ** Outcomes of C++ code

    A translated function returns an [outcome]: a value, or one of the ways
    in which the C++ code can fail to return one. *)

Inductive exn : Set :=
| LengthError     (* std::length_error, std::bad_array_new_length *)
| RuntimeError     (* std::runtime_error *)
| BadFunctionCall (* an empty std::function is called *)
| OutOfRange.      (* std::out_of_range *)

Inductive outcome (A : Type) : Type :=
| Ok (a : A)
| Assert           (* an assert(...) of the source is false: abort() *)
| Undef            (* undefined behaviour: null or dangling access, out of range *)
| Raise (e : exn)  (* a C++ exception leaves the function *)
| Spin.            (* the fuel given to a loop was used up *)

Arguments Ok {A} a.
Arguments Assert {A}.
Arguments Undef {A}.
Arguments Raise {A} e.
Arguments Spin {A}.

#[global] Instance exn_eq_dec : EqDecision exn.
Proof. solve_decision. Defined.

#[global] Instance outcome_eq_dec {A} `{EqDecision A} : EqDecision (outcome A).
Proof. solve_decision. Defined.

#[global] Instance outcome_ret : MRet outcome := λ A a, Ok a.

#[global] Instance outcome_bind : MBind outcome := λ A B f m,
  match m with
  | Ok a => f a
  | Assert => Assert
  | Undef => Undef
  | Raise e => Raise e
  | Spin => Spin
  end.

#[global] Instance outcome_fmap : FMap outcome := λ A B f m,
  match m with
  | Ok a => Ok (f a)
  | Assert => Assert
  | Undef => Undef
  | Raise e => Raise e
  | Spin => Spin
  end.

(** [assert(b)] of the source. *)
Definition assert_ (b : bool) : outcome unit := if b then Ok tt else Assert.

(** An access that is defined only when [b] holds. *)
Definition defined (b : bool) : outcome unit := if b then Ok tt else Undef.

(** Dereferencing something that may be null or dangling. *)
Definition deref {A} (o : option A) : outcome A :=
  match o with Some a => Ok a | None => Undef end.

Section outcome_lemmas.
Context {A B : Type}.
Implicit Types (m : outcome A) (f : A → outcome B).

Lemma bind_Ok m f b : m ≫= f = Ok b ↔ ∃ a, m = Ok a ∧ f a = Ok b.
Proof.
  destruct m; simpl; (split; [intros; try discriminate; eauto|]);
    intros (? & [=] & ?); by subst.
Qed.

Lemma assert_Ok b u : assert_ b = Ok u ↔ b = true.
Proof. destruct b, u; naive_solver. Qed.

Lemma defined_Ok b u : defined b = Ok u ↔ b = true.
Proof. destruct b, u; naive_solver. Qed.

Lemma deref_Ok (o : option A) a : deref o = Ok a ↔ o = Some a.
Proof. destruct o; naive_solver. Qed.
End outcome_lemmas.

(** Takes apart a hypothesis that says a chain of binds returned [Ok]. *)
Ltac inv_ok :=
  repeat match goal with
  | H : (_ ≫= _) = Ok _ |- _ => let H' := fresh in pose proof (proj1 (bind_Ok _ _ _) H) as (? & H' & ?); clear H
  | H : assert_ _ = Ok _ |- _ => apply assert_Ok in H
  | H : defined _ = Ok _ |- _ => apply defined_Ok in H
  | H : deref _ = Ok _ |- _ => apply deref_Ok in H
  | H : Ok _ = Ok _ |- _ => injection H; clear H; intros; subst
  | H : (_, _) = (_, _) |- _ => injection H; clear H; intros; subst
  | H : mret _ = Ok _ |- _ => injection H; clear H; intros; subst
  | x : unit |- _ => destruct x
  end.

(** ** Machine integers *)

Definition u8 (z : Z) : Z := z `mod` 2 ^ 8.
Definition u32 (z : Z) : Z := z `mod` 2 ^ 32.
Definition u64 (z : Z) : Z := z `mod` 2 ^ 64.

(** The value of an [int] whose bit pattern is [z]. *)
Definition i32 (z : Z) : Z := (z + 2 ^ 31) `mod` 2 ^ 32 - 2 ^ 31.

Lemma u32_small z : 0 ≤ z < 2 ^ 32 → u32 z = z.
Proof. apply Z.mod_small. Qed.

Lemma u64_small z : 0 ≤ z < 2 ^ 64 → u64 z = z.
Proof. apply Z.mod_small. Qed.

Lemma i32_small z : - 2 ^ 31 ≤ z < 2 ^ 31 → i32 z = z.
Proof. intros. unfold i32. rewrite Z.mod_small; lia. Qed.

Lemma u32_range z : 0 ≤ u32 z < 2 ^ 32.
Proof. apply Z.mod_pos_bound. lia. Qed.

Lemma u64_range z : 0 ≤ u64 z < 2 ^ 64.
Proof. apply Z.mod_pos_bound. lia. Qed.

Lemma i32_range z : - 2 ^ 31 ≤ i32 z < 2 ^ 31.
Proof. unfold i32. pose proof (Z.mod_pos_bound (z + 2 ^ 31) (2 ^ 32)). lia. Qed.

Lemma u32_i32 z : u32 (i32 z) = u32 z.
Proof.
  unfold u32, i32. rewrite Zminus_mod_idemp_l. f_equal. lia.
Qed.

(** Wrap-arounds by case analysis on the quotient. *)
Ltac word :=
  unfold u8, u32, u64, i32 in *; Z.to_euclidean_division_equations; lia.

(** Removes wrap-arounds that [lia] can show do not happen. *)
Ltac nowrap :=
  repeat match goal with
  | |- context [u64 ?z] => rewrite (u64_small z) by lia
  | |- context [u32 ?z] => rewrite (u32_small z) by lia
  | |- context [i32 ?z] => rewrite (i32_small z) by lia
  end.

Create HintDb tarsx discriminated.

(** Closed arithmetic facts, for concrete inputs. *)
Ltac by_compute := vm_compute; repeat split; try discriminate; auto.

(** ** Lists of memory cells *)

(** One [char] of memory; [None] is a byte nobody has written yet. *)
Abbreviation cell := (option ascii).

Abbreviation bytes := (list ascii).

(** Length as a C++ [size_t]. *)
Abbreviation zlen l := (Z.of_nat (length l)).

(** [len] cells from offset [off]; undefined outside the array. *)
Definition mem_read {A} (mem : list A) (off len : Z) : outcome (list A) :=
  if bool_decide (0 ≤ off ∧ 0 ≤ len ∧ off + len ≤ zlen mem)
  then Ok (take (Z.to_nat len) (drop (Z.to_nat off) mem)) else Undef.

(** Overwrites the cells from offset [off]; undefined outside the array. *)
Definition mem_write {A} (mem : list A) (off : Z) (data : list A) : outcome (list A) :=
  if bool_decide (0 ≤ off ∧ off + zlen data ≤ zlen mem)
  then Ok (take (Z.to_nat off) mem ++ data
           ++ drop (Z.to_nat off + length data) mem)
  else Undef.

Lemma mem_read_Ok {A} (mem : list A) off len :
  0 ≤ off → 0 ≤ len → off + len ≤ zlen mem →
  mem_read mem off len = Ok (take (Z.to_nat len) (drop (Z.to_nat off) mem)).
Proof. intros. unfold mem_read. by rewrite bool_decide_true by lia. Qed.

Lemma mem_write_Ok {A} (mem : list A) off data :
  0 ≤ off → off + zlen data ≤ zlen mem →
  mem_write mem off data =
  Ok (take (Z.to_nat off) mem ++ data ++ drop (Z.to_nat off + length data) mem).
Proof. intros. unfold mem_write. by rewrite bool_decide_true by lia. Qed.

Lemma mem_write_one {A} (mem : list A) off x :
  0 ≤ off < zlen mem → mem_write mem off [x] = Ok (<[Z.to_nat off := x]> mem).
Proof.
  intros. rewrite mem_write_Ok by (simpl; lia). f_equal.
  rewrite (insert_take_drop mem) by lia. simpl. do 3 f_equal. lia.
Qed.

Lemma mem_read_one {A} (mem : list A) off x :
  0 ≤ off → mem !! Z.to_nat off = Some x → mem_read mem off 1 = Ok [x].
Proof.
  intros ? Hx. pose proof (lookup_lt_Some _ _ _ Hx).
  rewrite mem_read_Ok by lia. by rewrite (drop_S _ x) by done.
Qed.

(** The bytes of cells that have all been written. *)
Definition cells_bytes (cs : list cell) : outcome bytes := deref (mapM id cs).

Lemma cells_bytes_Some (bs : bytes) : cells_bytes (Some <$> bs) = Ok bs.
Proof.
  unfold cells_bytes. apply deref_Ok, mapM_Some_2. by induction bs; constructor.
Qed.

Create Rewrite HintDb lists.
#[export] Hint Rewrite @length_app @length_take @length_drop @length_fmap
  @length_replicate @length_insert : lists.
Ltac lists := autorewrite with lists in *; simpl in *; try lia.

(** ** Runs of operations and refinement

    A component's operations, gathered in one type [Op] with their observable
    results [Ob], form a step function.  [run_ops] performs a sequence of
    them; [refines] relates the outcomes of the code and of its abstract
    specification: the same failure, or the same observations and related
    states. *)

Definition outcome_rel {A B} (R : A → B → Prop) (x : outcome A) (y : outcome B) : Prop :=
  match x, y with
  | Ok a, Ok b => R a b
  | Assert, Assert => True
  | Undef, Undef => True
  | Raise e, Raise e' => e = e'
  | Spin, Spin => True
  | _, _ => False
  end.

(** What refines a specification that returns returns. *)
Lemma outcome_rel_Ok {A B} (R : A → B → Prop) x y b :
  outcome_rel R x y → y = Ok b → ∃ a, x = Ok a ∧ R a b.
Proof. intros Hr ->. destruct x; try done. by eexists. Qed.

Section refinement.
Context {Op Ob S1 S2 : Type}.

Fixpoint run_ops {S} (step : Op → S → outcome (Ob * S)) (ops : list Op) (s : S)
    : outcome (list Ob * S) :=
  match ops with
  | [] => Ok ([], s)
  | op :: ops =>
      '(o, s) ← step op s;
      '(os, s) ← run_ops step ops s;
      Ok (o :: os, s)
  end.

(** Every operation of the run is one the specification allows. *)
Fixpoint admissible {S} (ok : Op → S → Prop) (step : Op → S → outcome (Ob * S))
    (ops : list Op) (s : S) : Prop :=
  match ops with
  | [] => True
  | op :: ops =>
      ok op s ∧ match step op s with
                | Ok (_, s') => admissible ok step ops s'
                | _ => True
                end
  end.

Definition obs_rel {O} (R : S1 → S2 → Prop) (x : O * S1) (y : O * S2) : Prop :=
  x.1 = y.1 ∧ R x.2 y.2.

Lemma run_ops_refines (R : S1 → S2 → Prop) ok
    (step1 : Op → S1 → outcome (Ob * S1)) (step2 : Op → S2 → outcome (Ob * S2)) :
  (∀ op s1 s2, R s1 s2 → ok op s2 →
     outcome_rel (obs_rel R) (step1 op s1) (step2 op s2)) →
  ∀ ops s1 s2, R s1 s2 → admissible ok step2 ops s2 →
    outcome_rel (obs_rel R) (run_ops step1 ops s1) (run_ops step2 ops s2).
Proof.
  intros Hsim ops. induction ops as [|op ops IH]; intros s1 s2 HR Hadm; [done|].
  destruct Hadm as [Hok Hadm]. specialize (Hsim op s1 s2 HR Hok). simpl.
  destruct (step1 op s1) as [[o1 s1']| | | |], (step2 op s2) as [[o2 s2']| | | |];
    try done.
  destruct Hsim as [Ho HR']. simpl in Ho, HR'. subst o2. simpl.
  specialize (IH s1' s2' HR' Hadm).
  destruct (run_ops step1 ops s1') as [[os1 r1]| | | |],
    (run_ops step2 ops s2') as [[os2 r2]| | | |]; try done.
  destruct IH as [Hos HRr]. simpl in Hos, HRr. subst os2. done.
Qed.

Lemma admissible_all {S} (step : Op → S → outcome (Ob * S)) ops : ∀ s,
  admissible (λ _ _, True) step ops s.
Proof.
  induction ops as [|op ops IH]; intros s; simpl; [done|].
  split; [done|]. by destruct (step op s) as [[??]| | | |].
Qed.
End refinement.

(** Rule induction: what every step keeps holds in every reachable state. *)
Lemma rtc_invariant {A} (R : relation A) (P : A → Prop) :
  (∀ x y, R x y → P x → P y) → ∀ x y, rtc R x y → P x → P y.
Proof. intros Hstep x y Hr. induction Hr; eauto. Qed.

(** Types with a null pointer; [std::unique_ptr<A>] and [A*] are [option A]. *)
Class Nullable (T : Type) := nullptr : T.

#[export] Instance nullable_option {A} : Nullable (option A) := None.

Lemma filter_ext_in {A} (P Q : A → Prop) `{∀ x, Decision (P x), ∀ x, Decision (Q x)} (l : list A) :
  (∀ x, x ∈ l → P x ↔ Q x) → filter P l = filter Q l.
Proof.
  intros Heq. induction l as [|x l IH]; [done|].
  rewrite !filter_cons, IH by (intros; apply Heq; by right).
  pose proof (Heq x (list_elem_of_here x l)).
  by repeat case_decide; tauto || f_equal.
Qed.

Lemma filter_all {A} (P : A → Prop) `{∀ x, Decision (P x)} (l : list A) :
  (∀ x, x ∈ l → P x) → filter P l = l.
Proof.
  intros Hall. induction l as [|x l IH]; [done|].
  rewrite filter_cons, decide_True by (apply Hall; left).
  f_equal. apply IH. intros; apply Hall; by right.
Qed.

Lemma filter_fmap_comm {A B} (f : A → B) (P : A → Prop) (Q : B → Prop)
    `{∀ x, Decision (P x), ∀ x, Decision (Q x)} (l : list A) :
  (∀ x, P x ↔ Q (f x)) → filter Q (f <$> l) = f <$> filter P l.
Proof.
  intros Heq. induction l as [|x l IH]; [done|].
  rewrite fmap_cons, !filter_cons, IH. pose proof (Heq x).
  repeat case_decide; tauto || done.
Qed.

Lemma NoDup_fmap_inj_in {A B} (f : A → B) (l : list A) x y :
  NoDup (f <$> l) → x ∈ l → y ∈ l → f x = f y → x = y.
Proof.
  induction l as [|z l IH]; intros Hnd Hx Hy Hf; [by apply elem_of_nil in Hx|].
  apply NoDup_cons in Hnd as [Hz Hnd].
  apply elem_of_cons in Hx as [->|Hx], Hy as [->|Hy]; auto.
  - destruct Hz. rewrite Hf. by apply list_elem_of_fmap_2.
  - destruct Hz. rewrite <- Hf. by apply list_elem_of_fmap_2.
Qed.

Lemma NoDup_fmap_filter {A B} (f : A → B) (P : A → Prop) `{∀ x, Decision (P x)} (l : list A) :
  NoDup (f <$> l) → NoDup (f <$> filter P l).
Proof.
  induction l as [|x l IH]; [done|]. intros [Hx Hnd]%NoDup_cons.
  rewrite filter_cons. case_decide; [|by apply IH]. apply NoDup_cons. split; [|by apply IH].
  intros Hin. apply Hx. apply list_elem_of_fmap in Hin as (y & -> & Hy).
  apply list_elem_of_filter in Hy as [_ Hy]. by apply list_elem_of_fmap_2.
Qed.

Lemma StronglySorted_filter {A} (R : A → A → Prop) (P : A → Prop) `{∀ x, Decision (P x)}
    (l : list A) :
  StronglySorted R l → StronglySorted R (filter P l).
Proof.
  induction 1 as [|x l Hl IH Hx]; [constructor|]. rewrite filter_cons.
  case_decide; [|done]. constructor; [done|]. rewrite Forall_forall in *.
  intros y [_ Hy]%list_elem_of_filter. by apply Hx.
Qed.
