(* ===== verification/ByteQueue.v ===== *)
(** * ByteQueue: what a byte buffer promises to the code that receives with it

    [Connection::recv] uses five operations of its buffer.  [ByteQueue] lists
    them, [ByteQueueLaws] states them over the sequence of cells the buffer
    holds; the theorems on connections use only these laws, and Buffer.v
    proves them for the program's [Buffer]. *)

From S2P Require Import Prelude.

Class ByteQueue (B : Type) := {
  bq_init : B;
  bq_push : bytes → B → outcome B;
  bq_size : B → Z;
  bq_peek : Z → B → outcome (list cell);
  bq_consume : Z → B → outcome B
}.

(** What is promised holds while at most [bq_limit] bytes are queued. *)
Definition bq_limit : Z := 2 ^ 62.

Class ByteQueueLaws (B : Type) `{ByteQueue B} := {
  bq_repr : B → list cell → Prop;
  bq_init_repr : bq_repr bq_init [];
  bq_size_repr b q : bq_repr b q → bq_size b = zlen q;
  bq_push_repr b q d :
    bq_repr b q → zlen q + zlen d ≤ bq_limit →
    ∃ b', bq_push d b = Ok b' ∧ bq_repr b' (q ++ (Some <$> d));
  bq_peek_repr b q n :
    bq_repr b q → 0 ≤ n ≤ zlen q → bq_peek n b = Ok (take (Z.to_nat n) q);
  bq_consume_repr b q n :
    bq_repr b q → 0 ≤ n ≤ zlen q →
    ∃ b', bq_consume n b = Ok b' ∧ bq_repr b' (drop (Z.to_nat n) q);
  bq_consume_assert b q n :
    bq_repr b q → zlen q < n < 2 ^ 63 → bq_consume n b = Assert
}.
