(* ===== verification/Buffer.v ===== *)
(** * Buffer: the growable byte queue of Buffer.h and Buffer.cc

    [Buffer.t] has the five members of the class; [buffer_] is the array that
    [buffer_] points to ([] for [nullptr]), one [cell] per [char].  The
    operations keep the 64-bit wrap-around of [size_t].  [contents] is the
    abstract value, the cells between [readPos_] and [writePos_]; the lemmas
    [*_spec] say that each operation is the queue operation on it. *)

From S2P Require Import Prelude.
From S2P Require Import ByteQueue.

Module Buffer.

Record t := mk {
  readPos_ : Z;
  writePos_ : Z;
  capacity_ : Z;
  buffer_ : list cell;
  highWaterPercent_ : Z
}.

#[export] Instance t_eq_dec : EqDecision t.
Proof. solve_decision. Defined.

Definition MaxBufferSize : Z := (2 ^ 64 - 1) `div` 2.
Definition DefaultSize : Z := 128.

(** A default-constructed buffer. *)
Definition init : t := mk 0 0 0 [] 50.

Definition set_pos (r w : Z) (b : t) : t :=
  mk r w (capacity_ b) (buffer_ b) (highWaterPercent_ b).
Definition set_capacity (c : Z) (b : t) : t :=
  mk (readPos_ b) (writePos_ b) c (buffer_ b) (highWaterPercent_ b).

(** [delete[] buffer_; buffer_ = ptr]. *)
Definition resetBuffer (ptr : list cell) (b : t) : t :=
  mk (readPos_ b) (writePos_ b) (capacity_ b) ptr (highWaterPercent_ b).

(** [new char[n]]: the array-new of the language throws for a size above
    [PTRDIFF_MAX]. *)
Definition new_char (n : Z) : outcome (list cell) :=
  if n <? 2 ^ 63 then Ok (replicate (Z.to_nat n) None) else Raise LengthError.

Definition produce (bytes : Z) (b : t) : t :=
  set_pos (readPos_ b) (u64 (writePos_ b + bytes)) b.

Definition readableSize (b : t) : Z := u64 (writePos_ b - readPos_ b).
Definition writableSize (b : t) : Z := u64 (capacity_ b - writePos_ b).
Definition empty (b : t) : bool := readableSize b =? 0.
Definition capacity (b : t) : Z := capacity_ b.

Definition clear (b : t) : t := set_pos 0 0 b.

Definition consume (bytes : Z) (b : t) : outcome t :=
  _ ← assert_ (u64 (readPos_ b + bytes) <=? writePos_ b);
  let b := set_pos (u64 (readPos_ b + bytes)) (writePos_ b) b in
  Ok (if empty b then clear b else b).

(** [peekData]: the address is an offset into [buffer_]. *)
Definition readAddr (b : t) : Z := readPos_ b.
Definition writeAddr (b : t) : Z := writePos_ b.
Definition peekData (b : t) : Z * Z := (readAddr b, readableSize b).

(** The first [n] cells at [peek()]. *)
Definition peek (n : Z) (b : t) : outcome (list cell) :=
  mem_read (buffer_ b) (readPos_ b) n.

Definition swap (a b : t) : t * t :=
  (mk (readPos_ b) (writePos_ b) (capacity_ b) (buffer_ b) (highWaterPercent_ a),
   mk (readPos_ a) (writePos_ a) (capacity_ a) (buffer_ a) (highWaterPercent_ b)).

(** The loop of [detail::roundUp2Power], with fuel. *)
Fixpoint roundUp_loop (fuel : nat) (roundUp size : Z) : outcome Z :=
  match fuel with
  | O => Spin
  | S fuel =>
      if roundUp <? size then roundUp_loop fuel (u64 (Z.shiftl roundUp 1)) size
      else Ok roundUp
  end.

Definition roundUp2Power (size : Z) : outcome Z :=
  if size =? 0 then Ok 0 else roundUp_loop 64 1 size.

(** The [while] loop of [assureSpace], which only changes [capacity_]. *)
Fixpoint grow_loop (fuel : nat) (needsize : Z) (b : t) : outcome t :=
  match fuel with
  | O => Spin
  | S fuel =>
      if u64 (writableSize b + readPos_ b) <? needsize then
        b ← (if capacity_ b <? DefaultSize then Ok (set_capacity DefaultSize b)
             else if capacity_ b <=? MaxBufferSize then
               newCapacity ← roundUp2Power (capacity_ b);
               if capacity_ b <? newCapacity then Ok (set_capacity newCapacity b)
               else Ok (set_capacity (u64 (Z.shiftl newCapacity 1)) b)
             else Assert);
        grow_loop fuel needsize b
      else Ok b
  end.

Definition assureSpace (needsize : Z) (b : t) : outcome t :=
  if needsize <=? writableSize b then Ok b
  else
    let dataSize := readableSize b in
    let oldcap := capacity_ b in
    b ← grow_loop 66 needsize b;
    b ← (if oldcap <? capacity_ b then
           tmp ← new_char (capacity_ b);
           tmp ← (if dataSize =? 0 then Ok tmp
                  else data ← mem_read (buffer_ b) (readPos_ b) dataSize;
                       mem_write tmp 0 data);
           Ok (resetBuffer tmp b)
         else
           _ ← assert_ (0 <? readPos_ b);
           data ← mem_read (buffer_ b) (readPos_ b) dataSize;
           mem ← mem_write (buffer_ b) 0 data;
           Ok (resetBuffer mem b));
    let b := set_pos 0 dataSize b in
    _ ← assert_ (needsize <=? writableSize b);
    Ok b.

(** [data] is [None] for a null pointer; [size] is the length of the block. *)
Definition pushData (data : option bytes) (b : t) : outcome (Z * t) :=
  match data with
  | None => Ok (0, b)
  | Some d =>
      let size := zlen d in
      if size =? 0 then Ok (0, b)
      else if MaxBufferSize <=? u64 (readableSize b + size) then Ok (0, b)
      else
        b ← assureSpace size b;
        mem ← mem_write (buffer_ b) (writePos_ b) (Some <$> d);
        Ok (size, produce size (resetBuffer mem b))
  end.

(** [buf] says whether the destination pointer is non-null; the cells copied
    to it are returned with the size. *)
Definition popData (buf : bool) (size : Z) (b : t) : outcome (Z * list cell * t) :=
  let dataSize := readableSize b in
  if negb buf || (size =? 0) || (dataSize =? 0) then Ok (0, [], b)
  else
    let size := if dataSize <? size then dataSize else size in
    out ← mem_read (buffer_ b) (readPos_ b) size;
    b ← consume size b;
    Ok (size, out, b).

Definition shrink (b : t) : outcome t :=
  if empty b then Ok (resetBuffer [] (set_capacity 0 (clear b)))
  else if capacity_ b <=? DefaultSize then Ok b
  else
    let oldcap := capacity_ b in
    let dataSize := readableSize b in
    if u64 (oldcap * highWaterPercent_ b) <? u64 (dataSize * 100) then Ok b
    else
      newcap ← roundUp2Power dataSize;
      tmp ← new_char newcap;
      data ← mem_read (buffer_ b) (readPos_ b) dataSize;
      tmp ← mem_write tmp 0 data;
      Ok (set_pos 0 dataSize (set_capacity newcap (resetBuffer tmp b))).

#[global] Arguments pushData : simpl never.
#[global] Arguments popData : simpl never.
#[global] Arguments consume : simpl never.
#[global] Arguments assureSpace : simpl never.
#[global] Arguments shrink : simpl never.

(** ** Well-formed buffers and their abstract value *)

Record wf (b : t) : Prop := {
  wf_pos : 0 ≤ readPos_ b ≤ writePos_ b;
  wf_cap : writePos_ b ≤ capacity_ b < 2 ^ 63;
  wf_mem : zlen (buffer_ b) = capacity_ b;
  wf_high : highWaterPercent_ b = 50   (* no function of the program changes it *)
}.

Definition contents (b : t) : list cell :=
  take (Z.to_nat (writePos_ b - readPos_ b)) (drop (Z.to_nat (readPos_ b)) (buffer_ b)).

Ltac wf_facts :=
  repeat match goal with
  | H : wf ?b |- _ =>
      lazymatch goal with
      | _ : 0 ≤ readPos_ b ≤ writePos_ b |- _ => fail
      | _ => pose proof (wf_pos _ H); pose proof (wf_cap _ H); pose proof (wf_mem _ H);
          pose proof (wf_high _ H)
      end
  end.

Lemma init_wf : wf init.
Proof. split; simpl; lia || done. Qed.

Lemma readableSize_wf b : wf b → readableSize b = writePos_ b - readPos_ b.
Proof. intros. wf_facts. unfold readableSize. by nowrap. Qed.

Lemma writableSize_wf b : wf b → writableSize b = capacity_ b - writePos_ b.
Proof. intros. wf_facts. unfold writableSize. by nowrap. Qed.

Lemma zlen_contents b : wf b → zlen (contents b) = readableSize b.
Proof.
  intros. rewrite readableSize_wf by done. wf_facts. unfold contents. lists.
Qed.

Lemma empty_spec b : wf b → empty b = bool_decide (contents b = []).
Proof.
  intros. unfold empty. rewrite <- zlen_contents by done.
  destruct (contents b); [done|]. by rewrite bool_decide_false.
Qed.

Lemma readableSize_bounds b : wf b → 0 ≤ readableSize b < 2 ^ 63.
Proof. intros. rewrite readableSize_wf by done. wf_facts. lia. Qed.

Lemma contents_clear b : contents (clear b) = [].
Proof. done. Qed.

Lemma clear_wf b : wf b → wf (clear b).
Proof. intros. wf_facts. split; simpl; lia || done. Qed.

#[export] Hint Resolve init_wf clear_wf : tarsx.

(** *** [detail::roundUp2Power] *)

Lemma roundUp_loop_spec fuel k size :
  0 ≤ k ≤ 63 → 63 - k < Z.of_nat fuel → 1 ≤ size ≤ 2 ^ 63 → 2 ^ k < 2 * size →
  ∃ k', roundUp_loop fuel (2 ^ k) size = Ok (2 ^ k') ∧
        0 ≤ k' ≤ 63 ∧ size ≤ 2 ^ k' < 2 * size.
Proof.
  revert k. induction fuel as [|fuel IH]; intros k Hk Hf Hs H2; [lia|].
  simpl roundUp_loop. case (Z.ltb_spec (2 ^ k) size) as [Hlt|Hge].
  - assert (k < 63).
    { destruct (decide (k = 63)) as [->|]; lia. }
    rewrite Z.shiftl_mul_pow2, <- Z.pow_add_r by lia.
    assert (2 ^ (k + 1) ≤ 2 ^ 63) by (apply Z.pow_le_mono_r; lia).
    pose proof (Z.pow_pos_nonneg 2 (k + 1)).
    rewrite u64_small by lia. apply IH; try lia.
    rewrite Z.pow_add_r by lia. lia.
  - exists k. auto with lia.
Qed.

Lemma roundUp2Power_Ok size :
  1 ≤ size ≤ 2 ^ 63 →
  ∃ k, roundUp2Power size = Ok (2 ^ k) ∧ 0 ≤ k ≤ 63 ∧ size ≤ 2 ^ k < 2 * size.
Proof.
  intros. unfold roundUp2Power.
  destruct (Z.eqb_spec size 0); [lia|].
  apply (roundUp_loop_spec 64 0); simpl; lia.
Qed.

Lemma roundUp_loop_spins fuel size : ∀ r,
  2 ^ 63 < size → r = 0 ∨ (∃ k, 0 ≤ k ≤ 63 ∧ r = 2 ^ k) →
  roundUp_loop fuel r size = Spin.
Proof.
  induction fuel as [|fuel IH]; intros r Hs Hr; [done|]. simpl.
  assert (r ≤ 2 ^ 63) as Hr63.
  { destruct Hr as [->|(k & Hk & ->)]; [lia|]. apply Z.pow_le_mono_r; lia. }
  destruct (Z.ltb_spec r size); [|lia]. apply IH; [done|].
  destruct Hr as [->|(k & Hk & ->)]; [by left|].
  rewrite Z.shiftl_mul_pow2, <- Z.pow_add_r by lia.
  destruct (decide (k = 63)) as [->|]; [by left|].
  right. exists (k + 1). split; [lia|]. apply u64_small.
  pose proof (Z.pow_le_mono_r 2 (k + 1) 63). lia.
Qed.

Lemma pow2_between k k' : 0 ≤ k → 0 ≤ k' → 2 ^ k ≤ 2 ^ k' < 2 * 2 ^ k → k' = k.
Proof.
  intros ? ? [Hle Hlt]. rewrite <- Z.pow_succ_r in Hlt by done.
  apply Z.pow_le_mono_r_iff in Hle; [|lia..].
  apply Z.pow_lt_mono_r_iff in Hlt; lia.
Qed.

Lemma roundUp2Power_pow2 k : 0 ≤ k ≤ 63 → roundUp2Power (2 ^ k) = Ok (2 ^ k).
Proof.
  intros. pose proof (Z.pow_pos_nonneg 2 k). pose proof (Z.pow_le_mono_r 2 k 63).
  destruct (roundUp2Power_Ok (2 ^ k)) as (k' & -> & ? & ?); [lia|].
  by rewrite (pow2_between k k') by lia.
Qed.

(** *** [assureSpace] *)

Lemma MaxBufferSize_eq : MaxBufferSize = 2 ^ 63 - 1.
Proof. reflexivity. Qed.

(** Bytes the buffer has to hold once [needsize] more are promised. *)
Definition demand (needsize : Z) (b : t) : Z := writePos_ b - readPos_ b + needsize.

Lemma set_capacity_twice c c' b : set_capacity c (set_capacity c' b) = set_capacity c b.
Proof. done. Qed.

Lemma shiftl_pow2 k : 0 ≤ k < 63 → u64 (Z.shiftl (2 ^ k) 1) = 2 ^ (k + 1).
Proof.
  intros. rewrite Z.shiftl_mul_pow2, <- Z.pow_add_r by lia. apply u64_small.
  pose proof (Z.pow_pos_nonneg 2 (k + 1)). pose proof (Z.pow_le_mono_r 2 (k + 1) 63). lia.
Qed.

Lemma grow_test need b :
  0 ≤ readPos_ b ≤ writePos_ b → writePos_ b ≤ capacity_ b < 2 ^ 63 →
  (u64 (writableSize b + readPos_ b) <? need) = (capacity_ b <? demand need b).
Proof.
  intros. unfold writableSize, demand. nowrap. repeat case Z.ltb_spec; lia.
Qed.

Lemma grow_loop_S fuel need b :
  grow_loop (S fuel) need b =
  if u64 (writableSize b + readPos_ b) <? need then
    (if capacity_ b <? DefaultSize then Ok (set_capacity DefaultSize b)
     else if capacity_ b <=? MaxBufferSize then
       newCapacity ← roundUp2Power (capacity_ b);
       if capacity_ b <? newCapacity then Ok (set_capacity newCapacity b)
       else Ok (set_capacity (u64 (Z.shiftl newCapacity 1)) b)
     else Assert) ≫= grow_loop fuel need
  else Ok b.
Proof. reflexivity. Qed.

Lemma grow_loop_pow2 fuel need b : ∀ k,
  0 ≤ readPos_ b ≤ writePos_ b → capacity_ b = 2 ^ k → writePos_ b ≤ 2 ^ k →
  7 ≤ k ≤ 62 → 62 - k < Z.of_nat fuel → demand need b ≤ 2 ^ 62 →
  ∃ c, grow_loop fuel need b = Ok (set_capacity c b) ∧
       demand need b ≤ c ∧ 2 ^ k ≤ c ∧ c ≤ 2 ^ 62 ∧ c ≤ Z.max (2 ^ k) (2 * demand need b).
Proof.
  revert b. induction fuel as [|fuel IH]; intros b k Hp Hc Hw Hk Hf HT; [lia|].
  pose proof (Z.pow_le_mono_r 2 k 62). pose proof (Z.pow_le_mono_r 2 7 k).
  rewrite grow_loop_S, grow_test by lia.
  destruct (Z.ltb_spec (capacity_ b) (demand need b)) as [Hlt|Hge]; rewrite Hc in *.
  - assert (k < 62) by (apply (Z.pow_lt_mono_r_iff 2); lia).
    rewrite MaxBufferSize_eq. unfold DefaultSize.
    destruct (Z.ltb_spec (2 ^ k) 128); [lia|].
    destruct (Z.leb_spec (2 ^ k) (2 ^ 63 - 1)); [|lia].
    rewrite roundUp2Power_pow2 by lia. simpl. rewrite Z.ltb_irrefl.
    rewrite shiftl_pow2 by lia. simpl.
    assert (2 ^ (k + 1) = 2 * 2 ^ k) by (rewrite Z.pow_add_r by lia; lia).
    destruct (IH (set_capacity (2 ^ (k + 1)) b) (k + 1)) as (c & Hg & Hb);
      [simpl; lia..|exact HT|].
    exists c. rewrite Hg, set_capacity_twice.
    change (demand need (set_capacity _ b)) with (demand need b) in Hb. split; [done|lia].
  - exists (2 ^ k). rewrite <- Hc. split; [by destruct b|lia].
Qed.

Lemma grow_loop_spec need b :
  wf b → demand need b ≤ 2 ^ 62 →
  ∃ c, grow_loop 66 need b = Ok (set_capacity c b) ∧ demand need b ≤ c ∧
       capacity_ b ≤ c < 2 ^ 63 ∧ (c = capacity_ b ∨ c ≤ Z.max DefaultSize (2 * demand need b)).
Proof.
  intros Hwf HT. wf_facts.
  rewrite (grow_loop_S 65), grow_test by lia.
  destruct (Z.ltb_spec (capacity_ b) (demand need b)) as [Hlt|Hge].
  2:{ exists (capacity_ b). split; [by destruct b|lia]. }
  unfold DefaultSize. destruct (Z.ltb_spec (capacity_ b) 128) as [Hsm|Hbig].
  - destruct (grow_loop_pow2 65 need (set_capacity 128 b) 7) as (c & Hg & Hb);
      [simpl; lia..|exact HT|].
    change (demand need (set_capacity 128 b)) with (demand need b) in Hb.
    exists c. cbn [mbind outcome_bind]. rewrite Hg, set_capacity_twice. split; [done|lia].
  - destruct (Z.leb_spec (capacity_ b) MaxBufferSize) as [Hm|Hm];
      [|rewrite MaxBufferSize_eq in Hm; lia].
    destruct (roundUp2Power_Ok (capacity_ b)) as (k & -> & Hk & Hr); [lia|].
    cbn [mbind outcome_bind].
    assert (k < 63) by (apply (Z.pow_lt_mono_r_iff 2); lia).
    assert (7 ≤ k) by (apply (Z.pow_le_mono_r_iff 2); lia).
    assert (2 ^ (k + 1) = 2 * 2 ^ k) by (rewrite Z.pow_add_r by lia; lia).
    destruct (Z.ltb_spec (capacity_ b) (2 ^ k)) as [Hlt'|Hge'].
    + destruct (grow_loop_pow2 65 need (set_capacity (2 ^ k) b) k) as (c & Hg & Hb);
        [simpl; lia..|exact HT|].
      change (demand need (set_capacity _ b)) with (demand need b) in Hb.
      exists c. cbn [mbind outcome_bind]. rewrite Hg, set_capacity_twice. split; [done|lia].
    + rewrite shiftl_pow2 by lia.
      assert (k < 62) by (apply (Z.pow_lt_mono_r_iff 2); lia).
      destruct (grow_loop_pow2 65 need (set_capacity (2 ^ (k + 1)) b) (k + 1))
        as (c & Hg & Hb); [simpl; lia..|exact HT|].
      change (demand need (set_capacity _ b)) with (demand need b) in Hb.
      exists c. cbn [mbind outcome_bind]. rewrite Hg, set_capacity_twice. split; [done|lia].
Qed.

Lemma mem_read_contents b :
  wf b → mem_read (buffer_ b) (readPos_ b) (readableSize b) = Ok (contents b).
Proof.
  intros. wf_facts. rewrite readableSize_wf by done. apply mem_read_Ok; lia.
Qed.

(** A buffer whose data starts at offset 0. *)
Lemma contents_rebased data rest cap hw :
  contents (mk 0 (zlen data) cap (data ++ rest) hw) = data.
Proof. unfold contents. simpl. rewrite Z.sub_0_r, Nat2Z.id. apply take_app_length. Qed.

Lemma rebased_wf data rest cap hw :
  zlen data + zlen rest = cap → cap < 2 ^ 63 → hw = 50 →
  wf (mk 0 (zlen data) cap (data ++ rest) hw).
Proof. intros. split; simpl; rewrite ?length_app; lia || done. Qed.

Lemma new_char_Ok n : 0 ≤ n < 2 ^ 63 → new_char n = Ok (replicate (Z.to_nat n) None).
Proof. intros. unfold new_char. destruct (Z.ltb_spec n (2 ^ 63)); [done|lia]. Qed.

(** Copying the readable bytes to the start of a block that is large enough. *)
Lemma copy_to_front b mem :
  wf b → readableSize b ≤ zlen mem →
  (data ← mem_read (buffer_ b) (readPos_ b) (readableSize b); mem_write mem 0 data)
  = Ok (contents b ++ drop (length (contents b)) mem).
Proof.
  intros. rewrite mem_read_contents by done. cbn [mbind outcome_bind].
  rewrite mem_write_Ok by (rewrite ?zlen_contents by done; lia). done.
Qed.

Lemma assureSpace_spec need b :
  wf b → 0 ≤ need → demand need b ≤ 2 ^ 62 →
  ∃ b', assureSpace need b = Ok b' ∧ wf b' ∧ contents b' = contents b ∧
        need ≤ writableSize b' ∧
        (capacity_ b' = capacity_ b ∨
         capacity_ b' ≤ Z.max DefaultSize (2 * demand need b)).
Proof.
  intros Hwf Hn HT. pose proof (readableSize_wf b Hwf) as Hrs.
  pose proof (zlen_contents b Hwf) as Hlen. wf_facts.
  unfold assureSpace. rewrite writableSize_wf by done.
  destruct (Z.leb_spec need (capacity_ b - writePos_ b)) as [Hfit|Hnofit].
  { exists b. rewrite writableSize_wf by done. split_and!; auto. }
  destruct (grow_loop_spec need b Hwf HT) as (c & -> & Hc & Hcb & Hcap).
  unfold demand in Hc. cbn [mbind outcome_bind].
  assert (∃ rest, (if capacity_ b <? c then
      tmp ← new_char c;
      tmp ← (if readableSize b =? 0 then Ok tmp
             else data ← mem_read (buffer_ b) (readPos_ b) (readableSize b);
                  mem_write tmp 0 data);
      Ok (resetBuffer tmp (set_capacity c b))
    else
      _ ← assert_ (0 <? readPos_ b);
      data ← mem_read (buffer_ b) (readPos_ b) (readableSize b);
      mem ← mem_write (buffer_ b) 0 data;
      Ok (resetBuffer mem (set_capacity c b)))
    = Ok (resetBuffer (contents b ++ rest) (set_capacity c b)) ∧
    zlen (contents b) + zlen rest = c) as (rest & Heq & Hrest).
  { destruct (Z.ltb_spec (capacity_ b) c).
    - rewrite new_char_Ok by lia. cbn [mbind outcome_bind].
      exists (drop (length (contents b)) (replicate (Z.to_nat c) None)).
      split; [|rewrite length_drop, length_replicate; lia].
      destruct (Z.eqb_spec (readableSize b) 0) as [Hz|Hz].
      + assert (contents b = []) as -> by (apply length_zero_iff_nil; lia). done.
      + rewrite copy_to_front by (rewrite ?length_replicate by done; lia || done). done.
    - exists (drop (length (contents b)) (buffer_ b)).
      split; [|rewrite length_drop; lia].
      destruct (Z.ltb_spec 0 (readPos_ b)); [|lia]. cbn [mbind outcome_bind assert_].
      rewrite mem_read_contents by done. cbn [mbind outcome_bind].
      rewrite mem_write_Ok by lia. done. }
  simpl readPos_. simpl buffer_. simpl capacity_. rewrite Heq. cbn [mbind outcome_bind].
  rewrite <- Hlen. unfold set_pos, resetBuffer, set_capacity. simpl.
  pose proof (rebased_wf (contents b) rest c (highWaterPercent_ b) Hrest) as Hwf'.
  specialize (Hwf' ltac:(lia) ltac:(done)).
  eexists. split_and!; [|exact Hwf'|apply contents_rebased|..|exact Hcap].
  - rewrite writableSize_wf by exact Hwf'. simpl.
    rewrite (proj2 (Z.leb_le _ _)) by lia. done.
  - rewrite writableSize_wf by exact Hwf'. simpl. lia.
Qed.

Lemma drop_take_slice {A} (l : list A) r w :
  (r ≤ w)%nat → drop r (take w l) = take (w - r) (drop r l).
Proof. intros. rewrite take_drop_commute. do 2 f_equal. lia. Qed.

Lemma contents_write b d rest :
  wf b →
  contents (set_pos (readPos_ b) (writePos_ b + zlen d)
    (resetBuffer (take (Z.to_nat (writePos_ b)) (buffer_ b) ++ d ++ rest) b))
  = contents b ++ d.
Proof.
  intros Hwf. wf_facts. unfold contents. simpl.
  rewrite drop_app_le by lists. rewrite drop_take_slice by lia.
  rewrite <- Z2Nat.inj_sub by lia. rewrite app_assoc.
  apply take_app_length'. lists.
Qed.

(** Copying bytes behind the readable ones and advancing [writePos_]. *)
Lemma fill_spec d b :
  wf b → zlen d ≤ writableSize b →
  ∃ mem, mem_write (buffer_ b) (writePos_ b) (Some <$> d) = Ok mem ∧
         wf (produce (zlen d) (resetBuffer mem b)) ∧
         contents (produce (zlen d) (resetBuffer mem b)) = contents b ++ (Some <$> d).
Proof.
  intros Hwf Hd. rewrite writableSize_wf in Hd by done. wf_facts.
  rewrite mem_write_Ok by lists. eexists. split; [done|].
  assert (∀ m, produce (zlen d) (resetBuffer m b) =
    set_pos (readPos_ b) (writePos_ b + zlen (Some <$> d)) (resetBuffer m b)) as ->.
  { intros m. unfold produce. simpl. rewrite length_fmap. by nowrap. }
  split; [|by apply contents_write]. split; simpl; lists.
Qed.

Lemma pushData_nil b : pushData (Some []) b = Ok (0, b).
Proof. done. Qed.

Lemma pushData_spec d b :
  wf b → readableSize b + zlen d ≤ 2 ^ 62 →
  ∃ b', pushData (Some d) b = Ok (zlen d, b') ∧ wf b' ∧
        contents b' = contents b ++ (Some <$> d) ∧
        (capacity_ b' = capacity_ b ∨
         capacity_ b' ≤ Z.max DefaultSize (2 * (readableSize b + zlen d))).
Proof.
  intros Hwf Hd. pose proof (readableSize_bounds b Hwf).
  unfold pushData. destruct (Z.eqb_spec (zlen d) 0) as [H0|H0].
  { assert (d = []) as -> by (apply length_zero_iff_nil; lia).
    exists b. rewrite app_nil_r. auto. }
  rewrite u64_small, MaxBufferSize_eq by lia.
  rewrite (proj2 (Z.leb_gt _ _)) by lia.
  rewrite readableSize_wf in * by done.
  destruct (assureSpace_spec (zlen d) b Hwf) as (b1 & -> & Hwf1 & Hc1 & Hw1 & Hcap);
    [lia|unfold demand; lia|].
  destruct (fill_spec d b1 Hwf1 Hw1) as (mem & Hm & Hwf' & Hc').
  cbn [mbind outcome_bind]. rewrite Hm. cbn [mbind outcome_bind].
  eexists. split_and!; [done|done|by rewrite Hc', Hc1|exact Hcap].
Qed.

Lemma consume_spec n b :
  wf b → 0 ≤ n ≤ readableSize b →
  ∃ b', consume n b = Ok b' ∧ wf b' ∧ contents b' = drop (Z.to_nat n) (contents b) ∧
        capacity_ b' = capacity_ b.
Proof.
  intros Hwf Hn. rewrite readableSize_wf in Hn by done. wf_facts.
  unfold consume. nowrap. rewrite (proj2 (Z.leb_le _ _)) by lia.
  cbn [mbind outcome_bind assert_].
  set (b1 := set_pos _ _ b).
  assert (wf b1) as Hwf1 by (split; simpl; lia || done).
  assert (contents b1 = drop (Z.to_nat n) (contents b)) as Hc1.
  { unfold contents. simpl. rewrite drop_take_slice, drop_drop by lia.
    f_equal; [lia|f_equal; lia]. }
  destruct (empty b1) eqn:He.
  - exists (clear b1). split_and!; [done|auto with tarsx| |done].
    rewrite empty_spec in He by done. apply bool_decide_eq_true in He.
    by rewrite contents_clear, <- Hc1, He.
  - exists b1. auto.
Qed.

Lemma consume_assert n b :
  wf b → readableSize b < n < 2 ^ 63 → consume n b = Assert.
Proof.
  intros Hwf Hn. rewrite readableSize_wf in Hn by done. wf_facts.
  unfold consume. nowrap. by rewrite (proj2 (Z.leb_gt _ _)) by lia.
Qed.

Lemma peek_spec n b :
  wf b → 0 ≤ n ≤ readableSize b → peek n b = Ok (take (Z.to_nat n) (contents b)).
Proof.
  intros Hwf Hn. rewrite readableSize_wf in Hn by done. wf_facts.
  unfold peek. rewrite mem_read_Ok by lia. unfold contents.
  rewrite take_take. do 2 f_equal. lia.
Qed.

Lemma popData_spec n b :
  wf b → 0 ≤ n →
  ∃ b', popData true n b =
          Ok (Z.min n (zlen (contents b)), take (Z.to_nat n) (contents b), b') ∧
        wf b' ∧ contents b' = drop (Z.to_nat n) (contents b).
Proof.
  intros Hwf Hn. pose proof (zlen_contents b Hwf) as Hl.
  pose proof (readableSize_bounds b Hwf).
  unfold popData. simpl negb. simpl orb.
  destruct (Z.eqb_spec n 0) as [->|Hn0]; simpl orb.
  { exists b. rewrite Z.min_l by lia. auto. }
  destruct (Z.eqb_spec (readableSize b) 0) as [H0|H0].
  { exists b. assert (contents b = []) as -> by (apply length_zero_iff_nil; lia).
    rewrite take_nil, drop_nil, Z.min_r by (simpl; lia). auto. }
  set (m := if readableSize b <? n then readableSize b else n).
  assert (m = Z.min n (readableSize b)) as Hm.
  { subst m. destruct (Z.ltb_spec (readableSize b) n); lia. }
  change (mem_read (buffer_ b) (readPos_ b) m) with (peek m b).
  rewrite peek_spec by (done || lia). cbn [mbind outcome_bind].
  destruct (consume_spec m b Hwf) as (b' & -> & Hwf' & Hc' & _); [lia|].
  cbn [mbind outcome_bind]. exists b'. rewrite Hc', Hl, <- Hm. split_and!; [|done|].
  - do 3 f_equal. destruct (decide (n ≤ readableSize b)); [by rewrite Hm, Z.min_l by lia|].
    rewrite !take_ge by lia. done.
  - destruct (decide (n ≤ readableSize b)); [by rewrite Hm, Z.min_l by lia|].
    rewrite !drop_ge by lia. done.
Qed.

Lemma shrink_spec b :
  wf b → readableSize b ≤ 2 ^ 62 →
  ∃ b', shrink b = Ok b' ∧ wf b' ∧ contents b' = contents b ∧
        (capacity_ b < 2 ^ 57 → capacity_ b' ≤ capacity_ b).
Proof.
  intros Hwf Hr. pose proof (zlen_contents b Hwf) as Hl.
  pose proof (readableSize_bounds b Hwf) as Hrb. wf_facts.
  unfold shrink. destruct (empty b) eqn:He.
  { rewrite empty_spec in He by done. apply bool_decide_eq_true in He. rewrite He.
    eexists. split_and!; [done|split; simpl; lia || done|done|simpl; lia]. }
  assert (1 ≤ readableSize b).
  { unfold empty in He. apply Z.eqb_neq in He. lia. }
  destruct (Z.leb_spec (capacity_ b) DefaultSize).
  { exists b. split_and!; auto with lia. }
  destruct (Z.ltb_spec (u64 (capacity_ b * highWaterPercent_ b)) (u64 (readableSize b * 100)))
    as [|Hhw].
  { exists b. split_and!; auto with lia. }
  destruct (roundUp2Power_Ok (readableSize b)) as (k & -> & Hk & Hkr); [lia|].
  assert (2 ^ k < 2 ^ 63).
  { apply Z.pow_lt_mono_r; try lia. apply (Z.pow_lt_mono_r_iff 2); lia. }
  cbn [mbind outcome_bind]. rewrite new_char_Ok by lia. cbn [mbind outcome_bind].
  rewrite mem_read_contents by done. cbn [mbind outcome_bind].
  rewrite mem_write_Ok by (rewrite ?length_replicate; lia). cbn [mbind outcome_bind].
  rewrite <- Hl. unfold set_pos, set_capacity, resetBuffer. simpl.
  eexists. split_and!; [done|apply rebased_wf|apply contents_rebased|].
  - rewrite length_drop, length_replicate. lia.
  - lia.
  - done.
  - intros Hcap. simpl. pose proof (readableSize_wf b Hwf). rewrite wf_high, !u64_small in Hhw by (done || lia). lia.
Qed.

(** ** The interface used by connections *)

#[export] Instance byte_queue : ByteQueue t := {|
  bq_init := init;
  bq_push d b := '(_, b) ← pushData (Some d) b; Ok b;
  bq_size := readableSize;
  bq_peek := peek;
  bq_consume := consume
|}.

Definition repr (b : t) (q : list cell) : Prop := wf b ∧ contents b = q.

#[export] Instance byte_queue_laws : ByteQueueLaws t.
Proof.
  refine {| bq_repr := repr |}; simpl.
  - split; auto with tarsx.
  - intros b q [Hwf <-]. by rewrite zlen_contents.
  - intros b q d [Hwf <-] Hd. rewrite zlen_contents in Hd by done.
    destruct (pushData_spec d b Hwf Hd) as (b' & -> & ? & Hc & _).
    exists b'. simpl. by rewrite <- Hc.
  - intros b q n [Hwf <-] Hn. rewrite zlen_contents in Hn by done. by apply peek_spec.
  - intros b q n [Hwf <-] Hn. rewrite zlen_contents in Hn by done.
    destruct (consume_spec n b Hwf Hn) as (b' & -> & ? & Hc & _).
    exists b'. by rewrite <- Hc.
  - intros b q n [Hwf <-] Hn. rewrite zlen_contents in Hn by done. by apply consume_assert.
Defined.

(** ** Refinement: a buffer is an unbounded queue of bytes *)

Inductive op :=
| OpPush (d : bytes)
| OpPop (n : Z)
| OpConsume (n : Z)
| OpAssure (n : Z)
| OpShrink
| OpClear.

(** The call of the class; the observation is the size and the bytes returned. *)
Definition step (o : op) (b : t) : outcome (Z * list cell * t) :=
  match o with
  | OpPush d => '(n, b) ← pushData (Some d) b; Ok (n, [], b)
  | OpPop n => popData true n b
  | OpConsume n => b ← consume n b; Ok (0, [], b)
  | OpAssure n => b ← assureSpace n b; Ok (0, [], b)
  | OpShrink => b ← shrink b; Ok (0, [], b)
  | OpClear => Ok (0, [], clear b)
  end.

(** The queue operation it stands for. *)
Definition spec_step (o : op) (q : list cell) : outcome (Z * list cell * list cell) :=
  match o with
  | OpPush d => Ok (zlen d, [], q ++ (Some <$> d))
  | OpPop n => Ok (Z.min n (zlen q), take (Z.to_nat n) q, drop (Z.to_nat n) q)
  | OpConsume n => if n <=? zlen q then Ok (0, [], drop (Z.to_nat n) q) else Assert
  | OpAssure n => Ok (0, [], q)
  | OpShrink => Ok (0, [], q)
  | OpClear => Ok (0, [], [])
  end.

(** At most 2^62 bytes are stored or asked for, and counts are below 2^63. *)
Definition op_ok (o : op) (q : list cell) : Prop :=
  zlen q ≤ 2 ^ 62 ∧
  match o with
  | OpPush d => zlen q + zlen d ≤ 2 ^ 62
  | OpPop n | OpConsume n => 0 ≤ n < 2 ^ 63
  | OpAssure n => 0 ≤ n ∧ zlen q + n ≤ 2 ^ 62
  | OpShrink | OpClear => True
  end.

Lemma buffer_step_refines o b q :
  repr b q → op_ok o q → outcome_rel (obs_rel repr) (step o b) (spec_step o q).
Proof.
  intros [Hwf <-] [Hlen Hok]. rewrite zlen_contents in Hlen by done.
  destruct o as [d|n|n|n| |]; simpl in *.
  - rewrite zlen_contents in Hok by done.
    destruct (pushData_spec d b Hwf Hok) as (b' & -> & ? & ? & _). done.
  - destruct (popData_spec n b Hwf) as (b' & -> & ? & ?); [lia|done].
  - rewrite zlen_contents by done. destruct (Z.leb_spec n (readableSize b)).
    + destruct (consume_spec n b Hwf) as (b' & -> & ? & ? & _); [lia|done].
    + by rewrite consume_assert by (done || lia).
  - rewrite zlen_contents, readableSize_wf in Hok by done.
    destruct (assureSpace_spec n b Hwf) as (b' & -> & ? & ? & _);
      [lia|unfold demand; lia|done].
  - destruct (shrink_spec b Hwf Hlen) as (b' & -> & ? & ? & _). done.
  - split; [done|]. split; simpl; auto with tarsx.
Qed.

(** ** Properties *)

(** C20: A run of the Buffer class (pushData, popData, consume, assureSpace,
    shrink, clear, in any order and number, from a default-constructed
    buffer) returns exactly what a queue of bytes returns: the same sizes, the
    same bytes in the same order, the same failed assertion when [consume] is
    asked for more than is readable, and ends with the queue's contents
    between [readPos_] and [writePos_], as long as at most 2^62 bytes are
    stored or asked for. *)
Theorem buffer_refines_byte_queue ops :
  admissible op_ok spec_step ops [] →
  outcome_rel (obs_rel repr) (run_ops step ops init) (run_ops spec_step ops []).
Proof.
  apply run_ops_refines; [intros; by apply buffer_step_refines|].
  split; [apply init_wf|done].
Qed.

Lemma buffer_refines_byte_queue_witness :
  let ops := [OpPush ["a"; "b"; "c"]%char; OpConsume 1; OpAssure 300; OpPop 5;
              OpPush ["d"]%char; OpShrink; OpConsume 2] in
  admissible op_ok spec_step ops [] ∧
  outcome_rel (obs_rel repr) (run_ops step ops init) (run_ops spec_step ops []).
Proof.
  intros ops. assert (admissible op_ok spec_step ops []) as H.
  { by_compute. }
  split; [exact H|apply (buffer_refines_byte_queue ops H)].
Defined.

(** [assureSpace] always returns on a well-formed buffer when the demand
    (readable bytes plus [needsize]) is at most 2^62: no assertion fails, the
    growth loop ends, the stored bytes are kept, [needsize] bytes fit behind
    them, and the new capacity is the old one or at most the larger of 128 and
    twice the demand. *)
Theorem assureSpace_total need b :
  wf b → 0 ≤ need → demand need b ≤ 2 ^ 62 →
  ∃ b', assureSpace need b = Ok b' ∧ wf b' ∧ contents b' = contents b ∧
        need ≤ writableSize b' ∧
        (capacity_ b' = capacity_ b ∨
         capacity_ b' ≤ Z.max DefaultSize (2 * demand need b)).
Proof. apply assureSpace_spec. Qed.

Lemma assureSpace_total_witness :
  wf init ∧
  ∃ b', assureSpace 1000 init = Ok b' ∧ wf b' ∧ contents b' = contents init ∧
        1000 ≤ writableSize b' ∧
        (capacity_ b' = capacity_ init ∨
         capacity_ b' ≤ Z.max DefaultSize (2 * demand 1000 init)).
Proof.
  split; [exact init_wf|].
  apply (assureSpace_total 1000 init); [exact init_wf|lia|unfold demand; simpl; lia].
Defined.

(** [roundUp2Power] returns the least power of two that is at least its
    argument (0 for 0) for every size up to 2^63, and for a larger 64-bit size
    its loop never ends: whatever the number of iterations allowed, they are
    used up. *)
Theorem roundUp2Power_spec size :
  0 ≤ size < 2 ^ 64 →
  (size ≤ 2 ^ 63 →
     roundUp2Power size = Ok (if size =? 0 then 0 else 2 ^ Z.log2_up size)) ∧
  (2 ^ 63 < size → ∀ fuel, roundUp_loop fuel 1 size = Spin).
Proof.
  intros Hs. split; intros Hle.
  - destruct (Z.eqb_spec size 0) as [->|]; [done|].
    destruct (roundUp2Power_Ok size) as (k & -> & Hk & Hr); [lia|].
    do 2 f_equal. destruct (decide (size = 1)) as [->|].
    + destruct (decide (k = 0)) as [->|]; [done|].
      pose proof (Z.pow_le_mono_r 2 1 k). lia.
    + symmetry. apply Z.log2_up_unique; [|split; [|lia]].
      * destruct (decide (k = 0)) as [->|]; [simpl in *; lia|lia].
      * assert (0 < k) by (destruct (decide (k = 0)) as [->|]; [simpl in *; lia|lia]).
        assert (2 ^ k = 2 * 2 ^ Z.pred k) by (rewrite <- Z.pow_succ_r by lia; f_equal; lia).
        lia.
  - intros fuel. apply roundUp_loop_spins; [done|]. right. by exists 0.
Qed.

Lemma roundUp2Power_spec_witness :
  (1000 ≤ 2 ^ 63 →
     roundUp2Power 1000 = Ok (if 1000 =? 0 then 0 else 2 ^ Z.log2_up 1000)) ∧
  (2 ^ 63 < 1000 → ∀ fuel, roundUp_loop fuel 1 1000 = Spin).
Proof. apply (roundUp2Power_spec 1000). lia. Defined.

(** [shrink] never loses a byte: on a well-formed buffer holding at most
    2^62 bytes it returns, keeps the contents, and (below 2^57 bytes of
    capacity, where its percentage test does not wrap) never makes the
    capacity larger. *)
Theorem shrink_keeps_contents b :
  wf b → readableSize b ≤ 2 ^ 62 →
  ∃ b', shrink b = Ok b' ∧ wf b' ∧ contents b' = contents b ∧
        (capacity_ b < 2 ^ 57 → capacity_ b' ≤ capacity_ b).
Proof. apply shrink_spec. Qed.

Definition big_sample : t :=
  mk 3 9 300 ((Some <$> replicate 12 "x"%char) ++ replicate 288 None) 50.

Lemma shrink_keeps_contents_witness :
  wf big_sample ∧ (∃ b', shrink big_sample = Ok b' ∧ capacity_ b' = 8) ∧
  ∃ b', shrink big_sample = Ok b' ∧ wf b' ∧ contents b' = contents big_sample ∧
        (capacity_ big_sample < 2 ^ 57 → capacity_ b' ≤ capacity_ big_sample).
Proof.
  assert (wf big_sample) as H by (split; by_compute).
  split_and!; [exact H| |].
  - eexists. split; vm_compute; reflexivity.
  - apply (shrink_keeps_contents big_sample H). vm_compute. discriminate.
Defined.

End Buffer.

Export (hints) Buffer.
