(* ===== verification/LoopQueue.v ===== *)
(** * LoopQueue: the ring buffer of LoopQueue.hpp

    [LoopQueue.t T] has the five members of the class template; [p_] is the
    block returned by [malloc], [None] in a slot nobody has written.  Positions
    are [uint32_t] and keep their wrap-around; the overload of [push_back] on a
    vector compares in [size_t], as the usual conversions make it.  The first
    part translates the operations, the second relates them to a bounded FIFO
    list, the third runs one producer and one consumer step by step. *)

From S2P Require Import Prelude.

Module LoopQueue.

Record t (T : Type) := mk {
  p_ : list (option T);
  capacity_ : Z;
  capacitySub_ : Z;
  begin_ : Z;
  end_ : Z
}.
Arguments mk {T}.
Arguments p_ {T}.
Arguments capacity_ {T}.
Arguments capacitySub_ {T}.
Arguments begin_ {T}.
Arguments end_ {T}.

#[export] Instance t_eq_dec `{EqDecision T} : EqDecision (t T).
Proof. solve_decision. Defined.

Section operations.
Context {T : Type}.
Implicit Types (q : t T) (x : T).

(** The constructor. *)
Definition new (size : Z) : outcome (t T) :=
  _ ← assert_ (size <? 10000);
  let capacity := u32 (size + 1) in
  Ok (mk (replicate (Z.to_nat capacity) None) capacity size 0 0).

(** [memcpy(p_ + i, &x, sizeof(T))]. *)
Definition store (q : t T) (i : Z) (x : T) : outcome (t T) :=
  p ← mem_write (p_ q) i [Some x];
  Ok (mk p (capacity_ q) (capacitySub_ q) (begin_ q) (end_ q)).

(** [memcpy(&x, p_ + i, sizeof(T))]. *)
Definition load (q : t T) (i : Z) : outcome T :=
  c ← mem_read (p_ q) i 1;
  deref (mjoin (head c)).

Definition set_begin (i : Z) (q : t T) : t T :=
  mk (p_ q) (capacity_ q) (capacitySub_ q) i (end_ q).
Definition set_end (i : Z) (q : t T) : t T :=
  mk (p_ q) (capacity_ q) (capacitySub_ q) (begin_ q) i.

(** The step of a position: back to 0 after [capacitySub_]. *)
Definition next (q : t T) (i : Z) : Z :=
  if i =? capacitySub_ q then 0 else u32 (i + 1).

Definition empty (q : t T) : bool := end_ q =? begin_ q.

Definition size (q : t T) : Z :=
  let b := begin_ q in
  let e := end_ q in
  if b <? e then u32 (u32 (b + capacity_ q) - e) else u32 (b - e).

Definition capacity (q : t T) : Z := capacity_ q.

(** The test of the overloads that push one element, on the value of [end_]
    read before. *)
Definition full (q : t T) (e : Z) : bool :=
  ((begin_ q <? e) && (u32 (e - begin_ q) <? 2)) ||
  ((e <? begin_ q) && (u32 (capacity_ q - 2) <? u32 (begin_ q - e))).

(** [push_back(t, empty, begin, end)]: result, [empty], [begin], [end]; its
    last test compares [empty == true] and drops the result. *)
Definition push_back_pos (x : T) (q : t T) : outcome (bool * bool * Z * Z * t T) :=
  let e := end_ q in
  let b := begin_ q in
  if full q e then Ok (false, false, b, e, q)
  else
    q ← store q (begin_ q) x;
    let empty := if end_ q =? begin_ q then true else false in
    let q := set_begin (next q (begin_ q)) q in
    Ok (true, empty, b, e, q).

(** [push_back(t, empty)]. *)
Definition push_back_empty (x : T) (q : t T) : outcome (bool * bool * t T) :=
  let e := end_ q in
  if full q e then Ok (false, false, q)
  else
    q ← store q (begin_ q) x;
    let empty := if end_ q =? begin_ q then true else false in
    let q := set_begin (next q (begin_ q)) q in
    let empty := if negb empty && (size q =? 1) then true else empty in
    Ok (true, empty, q).

(** [push_back(t)]. *)
Definition push_back (x : T) (q : t T) : outcome (bool * t T) :=
  '(ret, _, q) ← push_back_empty x q;
  Ok (ret, q).

(** The [for] loop of the overload on a vector. *)
Fixpoint push_loop (xs : list T) (q : t T) : outcome (t T) :=
  match xs with
  | [] => Ok q
  | x :: xs =>
      q ← store q (begin_ q) x;
      push_loop xs (set_begin (next q (begin_ q)) q)
  end.

(** The test of the overload on a vector, in 64-bit arithmetic. *)
Definition full_vec (q : t T) (n : Z) : bool :=
  let e := end_ q in
  (u32 (capacity_ q - 1) <? n) ||
  ((begin_ q <? e) && (u32 (e - begin_ q) <? u64 (n + 1))) ||
  ((e <? begin_ q) && (u64 (u64 (capacity_ q - n) - 1) <? u32 (begin_ q - e))).

Definition push_back_vec (xs : list T) (q : t T) : outcome (bool * t T) :=
  if full_vec q (zlen xs) then Ok (false, q)
  else q ← push_loop xs q; Ok (true, q).

(** [pop_front(t)]: the result and the element copied out, if any. *)
Definition pop_front_to (q : t T) : outcome (bool * option T * t T) :=
  if end_ q =? begin_ q then Ok (false, None, q)
  else
    x ← load q (end_ q);
    Ok (true, Some x, set_end (next q (end_ q)) q).

Definition pop_front (q : t T) : outcome (bool * t T) :=
  if end_ q =? begin_ q then Ok (false, q)
  else Ok (true, set_end (next q (end_ q)) q).

Definition get_front (q : t T) : outcome (bool * option T) :=
  if end_ q =? begin_ q then Ok (false, None)
  else x ← load q (end_ q); Ok (true, Some x).

End operations.

(** ** Representation: a FIFO list of at most [n] elements *)

Section representation.
Context {T : Type}.
Implicit Types (q : t T) (x : T) (l xs : list T).

Record repr (n : Z) (q : t T) (l : list T) : Prop := {
  repr_size : 0 ≤ n < 10000;
  repr_cap : capacity_ q = n + 1;
  repr_sub : capacitySub_ q = n;
  repr_mem : zlen (p_ q) = n + 1;
  repr_end : 0 ≤ end_ q ≤ n;
  repr_len : zlen l ≤ n;
  repr_begin : begin_ q = (end_ q + zlen l) `mod` (n + 1);
  repr_cells i x : l !! i = Some x →
    p_ q !! Z.to_nat ((end_ q + Z.of_nat i) `mod` (n + 1)) = Some (Some x)
}.

(** A position plus an offset below the capacity wraps at most once. *)
Lemma wrap_cases e k n :
  0 ≤ e ≤ n → 0 ≤ k ≤ n →
  (e + k ≤ n ∧ (e + k) `mod` (n + 1) = e + k) ∨
  (n < e + k ∧ (e + k) `mod` (n + 1) = e + k - (n + 1)).
Proof.
  intros. destruct (decide (e + k ≤ n)); [left|right]; (split; [lia|]).
  - apply Z.mod_small. lia.
  - symmetry. apply (Z.mod_unique_pos _ _ 1); lia.
Qed.

Ltac repr_facts H :=
  pose proof (repr_size _ _ _ H); pose proof (repr_cap _ _ _ H);
  pose proof (repr_sub _ _ _ H); pose proof (repr_mem _ _ _ H);
  pose proof (repr_end _ _ _ H); pose proof (repr_len _ _ _ H);
  pose proof (repr_begin _ _ _ H).

Lemma repr_begin_cases n q l :
  repr n q l →
  (end_ q + zlen l ≤ n ∧ begin_ q = end_ q + zlen l) ∨
  (n < end_ q + zlen l ∧ begin_ q = end_ q + zlen l - (n + 1)).
Proof.
  intros H. repr_facts H. pose proof (wrap_cases (end_ q) (zlen l) n). lia.
Qed.

Lemma next_spec n q i :
  capacitySub_ q = n → 0 ≤ i ≤ n → n < 10000 → next q i = (i + 1) `mod` (n + 1).
Proof.
  intros Hs Hi ?. unfold next. rewrite Hs.
  destruct (Z.eqb_spec i n) as [->|]; [by rewrite Z.mod_same by lia|].
  rewrite Z.mod_small by lia. by nowrap.
Qed.

Lemma size_spec n q l : repr n q l → size q = zlen l.
Proof.
  intros H. pose proof (repr_begin_cases _ _ _ H). repr_facts H.
  unfold size. destruct (Z.ltb_spec (begin_ q) (end_ q)); nowrap; lia.
Qed.

Lemma empty_test n q l : repr n q l → (end_ q =? begin_ q) = bool_decide (l = []).
Proof.
  intros H. pose proof (repr_begin_cases _ _ _ H). repr_facts H.
  destruct l; [rewrite bool_decide_true by done|rewrite bool_decide_false by done];
    simpl in *; lia.
Qed.

Lemma full_spec n q l : repr n q l → 1 ≤ n → full q (end_ q) = (zlen l =? n).
Proof.
  intros H Hn. pose proof (repr_begin_cases _ _ _ H). repr_facts H.
  unfold full.
  destruct (Z.ltb_spec (begin_ q) (end_ q)), (Z.ltb_spec (end_ q) (begin_ q));
    simpl; nowrap; lia.
Qed.

Lemma full_vec_spec n q l xs :
  repr n q l → full_vec q (zlen xs) = (n <? zlen l + zlen xs).
Proof.
  intros H. pose proof (repr_begin_cases _ _ _ H). repr_facts H.
  unfold full_vec. rewrite u32_small by lia.
  destruct (Z.ltb_spec (capacity_ q - 1) (zlen xs)); simpl; [lia|].
  destruct (Z.ltb_spec (begin_ q) (end_ q)), (Z.ltb_spec (end_ q) (begin_ q));
    simpl; nowrap; lia.
Qed.

(** The constructor gives the empty list. *)
Lemma new_spec n : 0 ≤ n < 10000 → ∃ q, new n = Ok q ∧ repr n q [].
Proof.
  intros. unfold new. rewrite (proj2 (Z.ltb_lt _ _)) by lia.
  rewrite u32_small by lia. eexists. split; [done|].
  split; simpl; try lia.
  - rewrite length_replicate. lia.
  - by rewrite Z.mod_0_l by lia.
  - done.
Qed.

(** Writing at [begin_] touches no slot of the list. *)
Lemma store_step n q l x :
  repr n q l →
  ∃ q1, store q (begin_ q) x = Ok q1 ∧ end_ q1 = end_ q ∧ begin_ q1 = begin_ q ∧
        repr n q1 l ∧ p_ q1 !! Z.to_nat (begin_ q) = Some (Some x).
Proof.
  intros H. pose proof (repr_begin_cases _ _ _ H). repr_facts H.
  unfold store. rewrite mem_write_one by lia. cbn [mbind outcome_bind].
  eexists. split_and!; [done..| |].
  - split; simpl; rewrite ?length_insert; try done.
    intros i y Hy. pose proof (lookup_lt_Some _ _ _ Hy).
    pose proof (wrap_cases (end_ q) (Z.of_nat i) n).
    rewrite list_lookup_insert_ne by lia. by apply (repr_cells _ _ _ H).
  - apply list_lookup_insert_eq. lia.
Qed.

(** Stepping [begin_] over a written slot appends its element. *)
Lemma advance_step n q l x :
  repr n q l → zlen l < n → p_ q !! Z.to_nat (begin_ q) = Some (Some x) →
  repr n (set_begin (next q (begin_ q)) q) (l ++ [x]).
Proof.
  intros H Hl Hx. pose proof (repr_begin_cases _ _ _ H). repr_facts H.
  split; simpl; rewrite ?length_app; simpl; try lia.
  - rewrite (next_spec n), (repr_begin _ _ _ H), Zplus_mod_idemp_l by lia. f_equal. lia.
  - intros i y Hy. apply lookup_app_Some in Hy as [Hy|[Hi Hy]].
    + by apply (repr_cells _ _ _ H).
    + apply list_lookup_singleton_Some in Hy as [Hi' <-].
      replace (Z.of_nat i) with (zlen l) by lia. by rewrite <- (repr_begin _ _ _ H).
Qed.

(** Both together, as the member functions do. *)
Lemma push_step n q l x :
  repr n q l → zlen l < n →
  ∃ q1, store q (begin_ q) x = Ok q1 ∧ end_ q1 = end_ q ∧ begin_ q1 = begin_ q ∧
        repr n (set_begin (next q1 (begin_ q1)) q1) (l ++ [x]).
Proof.
  intros H Hl. destruct (store_step n q l x H) as (q1 & Hq & He & Hb & H1 & Hc).
  exists q1. split_and!; try done. apply advance_step; try done. by rewrite Hb.
Qed.

Lemma push_loop_spec n xs : ∀ q l,
  repr n q l → zlen l + zlen xs ≤ n →
  ∃ q', push_loop xs q = Ok q' ∧ end_ q' = end_ q ∧ repr n q' (l ++ xs).
Proof.
  induction xs as [|x xs IH]; intros q l H Hl; simpl in *.
  { exists q. by rewrite app_nil_r. }
  destruct (push_step n q l x H) as (q1 & -> & He & _ & H1); [lia|].
  cbn [mbind outcome_bind].
  destruct (IH _ _ H1) as (q' & -> & He' & H'); [rewrite length_app; simpl; lia|].
  exists q'. rewrite He', <- app_assoc in *. auto.
Qed.

(** Reading at [end_] gives the head, and stepping it drops the head. *)
Lemma load_head n q x l : repr n q (x :: l) → load q (end_ q) = Ok x.
Proof.
  intros H. repr_facts H. unfold load.
  pose proof (repr_cells _ _ _ H 0 x eq_refl) as Hc. simpl in Hc.
  rewrite Z.add_0_r, Z.mod_small in Hc by lia.
  by rewrite (mem_read_one _ _ (Some x)) by (done || lia).
Qed.

Lemma pop_step n q x l : repr n q (x :: l) → repr n (set_end (next q (end_ q)) q) l.
Proof.
  intros H. repr_facts H.
  assert (next q (end_ q) = (end_ q + 1) `mod` (n + 1)) as Hn by (apply next_spec; lia).
  pose proof (Z.mod_pos_bound (end_ q + 1) (n + 1)).
  split; simpl in *; rewrite ?Hn; try lia.
  - rewrite (repr_begin _ _ _ H), Zplus_mod_idemp_l. simpl. f_equal. lia.
  - intros i y Hy. rewrite Zplus_mod_idemp_l.
    rewrite <- (repr_cells _ _ _ H (S i) y Hy). do 3 f_equal. lia.
Qed.

End representation.

(** ** Refinement: a FIFO list with a limit *)

Section refinement.
Context {T : Type}.
Implicit Types (q : t T) (x : T) (l xs : list T).

Inductive op :=
| PushPos (x : T)
| PushEmpty (x : T)
| Push (x : T)
| PushVec (xs : list T)
| PopTo
| Pop
| GetFront
| Empty
| Size.

Inductive obs :=
| OPush (ret empty : bool)
| ORet (ret : bool)
| OFront (ret : bool) (x : option T)
| OSize (n : Z).

(** The call of the class. *)
Definition step (o : op) (q : t T) : outcome (obs * t T) :=
  match o with
  | PushPos x => '(ret, e, _, _, q) ← push_back_pos x q; Ok (OPush ret e, q)
  | PushEmpty x => '(ret, e, q) ← push_back_empty x q; Ok (OPush ret e, q)
  | Push x => '(ret, q) ← push_back x q; Ok (ORet ret, q)
  | PushVec xs => '(ret, q) ← push_back_vec xs q; Ok (ORet ret, q)
  | PopTo => '(ret, x, q) ← pop_front_to q; Ok (OFront ret x, q)
  | Pop => '(ret, q) ← pop_front q; Ok (ORet ret, q)
  | GetFront => '(ret, x) ← get_front q; Ok (OFront ret x, q)
  | Empty => Ok (ORet (empty q), q)
  | Size => Ok (OSize (size q), q)
  end.

(** The list operation it stands for, with room for [n] elements. *)
Definition spec_step (n : Z) (o : op) (l : list T) : outcome (obs * list T) :=
  match o with
  | PushPos x | PushEmpty x =>
      if zlen l <? n then Ok (OPush true (bool_decide (l = [])), l ++ [x])
      else Ok (OPush false false, l)
  | Push x => if zlen l <? n then Ok (ORet true, l ++ [x]) else Ok (ORet false, l)
  | PushVec xs =>
      if zlen l + zlen xs <=? n then Ok (ORet true, l ++ xs) else Ok (ORet false, l)
  | PopTo =>
      match l with x :: l => Ok (OFront true (Some x), l) | [] => Ok (OFront false None, l) end
  | Pop => match l with _ :: l => Ok (ORet true, l) | [] => Ok (ORet false, l) end
  | GetFront => Ok (OFront (bool_decide (l ≠ [])) (head l), l)
  | Empty => Ok (ORet (bool_decide (l = [])), l)
  | Size => Ok (OSize (zlen l), l)
  end.

Lemma push_back_pos_spec n q l x :
  repr n q l → 1 ≤ n →
  if zlen l <? n
  then ∃ q', push_back_pos x q =
             Ok (true, bool_decide (l = []), begin_ q, end_ q, q') ∧ repr n q' (l ++ [x])
  else push_back_pos x q = Ok (false, false, begin_ q, end_ q, q).
Proof.
  intros H Hn. pose proof (repr_len _ _ _ H).
  unfold push_back_pos. rewrite (full_spec n q l) by done.
  destruct (Z.ltb_spec (zlen l) n).
  - rewrite (proj2 (Z.eqb_neq (zlen l) n)) by lia.
    destruct (push_step n q l x H) as (q1 & -> & He & Hb & Hq1); [lia|].
    cbn [mbind outcome_bind]. rewrite He, Hb in *. rewrite (empty_test n q l) by done.
    eexists. split; [|exact Hq1]. by case_bool_decide.
  - by rewrite (proj2 (Z.eqb_eq (zlen l) n)) by lia.
Qed.

Lemma push_back_empty_spec n q l x :
  repr n q l → 1 ≤ n →
  if zlen l <? n
  then ∃ q', push_back_empty x q = Ok (true, bool_decide (l = []), q') ∧ repr n q' (l ++ [x])
  else push_back_empty x q = Ok (false, false, q).
Proof.
  intros H Hn. pose proof (repr_len _ _ _ H).
  unfold push_back_empty. rewrite (full_spec n q l) by done.
  destruct (Z.ltb_spec (zlen l) n).
  - rewrite (proj2 (Z.eqb_neq (zlen l) n)) by lia.
    destruct (push_step n q l x H) as (q1 & -> & He & Hb & Hq1); [lia|].
    cbn [mbind outcome_bind]. rewrite (size_spec n _ _ Hq1), He, Hb.
    rewrite (empty_test n q l) by done. rewrite Hb in Hq1.
    eexists. split; [|exact Hq1]. case_bool_decide as Hl; [done|].
    destruct l as [|y l]; [done|].
    rewrite (proj2 (Z.eqb_neq (zlen ((y :: l) ++ [x])) 1))
      by (rewrite length_app; simpl; lia). done.
  - by rewrite (proj2 (Z.eqb_eq (zlen l) n)) by lia.
Qed.

Lemma push_back_vec_spec n q l xs :
  repr n q l →
  if zlen l + zlen xs <=? n
  then ∃ q', push_back_vec xs q = Ok (true, q') ∧ repr n q' (l ++ xs)
  else push_back_vec xs q = Ok (false, q).
Proof.
  intros H. unfold push_back_vec. rewrite (full_vec_spec n q l) by done.
  destruct (Z.leb_spec (zlen l + zlen xs) n).
  - rewrite (proj2 (Z.ltb_ge _ _)) by lia.
    destruct (push_loop_spec n xs q l H) as (q' & -> & _ & H'); [done|]. by exists q'.
  - by rewrite (proj2 (Z.ltb_lt _ _)) by lia.
Qed.

Lemma loop_step_refines n o q l :
  1 ≤ n → repr n q l → outcome_rel (obs_rel (repr n)) (step o q) (spec_step n o l).
Proof.
  intros Hn H. destruct o as [x|x|x|xs| | | | |]; simpl.
  - pose proof (push_back_pos_spec n q l x H Hn) as Hp. destruct (zlen l <? n).
    + destruct Hp as (q' & -> & ?). done.
    + by rewrite Hp.
  - pose proof (push_back_empty_spec n q l x H Hn) as Hp. destruct (zlen l <? n).
    + destruct Hp as (q' & -> & ?). done.
    + by rewrite Hp.
  - pose proof (push_back_empty_spec n q l x H Hn) as Hp. unfold push_back.
    destruct (zlen l <? n).
    + destruct Hp as (q' & -> & ?). done.
    + by rewrite Hp.
  - pose proof (push_back_vec_spec n q l xs H) as Hp. destruct (zlen l + zlen xs <=? n).
    + destruct Hp as (q' & -> & ?). done.
    + by rewrite Hp.
  - unfold pop_front_to. rewrite (empty_test n q l) by done.
    destruct l as [|x l]; [done|]. rewrite bool_decide_false by done.
    rewrite (load_head n q x l) by done. split; [done|]. by apply pop_step with x.
  - unfold pop_front. rewrite (empty_test n q l) by done.
    destruct l as [|x l]; [done|]. rewrite bool_decide_false by done.
    split; [done|]. by apply pop_step with x.
  - unfold get_front. rewrite (empty_test n q l) by done.
    destruct l as [|x l]; [done|]. rewrite (bool_decide_false (x :: l = [])) by done.
    by rewrite (load_head n q x l) by done.
  - split; [|done]. simpl. unfold empty. by rewrite (empty_test n q l) by done.
  - split; [|done]. simpl. by rewrite (size_spec n q l) by done.
Qed.

End refinement.

Arguments op : clear implicits.
Arguments obs : clear implicits.

(** ** Properties *)

(** C21: A [LoopQueue] made with size [n] (1 <= n < 10000) behaves, over every
    sequence of calls of all nine member functions, as a FIFO list that holds
    at most [n] elements: a push appends or reports that the queue is full, the
    vector push stores all or nothing, [empty] is set exactly when the list was
    empty, pops and [get_front] return the oldest element, [size] is the number
    of elements, and no slot is read before it was written or out of range. *)
Theorem loop_queue_refines_fifo {T} n (ops : list (op T)) :
  1 ≤ n < 10000 →
  ∃ q, new n = Ok q ∧
       outcome_rel (obs_rel (repr n)) (run_ops step ops q) (run_ops (spec_step n) ops []).
Proof.
  intros Hn. destruct (new_spec (T := T) n) as (q & Hq & Hr); [lia|].
  exists q. split; [done|].
  apply (run_ops_refines (repr n) (λ _ _, True)); [|done|apply admissible_all].
  intros o s1 s2 HR _. apply loop_step_refines; [lia|done].
Qed.

Lemma loop_queue_refines_fifo_witness :
  let ops := [PushEmpty 7; PushVec [8; 9]; PushPos 1; PopTo; Push 2; PushVec [3; 4]; Size] in
  ∃ q, new 3 = Ok q ∧
       outcome_rel (obs_rel (repr 3)) (run_ops step ops q) (run_ops (spec_step 3) ops []).
Proof. apply (loop_queue_refines_fifo 3). lia. Defined.

(** [LoopQueue(0)], which the constructor accepts, loses what is pushed:
    every push reports success with [empty] set, and the queue is still empty
    afterwards, so the element can never be popped. *)
Theorem loop_queue_zero_loses_elements {T} (x : T) :
  ∃ q q', new 0 = Ok q ∧ push_back_empty x q = Ok (true, true, q') ∧
          empty q' = true ∧ size q' = 0 ∧ pop_front_to q' = Ok (false, None, q').
Proof. eexists _, _. by repeat split. Qed.

(** ** One producer and one consumer

    The queues between a client thread and its network thread are used without
    a lock: one thread pushes, another pops.  [spsc] is the shared queue with
    the program counter of each thread; a step performs one access to a member
    the other thread writes ([end_] for the producer, [begin_] for the
    consumer) or to a slot, so every interleaving of the two calls is a path of
    [spsc_step].  [pushed] and [popped] record what the calls did.  Accesses are
    sequentially consistent: the class uses plain members, and what a compiler
    or processor may reorder is not modelled. *)

Section spsc.
Context {T : Type}.

Inductive producer :=
| PIdle
| PWrite (x : T)                 (* the queue was not full *)
| PWrote (x : T)                 (* after memcpy *)
| PFlag (x : T) (empty : bool)   (* after comparing end_ with begin_ *)
| PDone (empty : bool).          (* begin_ is stepped; size() is read next *)

Inductive consumer :=
| CIdle
| CRead            (* the queue was not empty *)
| CGot (x : T).    (* after memcpy *)

Record spsc := mk_spsc {
  queue : t T;
  prod : producer;
  cons : consumer;
  pushed : list T;
  popped : list T
}.

Inductive spsc_step : spsc → spsc → Prop :=
| P_full q c ps qs :
    full q (end_ q) = true →
    spsc_step (mk_spsc q PIdle c ps qs) (mk_spsc q PIdle c ps qs)
| P_room q c ps qs x :
    full q (end_ q) = false →
    spsc_step (mk_spsc q PIdle c ps qs) (mk_spsc q (PWrite x) c ps qs)
| P_store q q' c ps qs x :
    store q (begin_ q) x = Ok q' →
    spsc_step (mk_spsc q (PWrite x) c ps qs) (mk_spsc q' (PWrote x) c ps qs)
| P_compare q c ps qs x :
    spsc_step (mk_spsc q (PWrote x) c ps qs)
              (mk_spsc q (PFlag x (end_ q =? begin_ q)) c ps qs)
| P_advance q c ps qs x e :
    spsc_step (mk_spsc q (PFlag x e) c ps qs)
              (mk_spsc (set_begin (next q (begin_ q)) q) (PDone e) c (ps ++ [x]) qs)
| P_return q c ps qs e :
    spsc_step (mk_spsc q (PDone e) c ps qs) (mk_spsc q PIdle c ps qs)
| C_empty q p ps qs :
    empty q = true →
    spsc_step (mk_spsc q p CIdle ps qs) (mk_spsc q p CIdle ps qs)
| C_some q p ps qs :
    empty q = false →
    spsc_step (mk_spsc q p CIdle ps qs) (mk_spsc q p CRead ps qs)
| C_load q p ps qs x :
    load q (end_ q) = Ok x →
    spsc_step (mk_spsc q p CRead ps qs) (mk_spsc q p (CGot x) ps qs)
| C_advance q p ps qs x :
    spsc_step (mk_spsc q p (CGot x) ps qs)
              (mk_spsc (set_end (next q (end_ q)) q) p CIdle ps (qs ++ [x])).

(** What each program counter knows about the list in the queue. *)
Definition prod_ok (n : Z) (q : t T) (l : list T) (p : producer) : Prop :=
  match p with
  | PIdle | PDone _ => True
  | PWrite _ => zlen l < n
  | PWrote x | PFlag x _ => zlen l < n ∧ p_ q !! Z.to_nat (begin_ q) = Some (Some x)
  end.

Definition cons_ok (l : list T) (c : consumer) : Prop :=
  match c with
  | CIdle => True
  | CRead => l ≠ []
  | CGot x => head l = Some x
  end.

Definition spsc_inv (n : Z) (s : spsc) : Prop :=
  ∃ l, repr n (queue s) l ∧ pushed s = popped s ++ l ∧
       prod_ok n (queue s) l (prod s) ∧ cons_ok l (cons s).

Lemma cons_ok_app l x c : cons_ok l c → cons_ok (l ++ [x]) c.
Proof. destruct c, l; simpl; intros; by try congruence. Qed.

Lemma prod_ok_tail n q l y p :
  prod_ok n q (y :: l) p → prod_ok n (set_end (next q (end_ q)) q) l p.
Proof. destruct p; simpl; intuition lia. Qed.

Lemma spsc_step_inv n s s' : 1 ≤ n → spsc_step s s' → spsc_inv n s → spsc_inv n s'.
Proof.
  intros Hn Hstep (l & Hq & Hp & Hprod & Hcons).
  destruct Hstep as [q c ps qs Hf|q c ps qs x Hf|q q' c ps qs x Hst|q c ps qs x
    |q c ps qs x e|q c ps qs e|q p ps qs He|q p ps qs He|q p ps qs x Hld|q p ps qs x];
    simpl in *.
  - by exists l.
  - exists l. split_and!; try done. simpl.
    rewrite (full_spec n q l) in Hf by done. pose proof (repr_len _ _ _ Hq). lia.
  - destruct (store_step n q l x Hq) as (q1 & Hst' & He & Hb & H1 & Hc).
    rewrite Hst in Hst'. injection Hst' as <-.
    exists l. split_and!; try done. simpl. by rewrite Hb.
  - by exists l.
  - destruct Hprod as [Hl Hc]. exists (l ++ [x]). split_and!; simpl; [|by rewrite Hp, app_assoc|done|].
    + by apply advance_step.
    + by apply cons_ok_app.
  - by exists l.
  - by exists l.
  - exists l. split_and!; try done. simpl. intros ->.
    unfold empty in He. by rewrite (empty_test n q []) in He.
  - exists l. split_and!; try done. simpl.
    destruct l as [|y l]; [done|]. rewrite (load_head n q y l Hq) in Hld.
    by injection Hld as ->.
  - destruct l as [|y l]; [done|]. injection Hcons as ->.
    exists l. split_and!; simpl; [|by rewrite Hp, <- app_assoc| |done].
    + by apply pop_step with x.
    + by apply prod_ok_tail with x.
Qed.

(** The two threads before their first call on a new queue. *)
Definition spsc_init (q : t T) : spsc := mk_spsc q PIdle CIdle [] [].

Lemma spsc_reachable_inv n q s :
  1 ≤ n → repr n q [] → rtc spsc_step (spsc_init q) s → spsc_inv n s.
Proof.
  intros Hn Hq Hr. apply (rtc_invariant _ _ (λ s1 s2, spsc_step_inv n s1 s2 Hn) _ _ Hr).
  by exists [].
Qed.

End spsc.

Arguments producer : clear implicits.
Arguments consumer : clear implicits.
Arguments spsc : clear implicits.

(** C26: With one thread pushing and one thread popping on a queue of size
    [n] >= 1, in every interleaving of their accesses: what was popped is a
    prefix of what was pushed (nothing lost, duplicated or reordered), at most
    [n] elements are in between, the element being popped is the oldest one not
    yet popped, and when the producer is about to write a slot while the
    consumer is about to read one, the two slots are different and both accesses
    are defined. *)
Theorem spsc_safe {T} n q (s : spsc T) :
  1 ≤ n → new n = Ok q → rtc spsc_step (spsc_init q) s →
  (∃ l, pushed s = popped s ++ l ∧ zlen l ≤ n) ∧
  (∀ x, cons s = CGot x → pushed s !! length (popped s) = Some x) ∧
  (∀ x, prod s = PWrite x → ∃ q', store (queue s) (begin_ (queue s)) x = Ok q') ∧
  (cons s = CRead → ∃ x, load (queue s) (end_ (queue s)) = Ok x) ∧
  (∀ x, prod s = PWrite x → cons s = CRead → begin_ (queue s) ≠ end_ (queue s)).
Proof.
  intros Hn Hq Hr.
  assert (repr n q []) as Hq0.
  { unfold new in Hq. destruct (Z.ltb_spec n 10000); [|done].
    destruct (new_spec (T := T) n) as (q' & Hq' & ?); [lia|].
    unfold new in Hq'. rewrite (proj2 (Z.ltb_lt _ _)) in Hq' by lia. congruence. }
  destruct (spsc_reachable_inv n q s Hn Hq0 Hr) as (l & Hl & Hp & Hprod & Hcons).
  split_and!.
  - exists l. split; [done|]. apply (repr_len _ _ _ Hl).
  - intros x Hx. rewrite Hx in Hcons. destruct l; [done|]. injection Hcons as ->.
    rewrite Hp. by rewrite list_lookup_middle.
  - intros x _. destruct (store_step n _ l x Hl) as (q' & ? & _). eauto.
  - intros Hc. rewrite Hc in Hcons. destruct l as [|x l]; [done|].
    exists x. by apply load_head with n l.
  - intros x _ Hc Heq. rewrite Hc in Hcons. apply Hcons.
    pose proof (empty_test n _ l Hl) as He.
    rewrite (proj2 (Z.eqb_eq _ _)) in He by done. by apply eq_sym, bool_decide_eq_true in He.
Qed.

Lemma spsc_safe_witness :
  ∃ q (s : spsc Z),
    new 1 = Ok q ∧ rtc spsc_step (spsc_init q) s ∧ popped s = [] ∧ pushed s = [5] ∧
    cons s = CRead ∧
    (∃ l, pushed s = popped s ++ l ∧ zlen l ≤ 1) ∧
    (∃ x, load (queue s) (end_ (queue s)) = Ok x).
Proof.
  pose (q := mk [None; None] 2 1 0 0 : t Z).
  pose (q1 := mk [Some 5; None] 2 1 0 0 : t Z).
  pose (s := mk_spsc (set_begin 1 q1) (PDone true) CRead [5] []).
  assert (rtc spsc_step (spsc_init q) s) as Hr.
  { eapply rtc_l; [apply (P_room q CIdle [] [] 5); reflexivity|].
    eapply rtc_l; [apply (P_store q q1); reflexivity|].
    eapply rtc_l; [apply P_compare|]. eapply rtc_l; [apply P_advance|].
    eapply rtc_l; [apply C_some; reflexivity|]. apply rtc_refl. }
  assert (new 1 = Ok q) as Hq by reflexivity.
  exists q, s. split_and!; try done.
  - apply (spsc_safe 1 q s); [lia|exact Hq|exact Hr].
  - apply (spsc_safe 1 q s); [lia|exact Hq|exact Hr|reflexivity].
Defined.

End LoopQueue.
