(* ===== verification/Monitor.v ===== *)
(** * Monitor: Monitor.hpp and Condition.cc

    A monitor is a mutex, a condition variable and the counter [notify_], in
    which [notify] and [notifyAll] only record what [unlock] or a wait will
    send.  The pthread objects are represented by the sequence of calls made to
    them ([calls], oldest first); every function of the class is a function on
    the counter and that sequence.  The waits return what [Condition::timedWait] makes of
    the return codes. *)

From S2P Require Import Prelude.

Module Condition.

(** [Condition::abstime]: the [timespec] (seconds, nanoseconds) for a wait of
    [millsecond] from the time of day [tv]. *)
Definition abstime (tv_sec tv_usec millsecond : Z) : Z * Z :=
  let it := tv_sec * 1000000 + millsecond * 1000 + tv_usec in
  let tv_sec := Z.quot it 1000000 in
  let tv_usec := Z.land it 1000000 in
  (tv_sec, tv_usec * 1000).

(** The rest of the class, with the return codes of the pthread functions:
    [LOG_SYSFATAL] and [LOG_FATAL] end the program with [abort()]. *)
Definition new (attr_init cond_init attr_destroy : Z) : outcome unit :=
  _ ← assert_ (attr_init =? 0); _ ← assert_ (cond_init =? 0); assert_ (attr_destroy =? 0).

Definition destroy (rc : Z) : outcome unit := assert_ (rc =? 0).
Definition signal (rc : Z) : outcome unit := assert_ (rc =? 0).
Definition broadcast (rc : Z) : outcome unit := assert_ (rc =? 0).
Definition wait (rc : Z) : outcome unit := assert_ (rc =? 0).

(** 22 is [EINVAL], 110 is [ETIMEDOUT]. *)
Definition timedWait (rc : Z) : outcome bool :=
  if negb (rc =? 0) then
    if rc =? 22 then Ok false
    else _ ← assert_ (rc =? 110); Ok false
  else Ok true.

End Condition.

Module Monitor.

Inductive call :=
| MutexLock
| MutexTryLock
| MutexUnlock
| CondSignal
| CondBroadcast
| CondWait
| CondTimedWait (millsecond : Z).

#[export] Instance call_eq_dec : EqDecision call.
Proof. solve_decision. Defined.

Record t := mk { notify_ : Z; calls : list call }.

#[export] Instance t_eq_dec : EqDecision t.
Proof. solve_decision. Defined.

Definition init : t := mk 0 [].

Definition emit (c : call) (m : t) : t := mk (notify_ m) (calls m ++ [c]).
Definition set_notify (n : Z) (m : t) : t := mk n (calls m).

(** The [while] loop of [notifyImpl]. *)
Fixpoint signal_loop (notify : nat) (m : t) : t :=
  match notify with
  | O => m
  | S notify => signal_loop notify (emit CondSignal m)
  end.

Definition notifyImpl (notify : Z) (m : t) : t :=
  if negb (notify =? 0) then
    if notify =? -1 then emit CondBroadcast m
    else signal_loop (Z.to_nat notify) m
  else m.

Definition lock (m : t) : t := set_notify 0 (emit MutexLock m).

Definition unlock (m : t) : t := emit MutexUnlock (notifyImpl (notify_ m) m).

(** [result] is what [Mutex::tryLock] answers. *)
Definition tryLock (result : bool) (m : t) : bool * t :=
  let m := emit MutexTryLock m in
  (result, if result then set_notify 0 m else m).

Definition wait (m : t) : t :=
  let m := notifyImpl (notify_ m) m in
  set_notify 0 (emit CondWait m).

(** [rc] is what [Condition::timedWait] answers. *)
Definition timedWait (millsecond : Z) (rc : bool) (m : t) : bool * t :=
  let m := notifyImpl (notify_ m) m in
  (rc, set_notify 0 (emit (CondTimedWait millsecond) m)).

(** [++notify_] on an [int]. *)
Definition notify (m : t) : outcome t :=
  if negb (notify_ m =? -1) then
    _ ← defined (notify_ m <? 2 ^ 31 - 1);
    Ok (set_notify (notify_ m + 1) m)
  else Ok m.

Definition notifyAll (m : t) : t := set_notify (-1) m.

(** ** What a critical section sends *)

Lemma signal_loop_spec n : ∀ m,
  signal_loop n m = mk (notify_ m) (calls m ++ replicate n CondSignal).
Proof.
  induction n as [|n IH]; intros [k cs]; simpl; [by rewrite app_nil_r|].
  rewrite IH. simpl. by rewrite <- app_assoc.
Qed.

(** The calls a pending counter stands for. *)
Definition pending (notify : Z) : list call :=
  if notify =? -1 then [CondBroadcast] else replicate (Z.to_nat notify) CondSignal.

Lemma notifyImpl_spec n m : notifyImpl n m = mk (notify_ m) (calls m ++ pending n).
Proof.
  unfold notifyImpl, pending. destruct (Z.eqb_spec n 0) as [->|]; simpl.
  { rewrite app_nil_r. by destruct m. }
  destruct (n =? -1); [done|apply signal_loop_spec].
Qed.

(** Calls made by the holder of the monitor between [lock] and [unlock]. *)
Inductive action :=
| Notify
| NotifyAll
| Wait
| TimedWait (millsecond : Z) (rc : bool).

Definition act (a : action) (m : t) : outcome t :=
  match a with
  | Notify => notify m
  | NotifyAll => Ok (notifyAll m)
  | Wait => Ok (wait m)
  | TimedWait ms rc => Ok (timedWait ms rc m).2
  end.

Fixpoint acts (l : list action) (m : t) : outcome t :=
  match l with
  | [] => Ok m
  | a :: l => m ← act a m; acts l m
  end.

Definition critical_section (l : list action) (m : t) : outcome t :=
  m ← acts l (lock m);
  Ok (unlock m).

(** The pthread calls such a section should make: the notifications asked for
    since the last wait go out at the next wait or at the end, [notifyAll]
    absorbing single ones. *)
Fixpoint sends (l : list action) (singles : nat) (all : bool) : list call :=
  let out := if all then [CondBroadcast] else replicate singles CondSignal in
  match l with
  | [] => out ++ [MutexUnlock]
  | Notify :: l => sends l (S singles) all
  | NotifyAll :: l => sends l singles true
  | Wait :: l => out ++ CondWait :: sends l 0 false
  | TimedWait ms _ :: l => out ++ CondTimedWait ms :: sends l 0 false
  end.

(** [notify_] for [singles] calls of [notify], or any [notifyAll]. *)
Definition counter (singles : nat) (all : bool) : Z :=
  if all then -1 else Z.of_nat singles.

Lemma pending_counter k all :
  pending (counter k all) = if all then [CondBroadcast] else replicate k CondSignal.
Proof.
  unfold pending, counter. destruct all; [done|].
  rewrite (proj2 (Z.eqb_neq _ _)) by lia. by rewrite Nat2Z.id.
Qed.

Lemma acts_spec l : ∀ k all cs,
  Z.of_nat (k + length l) < 2 ^ 31 →
  ∃ m, acts l (mk (counter k all) cs) = Ok m ∧ calls (unlock m) = cs ++ sends l k all.
Proof.
  induction l as [|a l IH]; intros k all cs Hk; simpl in Hk.
  { eexists. split; [done|]. unfold unlock. rewrite notifyImpl_spec. simpl.
    by rewrite pending_counter, app_assoc. }
  destruct a as [| | |ms rc]; cbn [acts act sends mbind outcome_bind].
  - destruct all.
    + destruct (IH (S k) true cs) as (m & Hm & Hc); [lia|]. by exists m.
    + unfold notify, counter. simpl notify_.
      rewrite (proj2 (Z.eqb_neq _ _)), (proj2 (Z.ltb_lt _ _)) by lia.
      destruct (IH (S k) false cs) as (m & Hm & Hc); [lia|]. exists m.
      split; [|done]. rewrite <- Hm. unfold set_notify, counter. simpl. do 2 f_equal. lia.
  - destruct (IH k true cs) as (m & Hm & Hc); [lia|]. by exists m.
  - destruct (IH 0%nat false ((cs ++ pending (counter k all)) ++ [CondWait]))
      as (m & Hm & Hc); [lia|]. exists m. split.
    + rewrite <- Hm. unfold wait. by rewrite notifyImpl_spec.
    + rewrite Hc, pending_counter. by rewrite <- !app_assoc.
  - destruct (IH 0%nat false ((cs ++ pending (counter k all)) ++ [CondTimedWait ms]))
      as (m & Hm & Hc); [lia|]. exists m. split.
    + rewrite <- Hm. unfold timedWait. by rewrite notifyImpl_spec.
    + rewrite Hc, pending_counter. by rewrite <- !app_assoc.
Qed.

(** In a critical section of a monitor with fewer than 2^31 - 1 calls, the
    notifications recorded by [notify] and [notifyAll] are sent exactly once,
    before the mutex is released: at the next wait or at [unlock], one signal
    per [notify], or a single broadcast if [notifyAll] was among them; what
    earlier sections left in the counter is not sent. *)
Theorem critical_section_sends l m :
  zlen l < 2 ^ 31 - 1 →
  ∃ m', critical_section l m = Ok m' ∧
        calls m' = calls m ++ MutexLock :: sends l 0 false.
Proof.
  intros Hl. unfold critical_section, lock, set_notify. simpl.
  destruct (acts_spec l 0 false (calls m ++ [MutexLock])) as (m' & Hm & Hc);
    [simpl; lia|].
  change (counter 0 false) with 0 in Hm. rewrite Hm. cbn [mbind outcome_bind].
  eexists. split; [done|]. by rewrite Hc, <- app_assoc.
Qed.

Lemma critical_section_sends_witness :
  ∃ m', critical_section [Notify; Notify; Wait; NotifyAll; Notify] (mk 7 []) = Ok m' ∧
        calls m' = [] ++ MutexLock :: sends [Notify; Notify; Wait; NotifyAll; Notify] 0 false.
Proof. apply (critical_section_sends _ (mk 7 [])). simpl. lia. Defined.

End Monitor.

Module ConditionFacts.
Import Condition.

Lemma land_le a b : 0 ≤ a → 0 ≤ b → 0 ≤ Z.land a b ≤ b.
Proof.
  intros Ha Hb. split; [by apply Z.land_nonneg; right|].
  rewrite <- (Z2N.id a), <- (Z2N.id b) by done. rewrite <- N2Z.inj_land.
  apply N2Z.inj_le, N.land_le_r.
Qed.

(** The instant a wait of [millsecond] from [tv] should end, in microseconds. *)
Definition intended (tv_sec tv_usec millsecond : Z) : Z :=
  tv_sec * 1000000 + tv_usec + millsecond * 1000.

(** A [timespec] in nanoseconds. *)
Definition instant (ts : Z * Z) : Z := ts.1 * 1000000000 + ts.2.

(** [Condition::abstime] masks the microseconds with [& 1000000] where the
    remainder [% 1000000] is needed.  For every valid time of day and every
    non-negative timeout: the seconds are right and the deadline is within one
    second of the intended one; it is exact just when mask and remainder agree;
    and its nanosecond field is the invalid value 10^9 (which
    [pthread_cond_timedwait] refuses) just when all bits of the mask are set.
    There is a time of day at which a 3 ms wait gets a deadline that has already
    passed, and one at which it gets a deadline more than 900 ms late. *)
Theorem abstime_deadline :
  (∀ sec usec ms, 0 ≤ sec → 0 ≤ usec < 1000000 → 0 ≤ ms →
     let T := intended sec usec ms in
     let ts := abstime sec usec ms in
     ts.1 = T `div` 1000000 ∧
     0 ≤ ts.2 ≤ 1000000000 ∧
     Z.abs (instant ts - T * 1000) ≤ 1000000000 ∧
     (instant ts = T * 1000 ↔ Z.land T 1000000 = T `mod` 1000000) ∧
     (ts.2 < 1000000000 ↔ Z.land T 1000000 ≠ 1000000)) ∧
  (∃ sec usec, 0 ≤ sec ∧ 0 ≤ usec < 1000000 ∧
     instant (abstime sec usec 3) < (sec * 1000000 + usec) * 1000) ∧
  (∃ sec usec, 0 ≤ sec ∧ 0 ≤ usec < 1000000 ∧
     900000000 < instant (abstime sec usec 3) - intended sec usec 3 * 1000).
Proof.
  split_and!.
  - intros sec usec ms Hs Hu Hm T ts. subst ts. unfold abstime, instant.
    replace (sec * 1000000 + ms * 1000 + usec) with T
      by (subst T; unfold intended; lia).
    assert (0 ≤ T) as HT by (subst T; unfold intended; lia).
    rewrite Z.quot_div_nonneg by lia. simpl.
    pose proof (land_le T 1000000 HT). pose proof (Z.div_mod T 1000000).
    pose proof (Z.mod_pos_bound T 1000000). lia.
  - exists 0, 500000. by_compute.
  - exists 1, 0. by_compute.
Qed.

End ConditionFacts.
