(* ===== verification/Locks.v ===== *)
(** * Locks: Mutex.cc, Lock.hpp, and threads in a monitor

    Mutex checks what the calls of an error-checking pthread mutex return; Lock is
    a scope that holds a monitor.  The last part has the threads that enter, wait
    in and leave a monitor, in any order: one at a time is inside, none of the
    checks of Mutex and Condition ever ends the program, and the monitor can
    always be left and entered again.  This is why the other files take a critical
    section as one step. *)

From S2P Require Import Prelude Monitor.

(** ** Mutex.h, Mutex.cc *)

Module Mutex.

Definition EPERM : Z := 1.
Definition EBUSY : Z := 16.
Definition EDEADLK : Z := 35.

(** The thread that holds the [pthread_mutex_t]. *)
Abbreviation t := (option nat).

(** What POSIX says of a mutex of type [PTHREAD_MUTEX_ERRORCHECK]: the return
    code and the mutex afterwards, [None] while the call blocks. *)
Definition pthread_mutex_lock (self : nat) (m : t) : option (Z * t) :=
  match m with
  | None => Some (0, Some self)
  | Some i => if bool_decide (i = self) then Some (EDEADLK, m) else None
  end.

Definition pthread_mutex_trylock (self : nat) (m : t) : Z * t :=
  match m with None => (0, Some self) | Some _ => (EBUSY, m) end.

Definition pthread_mutex_unlock (self : nat) (m : t) : Z * t :=
  if bool_decide (m = Some self) then (0, None) else (EPERM, m).

(** The constructor, with the results of [pthread_mutexattr_init], [_settype],
    [pthread_mutex_init] and [pthread_mutexattr_destroy]. *)
Definition new (rc1 rc2 rc3 rc4 : Z) : outcome t :=
  _ ← assert_ (rc1 =? 0); _ ← assert_ (rc2 =? 0); _ ← assert_ (rc3 =? 0); _ ← assert_ (rc4 =? 0);
  Ok None.

(** The destructor; [pthread_mutex_destroy] refuses a mutex that is held.
    [LOG_SYSFATAL] ends the program with [abort()], as a failed [assert] does. *)
Definition pthread_mutex_destroy (m : t) : Z :=
  match m with None => 0 | Some _ => EBUSY end.

Definition destroy (m : t) : outcome unit :=
  if negb (pthread_mutex_destroy m =? 0) then Assert else Ok tt.

Definition lock (self : nat) (m : t) : option (outcome t) :=
  (λ r : Z * t, if negb (r.1 =? 0) then Assert else Ok r.2) <$> pthread_mutex_lock self m.

Definition tryLock (self : nat) (m : t) : outcome (bool * t) :=
  let '(rc, m) := pthread_mutex_trylock self m in
  if negb (rc =? 0) && negb (rc =? EBUSY) then Assert else Ok (rc =? 0, m).

Definition unlock (self : nat) (m : t) : outcome t :=
  let '(rc, m) := pthread_mutex_unlock self m in
  if negb (rc =? 0) then Assert else Ok m.

(** [count] and [count(c)], which [Condition] calls around a wait. *)
Definition count (m : t) : Z := 0.
Definition count_set (c : Z) (m : t) : t := m.
Definition willUnlock (m : t) : bool := true.

End Mutex.

(** ** Lock.hpp *)

Module Lock.

(** A monitor with its mutex, and the member [acquired_] of a [Lock] on it. *)
Record t := mk { mutex_ : Mutex.t; monitor_ : Monitor.t; acquired_ : bool }.

(** [Monitor::lock], [unlock] and [tryLock] by thread [self]; [None] while it blocks. *)
Definition monitor_lock (self : nat) (s : t) : option (outcome t) :=
  (λ o, m ← o; Ok (mk m (Monitor.lock (monitor_ s)) (acquired_ s))) <$> Mutex.lock self (mutex_ s).

Definition monitor_unlock (self : nat) (s : t) : outcome t :=
  m ← Mutex.unlock self (mutex_ s); Ok (mk m (Monitor.unlock (monitor_ s)) (acquired_ s)).

Definition monitor_tryLock (self : nat) (s : t) : outcome (bool * t) :=
  '(result, m) ← Mutex.tryLock self (mutex_ s);
  Ok (result, mk m (Monitor.tryLock result (monitor_ s)).2 (acquired_ s)).

Definition set_acquired (b : bool) (s : t) : t := mk (mutex_ s) (monitor_ s) b.

(** The constructor and the destructor. *)
Definition new (self : nat) (s : t) : option (outcome t) :=
  (λ o, s ← o; Ok (set_acquired true s)) <$> monitor_lock self s.

(** The private constructor that only tries. *)
Definition new_try (self : nat) (s : t) : outcome t :=
  '(b, s) ← monitor_tryLock self s; Ok (set_acquired b s).

Definition acquired (s : t) : bool := acquired_ s.

Definition destroy (self : nat) (s : t) : outcome t :=
  if acquired_ s then monitor_unlock self s else Ok s.

Definition acquire (self : nat) (s : t) : option (outcome t) :=
  if acquired_ s then Some Assert
  else (λ o, s ← o; Ok (set_acquired true s)) <$> monitor_lock self s.

Definition tryAcquire (self : nat) (s : t) : outcome (bool * t) :=
  '(b, s) ← monitor_tryLock self s; Ok (b, set_acquired b s).

Definition release (self : nat) (s : t) : outcome t :=
  if negb (acquired_ s) then Assert
  else s ← monitor_unlock self s; Ok (set_acquired false s).

(** What a thread does with its [Lock] between constructor and destructor. *)
Inductive action := Acquire | TryAcquire | Release.

(** [None] while the call blocks. *)
Definition act (self : nat) (a : action) (s : t) : option (outcome t) :=
  match a with
  | Acquire => acquire self s
  | TryAcquire => Some ('(_, s) ← tryAcquire self s; Ok s)
  | Release => Some (release self s)
  end.

Fixpoint acts (self : nat) (l : list action) (s : t) : option (outcome t) :=
  match l with
  | [] => Some (Ok s)
  | a :: l => o ← act self a s; match o with Ok s => acts self l s | o => Some o end
  end.

(** The whole scope. *)
Definition scope (self : nat) (l : list action) (s : t) : option (outcome t) :=
  o ← new self s;
  match o with
  | Ok s => o ← acts self l s; match o with Ok s => Some (destroy self s) | o => Some o end
  | o => Some o
  end.

(** [Acquire] and [TryAcquire] alternate with [Release], beginning with one. *)
Fixpoint alternates (held : bool) (l : list action) : bool :=
  match l with
  | [] => true
  | Release :: l => held && alternates false l
  | _ :: l => negb held && alternates true l
  end.

Lemma acts_alternates self l : ∀ held s,
  acquired_ s = held → mutex_ s = (if held then Some self else None) → alternates held l = true →
  ∃ s', acts self l s = Some (Ok s') ∧
    mutex_ s' = (if acquired_ s' then Some self else None).
Proof.
  induction l as [|a l IH]; intros held [m mon acq] Ha Hm Hl; cbn in Ha, Hm; subst acq.
  { exists (mk m mon held). by destruct held. }
  cbn [acts]. destruct a, held; try done; subst m; cbn in Hl.
  - by apply (IH true).
  - by apply (IH true).
  - cbn [act release negb acquired_]. unfold release, monitor_unlock, Mutex.unlock, Mutex.pthread_mutex_unlock.
    cbn [negb acquired_ mutex_]. rewrite bool_decide_true by done. by apply (IH false).
Qed.

(** A thread that takes and gives back the monitor in turn leaves it free at the
    end of the scope, whether or not it holds it then. *)
Theorem lock_scope_frees self l s (Hfree : mutex_ s = None) (Hl : alternates true l = true) :
  ∃ s', scope self l s = Some (Ok s') ∧ mutex_ s' = None.
Proof.
  destruct s as [m mon acq]. cbn in Hfree. subst m. unfold scope.
  destruct (acts_alternates self l true (mk (Some self) (Monitor.lock mon) true)) as (s' & Ha & Hm');
    [done..|].
  cbn [new monitor_lock fmap option_fmap option_map Mutex.lock mutex_]. 
  change (new self _) with (Some (Ok (mk (Some self) (Monitor.lock mon) true))).
  cbn [mbind option_bind]. rewrite Ha. cbn [mbind option_bind]. unfold destroy.
  destruct (acquired_ s').
  - unfold monitor_unlock, Mutex.unlock, Mutex.pthread_mutex_unlock. rewrite Hm', bool_decide_true by done.
    cbn [negb Z.eqb mbind outcome_bind]. eexists. split; [done|done].
  - by exists s'.
Qed.

(** [tryAcquire] on a lock that is held already finds the mutex busy and forgets
    that it is held: the destructor leaves the monitor locked for good. *)
Theorem tryAcquire_leaks self s (Hfree : mutex_ s = None) :
  ∃ s', scope self [TryAcquire] s = Some (Ok s') ∧ mutex_ s' = Some self ∧
    ∀ other, new other s' = if bool_decide (self = other) then Some Assert else None.
Proof.
  destruct s as [m mon acq]. cbn in Hfree. subst m. eexists. split; [done|]. split; [done|].
  intros other. unfold new, monitor_lock, Mutex.lock, Mutex.pthread_mutex_lock. cbn.
  by destruct (bool_decide (self = other)).
Qed.

End Lock.

(** ** Threads in a monitor *)

Module Threads.

(** Where a thread is: outside, inside, waiting on the condition variable, or
    woken up and about to take the mutex again. *)
Inductive place := Outside | Inside | Waiting | Woken.

#[export] Instance place_eq_dec : EqDecision place.
Proof. solve_decision. Defined.

Record t := mk { mutex : Mutex.t; notify_ : Z; places : nat → place }.

Definition init : t := mk None 0 (λ _, Outside).

Definition move (i : nat) (p : place) (f : nat → place) : nat → place :=
  λ j, if decide (j = i) then p else f j.

(** What a call of [notifyImpl] does to the waiting threads: a signal wakes at
    least one of them, if there is one, and a broadcast all. *)
Inductive deliver : Monitor.call → relation (nat → place) :=
| deliver_nobody f : (∀ i, f i ≠ Waiting) → deliver Monitor.CondSignal f f
| deliver_some f g i :
    f i = Waiting → g i = Woken → (∀ j, g j = f j ∨ f j = Waiting ∧ g j = Woken) →
    deliver Monitor.CondSignal f g
| deliver_all f g :
    (∀ j, g j = if decide (f j = Waiting) then Woken else f j) →
    deliver Monitor.CondBroadcast f g.

Inductive delivers : list Monitor.call → relation (nat → place) :=
| delivers_nil f : delivers [] f f
| delivers_cons c cs f g h : deliver c f g → delivers cs g h → delivers (c :: cs) f h.

(** What a call that a function of Monitor makes does, when thread [i] makes it.
    [pthread_cond_wait] gives the mutex back, which it refuses to a thread that
    does not hold it; [Condition::wait] then ends the program. *)
Inductive perform (i : nat) : Monitor.call → Mutex.t * (nat → place) → outcome (Mutex.t * (nat → place)) → Prop :=
| perform_notify c m f g : deliver c f g → perform i c (m, f) (Ok (m, g))
| perform_lock m f o :
    Mutex.lock i m = Some o → perform i Monitor.MutexLock (m, f) (m ← o; Ok (m, f))
| perform_unlock m f : perform i Monitor.MutexUnlock (m, f) (m ← Mutex.unlock i m; Ok (m, f))
| perform_wait m f :
    perform i Monitor.CondWait (m, f) (m ← Mutex.unlock i m; Ok (m, move i Waiting f))
| perform_timed ms m f :
    perform i (Monitor.CondTimedWait ms) (m, f) (m ← Mutex.unlock i m; Ok (m, move i Waiting f)).

(** The calls of a function, one after the other, up to one that ends the program. *)
Inductive performs (i : nat) : list Monitor.call → Mutex.t * (nat → place) → outcome (Mutex.t * (nat → place)) → Prop :=
| performs_nil x : performs i [] x (Ok x)
| performs_cons c cs x x' o : perform i c x (Ok x') → performs i cs x' o → performs i (c :: cs) x o
| performs_crash c cs x o : perform i c x o → (∀ x', o ≠ Ok x') → performs i (c :: cs) x o.

(** The monitor before a call, of which no calls are remembered. *)
Definition monitor (s : t) : Monitor.t := Monitor.mk (notify_ s) [].

(** The steps of thread [i]: it calls a function of Monitor.hpp, which makes its
    calls; a wait ends with the mutex being taken again, and only then [notify_] is
    reset. *)
Inductive step : t → outcome t → Prop :=
| step_lock i s o :
    places s i = Outside → performs i (Monitor.calls (Monitor.lock (monitor s))) (mutex s, places s) o →
    step s ('(m, f) ← o; Ok (mk m (Monitor.notify_ (Monitor.lock (monitor s))) (move i Inside f)))
| step_tryLock i s :
    places s i = Outside →
    step s ('(b, m) ← Mutex.tryLock i (mutex s);
            Ok (mk m (Monitor.notify_ (Monitor.tryLock b (monitor s)).2)
                  (if b : bool then move i Inside (places s) else places s)))
| step_notify i s :
    places s i = Inside →
    step s (m ← Monitor.notify (monitor s); Ok (mk (mutex s) (Monitor.notify_ m) (places s)))
| step_notifyAll i s :
    places s i = Inside →
    step s (Ok (mk (mutex s) (Monitor.notify_ (Monitor.notifyAll (monitor s))) (places s)))
| step_wait i s o :
    places s i = Inside → performs i (Monitor.calls (Monitor.wait (monitor s))) (mutex s, places s) o →
    step s ('(m, f) ← o; Ok (mk m (notify_ s) f))
| step_timedWait i ms rc s o :
    places s i = Inside →
    performs i (Monitor.calls (Monitor.timedWait ms rc (monitor s)).2) (mutex s, places s) o →
    step s ('(m, f) ← o; Ok (mk m (notify_ s) f))
| step_timeout i s :
    places s i = Waiting → step s (Ok (mk (mutex s) (notify_ s) (move i Woken (places s))))
| step_resume i s o :
    places s i = Woken → Mutex.lock i (mutex s) = Some o →
    step s (m ← o; Ok (mk m (Monitor.notify_ (Monitor.wait (monitor s))) (move i Inside (places s))))
| step_unlock i s o :
    places s i = Inside → performs i (Monitor.calls (Monitor.unlock (monitor s))) (mutex s, places s) o →
    step s ('(m, f) ← o; Ok (mk m (Monitor.notify_ (Monitor.unlock (monitor s))) (move i Outside f))).

Definition steps (s s' : t) : Prop := step s (Ok s').

(** *** The calls of the functions *)

Lemma wait_calls s : Monitor.calls (Monitor.wait (monitor s)) = Monitor.pending (notify_ s) ++ [Monitor.CondWait].
Proof. unfold Monitor.wait. by rewrite Monitor.notifyImpl_spec. Qed.

Lemma timedWait_calls ms rc s :
  Monitor.calls (Monitor.timedWait ms rc (monitor s)).2 =
    Monitor.pending (notify_ s) ++ [Monitor.CondTimedWait ms].
Proof. unfold Monitor.timedWait. by rewrite Monitor.notifyImpl_spec. Qed.

Lemma unlock_calls s : Monitor.calls (Monitor.unlock (monitor s)) = Monitor.pending (notify_ s) ++ [Monitor.MutexUnlock].
Proof. unfold Monitor.unlock. by rewrite Monitor.notifyImpl_spec. Qed.

Definition notifies (c : Monitor.call) : Prop := c = Monitor.CondSignal ∨ c = Monitor.CondBroadcast.

Lemma pending_calls n : Forall notifies (Monitor.pending n).
Proof.
  unfold Monitor.pending. destruct (n =? -1); [constructor; [by right|constructor]|].
  apply Forall_replicate. by left.
Qed.

Lemma performs_notify i cs l m o : ∀ f,
  Forall notifies cs → performs i (cs ++ l) (m, f) o ↔ ∃ g, delivers cs f g ∧ performs i l (m, g) o.
Proof.
  induction cs as [|c cs IH]; intros f Hcs.
  { split; [intros Hp; exists f; split; [constructor|done]|]. intros (g & Hd & Hp). by inversion Hd; subst. }
  apply Forall_cons in Hcs as [Hc Hcs]. split.
  - intros Hp. inversion Hp as [|? ? ? x ? H1 Hr|? ? ? ? H1 Hno]; subst.
    + inversion H1; subst; try (destruct Hc; discriminate). apply IH in Hr as (g' & Hd & Hr); [|done].
      exists g'. split; [by econstructor|done].
    + inversion H1; subst; try (destruct Hc; discriminate). by destruct (Hno (m, g)).
  - intros (g & Hd & Hp). inversion Hd as [|? ? ? f1 ? H1 Hd1]; subst. cbn [app].
    eapply performs_cons; [by apply perform_notify|]. apply IH; [done|]. by exists g.
Qed.

Lemma performs_last i c x o : performs i [c] x o ↔ perform i c x o.
Proof.
  split.
  - intros Hp. inversion Hp as [|? ? ? x' ? H1 Hr|? ? ? ? H1 Hno]; subst; [|done].
    by inversion Hr; subst.
  - intros Hp. destruct o as [x'| | | |]; [|by apply performs_crash..].
    eapply performs_cons; [done|constructor].
Qed.

(** What a thread that holds the mutex gets by making the calls of [unlock]. *)
Lemma performs_leave i n c p m f o :
  (∀ m f o, perform i c (m, f) o ↔ o = (m ← Mutex.unlock i m; Ok (m, p f))) → m = Some i →
  performs i (Monitor.pending n ++ [c]) (m, f) o ↔
    ∃ g, delivers (Monitor.pending n) f g ∧ o = Ok (None, p g).
Proof.
  intros Hc ->. rewrite performs_notify by apply pending_calls. unfold Mutex.unlock in Hc.
  split; intros (g & Hd & Hp); exists g; (split; [done|]).
  - apply performs_last, Hc in Hp. unfold Mutex.pthread_mutex_unlock in Hp.
    by rewrite bool_decide_true in Hp by done.
  - apply performs_last, Hc. subst. unfold Mutex.pthread_mutex_unlock. by rewrite bool_decide_true by done.
Qed.

Lemma perform_unlock_iff i m f o :
  perform i Monitor.MutexUnlock (m, f) o ↔ o = (m ← Mutex.unlock i m; Ok (m, f)).
Proof. split; [|intros ->; constructor]. intros Hp. inversion Hp as [? ? ? ? Hd| | | |]; subst; [inversion Hd|done]. Qed.

Lemma perform_wait_iff i m f o :
  perform i Monitor.CondWait (m, f) o ↔ o = (m ← Mutex.unlock i m; Ok (m, move i Waiting f)).
Proof. split; [|intros ->; constructor]. intros Hp. inversion Hp as [? ? ? ? Hd| | | |]; subst; [inversion Hd|done]. Qed.

Lemma perform_timed_iff i ms m f o :
  perform i (Monitor.CondTimedWait ms) (m, f) o ↔ o = (m ← Mutex.unlock i m; Ok (m, move i Waiting f)).
Proof. split; [|intros ->; constructor]. intros Hp. inversion Hp as [? ? ? ? Hd| | | |]; subst; [inversion Hd|done]. Qed.

Lemma perform_lock_iff i m f o :
  perform i Monitor.MutexLock (m, f) o ↔ ∃ r, Mutex.lock i m = Some r ∧ o = (m ← r; Ok (m, f)).
Proof.
  split; [|intros (r & Hr & ->); by constructor].
  intros Hp. inversion Hp as [? ? ? ? Hd|? ? r Hr| | |]; subst; [inversion Hd|by exists r].
Qed.

(** The holder of the mutex is the one that is inside. *)
Definition inv (s : t) : Prop := ∀ i, mutex s = Some i ↔ places s i = Inside.

Lemma deliver_inside c f g : deliver c f g → ∀ i, g i = Inside ↔ f i = Inside.
Proof.
  intros Hd i. destruct Hd as [f Hf|f g k _ _ Hg|f g Hg]; [done| |].
  - destruct (Hg i) as [->|[-> ->]]; [done|]. split; discriminate.
  - rewrite Hg. case_decide as Hf; [rewrite Hf; split; discriminate|done].
Qed.

Lemma delivers_inside cs f g : delivers cs f g → ∀ i, g i = Inside ↔ f i = Inside.
Proof.
  induction 1 as [|c cs f g h Hc _ IH]; intros i; [done|]. rewrite IH. by eapply deliver_inside.
Qed.

Lemma lock_free i m o : Mutex.lock i m = Some o → m ≠ Some i → m = None ∧ o = Ok (Some i).
Proof.
  unfold Mutex.lock, Mutex.pthread_mutex_lock. destruct m as [j|]; [|by intros [= <-]].
  case_bool_decide as Hj; cbn; [by subst|done].
Qed.

Lemma place_inv i p n f m : (∀ j, j ≠ i → f j ≠ Inside) →
  inv (mk m n (move i p f)) ↔ m = if decide (p = Inside) then Some i else None.
Proof.
  intros Hf. unfold inv, move. cbn [mutex places]. split.
  - intros Hi. destruct m as [j|].
    + pose proof (proj1 (Hi j) eq_refl) as Hj. case_decide; [|by destruct (Hf j)].
      subst. by rewrite decide_True.
    + case_decide as Hp; [|done]. by rewrite <- (proj2 (Hi i)) by by rewrite decide_True.
  - intros -> j. destruct (decide (j = i)) as [->|Hne].
    + by case_decide.
    + split; [case_decide; congruence|]. intros Hj. by destruct (Hf j Hne).
Qed.

Lemma outside_holder s i p :
  inv s → places s i = p → p ≠ Inside → mutex s ≠ Some i.
Proof. intros Hi Hp Hne Hm. apply Hi in Hm. congruence. Qed.

(** What a step can be while the invariant holds: only a counter of notifications
    at its limit crashes. *)
Inductive effect (s : t) : outcome t → Prop :=
| effect_enter i :
    places s i = Outside ∨ places s i = Woken → mutex s = None →
    effect s (Ok (mk (Some i) 0 (move i Inside (places s))))
| effect_busy : effect s (Ok s)
| effect_count i n : places s i = Inside → effect s (Ok (mk (mutex s) n (places s)))
| effect_overflow : 2 ^ 31 - 1 ≤ notify_ s → effect s Undef
| effect_timeout i :
    places s i = Waiting → effect s (Ok (mk (mutex s) (notify_ s) (move i Woken (places s))))
| effect_leave i p g :
    places s i = Inside → p = Outside ∨ p = Waiting → delivers (Monitor.pending (notify_ s)) (places s) g →
    effect s (Ok (mk None (notify_ s) (move i p g))).

Lemma step_effect s o : inv s → step s o → effect s o.
Proof.
  intros Hi Hs. destruct Hs as [i s o Hp Ho|i s Hp|i s Hp|i s Hp|i s o Hp Ho|i ms rc s o Hp Ho|i s Hp|i s o Hp Ho|i s o Hp Ho].
  - apply performs_last, perform_lock_iff in Ho as (r & Hr & ->).
    apply lock_free in Hr as [Hm ->]; [|by eapply outside_holder]. apply effect_enter; [by left|done].
  - destruct s as [[j|] n f]; cbn [mutex]; [apply effect_busy|]. apply (effect_enter _ i); [by left|done].
  - unfold Monitor.notify. cbn [monitor Monitor.notify_].
    destruct (negb _); [|by apply (effect_count _ i)].
    destruct (Z.ltb_spec (notify_ s) (2 ^ 31 - 1)); [by apply (effect_count _ i)|by apply effect_overflow].
  - by apply (effect_count _ i).
  - rewrite wait_calls in Ho. apply (performs_leave i _ _ (move i Waiting)) in Ho as (g & Hd & ->);
      [|intros; apply perform_wait_iff|by apply Hi].
    apply effect_leave; [done|by right|done].
  - rewrite timedWait_calls in Ho. apply (performs_leave i _ _ (move i Waiting)) in Ho as (g & Hd & ->);
      [|intros; apply perform_timed_iff|by apply Hi].
    apply effect_leave; [done|by right|done].
  - by apply effect_timeout.
  - apply lock_free in Ho as [Hm ->]; [|by eapply outside_holder]. apply effect_enter; [by right|done].
  - rewrite unlock_calls in Ho. apply (performs_leave i _ _ id) in Ho as (g & Hd & ->);
      [|intros; apply perform_unlock_iff|by apply Hi].
    assert (Monitor.notify_ (Monitor.unlock (monitor s)) = notify_ s) as ->
      by (unfold Monitor.unlock; by rewrite Monitor.notifyImpl_spec).
    apply effect_leave; [done|by left|done].
Qed.

Lemma effect_inv s s' : inv s → effect s (Ok s') → inv s'.
Proof.
  intros Hi He. remember (Ok s') as o eqn:Ho. destruct He as [i Hp Hm| |i n Hp| |i Hp|i p g Hp Hl Hd];
    simplify_eq; try done.
  - apply place_inv; [|done]. intros j _ Hj. apply Hi in Hj. congruence.
  - intros j. unfold move. cbn. rewrite (Hi j). case_decide as Hj; [subst; split; congruence|done].
  - apply place_inv; [|by rewrite decide_False by (destruct Hl; congruence)].
    intros j Hj Hin. apply (delivers_inside _ _ _ Hd), Hi in Hin. apply Hi in Hp. congruence.
Qed.

(** Only finitely many threads have ever been inside. *)
Definition finite (f : nat → place) : Prop := ∃ n, ∀ i, (n ≤ i)%nat → f i = Outside.

Lemma finite_move i p f : finite f → finite (move i p f).
Proof.
  intros [n Hn]. exists (n `max` S i)%nat. intros j Hj. unfold move.
  rewrite decide_False by lia. apply Hn. lia.
Qed.

Lemma finite_delivers cs f g : delivers cs f g → finite f → finite g.
Proof.
  induction 1 as [|c cs f g h Hd _ IH]; [done|]. intros [n Hn]. apply IH. exists n. intros i Hi.
  specialize (Hn i Hi). destruct Hd as [f Hf|f g k _ _ Hg|f g Hg]; [done| |].
  - destruct (Hg i) as [->|[? _]]; congruence.
  - by rewrite Hg, Hn.
Qed.

Lemma someone_waits f : finite f → (∃ i, f i = Waiting) ∨ ∀ i, f i ≠ Waiting.
Proof.
  intros [n Hn]. assert ((∃ i, f i = Waiting) ∨ ∀ i, (i < n)%nat → f i ≠ Waiting) as [?|Hno].
  - clear Hn. induction n as [|n IH]; [right; lia|]. destruct IH as [?|IH]; [by left|].
    destruct (decide (f n = Waiting)); [left; by exists n|]. right. intros i Hi.
    destruct (decide (i = n)) as [->|]; [done|]. apply IH. lia.
  - by left.
  - right. intros i. destruct (decide (i < n)%nat); [by apply Hno|]. rewrite Hn by lia. done.
Qed.

(** The notifications can be delivered, whatever they are. *)
Lemma delivers_total cs : ∀ f,
  finite f → Forall (λ c, c = Monitor.CondSignal ∨ c = Monitor.CondBroadcast) cs →
  ∃ g, delivers cs f g.
Proof.
  induction cs as [|c cs IH]; intros f Hf Hcs; [exists f; constructor|].
  apply Forall_cons in Hcs as [Hc Hcs]. assert (∃ g, deliver c f g) as [g Hg].
  { destruct Hc as [-> | ->].
    - destruct (someone_waits f Hf) as [[i Hi]|Hno]; [|exists f; by constructor].
      exists (move i Woken f). apply (deliver_some _ _ i); [done| |].
      + unfold move. by rewrite decide_True.
      + intros j. unfold move. case_decide as Hj; [right; by subst|by left].
    - eexists. by constructor. }
  destruct (IH g) as [h Hh]; [|done|].
  - eapply (finite_delivers [c] f); [|done]. econstructor; [done|constructor].
  - exists h. by econstructor.
Qed.

Lemma finite_step s s' : effect s (Ok s') → finite (places s) → finite (places s').
Proof.
  intros He Hf. remember (Ok s') as o eqn:Ho. destruct He; simplify_eq; cbn; eauto using finite_move, finite_delivers.
Qed.

(** Delivered to someone who waits, a notification wakes somebody. *)
Lemma woken_stays cs f g i : delivers cs f g → f i = Woken → g i = Woken.
Proof.
  induction 1 as [|c cs f g h Hd _ IH]; [done|]. intros Hi. apply IH.
  destruct Hd as [f Hf|f g k _ _ Hg|f g Hg]; [done| |].
  - destruct (Hg i) as [->|[? _]]; congruence.
  - by rewrite Hg, Hi.
Qed.

Lemma delivers_wakes c cs f g i :
  delivers (c :: cs) f g → f i = Waiting → ∃ k, f k = Waiting ∧ g k = Woken.
Proof.
  intros Hd Hi. inversion Hd as [|? ? ? f1 ? Hc Hcs]; subst. destruct Hc as [f Hf|f f1 k Hk Hk1 Hf1|f f1 Hf1].
  - by destruct (Hf i).
  - exists k. split; [done|]. by eapply woken_stays.
  - exists i. split; [done|]. eapply woken_stays; [done|]. by rewrite Hf1, decide_True.
Qed.

(** A broadcast wakes everybody. *)
Lemma broadcast_wakes f g j :
  delivers (Monitor.pending (-1)) f g → f j = Waiting → g j = Woken.
Proof.
  intros Hd Hj. inversion Hd as [|? ? ? f1 ? Hc Hn]; subst. inversion Hn; subst.
  inversion Hc as [| |? ? Hg]; subst. by rewrite Hg, decide_True.
Qed.

Lemma leaves s s' i :
  effect s (Ok s') → places s i = Inside → places s' i ≠ Inside → inv s →
  ∃ p g, p ≠ Woken ∧ delivers (Monitor.pending (notify_ s)) (places s) g ∧ places s' = move i p g.
Proof.
  intros He Hp Hn Hi. remember (Ok s') as o eqn:Ho.
  destruct He as [k Hk Hm| |k n Hk| |k Hk|k p g Hk Hl Hd]; simplify_eq; cbn [places] in *; try done.
  - unfold move in Hn. case_decide; congruence.
  - unfold move in Hn. case_decide as Hik; [subst; congruence|done].
  - assert (i = k) as -> by (apply Hi in Hp, Hk; congruence).
    exists p, g. split; [by destruct Hl; subst|done].
Qed.

Lemma leaver_wakes s s' i j :
  effect s (Ok s') → inv s → places s i = Inside → places s j = Waiting → notify_ s = -1 ∨ 0 < notify_ s →
  places s' i ≠ Inside → ∃ k, places s k = Waiting ∧ places s' k = Woken.
Proof.
  intros He Hi Hp Hj Hn Ho. destruct (leaves s s' i He Hp Ho Hi) as (p & g & _ & Hd & ->).
  assert (∃ c cs, Monitor.pending (notify_ s) = c :: cs) as (c & cs & Hc).
  { unfold Monitor.pending. destruct Hn as [-> | Hn]; [by eexists _, _|].
    rewrite (proj2 (Z.eqb_neq _ _)) by lia. destruct (Z.to_nat (notify_ s)) eqn:He'; [lia|].
    by eexists _, _. }
  rewrite Hc in Hd. destruct (delivers_wakes _ _ _ _ _ Hd Hj) as (k & Hk1 & Hk2).
  exists k. split; [done|]. unfold move. rewrite decide_False; [done|]. intros ->. congruence.
Qed.

Lemma leaver_wakes_all s s' i j :
  effect s (Ok s') → inv s → places s i = Inside → places s j = Waiting → notify_ s = -1 →
  places s' i ≠ Inside → places s' j = Woken.
Proof.
  intros He Hi Hp Hj Hn Ho. destruct (leaves s s' i He Hp Ho Hi) as (p & g & _ & Hd & ->).
  rewrite Hn in Hd. unfold move. rewrite decide_False by (intros ->; congruence). by eapply broadcast_wakes.
Qed.

Lemma reached_inv s : rtc steps init s → inv s ∧ finite (places s).
Proof.
  intros Hr. apply (rtc_invariant steps (λ s, inv s ∧ finite (places s))) with init; [|done|].
  - intros s1 s2 Hs [Hi Hf]. apply (step_effect _ _ Hi) in Hs. split; [by eapply effect_inv|by eapply finite_step].
  - split; [intros i; split; discriminate|]. by exists O.
Qed.

(** C29: threads that use a monitor exclude each other and never get stuck on it:
    over any interleaving of [lock], [tryLock], [notify], [notifyAll], [wait],
    [timedWait] and [unlock] of any threads, with spurious wake-ups, one thread is
    inside at most; no call that these functions make on the mutex is refused, which
    would end the program (as long as fewer than 2^31 - 1 calls of [notify] are
    counted); whoever is inside can leave; when nobody is, every thread outside and
    every one that has been woken up can enter; and by the [unlock] or the wait
    with which a thread goes out, the calls of [notifyImpl] have woken one of those
    that waited if there was a [notify], and all of them if there was a [notifyAll]. *)
Theorem monitor_excludes s (Hr : rtc steps init s) :
  (∀ i j, places s i = Inside → places s j = Inside → i = j) ∧
  (∀ o, step s o → notify_ s < 2 ^ 31 - 1 → ∃ s', o = Ok s') ∧
  (∀ i, places s i = Inside → ∃ s', steps s s' ∧ places s' i = Outside ∧ mutex s' = None) ∧
  (mutex s = None → ∀ i, places s i = Outside ∨ places s i = Woken →
     ∃ s', steps s s' ∧ places s' i = Inside) ∧
  (∀ i j s', places s i = Inside → places s j = Waiting → notify_ s = -1 ∨ 0 < notify_ s →
     steps s s' → places s' i ≠ Inside → ∃ k, places s k = Waiting ∧ places s' k = Woken) ∧
  (∀ i j s', places s i = Inside → places s j = Waiting → notify_ s = -1 →
     steps s s' → places s' i ≠ Inside → places s' j = Woken).
Proof.
  destruct (reached_inv s Hr) as [Hi Hf].
  split; [|split; [|split; [|split; [|split]]]].
  - intros i j H1%Hi H2%Hi. congruence.
  - intros o Hs Hn. apply (step_effect _ _ Hi) in Hs. destruct Hs; try by eexists. lia.
  - intros i Hp. destruct (delivers_total _ _ Hf (pending_calls (notify_ s))) as [g Hg].
    pose proof (step_unlock i s (Ok (None, g)) Hp) as Hs. rewrite unlock_calls in Hs.
    eexists. split; [apply Hs|].
    + apply (performs_leave i _ _ id); [intros; apply perform_unlock_iff|by apply Hi|by exists g].
    + cbn. unfold move. by rewrite decide_True.
  - intros Hm i Hp. assert (Mutex.lock i (mutex s) = Some (Ok (Some i))) as Hl by by rewrite Hm.
    exists (mk (Some i) 0 (move i Inside (places s))). split; [destruct Hp as [Hp|Hp]|].
    + apply (step_lock i s (Ok (Some i, places s)) Hp), performs_last, perform_lock_iff. by eexists.
    + assert (Monitor.notify_ (Monitor.wait (monitor s)) = 0) as Hz by (unfold Monitor.wait; done).
      pose proof (step_resume i s _ Hp Hl) as Hs. rewrite Hz in Hs. exact Hs.
    + cbn. unfold move. by rewrite decide_True.
  - intros i j s' Hp Hj Hn Hs Ho. apply (leaver_wakes s s' i j); try done. by apply step_effect.
  - intros i j s' Hp Hj Hn Hs Ho. apply (leaver_wakes_all s s' i j); try done. by apply step_effect.
Qed.

(** A thread waits, and another notifies and leaves. *)
Lemma monitor_excludes_witness :
  ∃ s s', rtc steps init s ∧ places s 0%nat = Inside ∧ places s 1%nat = Waiting ∧
    steps s s' ∧ places s' 0%nat = Outside ∧ places s' 1%nat = Woken.
Proof.
  set (s1 := mk (Some 1%nat) 0 (move 1 Inside (λ _, Outside))).
  set (s2 := mk None 0 (move 1 Waiting (places s1))).
  set (s3 := mk (Some 0%nat) 0 (move 0 Inside (places s2))).
  set (s4 := mk (Some 0%nat) (-1) (places s3)).
  assert (rtc steps init s4) as Hr.
  { eapply rtc_l.
    { apply (step_lock 1 init (Ok (Some 1%nat, λ _, Outside)) eq_refl), performs_last, perform_lock_iff.
      by exists (Ok (Some 1%nat)). }
    eapply rtc_l.
    { apply (step_wait 1 s1 (Ok (None, move 1 Waiting (places s1))) eq_refl), performs_last, perform_wait_iff.
      reflexivity. }
    eapply rtc_l.
    { apply (step_lock 0 s2 (Ok (Some 0%nat, places s2)) eq_refl), performs_last, perform_lock_iff.
      by exists (Ok (Some 0%nat)). }
    eapply rtc_l; [exact (step_notifyAll 0 s3 eq_refl)|]. apply rtc_refl. }
  destruct (monitor_excludes s4 Hr) as (_ & _ & H & _ & _ & Hall). destruct (H 0%nat eq_refl) as (s' & Hs & Ho & _).
  exists s4, s'. split; [exact Hr|]. split; [reflexivity|]. split; [reflexivity|]. split; [exact Hs|].
  split; [exact Ho|]. apply (Hall 0%nat 1%nat s'); [reflexivity|reflexivity|reflexivity|exact Hs|].
  intros Hin. rewrite Ho in Hin. discriminate Hin.
Defined.

End Threads.
