(* ===== verification/Singleton.v ===== *)
(** * Singleton: Singleton.h

    One object per type, made by the first call of [instance] from any thread and
    deleted when the program ends.  [has_no_destroy] says whether the type declares
    a member [no_destroy]; the address of the object is what [new] returns. *)

From S2P Require Import Prelude.

Module Singleton.

(** [pthread_once_t]: not called yet, with the thread that is in [init], and done. *)
Inductive once := Never | Running (thread : nat) | Done.

(** [value_] is [None] for a null pointer; [atexit_] counts the registrations of
    [destroy]; [made] and [deleted] are the objects made and deleted so far. *)
Record t := mk {
  ponce_ : once;
  value_ : option nat;
  atexit_ : nat;
  made : list nat;
  deleted : list nat
}.

Definition initial : t := mk Never None 0 [] [].

Section type.
Context (has_no_destroy : bool).

(** [init], where [new] returns the object [x]. *)
Definition init (x : nat) (s : t) : t :=
  let s := mk (ponce_ s) (Some x) (atexit_ s) (made s ++ [x]) (deleted s) in
  if negb has_no_destroy
  then mk (ponce_ s) (value_ s) (S (atexit_ s)) (made s) (deleted s) else s.

(** [destroy]; deleting a null pointer does nothing. *)
Definition destroy (s : t) : t :=
  mk (ponce_ s) None (atexit_ s) (made s) (deleted s ++ option_list (value_ s)).

(** The rest of [instance], behind [pthread_once]. *)
Definition value (s : t) : outcome nat :=
  match value_ s with None => Assert | Some x => Ok x end.

(** The threads that call [instance]: before [pthread_once], in [init], behind it,
    with the result. *)
Inductive place := Calling | InInit | Behind | Got (x : nat).

Definition at_ (i : nat) (p : place) (f : nat → place) : nat → place :=
  λ j, if decide (j = i) then p else f j.

(** The steps of the threads, the end of the program among them: [pthread_once]
    runs [init] in the first thread that comes and lets no other pass before it is
    done; [exit] calls what [atexit] registered. *)
Inductive step : t * (nat → place) → outcome (t * (nat → place)) → Prop :=
| step_first i s f :
    f i = Calling → ponce_ s = Never →
    step (s, f) (Ok (mk (Running i) (value_ s) (atexit_ s) (made s) (deleted s), at_ i InInit f))
| step_init i x s f :
    f i = InInit → x ∉ made s →
    step (s, f)
      (let s := init x s in
       Ok (mk Done (value_ s) (atexit_ s) (made s) (deleted s), at_ i Behind f))
| step_pass i s f :
    f i = Calling → ponce_ s = Done → step (s, f) (Ok (s, at_ i Behind f))
| step_value i s f :
    f i = Behind → step (s, f) (x ← value s; Ok (s, at_ i (Got x) f))
| step_again i x s f :
    f i = Got x → step (s, f) (Ok (s, at_ i Calling f))
| step_exit s f n :
    atexit_ s = S n →
    step (s, f) (Ok (destroy (mk (ponce_ s) (value_ s) n (made s) (deleted s)), f)).

Definition steps : relation (t * (nat → place)) := rtc (λ s s', step s (Ok s')).

(** *** One object *)

Definition fresh_state (s : t) : Prop :=
  value_ s = None ∧ made s = [] ∧ deleted s = [] ∧ atexit_ s = 0%nat.

(** The object [x] is there, or the program has ended and it is not. *)
Definition holds_object (s : t) (x : nat) : Prop :=
  made s = [x] ∧
  (value_ s = Some x ∧ deleted s = [] ∧ atexit_ s = (if has_no_destroy then 0 else 1)%nat ∨
   has_no_destroy = false ∧ value_ s = None ∧ deleted s = [x] ∧ atexit_ s = 0%nat).

Definition inv (c : t * (nat → place)) : Prop :=
  let '(s, f) := c in
  match ponce_ s with
  | Never => fresh_state s ∧ ∀ i, f i = Calling
  | Running j => fresh_state s ∧ ∀ i, f i = if decide (i = j) then InInit else Calling
  | Done => ∃ x, holds_object s x ∧ ∀ i, f i = Calling ∨ f i = Behind ∨ f i = Got x
  end.

Lemma step_keeps_one c o :
  step c o → inv c → o = Assert ∧ has_no_destroy = false ∧ (∃ x, deleted c.1 = [x]) ∨ ∃ c', o = Ok c' ∧ inv c'.
Proof.
  intros Hs Hi. destruct Hs as [i s f Hf Hp|i x s f Hf Hx|i s f Hf Hp|i s f Hf|i x s f Hf|s f n Hn];
    unfold inv in Hi.
  - rewrite Hp in Hi. destruct Hi as [Hfr Hall]. right. eexists. split; [done|].
    cbn. split; [done|]. intros k. unfold at_. case_decide; [done|apply Hall].
  - destruct (ponce_ s) as [|j|] eqn:Hp.
    + destruct Hi as [_ Hall]. congruence.
    + destruct Hi as [(Hv & Hm & Hd & Ha) Hall]. right. eexists. split; [done|]. cbn. exists x. split.
      * unfold holds_object, init. cbn. rewrite Hm, Hd, Ha. by destruct has_no_destroy; split; [done|left|done|left].
      * intros k. unfold at_. case_decide as Hk; [by right; left|]. rewrite Hall. left.
        rewrite Hall in Hf. case_decide; [|done]. subst. by rewrite decide_False.
    + destruct Hi as (y & _ & Hall). destruct (Hall i) as [?|[?|?]]; congruence.
  - rewrite Hp in Hi. destruct Hi as (x & Ho & Hall). right. eexists. split; [done|]. unfold inv. rewrite Hp.
    exists x. split; [done|]. intros k. unfold at_. case_decide; [by right; left|apply Hall].
  - destruct (ponce_ s) as [|j|] eqn:Hp.
    + destruct Hi as [_ Hall]. congruence.
    + destruct Hi as [_ Hall]. rewrite Hall in Hf. by case_decide.
    + destruct Hi as (x & Ho & Hall). pose proof Ho as (Hm & [(Hv & Hd & Ha)|(Hnd & Hv & Hd & Ha)]); unfold value; rewrite Hv.
      * right. eexists. split; [done|]. unfold inv. rewrite Hp. exists x. split; [done|].
        intros k. unfold at_. case_decide; [by right; right|apply Hall].
      * left. split; [done|]. split; [done|]. by exists x.
  - destruct (ponce_ s) as [|j|] eqn:Hp.
    + destruct Hi as [_ Hall]. congruence.
    + destruct Hi as [_ Hall]. rewrite Hall in Hf. by case_decide.
    + destruct Hi as (y & Ho & Hall). right. eexists. split; [done|]. unfold inv. rewrite Hp. exists y.
      split; [done|]. intros k. unfold at_. case_decide; [by left|apply Hall].
  - destruct (ponce_ s) as [|j|] eqn:Hp; [|destruct Hi as [(_ & _ & _ & Ha) _]; congruence|].
    { destruct Hi as [(_ & _ & _ & Ha) _]. congruence. }
    destruct Hi as (x & (Hm & [(Hv & Hd & Ha)|(_ & _ & _ & Ha)]) & Hall); [|congruence].
    right. eexists. split; [done|]. exists x. split; [|done].
    split; [done|]. right. cbn. rewrite Hv, Hd. destruct has_no_destroy; [congruence|].
    by split_and!; [| | |congruence].
Qed.

(** C33: whatever the threads do, in any order, the object is made once and every
    call of [instance] returns it; [instance] fails only when the program is ending
    and the object has been deleted, which happens once, and never to a type with
    [no_destroy]. *)
Theorem singleton_is_one c o
    (Hreach : steps (initial, λ _, Calling) c) (Hstep : step c o) :
  (∃ x, ∀ i y, c.2 i = Got y → y = x) ∧ (length (made c.1) ≤ 1)%nat ∧
  deleted c.1 `prefix_of` made c.1 ∧
  (o = Assert ∧ has_no_destroy = false ∧ deleted c.1 ≠ [] ∨ ∃ c', o = Ok c' ∧ steps (initial, λ _, Calling) c').
Proof.
  assert (inv c) as Hi.
  { revert Hreach. generalize (step_keeps_one). intros Hst Hr.
    assert (inv (initial, λ _, Calling)) as H0 by by repeat split.
    induction Hr as [c|c1 c2 c3 H12 Hr IH]; [done|]. apply IH; [done|].
    destruct (Hst _ _ H12 H0) as [(? & _)|(c' & [= ->] & Hc')]; done. }
  pose proof (step_keeps_one c o Hstep Hi) as Hnext. destruct c as [s f]. cbn [fst snd] in *.
  split; [|split; [|split]].
  - unfold inv in Hi. destruct (ponce_ s).
    + exists 0%nat. intros i y Hy. by rewrite (proj2 Hi) in Hy.
    + exists 0%nat. intros i y Hy. rewrite (proj2 Hi) in Hy. by case_decide.
    + destruct Hi as (x & _ & Hall). exists x. intros i y Hy. destruct (Hall i) as [?|[?|?]]; congruence.
  - unfold inv in Hi. destruct (ponce_ s); [|destruct Hi as [(_ & -> & _) _]; cbn; lia|destruct Hi as (x & (-> & _) & _); done].
    destruct Hi as [(_ & -> & _) _]. cbn. lia.
  - unfold inv in Hi. destruct (ponce_ s); [destruct Hi as [(_ & -> & -> & _) _]; done|destruct Hi as [(_ & -> & -> & _) _]; done|].
    destruct Hi as (x & (-> & [(_ & -> & _)|(_ & _ & -> & _)]) & _); [apply prefix_nil|done].
  - destruct Hnext as [(-> & Hnd & x & Hd)|(c' & -> & _)].
    + left. rewrite Hd. by split_and!.
    + right. exists c'. split; [done|]. eapply rtc_r; [exact Hreach|exact Hstep].
Qed.

End type.

(** The first call, and the end of the program. *)
Lemma singleton_is_one_witness :
  ∃ c, steps false (initial, λ _, Calling) c ∧ made c.1 = [7%nat] ∧ value_ c.1 = Some 7%nat ∧
    (∀ i y, c.2 i = Got y → y = 7%nat) ∧
    ∃ c', step false c (Ok c') ∧ deleted c'.1 = [7%nat].
Proof.
  set (c := (mk Done (Some 7%nat) 1 [7%nat] [],
             at_ 3 (Got 7) (at_ 3 Behind (at_ 3 InInit (λ _, Calling))))).
  assert (steps false (initial, λ _, Calling) c) as Hreach.
  { eapply rtc_l; [by apply (step_first false 3)|].
    eapply rtc_l; [apply (step_init false 3 7); [done|apply not_elem_of_nil]|].
    eapply rtc_l; [exact (step_value false 3 (mk Done (Some 7%nat) 1 [7%nat] [])
      (at_ 3 Behind (at_ 3 InInit (λ _, Calling))) eq_refl)|]. apply rtc_refl. }
  assert (step false c (Ok (destroy (mk Done (Some 7%nat) 0 [7%nat] []), c.2))) as Hexit
    by by apply (step_exit false (mk Done (Some 7%nat) 1 [7%nat] [])).
  destruct (singleton_is_one false c _ Hreach Hexit) as ((x & Hx) & _ & _ & _).
  exists c. split; [exact Hreach|]. split; [reflexivity|]. split; [reflexivity|]. split.
  - assert (7%nat = x) as -> by (apply (Hx 3%nat); reflexivity). exact Hx.
  - eexists. split; [exact Hexit|]. reflexivity.
Defined.

End Singleton.
