(* ===== verification/Sockets.v ===== *)
(** * Sockets: NetworkUtil.cc, Socket.h, Socket.cc, ClientSocket.h, ClientSocket.cc

    The wrappers of the socket calls.  [kernel] has the results of the system
    calls that are still to come, each with the [errno] it leaves behind, and the
    calls made so far with the results it looked at, oldest first.  What the
    resolver says is a parameter.  [LOG_SYSFATAL] ends the program with
    [abort()], as a failed [assert] does. *)

From S2P Require Import Prelude.

(** ** System calls *)

Module Kernel.

(** [sockaddr_in]: family, port in network order and address. *)
Record sockaddr_in := mk_addr { sin_family : Z; sin_port : Z; s_addr : Z }.

Inductive call :=
| Socket (domain type : Z)
| Close (fd : Z)
| GetFlags (fd : Z)
| SetFlags (fd flags : Z)
| SetSockOpt (fd level name : Z) (value : list Z)
| Bind (fd : Z) (addr : sockaddr_in)
| GetSockName (fd : Z)
| Listen (fd backlog : Z)
| Connect (fd : Z) (addr : sockaddr_in)
| Accept (fd : Z)
| Recvfrom (fd len flags : Z).

Record t := mk { answers : list (Z * Z); calls : list (call * option Z) }.

(** A call: its result and [errno].  [Spin] when there is no result. *)
Definition sys (c : call) (k : t) : outcome (Z * Z * t) :=
  match answers k with
  | [] => Spin
  | (ret, errno) :: l => Ok (ret, errno, mk l (calls k ++ [(c, Some ret)]))
  end.

(** [::close], whose result and [errno] nobody looks at. *)
Definition close (fd : Z) (k : t) : t := mk (answers k) (calls k ++ [(Close fd, None)]).

(** The descriptors that have been closed, and those [::socket] has returned. *)
Definition closed (k : t) : list Z :=
  omap (λ c, match c with (Close fd, _) => Some fd | _ => None end) (calls k).

Definition opened (k : t) : list Z :=
  omap (λ c, match c with
             | (Socket _ _, Some fd) => if fd =? -1 then None else Some fd
             | _ => None
             end) (calls k).

Definition AF_INET : Z := 2.
Definition PF_LOCAL : Z := 1.
Definition SOCK_STREAM : Z := 1.
Definition SOCK_DGRAM : Z := 2.
Definition SOL_SOCKET : Z := 1.
Definition SO_REUSEADDR : Z := 2.
Definition SO_KEEPALIVE : Z := 9.
Definition SO_LINGER : Z := 13.
Definition IPPROTO_TCP : Z := 6.
Definition TCP_NODELAY : Z := 1.
Definition O_NONBLOCK : Z := 2 ^ 11.
Definition EINTR : Z := 4.
Definition EINPROGRESS : Z := 115.
Definition EAI_AGAIN : Z := -3.

(** [htons] and [ntohs]: the two bytes swapped. *)
Definition htons (port : Z) : Z := (port `mod` 256) * 256 + port `div` 256 `mod` 256.

End Kernel.

(** ** NetworkUtil.h, NetworkUtil.cc *)

Module NetworkUtil.
Import Kernel.

Definition INVALID_SOCKET : Z := -1.
Definition SOCKET_ERROR : Z := -1.

(** [closeSocketNoThrow], whose [errno] is the one before. *)
Definition closeSocketNoThrow (fd : Z) (k : Kernel.t) : Kernel.t := close fd k.

(** A call whose failure closes the descriptor and ends the program. *)
Definition checked (fd : Z) (c : call) (k : Kernel.t) : outcome Kernel.t :=
  '(ret, _, k) ← sys c k;
  if ret =? SOCKET_ERROR then let k := closeSocketNoThrow fd k in Assert else Ok k.

Definition set_tcpNoDealy (fd : Z) (k : Kernel.t) : outcome Kernel.t :=
  checked fd (SetSockOpt fd IPPROTO_TCP TCP_NODELAY [1]) k.

Definition set_keepAlive (fd : Z) (k : Kernel.t) : outcome Kernel.t :=
  checked fd (SetSockOpt fd SOL_SOCKET SO_KEEPALIVE [1]) k.

(** The result of [fcntl(F_GETFL)] is not looked at. *)
Definition block_flags (block : bool) (flags : Z) : Z :=
  if block then Z.land flags (Z.lnot O_NONBLOCK) else Z.lor flags O_NONBLOCK.

Definition set_block (fd : Z) (block : bool) (k : Kernel.t) : outcome Kernel.t :=
  '(flags, _, k) ← sys (GetFlags fd) k;
  checked fd (SetFlags fd (block_flags block flags)) k.

Definition createSocket (udp local : bool) (k : Kernel.t) : outcome (Z * Kernel.t) :=
  '(fd, _, k) ← sys (Socket (if local then PF_LOCAL else AF_INET) SOCK_STREAM) k;
  _ ← assert_ (negb (fd =? INVALID_SOCKET));
  k ← (if negb udp then k ← set_tcpNoDealy fd k; set_keepAlive fd k else Ok k);
  Ok (fd, k).

Definition bind (fd : Z) (addr : sockaddr_in) (k : Kernel.t) : outcome Kernel.t :=
  k ← checked fd (Bind fd addr) k;
  '(_, _, k) ← sys (GetSockName fd) k;
  Ok k.

Definition connect (fd : Z) (addr : sockaddr_in) (k : Kernel.t) : outcome (bool * Kernel.t) :=
  '(ret, errno, k) ← sys (Connect fd addr) k;
  if ret =? 0 then Ok (true, k)
  else if (ret =? -1) && negb (errno =? EINPROGRESS)
       then let k := close fd k in Assert
       else Ok (false, k).

Definition INADDR_NONE : Z := 2 ^ 32 - 1.

(** The loop of [getAddress]: results of [getaddrinfo], each with the family and
    the address it found; [retry] is decremented after each but the last. *)
Fixpoint lookup_loop (retry : nat) (lookups : list (Z * option (Z * Z))) : outcome (Z * option (Z * Z) * nat) :=
  match lookups with
  | [] => Spin
  | (rs, info) :: lookups =>
      if bool_decide (info = None) && (rs =? EAI_AGAIN)
      then match retry with
           | O => Ok (rs, info, 1%nat)
           | S retry => '(rs, info, n) ← lookup_loop retry lookups; Ok (rs, info, S n)
           end
      else Ok (rs, info, 1%nat)
  end.

(** [getAddress]: the address and the number of calls of [getaddrinfo];
    [inet_addr] is what that function makes of the host. *)
Definition getAddress (inet_addr : Z) (lookups : list (Z * option (Z * Z))) (port : Z)
    : outcome (sockaddr_in * nat) :=
  if inet_addr =? INADDR_NONE then
    '(rs, info, n) ← lookup_loop 5 lookups;
    _ ← assert_ (rs =? 0);
    match info with
    | None => Assert
    | Some (ai_family, a) =>
        _ ← assert_ (ai_family =? AF_INET);
        Ok (mk_addr AF_INET (htons port) a, n)
    end
  else Ok (mk_addr AF_INET (htons port) inet_addr, 0%nat).

(** ** What they promise *)

Lemma lookup_loop_spec retry : ∀ lookups,
  (retry < length lookups)%nat →
  ∃ i x, lookup_loop retry lookups = Ok (x, S i) ∧ lookups !! i = Some x ∧ (i ≤ retry)%nat ∧
    (∀ j y, (j < i)%nat → lookups !! j = Some y → y = (EAI_AGAIN, None)) ∧
    (x = (EAI_AGAIN, None) → i = retry).
Proof.
  induction retry as [|retry IH]; intros [|[rs info] lookups] Hlen; cbn [length] in Hlen; try lia;
    cbn [lookup_loop].
  - exists 0%nat, (rs, info). destruct (_ && _); split_and!; done || lia.
  - destruct (bool_decide (info = None) && (rs =? EAI_AGAIN)) eqn:Hagain.
    + apply andb_true_iff in Hagain as [->%bool_decide_eq_true ->%Z.eqb_eq].
      destruct (IH lookups) as (i & x & Hl & Hx & Hi & Hj & Hlast); [lia|].
      exists (S i), x. rewrite Hl. destruct x as [rs info]. split; [done|]. split; [done|].
      split; [lia|]. split; [|intros He; f_equal; by apply Hlast].
      intros [|j] y Hji Hy; [by injection Hy|]. apply (Hj j); [lia|done].
    + exists 0%nat, (rs, info). split; [done|]. split; [done|]. split; [lia|]. split; [lia|].
      intros [= -> ->]. by rewrite bool_decide_true in Hagain.
Qed.

(** C35: [getAddress] ends: it takes a numeric host as it is and asks the resolver
    for any other, again while it says "try again", but no more than six times;
    the last answer decides between the address and the end of the program. *)
Theorem getAddress_ends inet_addr lookups port (Hl : (5 < length lookups)%nat) :
  (inet_addr ≠ INADDR_NONE ∧
   getAddress inet_addr lookups port = Ok (mk_addr AF_INET (htons port) inet_addr, 0%nat)) ∨
  inet_addr = INADDR_NONE ∧
  ∃ i rs info, (i < 6)%nat ∧ lookups !! i = Some (rs, info) ∧
    (∀ j y, (j < i)%nat → lookups !! j = Some y → y = (EAI_AGAIN, None)) ∧
    getAddress inet_addr lookups port =
      match rs, info with
      | 0, Some (2, a) => Ok (mk_addr AF_INET (htons port) a, S i)
      | _, _ => Assert
      end.
Proof.
  unfold getAddress. destruct (Z.eqb_spec inet_addr INADDR_NONE) as [->|Hne]; [|by left].
  right. split; [done|]. destruct (lookup_loop_spec 5 lookups Hl) as (i & [rs info] & Hlo & Hx & Hi & Hj & _).
  exists i, rs, info. split; [lia|]. split; [done|]. split; [done|]. rewrite Hlo.
  cbn [mbind outcome_bind]. destruct (Z.eqb_spec rs 0) as [->|Hrs].
  - destruct info as [[f a]|]; [|done]. cbn [assert_ mbind outcome_bind].
    destruct (Z.eqb_spec f AF_INET) as [->|Hf]; [done|]. by destruct f as [|[p|[p|p|]|]|].
  - cbn [assert_ mbind outcome_bind]. by destruct rs.
Qed.

Lemma getAddress_ends_witness :
  ∃ a n, getAddress INADDR_NONE ([(EAI_AGAIN, None); (EAI_AGAIN, None); (0, Some (AF_INET, 16777343))]
                       ++ replicate 3 (EAI_AGAIN, None)) 9877 = Ok (a, n) ∧ (n ≤ 6)%nat.
Proof.
  destruct (getAddress_ends INADDR_NONE ([(EAI_AGAIN, None); (EAI_AGAIN, None); (0, Some (AF_INET, 16777343))]
    ++ replicate 3 (EAI_AGAIN, None)) 9877) as [[? _]|(_ & i & rs & info & Hi & Hx & Hj & Hg)].
  - cbn. lia.
  - contradiction.
  - assert (i = 2%nat) as ->.
    { destruct i as [|[|[|i]]]; [cbn in Hx; injection Hx as <- <-; discriminate Hg|
        cbn in Hx; injection Hx as <- <-; discriminate Hg|reflexivity|].
      specialize (Hj 2%nat _ ltac:(lia) eq_refl). discriminate Hj. }
    cbn in Hx. injection Hx as <- <-. eexists _, 3%nat. split; [exact Hg|lia].
Defined.

(** Switching a descriptor between the two modes changes nothing but the flag. *)
Lemma block_flags_spec block flags i :
  0 ≤ i → Z.testbit (block_flags block flags) i =
          if bool_decide (i = 11) then negb block else Z.testbit flags i.
Proof.
  intros Hi. unfold block_flags, O_NONBLOCK. destruct block.
  - rewrite Z.land_spec, Z.lnot_spec, Z.pow2_bits_eqb by done.
    case_bool_decide as H11; [subst; by rewrite andb_false_r|].
    rewrite (proj2 (Z.eqb_neq _ _)) by done. by rewrite andb_true_r.
  - rewrite Z.lor_spec, Z.pow2_bits_eqb by done.
    case_bool_decide as H11; [subst; by rewrite orb_true_r|].
    rewrite (proj2 (Z.eqb_neq _ _)) by done. by rewrite orb_false_r.
Qed.

End NetworkUtil.

(** ** ClientSocket.h, ClientSocket.cc *)

Module EndPoint.

Record t := mk { host_ : bytes; port_ : Z }.

(** The default constructor, and the one with a host and a port. *)
Definition init : t := mk [] 0.
Definition new (host : bytes) (port : Z) : t := mk host port.

(** The copy constructor and the assignment. *)
Definition copy (end_point : t) : t := mk (host_ end_point) (port_ end_point).
Definition assign (self : bool) (end_point e : t) : t :=
  if negb self then mk (host_ end_point) (port_ end_point) else e.

Definition set_host (host : bytes) (e : t) : t := mk host (port_ e).
Definition get_host (e : t) : bytes := host_ e.
Definition set_port (port : Z) (e : t) : t := mk (host_ e) port.
Definition get_port (e : t) : Z := port_ e.

End EndPoint.

(** ** Socket.h, Socket.cc *)

Module Socket.
Import Kernel.

Record t := mk { fd_ : Z; owner_ : bool; domain_ : Z }.

Definition init_members : t := mk NetworkUtil.INVALID_SOCKET true AF_INET.

Definition fd (s : t) : Z := fd_ s.
Definition valid (s : t) : bool := negb (fd_ s =? -1).
Definition set_owner (owner : bool) (s : t) : t := mk (fd_ s) owner (domain_ s).

Definition close (s : t) (k : Kernel.t) : t * Kernel.t :=
  if negb (fd_ s =? NetworkUtil.INVALID_SOCKET)
  then (mk NetworkUtil.INVALID_SOCKET (owner_ s) (domain_ s), Kernel.close (fd_ s) k)
  else (s, k).

(** [~Socket] *)
Definition destroy (s : t) (k : Kernel.t) : Kernel.t :=
  if owner_ s then (close s k).2 else k.

Definition init (fd : Z) (owner : bool) (domain : Z) (s : t) (k : Kernel.t) : t * Kernel.t :=
  let k := if owner_ s then (close s k).2 else k in
  (mk fd owner domain, k).

(** The socket that is made is a stream whatever [socketType] is. *)
Definition createSocket (socketType domain : Z) (s : t) (k : Kernel.t) : outcome (t * Kernel.t) :=
  _ ← assert_ ((socketType =? SOCK_STREAM) || (socketType =? SOCK_DGRAM));
  let (s, k) := close s k in
  '(fd, k) ← NetworkUtil.createSocket false (domain =? PF_LOCAL) k;
  Ok (mk fd (owner_ s) domain, k).

(** The resolver: the result of [inet_pton] and the address it stores when that
    is 1, and the address [gethostbyname_r] finds. *)
Section Resolver.
Variables (inet_pton : bytes → Z * Z) (gethostbyname : bytes → option Z).

Definition parseAddr (addr : bytes) (sinaddr : Z) : Z :=
  let (ret, a) := inet_pton addr in
  if ret <? 0 then sinaddr
  else if ret =? 0 then
    match gethostbyname addr with
    | None => sinaddr
    | Some a => a
    end
  else a.

Definition INADDR_ANY : Z := 0.

(** The result of the [setsockopt] is not looked at. *)
Definition bind (seraddr : bytes) (port : Z) (s : t) (k : Kernel.t) : outcome Kernel.t :=
  _ ← assert_ (domain_ s =? AF_INET);
  let a := if bool_decide (seraddr = []) then INADDR_ANY else parseAddr seraddr 0 in
  '(_, _, k) ← sys (SetSockOpt (fd_ s) SOL_SOCKET SO_REUSEADDR [1]) k;
  NetworkUtil.bind (fd_ s) (mk_addr (domain_ s) (htons port) a) k.

Definition connect (ser_addr : bytes) (port : Z) (s : t) (k : Kernel.t) : outcome Kernel.t :=
  _ ← assert_ (domain_ s =? AF_INET);
  '(_, k) ← NetworkUtil.connect (fd_ s) (mk_addr (domain_ s) (htons port) (parseAddr ser_addr 0)) k;
  Ok k.

(** A failure is only logged. *)
Definition listen (backlog : Z) (s : t) (k : Kernel.t) : outcome Kernel.t :=
  '(_, _, k) ← sys (Listen (fd_ s) backlog) k; Ok k.

(** The loop of [accept]: [::accept] again while a signal interrupts it. *)
Fixpoint accept_loop (fd : Z) (answers : list (Z * Z)) (calls : list (call * option Z))
    : outcome (Z * Z * Kernel.t) :=
  match answers with
  | [] => Spin
  | (ret, errno) :: answers =>
      let calls := calls ++ [(Accept fd, Some ret)] in
      if (ret <? 0) && (errno =? EINTR) then accept_loop fd answers calls
      else Ok (ret, errno, Kernel.mk answers calls)
  end.

(** The result, [errno] for the caller, and the socket [sock]. *)
Definition accept (sock s : t) (k : Kernel.t) : outcome (Z * Z * t * Kernel.t) :=
  _ ← assert_ (fd_ sock =? NetworkUtil.INVALID_SOCKET);
  '(fd, errno, k) ← accept_loop (fd_ s) (answers k) (calls k);
  Ok (fd, errno, mk fd (owner_ sock) (domain_ s), k).

Definition set_block (block : bool) (s : t) (k : Kernel.t) : outcome Kernel.t :=
  NetworkUtil.set_block (fd_ s) block k.
Definition set_keepAlive (s : t) (k : Kernel.t) : outcome Kernel.t :=
  NetworkUtil.set_keepAlive (fd_ s) k.
Definition set_tcpNoDelay (s : t) (k : Kernel.t) : outcome Kernel.t :=
  NetworkUtil.set_tcpNoDealy (fd_ s) k.

(** [linger] with [l_onoff] and [l_linger]; a failure ends the program. *)
Definition set_linger (l_onoff l_linger : Z) (s : t) (k : Kernel.t) : outcome Kernel.t :=
  '(ret, _, k) ← sys (SetSockOpt (fd_ s) SOL_SOCKET SO_LINGER [l_onoff; l_linger]) k;
  if ret =? -1 then Assert else Ok k.
Definition set_noCloseWait : t → Kernel.t → outcome Kernel.t := set_linger 1 0.
Definition set_closeWaitDefault : t → Kernel.t → outcome Kernel.t := set_linger 0 0.

(** The result, and the address and the port of the sender [from], which are
    written only when there is a result; [inet_ntop] by domain and address, which
    leaves the empty string when it fails. *)
Definition recvfrom (inet_ntop : Z → Z → bytes) (len flags : Z) (from : sockaddr_in) (s : t)
    (k : Kernel.t) : outcome (Z * option (bytes * Z) * Kernel.t) :=
  '(bytes, _, k) ← sys (Recvfrom (fd_ s) len flags) k;
  if 0 <=? bytes
  then Ok (bytes, Some (inet_ntop (domain_ s) (s_addr from), htons (sin_port from)), k)
  else Ok (bytes, None, k).

(** [NetThread::bind(end_point, socket)] *)
Definition NetThread_bind (end_point : EndPoint.t) (s : t) (k : Kernel.t)
    : outcome (t * Kernel.t) :=
  '(s, k) ← createSocket SOCK_STREAM AF_INET s k;
  k ← bind (EndPoint.get_host end_point) (EndPoint.get_port end_point) s k;
  k ← listen 100 s k;
  k ← set_keepAlive s k;
  k ← set_tcpNoDelay s k;
  k ← set_noCloseWait s k;
  k ← set_block false s k;
  Ok (s, k).

(** The sockets of [NetThread::accept]: the one of the client does not own its
    descriptor, the other has the listening descriptor without owning it; both are
    destroyed at the end. *)
Definition NetThread_accept (listenfd : Z) (k : Kernel.t) : outcome (Z * Z * Kernel.t) :=
  let client_socket := set_owner false init_members in
  let '(receive_socket, k) := init listenfd false AF_INET init_members k in
  '(ret, errno, client_socket, k) ← accept client_socket receive_socket k;
  k ← (if 0 <? ret then
         k ← set_block false client_socket k;
         k ← set_keepAlive client_socket k;
         k ← set_tcpNoDelay client_socket k;
         set_closeWaitDefault client_socket k
       else Ok k);
  Ok (ret, errno, destroy client_socket (destroy receive_socket k)).

(** *** The operations of a socket

    [accept], which hands a descriptor from one socket to another, is not among
    them. *)

Inductive op :=
| Init (fd : Z) (owner : bool) (domain : Z)
| SetOwner (owner : bool)
| Create (socketType domain : Z)
| BindTo (seraddr : bytes) (port : Z)
| ListenTo (backlog : Z)
| ConnectTo (ser_addr : bytes) (port : Z)
| CloseIt
| Block (block : bool)
| KeepAlive
| TcpNoDelay
| NoCloseWait
| CloseWaitDefault
| BindEndPoint (end_point : EndPoint.t).

Definition perform (o : op) (s : t) (k : Kernel.t) : outcome (t * Kernel.t) :=
  let keeps (m : outcome Kernel.t) := k ← m; Ok (s, k) in
  match o with
  | Init fd owner domain => Ok (init fd owner domain s k)
  | SetOwner owner => Ok (set_owner owner s, k)
  | Create socketType domain => createSocket socketType domain s k
  | BindTo a p => keeps (bind a p s k)
  | ListenTo n => keeps (listen n s k)
  | ConnectTo a p => keeps (connect a p s k)
  | CloseIt => Ok (close s k)
  | Block b => keeps (set_block b s k)
  | KeepAlive => keeps (set_keepAlive s k)
  | TcpNoDelay => keeps (set_tcpNoDelay s k)
  | NoCloseWait => keeps (set_noCloseWait s k)
  | CloseWaitDefault => keeps (set_closeWaitDefault s k)
  | BindEndPoint e => NetThread_bind e s k
  end.

Fixpoint perform_all (ops : list op) (s : t) (k : Kernel.t) : outcome (t * Kernel.t) :=
  match ops with
  | [] => Ok (s, k)
  | o :: ops => '(s, k) ← perform o s k; perform_all ops s k
  end.

End Resolver.
End Socket.

(** ** What a socket promises *)

Module SocketFacts.
Import Kernel Socket.

(** A value with the state of the kernel in it. *)
Class HasKernel (X : Type) := kern : X → Kernel.t.
#[local] Instance kern_kernel : HasKernel Kernel.t := λ k, k.
#[local] Instance kern_pair A : HasKernel (A * Kernel.t) := snd.

(** No call fails. *)
Definition good (k : Kernel.t) : Prop := Forall (λ a : Z * Z, 0 ≤ a.1) (answers k).

(** [fine] says that the socket is used as it is meant to be. *)
Section Facts.
Context (fine : Prop).

(** [m] makes at most [n] calls, ends the program only when one of them fails or
    the socket is misused, and its result satisfies [Q]. *)
Definition within `{HasKernel X} (n : nat) (k : Kernel.t) (Q : X → Prop) (m : outcome X) : Prop :=
  match m with
  | Ok x => Q x ∧ ∃ l, (length l ≤ n)%nat ∧ answers k = l ++ answers (kern x)
  | Assert => fine → ¬ good k
  | Spin => (length (answers k) < n)%nat
  | _ => False
  end.

Lemma within_ret `{HasKernel X} n k (Q : X → Prop) x :
  Q x → answers (kern x) = answers k → within n k Q (Ok x).
Proof. intros HQ Ha. split; [done|]. exists []. cbn. split; [lia|done]. Qed.

Lemma within_bind `{HasKernel X, HasKernel Y} a b n k (Q : X → Prop) (R : Y → Prop) m (f : X → outcome Y) :
  within a k Q m → (∀ x, Q x → within b (kern x) R (f x)) → (a + b ≤ n)%nat →
  within n k R (m ≫= f).
Proof.
  intros Hm Hf Hn. destruct m as [x| | | |]; cbn [within mbind outcome_bind] in *; try done; [|lia].
  destruct Hm as (HQ & l & Hl & Ha). specialize (Hf x HQ). destruct (f x) as [y| | | |]; cbn [within] in *; try done.
  - destruct Hf as (HR & l' & Hl' & Ha'). split; [done|]. exists (l ++ l').
    rewrite length_app, Ha, Ha'. split; [lia|]. by rewrite app_assoc.
  - unfold good in *. rewrite Ha, Forall_app. tauto.
  - rewrite Ha, length_app. lia.
Qed.

Lemma within_mono `{HasKernel X} n n' k (Q R : X → Prop) m :
  within n k Q m → (n ≤ n')%nat → (∀ x, Q x → R x) → within n' k R m.
Proof.
  destruct m; cbn [within]; try tauto; [|lia]. intros (HQ & l & Hl & Ha) Hn HR.
  split; [by apply HR|]. exists l. split; [lia|done].
Qed.

(** The descriptors that were opened and closed are the same as before. *)
Definition same (k k' : Kernel.t) : Prop := opened k' = opened k ∧ closed k' = closed k.

Lemma same_trans k1 k2 k3 : same k1 k2 → same k2 k3 → same k1 k3.
Proof. intros [??] [??]. split; congruence. Qed.

Definition neutral (c : call) : bool :=
  match c with Socket _ _ | Close _ => false | _ => true end.

Lemma sys_within c k :
  within 1 k (λ x, (good k → 0 ≤ x.1.1) ∧
                   opened x.2 = opened k ++
                     (match c with
                      | Socket _ _ => if x.1.1 =? -1 then [] else [x.1.1]
                      | _ => [] end) ∧
                   (neutral c = true ∨ (∃ d t, c = Socket d t) → closed x.2 = closed k))
    (sys c k).
Proof.
  unfold sys. destruct (answers k) as [|[ret errno] l] eqn:Ha; cbn [within].
  { rewrite Ha. cbn. lia. }
  split.
  - unfold good. rewrite Ha. cbn [fst snd]. split; [intros Hg; by apply Forall_inv in Hg|].
    unfold opened, closed. cbn [calls]. rewrite !omap_app. cbn. split.
    + destruct c; try done. by destruct (ret =? -1).
    + intros [Hc|(d & t & ->)]; [destruct c; try done|]; by rewrite app_nil_r.
  - exists [(ret, errno)]. split; [done|]. by rewrite Ha.
Qed.

Lemma sys_neutral c k : neutral c = true →
  within 1 k (λ x, (good k → 0 ≤ x.1.1) ∧ same k x.2) (sys c k).
Proof.
  intros Hc. eapply within_mono; [apply sys_within|done|]. intros x (Hg & Ho & Hcl).
  split; [done|]. split; [|by apply Hcl; left]. rewrite Ho. destruct c; try done; by rewrite app_nil_r.
Qed.

(** A call whose failure ends the program. *)
Lemma fatal_within (b : Z → bool) c k : neutral c = true → (∀ r, 0 ≤ r → b r = false) →
  within 1 k (same k) ('(ret, _, k) ← sys c k; if b ret then Assert else Ok k).
Proof.
  intros Hc Hb. pose proof (sys_neutral c k Hc) as Hs. destruct (sys c k) as [[[ret e] k']| | | |]; try done.
  cbn [within mbind outcome_bind fst snd kern kern_pair kern_kernel] in *. destruct Hs as ((Hg & Hsame) & l & Hl & Ha).
  destruct (b ret) eqn:Hbr; cbn [within]; [|by eauto].
  intros _ Hgood. rewrite Hb in Hbr; [done|auto].
Qed.

Lemma checked_within fd c k : neutral c = true → within 1 k (same k) (NetworkUtil.checked fd c k).
Proof.
  intros Hc. apply (fatal_within (λ r, r =? NetworkUtil.SOCKET_ERROR)); [done|].
  intros r Hr. apply Z.eqb_neq. unfold NetworkUtil.SOCKET_ERROR. lia.
Qed.

(** A call whose result is dropped. *)
Lemma ignored_within {X} `{HasKernel X} n m c k (Q : X → Prop) (f : Kernel.t → outcome X) :
  neutral c = true → (∀ k', same k k' → within m k' Q (f k')) → (S m ≤ n)%nat →
  within n k Q ('(_, _, k) ← sys c k; f k).
Proof.
  intros Hc Hf Hn. eapply (within_bind 1 m); [by apply sys_neutral| |lia].
  intros [[ret e] k'] [_ Hs]. by apply Hf.
Qed.

(** The calls of the wrappers. *)
Lemma set_block_within b fd k : within 2 k (same k) (NetworkUtil.set_block fd b k).
Proof.
  eapply (within_bind 1 1); [by apply (sys_neutral (GetFlags fd))| |done].
  intros [[flags e] k'] [_ Hs]. eapply within_mono; [by apply checked_within|done|].
  intros k2. by apply same_trans.
Qed.

Lemma connect_within fd addr k : within 1 k (λ x, same k x.2) (NetworkUtil.connect fd addr k).
Proof.
  pose proof (sys_neutral (Connect fd addr) k eq_refl) as Hs. unfold NetworkUtil.connect.
  destruct (sys _ k) as [[[ret e] k']| | | |]; try done.
  cbn [within mbind outcome_bind fst snd kern kern_pair] in *. destruct Hs as ((Hg & Hsame) & l & Hl & Ha).
  destruct (ret =? 0); [split; [done|by exists l]|].
  destruct ((ret =? -1) && _) eqn:Hr; cbn [within]; [|split; [done|by exists l]].
  intros _ Hgood. apply andb_true_iff in Hr as [->%Z.eqb_eq _]. specialize (Hg Hgood). lia.
Qed.

Lemma createSocket_within local k :
  within 3 k (λ x, closed x.2 = closed k ∧ opened x.2 = opened k ++ [x.1] ∧ x.1 ≠ -1)
    (NetworkUtil.createSocket false local k).
Proof.
  unfold NetworkUtil.createSocket.
  pose proof (sys_within (Socket (if local then PF_LOCAL else AF_INET) SOCK_STREAM) k) as Hs.
  destruct (sys _ k) as [[[fd e] k1]| | | |]; cbn [within mbind outcome_bind] in *; try done; [|lia].
  cbn [fst snd kern kern_pair] in Hs. destruct Hs as ((Hg & Ho & Hc) & l & Hl & Ha).
  specialize (Hc (or_intror (ex_intro _ _ (ex_intro _ _ eq_refl)))).
  unfold NetworkUtil.INVALID_SOCKET. destruct (Z.eqb_spec fd (-1)) as [->|Hfd];
    cbn [negb assert_ mbind outcome_bind within].
  { intros _ Hgood. specialize (Hg Hgood). lia. }
  assert (within 2 k1 (same k1) (k ← NetworkUtil.set_tcpNoDealy fd k1; NetworkUtil.set_keepAlive fd k)) as Hw.
  { eapply (within_bind 1 1); [by apply checked_within| |done]. intros k2 Hs2.
    eapply within_mono; [by apply checked_within|done|]. intros k3. by apply same_trans. }
  destruct (k ← NetworkUtil.set_tcpNoDealy fd k1; _) as [k2| | | |]; cbn [within mbind outcome_bind kern kern_pair kern_kernel] in *;
    try done.
  - destruct Hw as ((Ho2 & Hc2) & l2 & Hl2 & Ha2). cbn [fst snd]. split.
    + split_and!; [congruence|congruence|done].
    + exists (l ++ l2). rewrite length_app, Ha, Ha2. split; [lia|by rewrite app_assoc].
  - unfold good in *. rewrite Ha, Forall_app. tauto.
  - rewrite Ha, length_app. lia.
Qed.

(** A socket with the descriptors [given] to it and those that it has [gone] away
    from without owning them: all others that were opened are closed but the one
    it has. *)
Definition held (s : Socket.t) : list Z := if fd_ s =? -1 then [] else [fd_ s].

Definition balanced (given gone : list Z) (x : Socket.t * Kernel.t) : Prop :=
  (fine → domain_ x.1 = AF_INET) ∧ opened x.2 ++ given ≡ₚ closed x.2 ++ gone ++ held x.1.

Lemma closed_close fd k : closed (Kernel.close fd k) = closed k ++ [fd].
Proof. unfold closed. cbn [calls Kernel.close]. by rewrite omap_app. Qed.

Lemma opened_close fd k : opened (Kernel.close fd k) = opened k.
Proof. unfold opened. cbn [calls Kernel.close]. rewrite omap_app. apply app_nil_r. Qed.

Lemma close_balanced given gone s k : balanced given gone (s, k) →
  balanced given gone (close s k) ∧ held (close s k).1 = [] ∧ answers (close s k).2 = answers k.
Proof.
  unfold balanced, held, close, NetworkUtil.INVALID_SOCKET. cbn [fst snd].
  destruct (Z.eqb_spec (fd_ s) (-1)) as [He|He]; cbn [negb fst snd fd_ owner_ domain_].
  - rewrite He. intros (Hd & Hp). by split_and!.
  - intros (Hd & Hp). rewrite closed_close, opened_close, app_nil_r. split_and!; try done.
    rewrite Hp, <- app_assoc. f_equiv. apply Permutation_app_comm.
Qed.

Lemma same_balanced given gone s k k' :
  balanced given gone (s, k) → same k k' → balanced given gone (s, k').
Proof. intros (Hd & Hp) [Hop Hcl]. unfold balanced. cbn [fst snd] in *. by rewrite Hop, Hcl. Qed.

(** The descriptor that a socket leaves when it is given another one or destroyed. *)
Definition left_open (s : Socket.t) : list Z := if owner_ s then [] else held s.

(** What the destructor, and the start of [init], do. *)
Lemma destroy_balanced given gone s k : balanced given gone (s, k) →
  opened (destroy s k) ++ given ≡ₚ closed (destroy s k) ++ gone ++ left_open s ∧
  answers (destroy s k) = answers k.
Proof.
  intros Hb. destruct (close_balanced given gone s k Hb) as ((_ & Hp) & Hh & Ha).
  unfold destroy, left_open. destruct (owner_ s); [|split; [apply Hb|done]].
  rewrite Hh in Hp. by split.
Qed.

Section Operations.
Variables (inet_pton : bytes → Z * Z) (gethostbyname : bytes → option Z).

Lemma create_within given gone ty domain s k :
  (fine → (ty = SOCK_STREAM ∨ ty = SOCK_DGRAM) ∧ domain = AF_INET) → balanced given gone (s, k) →
  within 3 k (balanced given gone) (createSocket ty domain s k).
Proof.
  intros Ht Hb. destruct (close_balanced given gone s k Hb) as ((_ & Hp) & Hh & Ha).
  unfold createSocket. destruct ((ty =? SOCK_STREAM) || (ty =? SOCK_DGRAM)) eqn:Hty.
  2:{ intros Hf. apply orb_false_iff in Hty as [H1%Z.eqb_neq H2%Z.eqb_neq]. tauto. }
  cbn [assert_ mbind outcome_bind]. destruct (close s k) as [s1 k1]. cbn [fst snd] in *.
  rewrite Hh, app_nil_r in Hp.
  pose proof (createSocket_within (domain =? PF_LOCAL) k1) as Hw.
  destruct (NetworkUtil.createSocket _ _ k1) as [[fd k2]| | | |];
    cbn [within mbind outcome_bind fst snd kern kern_pair] in *; unfold good in *; rewrite <- ?Ha; try done.
  destruct Hw as ((Hc2 & Ho2 & Hfd) & l & Hl & Ha2). split; [|by exists l].
  split; [intros Hf; apply (Ht Hf)|]. cbn [fst snd]. unfold held. cbn [fd_].
  rewrite (proj2 (Z.eqb_neq _ _) Hfd), Hc2, Ho2, app_assoc, <- Hp. rewrite <- !app_assoc. f_equiv. apply Permutation_app_comm.
Qed.

Lemma bind_within a p s k : (fine → domain_ s = AF_INET) →
  within 3 k (same k) (bind inet_pton gethostbyname a p s k).
Proof.
  intros Hd. unfold bind. destruct (Z.eqb_spec (domain_ s) AF_INET) as [_|Hne]; [|by intros Hf; destruct Hne; apply Hd].
  cbn [assert_ mbind outcome_bind].
  apply (ignored_within 3 2); [done| |lia]. intros k1 Hs1.
  eapply (within_bind 1 1); [by apply checked_within| |done]. intros k2 Hs2.
  apply (ignored_within 1 0); [done| |lia]. intros k3 Hs3. apply within_ret; [|done].
  by eapply same_trans; [|eapply same_trans].
Qed.

Lemma listen_within n s k : within 1 k (same k) (listen n s k).
Proof. apply (ignored_within 1 0); [done| |lia]. intros k1 Hs. by apply within_ret. Qed.

Lemma connect_socket_within a p s k : (fine → domain_ s = AF_INET) →
  within 1 k (same k) (connect inet_pton gethostbyname a p s k).
Proof.
  intros Hd. unfold connect. destruct (Z.eqb_spec (domain_ s) AF_INET) as [_|Hne]; [|by intros Hf; destruct Hne; apply Hd].
  cbn [assert_ mbind outcome_bind].
  eapply (within_bind 1 0); [apply connect_within| |done]. intros [b k1] Hs. by apply within_ret.
Qed.

Lemma linger_within a b s k : within 1 k (same k) (set_linger a b s k).
Proof.
  apply (fatal_within (λ r, r =? -1)); [done|]. intros r Hr. apply Z.eqb_neq. lia.
Qed.

(** An operation that leaves the socket as it is. *)
Lemma keeps_within n given gone s k m : balanced given gone (s, k) → within n k (same k) m →
  within n k (balanced given gone) (k ← m; Ok (s, k)).
Proof.
  intros Hb Hm. eapply (within_bind n 0); [done| |lia]. intros k1 Hs.
  apply within_ret; [|done]. by eapply same_balanced.
Qed.

Lemma NetThread_bind_within given gone e s k : balanced given gone (s, k) →
  within 12 k (balanced given gone) (NetThread_bind inet_pton gethostbyname e s k).
Proof.
  intros Hb. unfold NetThread_bind.
  eapply (within_bind 3 9); [by apply create_within; [by split; [left|]|]| |done]. intros [s1 k1] Hb1.
  change (kern (s1, k1)) with k1. set (m := bind _ _ _ _ s1 k1).
  assert (fine → domain_ s1 = AF_INET) as Hd by apply Hb1.
  eapply (within_bind 3 6); [by apply bind_within| |done]. intros k2 Hs2.
  eapply (within_bind 1 5); [apply listen_within| |done]. intros k3 Hs3.
  eapply (within_bind 1 4); [by apply checked_within| |done]. intros k4 Hs4.
  eapply (within_bind 1 3); [by apply checked_within| |done]. intros k5 Hs5.
  eapply (within_bind 1 2); [apply linger_within| |done]. intros k6 Hs6.
  apply (keeps_within 2); [|apply set_block_within].
  eapply same_balanced; [apply Hb1|]. do 5 (eapply same_trans; [eassumption|]). by split.
Qed.

(** The descriptors that [Init] hands to the socket. *)
Definition given_to (o : op) : list Z :=
  match o with Init fd _ _ => if fd =? -1 then [] else [fd] | _ => [] end.

(** Those that it leaves, which it does not own. *)
Definition leaves (o : op) (s : Socket.t) : list Z :=
  match o with Init _ _ _ => left_open s | _ => [] end.

(** The uses that no assertion is against. *)
Definition allowed (o : op) : Prop :=
  match o with
  | Init _ _ domain => domain = AF_INET
  | Create ty domain => (ty = SOCK_STREAM ∨ ty = SOCK_DGRAM) ∧ domain = AF_INET
  | _ => True
  end.

Lemma perform_within given gone o s k : (fine → allowed o) → balanced given gone (s, k) →
  within 12 k (balanced (given ++ given_to o) (gone ++ leaves o s)) (perform inet_pton gethostbyname o s k).
Proof.
  intros Ha Hb. assert (fine → domain_ s = AF_INET) as Hd by apply Hb.
  destruct o; cbn [perform given_to leaves allowed] in *; rewrite ?app_nil_r.
  all: try (eapply (within_mono 3); [apply keeps_within; [exact Hb|]|lia|done]).
  all: try by (eapply within_mono; [apply checked_within|lia|]).
  - destruct (destroy_balanced given gone s k Hb) as [Hp Hans].
    change (init fd0 owner domain s k) with (mk fd0 owner domain, destroy s k).
    apply within_ret; [|exact Hans]. split; [done|]. cbn [fst snd].
    by rewrite app_assoc, Hp, <- !app_assoc.
  - apply within_ret; [|done]. exact Hb.
  - eapply within_mono; [by apply create_within|lia|done].
  - by apply bind_within.
  - eapply within_mono; [apply listen_within|lia|done].
  - eapply within_mono; [by apply connect_socket_within|lia|done].
  - destruct (close_balanced given gone s k Hb) as (Hbal & _ & Hans). by apply within_ret.
  - eapply within_mono; [apply set_block_within|lia|done].
  - eapply within_mono; [apply linger_within|lia|done].
  - eapply within_mono; [apply linger_within|lia|done].
  - by apply NetThread_bind_within.
Qed.

(** The descriptors that a socket has left open, without owning them, at the end of
    its life. *)
Fixpoint abandoned (ops : list op) (s : Socket.t) (k : Kernel.t) : list Z :=
  match ops with
  | [] => left_open s
  | o :: ops =>
      leaves o s ++ match perform inet_pton gethostbyname o s k with
                    | Ok (s, k) => abandoned ops s k
                    | _ => []
                    end
  end.

Lemma perform_all_within ops : ∀ given gone s k, (fine → Forall allowed ops) → balanced given gone (s, k) →
  within (12 * length ops) k
    (λ x, opened (destroy x.1 x.2) ++ given ++ concat (given_to <$> ops) ≡ₚ
          closed (destroy x.1 x.2) ++ gone ++ abandoned ops s k)
    (perform_all inet_pton gethostbyname ops s k).
Proof.
  induction ops as [|o ops IH]; intros given gone s k Hall Hb.
  - apply within_ret; [|done]. cbn [fst snd fmap list_fmap concat abandoned]. rewrite app_nil_r.
    by apply destroy_balanced.
  - cbn [perform_all fmap list_fmap concat abandoned].
    pose proof (perform_within given gone o s k (λ Hf, Forall_inv (Hall Hf)) Hb) as Ho.
    eapply (within_bind 12 (12 * length ops) _ _ (λ x, balanced _ _ x ∧ perform inet_pton gethostbyname o s k = Ok x));
      [|clear Ho|cbn [length]; lia].
    { destruct (perform _ _ o s k); cbn [within] in *; try done. by destruct Ho. }
    intros [s1 k1] [Hb1 ->]. rewrite (app_assoc given), (app_assoc gone).
    apply IH; [|done]. intros Hf. by apply (Forall_inv_tail (Hall Hf)).
Qed.

End Operations.
End Facts.

(** C30: a socket closes what it owns: whatever is done with it -- creating it anew,
    handing it descriptors, taking its ownership away or giving it back, binding,
    connecting, listening, setting options -- once it is destroyed the descriptors
    that have been closed, together with those that it was told to leave for another
    one, or had at its end, without owning them, are those that [::socket] returned
    and those that were handed to it, each as often.  The program ends before that
    only when a call of the operating system fails, or when the type of a socket is
    neither that of a stream nor of datagrams, or its domain not [AF_INET], against
    which there are assertions.  ([accept] is not among the operations.) *)
Theorem socket_closes_what_it_opens inet_pton gethostbyname ops answers
    (Hlen : (12 * length ops ≤ length answers)%nat) :
  match perform_all inet_pton gethostbyname ops init_members (Kernel.mk answers []) with
  | Ok (s, k) =>
      closed (destroy s k) ++ abandoned inet_pton gethostbyname ops init_members (Kernel.mk answers []) ≡ₚ
      opened (destroy s k) ++ concat (given_to <$> ops)
  | Assert => Exists (λ a, a.1 < 0) answers ∨ ¬ Forall allowed ops
  | _ => False
  end.
Proof.
  set (k0 := Kernel.mk answers []).
  assert (balanced (Forall allowed ops) [] [] (init_members, k0)) as Hb by done.
  pose proof (perform_all_within (Forall allowed ops) inet_pton gethostbyname ops [] [] _ _ id Hb) as Hw.
  destruct (perform_all _ _ ops _ _) as [[s k]| | | |]; cbn [within] in Hw; try done.
  - destruct Hw as [Hp _]. symmetry. exact Hp.
  - destruct (decide (Exists (λ a : Z * Z, a.1 < 0) answers)) as [He|Hno]; [by left|]. right.
    intros Hall. apply (Hw Hall). apply not_Exists_Forall in Hno; [|intros a; apply _].
    eapply Forall_impl; [exact Hno|]. intros a Hn. cbn in Hn. lia.
  - unfold k0 in Hw. cbn [Kernel.answers] in Hw. lia.
Qed.

Definition no_host (addr : bytes) : Z * Z := (0, 0).

Lemma socket_closes_what_it_opens_witness :
  ∃ s k, perform_all no_host (λ _, None)
           [Create SOCK_STREAM AF_INET; BindEndPoint EndPoint.init; Init 5 false AF_INET; Init 9 true AF_INET]
           init_members (Kernel.mk ((7, 0) :: replicate 2 (0, 0) ++ (8, 0) :: replicate 50 (0, 0)) []) = Ok (s, k) ∧
    closed k = [7; 8] ∧ closed (destroy s k) ++ [5] ≡ₚ [7; 8; 5; 9].
Proof.
  pose proof (socket_closes_what_it_opens no_host (λ _, None)
    [Create SOCK_STREAM AF_INET; BindEndPoint EndPoint.init; Init 5 false AF_INET; Init 9 true AF_INET]
    ((7, 0) :: replicate 2 (0, 0) ++ (8, 0) :: replicate 50 (0, 0))) as H.
  destruct (perform_all _ _ _ _ _) as [[s k]| | | |] eqn:Hp; vm_compute in Hp; try discriminate Hp.
  injection Hp as <- <-. eexists _, _. split; [reflexivity|]. split; [reflexivity|].
  apply H. cbn. lia.
Defined.

(** A failed [bind] after the descriptor was made: the program ends. *)
Example bind_fails :
  perform_all no_host (λ _, None) [BindEndPoint EndPoint.init] init_members
    (Kernel.mk ((7, 0) :: replicate 3 (0, 0) ++ (-1, 98) :: replicate 20 (0, 0)) []) = Assert.
Proof. reflexivity. Qed.

(** A host name that neither [inet_pton] nor the resolver knows is not an
    error: the server is bound to every address of the machine, as it is for the
    empty host. *)
Theorem unknown_host_binds_any inet_pton gethostbyname host port s k
    (Hpton : (inet_pton host).1 = 0) (Hname : gethostbyname host = None) :
  bind inet_pton gethostbyname host port s k = bind inet_pton gethostbyname [] port s k.
Proof.
  unfold bind, parseAddr. destruct (inet_pton host) as [ret a]. cbn [fst] in Hpton. subst.
  rewrite Hname. cbn [Z.ltb Z.compare Z.eqb]. by destruct (bool_decide (host = [])).
Qed.

Lemma unknown_host_binds_any_witness :
  ∃ k, bind no_host (λ _, None) [Ascii.zero] 9877 (mk 7 true AF_INET) (Kernel.mk (replicate 3 (0, 0)) []) = Ok k ∧
    (Bind 7 (mk_addr AF_INET (htons 9877) INADDR_ANY), Some 0) ∈ calls k.
Proof.
  rewrite unknown_host_binds_any; [|reflexivity..]. eexists. split; [reflexivity|].
  vm_compute. right. left.
Defined.

Lemma accept_loop_interrupted fd : ∀ before answers calls,
  Forall (λ a : Z * Z, a.1 < 0 ∧ a.2 = EINTR) before →
  accept_loop fd (before ++ answers) calls =
  accept_loop fd answers (calls ++ ((λ a, (Accept fd, Some a.1)) <$> before)).
Proof.
  induction before as [|[ret e] before IH]; intros answers calls Hb; [by rewrite app_nil_r|].
  apply Forall_cons in Hb as [[Hr He] Hb]. cbn [fst snd] in *. subst.
  cbn [app accept_loop fmap list_fmap fst]. rewrite (proj2 (Z.ltb_lt _ _) Hr), IH by done.
  cbn [Z.eqb EINTR Pos.eqb andb]. by rewrite <- app_assoc.
Qed.

(** [accept] calls the operating system again while a signal interrupts it and
    gives the first other result, an error included, to the socket; nothing is
    closed. *)
Theorem accept_retries before ret errno answers calls (sock s : Socket.t)
    (Hsock : fd_ sock = -1) (Hb : Forall (λ a : Z * Z, a.1 < 0 ∧ a.2 = EINTR) before)
    (Hlast : 0 ≤ ret ∨ errno ≠ EINTR) :
  accept sock s (Kernel.mk (before ++ (ret, errno) :: answers) calls) =
  Ok (ret, errno, mk ret (owner_ sock) (domain_ s),
      Kernel.mk answers (calls ++ ((λ a, (Accept (fd_ s), Some a.1)) <$> before ++ [(ret, errno)]))).
Proof.
  unfold accept, NetworkUtil.INVALID_SOCKET. rewrite Hsock, Z.eqb_refl.
  cbn [assert_ mbind outcome_bind Kernel.answers Kernel.calls].
  rewrite accept_loop_interrupted by done. cbn [accept_loop].
  replace ((ret <? 0) && (errno =? EINTR)) with false.
  - cbn [mbind outcome_bind]. rewrite fmap_app. cbn. by rewrite <- app_assoc.
  - symmetry. apply andb_false_iff. rewrite Z.ltb_ge, Z.eqb_neq. done.
Qed.

(** [NetThread::accept]: when nothing fails, the connection gets the descriptor of
    the client, non-blocking and with its options set; the two sockets of the
    handler, which do not own their descriptors, close neither it nor the
    listening one. *)
Theorem NetThread_accept_keeps before ret errno answers calls listenfd
    (Hb : Forall (λ a : Z * Z, a.1 < 0 ∧ a.2 = EINTR) before) (Hret : 0 < ret)
    (Hgood : Forall (λ a : Z * Z, 0 ≤ a.1) answers) (Hlen : (5 ≤ length answers)%nat) :
  ∃ k, NetThread_accept listenfd (Kernel.mk (before ++ (ret, errno) :: answers) calls) =
         Ok (ret, errno, k) ∧
    closed k = closed (Kernel.mk [] calls) ∧ opened k = opened (Kernel.mk [] calls).
Proof.
  unfold NetThread_accept. cbn [init init_members owner_ set_owner close fd_ Z.eqb negb fst snd
    NetworkUtil.INVALID_SOCKET Pos.eqb].
  rewrite accept_retries by (done || lia). cbn [mbind outcome_bind fst snd].
  rewrite (proj2 (Z.ltb_lt _ _) Hret).
  set (k0 := Kernel.mk answers _). set (c := mk _ _ _).
  assert (within True 5 k0 (same k0) (k ← set_block false c k0; k ← set_keepAlive c k;
                                  k ← set_tcpNoDelay c k; set_closeWaitDefault c k)) as Hw.
  { eapply (within_bind _ 2 3); [apply set_block_within| |done]. intros k1 Hs1.
    eapply (within_bind _ 1 2); [by apply checked_within| |done]. intros k2 Hs2.
    eapply (within_bind _ 1 1); [by apply checked_within| |done]. intros k3 Hs3.
    eapply within_mono; [apply linger_within|done|]. intros k4 Hs4.
    do 3 (eapply same_trans; [eassumption|]). done. }
  assert (same (Kernel.mk [] calls) k0) as Hs0.
  { split; unfold opened, closed, k0; cbn [Kernel.calls]; rewrite omap_app; clear;
      (induction (before ++ _) as [|x l IH]; [apply app_nil_r|exact IH]). }
  destruct (k ← set_block false c k0; _) as [k'| | | |]; cbn [within] in Hw; try done; [|by destruct (Hw I)|cbn in Hw; lia].
  destruct Hw as (Hs & _). destruct (same_trans _ _ _ Hs0 Hs) as [Ho Hc]. by exists k'.
Qed.

End SocketFacts.
