(* ===== verification/ThreadDeque.v ===== *)
(** * ThreadDeque: the locked queue between threads, ThreadDeque.hpp

    [ThreadDeque.t T] has the monitor, the deque and the element count.  Each
    function is one critical section: it starts with the constructor of [Lock]
    and ends with its destructor, and the calls to pthread are recorded in the
    monitor.  During a wait the mutex is free; what the other threads do to the
    object then is the argument [others].  Elements are moved, so [Movable]
    gives the value a moved-from object is left with. *)

From S2P Require Import Prelude.
From S2P Require Import Monitor.

(** What a moved-from element is left with: [std::unique_ptr] is null after a
    move, [uint32_t] is unchanged by one. *)
Class Movable (T : Type) := moved_from : T → T.

#[export] Instance movable_unique_ptr {A} : Movable (option A) := λ _, None.
#[export] Instance movable_uint32 : Movable Z := λ n, n.

Module ThreadDeque.

Record t (T : Type) := mk {
  monitor_ : Monitor.t;
  deque_ : list T;
  size_ : Z
}.
Arguments mk {T}.
Arguments monitor_ {T}.
Arguments deque_ {T}.
Arguments size_ {T}.

Section operations.
Context {T : Type} `{Movable T}.
Implicit Types (d : t T) (element : T) (deque : list T).

Definition init : t T := mk Monitor.init [] 0.

Definition set_monitor (m : Monitor.t) d : t T := mk m (deque_ d) (size_ d).
Definition set_deque (l : list T) (n : Z) d : t T := mk (monitor_ d) l n.

(** The constructor and the destructor of [Lock lock(monitor_)]. *)
Definition lock d : t T := set_monitor (Monitor.lock (monitor_ d)) d.
Definition unlock d : t T := set_monitor (Monitor.unlock (monitor_ d)) d.

Definition notify d : outcome (t T) :=
  m ← Monitor.notify (monitor_ d);
  Ok (set_monitor m d).

(** [monitor_.wait()], while the other threads run [others]. *)
Definition wait (others : t T → t T) d : t T :=
  let d := others (set_monitor (Monitor.wait (monitor_ d)) d) in
  set_monitor (Monitor.set_notify 0 (monitor_ d)) d.

Definition timedWait (millsecond : Z) (rc : bool) (others : t T → t T) d : bool * t T :=
  let '(rc, m) := Monitor.timedWait (i32 millsecond) rc (monitor_ d) in
  let d := others (set_monitor m d) in
  (rc, set_monitor (Monitor.set_notify 0 (monitor_ d)) d).

(** [static_cast<size_t>(-1)]. *)
Definition forever : Z := u64 (-1).

(** The branch of [pop_front] and [swap] for an empty deque: whatever the wait
    brings, the functions go on to return "nothing". *)
Definition wait_branch (millsecond : Z) (rc : bool) (others : t T → t T) d : t T :=
  if millsecond =? 0 then d
  else if millsecond =? forever then wait others d
  else (timedWait millsecond rc others d).2.

Definition pop_front `{Nullable T} (millsecond : Z) (rc : bool) (others : t T → t T) d
    : outcome (T * t T) :=
  let d := lock d in
  match deque_ d with
  | [] => Ok (nullptr, unlock (wait_branch millsecond rc others d))
  | front :: rest =>
      _ ← assert_ (0 <? size_ d);
      Ok (front, unlock (set_deque rest (u64 (size_ d - 1)) d))
  end.

Definition notifyT d : t T :=
  let d := lock d in
  unlock (set_monitor (Monitor.notifyAll (monitor_ d)) d).

(** [push_back(T& element)]; the caller's object is returned moved-from. *)
Definition push_back element d : outcome (T * t T) :=
  let d := lock d in
  d ← notify d;
  Ok (moved_from element,
      unlock (set_deque (deque_ d ++ [element]) (u64 (size_ d + 1)) d)).

Fixpoint push_back_loop deque d : outcome (t T) :=
  match deque with
  | [] => Ok d
  | element :: deque =>
      d ← notify (set_deque (deque_ d ++ [element]) (u64 (size_ d + 1)) d);
      push_back_loop deque d
  end.

(** [push_back(D& deque)]; the caller's deque keeps its moved-from elements. *)
Definition push_back_all deque d : outcome (list T * t T) :=
  d ← push_back_loop deque (lock d);
  Ok (moved_from <$> deque, unlock d).

Definition push_front element d : outcome (T * t T) :=
  let d := lock d in
  d ← notify d;
  Ok (moved_from element,
      unlock (set_deque (element :: deque_ d) (u64 (size_ d + 1)) d)).

Fixpoint push_front_loop deque d : outcome (t T) :=
  match deque with
  | [] => Ok d
  | element :: deque =>
      d ← notify (set_deque (element :: deque_ d) (u64 (size_ d + 1)) d);
      push_front_loop deque d
  end.

Definition push_front_all deque d : outcome (list T * t T) :=
  d ← push_front_loop deque (lock d);
  Ok (moved_from <$> deque, unlock d).

(** [swap(D& deque, millsecond)]: the result and the caller's deque. *)
Definition swap deque (millsecond : Z) (rc : bool) (others : t T → t T) d
    : bool * list T * t T :=
  let d := lock d in
  match deque_ d with
  | [] => (false, deque, unlock (wait_branch millsecond rc others d))
  | _ => (true, deque_ d, unlock (set_deque deque (zlen deque) d))
  end.

Definition size d : Z * t T := let d := lock d in (size_ d, unlock d).

Definition clear d : t T := unlock (set_deque [] 0 (lock d)).

Definition empty d : bool * t T :=
  let d := lock d in (bool_decide (deque_ d = []), unlock d).

End operations.

#[global] Arguments pop_front : simpl never.
#[global] Arguments push_back : simpl never.
#[global] Arguments push_back_all : simpl never.
#[global] Arguments push_front : simpl never.
#[global] Arguments push_front_all : simpl never.
#[global] Arguments swap : simpl never.

(** ** Representation: the deque as a list with a consistent count *)

Section representation.
Context {T : Type} `{Movable T}.
Implicit Types (d : t T) (l deque : list T).

Definition repr d l : Prop := deque_ d = l ∧ size_ d = zlen l ∧ zlen l < 2 ^ 64.

Definition pthread_calls d : list Monitor.call := Monitor.calls (monitor_ d).

(** The calls of a section that asked for [k] notifications. *)
Definition section_calls (k : nat) : list Monitor.call :=
  Monitor.MutexLock :: replicate k Monitor.CondSignal ++ [Monitor.MutexUnlock].

(** Inside a section: the count is right and [k] notifications are recorded. *)
Definition inside d l (cs : list Monitor.call) (k : nat) : Prop :=
  repr d l ∧ Monitor.notify_ (monitor_ d) = Z.of_nat k ∧
  pthread_calls d = cs ++ [Monitor.MutexLock].

Lemma lock_inside d l : repr d l → inside (lock d) l (pthread_calls d) 0.
Proof. done. Qed.

Lemma unlock_inside d l cs k :
  inside d l cs k → repr (unlock d) l ∧ pthread_calls (unlock d) = cs ++ section_calls k.
Proof.
  intros (Hr & Hn & Hc). split; [done|].
  unfold pthread_calls, unlock, section_calls, Monitor.unlock in *. simpl.
  rewrite Monitor.notifyImpl_spec, Hn. simpl. rewrite Hc.
  change (Z.of_nat k) with (Monitor.counter k false). rewrite Monitor.pending_counter.
  by rewrite <- !app_assoc.
Qed.

Lemma notify_inside d l cs k :
  inside d l cs k → Z.of_nat k < 2 ^ 31 - 1 →
  ∃ d', notify d = Ok d' ∧ deque_ d' = deque_ d ∧ size_ d' = size_ d ∧ inside d' l cs (S k).
Proof.
  intros ((Hl & Hs & Hb) & Hn & Hc) Hk. unfold notify, Monitor.notify. rewrite Hn.
  rewrite (proj2 (Z.eqb_neq _ _)), (proj2 (Z.ltb_lt _ _)) by lia. simpl.
  eexists. split_and!; [done..|]. unfold inside. simpl. split_and!; [done|lia|done].
Qed.

Lemma set_deque_inside d l l' cs k :
  inside d l cs k → zlen l' < 2 ^ 64 → inside (set_deque l' (zlen l') d) l' cs k.
Proof. intros (Hr & Hn & Hc) Hl. done. Qed.

Lemma push_back_loop_inside deque : ∀ d l cs k,
  inside d l cs k → Z.of_nat k + zlen deque < 2 ^ 31 - 1 →
  zlen l + zlen deque < 2 ^ 64 →
  ∃ d', push_back_loop deque d = Ok d' ∧ inside d' (l ++ deque) cs (k + length deque).
Proof.
  induction deque as [|x deque IH]; intros d l cs k Hin Hk Hl; simpl in *.
  { exists d. by rewrite app_nil_r, Nat.add_0_r. }
  destruct Hin as ((Hd & Hs & Hb) & Hn & Hc) eqn:E. clear E.
  rewrite Hd, Hs. rewrite u64_small by lia.
  destruct (notify_inside (set_deque (l ++ [x]) (zlen l + 1) d) (l ++ [x]) cs k)
    as (d1 & -> & _ & _ & Hin1); [|lia|].
  { unfold inside, repr. simpl. rewrite length_app. simpl. split_and!; lia || done. }
  cbn [mbind outcome_bind].
  destruct (IH d1 (l ++ [x]) cs (S k) Hin1) as (d' & -> & Hin'); [lia| |].
  { rewrite length_app. simpl. lia. }
  exists d'. rewrite <- app_assoc in Hin'. split; [done|].
  by replace (k + S (length deque))%nat with (S k + length deque)%nat by lia.
Qed.

Lemma push_front_loop_inside deque : ∀ d l cs k,
  inside d l cs k → Z.of_nat k + zlen deque < 2 ^ 31 - 1 →
  zlen l + zlen deque < 2 ^ 64 →
  ∃ d', push_front_loop deque d = Ok d' ∧
        inside d' (reverse deque ++ l) cs (k + length deque).
Proof.
  induction deque as [|x deque IH]; intros d l cs k Hin Hk Hl; simpl in *.
  { exists d. by rewrite Nat.add_0_r. }
  destruct Hin as ((Hd & Hs & Hb) & Hn & Hc) eqn:E. clear E.
  rewrite Hd, Hs. rewrite u64_small by lia.
  destruct (notify_inside (set_deque (x :: l) (zlen l + 1) d) (x :: l) cs k)
    as (d1 & -> & _ & _ & Hin1); [|lia|].
  { unfold inside, repr. simpl. split_and!; lia || done. }
  cbn [mbind outcome_bind].
  destruct (IH d1 (x :: l) cs (S k) Hin1) as (d' & -> & Hin'); [lia|simpl; lia|].
  exists d'. rewrite reverse_cons, <- app_assoc. split; [done|].
  by replace (k + S (length deque))%nat with (S k + length deque)%nat by lia.
Qed.

End representation.

(** ** Refinement: a list, and the notifications each call sends *)

Section refinement.
Context {T : Type} `{Movable T, Nullable T}.
Implicit Types (d : t T) (l xs : list T).

Inductive op :=
| PopFront                   (* pop_front(0): the calls of the program do not wait *)
| NotifyT
| PushBack (x : T)
| PushBackAll (xs : list T)
| PushFront (x : T)
| PushFrontAll (xs : list T)
| Swap (xs : list T)
| Size
| Clear
| Empty.

Inductive obs :=
| OUnit
| OElem (x : T)
| OElems (xs : list T)
| OSwap (ret : bool) (xs : list T)
| ONum (n : Z)
| OBool (b : bool).

Definition step (o : op) d : outcome (obs * t T) :=
  match o with
  | PopFront => '(x, d) ← pop_front 0 false id d; Ok (OElem x, d)
  | NotifyT => Ok (OUnit, notifyT d)
  | PushBack x => '(y, d) ← push_back x d; Ok (OElem y, d)
  | PushBackAll xs => '(ys, d) ← push_back_all xs d; Ok (OElems ys, d)
  | PushFront x => '(y, d) ← push_front x d; Ok (OElem y, d)
  | PushFrontAll xs => '(ys, d) ← push_front_all xs d; Ok (OElems ys, d)
  | Swap xs => let '(r, ys, d) := swap xs 0 false id d in Ok (OSwap r ys, d)
  | Size => let '(n, d) := size d in Ok (ONum n, d)
  | Clear => Ok (OUnit, clear d)
  | Empty => let '(b, d) := empty d in Ok (OBool b, d)
  end.

(** The abstract state: the elements in order and the pthread calls so far. *)
Definition spec_step (o : op) (s : list T * list Monitor.call)
    : outcome (obs * (list T * list Monitor.call)) :=
  let '(l, cs) := s in
  let quiet := cs ++ section_calls 0 in
  match o with
  | PopFront =>
      match l with
      | [] => Ok (OElem nullptr, ([], quiet))
      | x :: l => Ok (OElem x, (l, quiet))
      end
  | NotifyT =>
      Ok (OUnit, (l, cs ++ [Monitor.MutexLock; Monitor.CondBroadcast; Monitor.MutexUnlock]))
  | PushBack x => Ok (OElem (moved_from x), (l ++ [x], cs ++ section_calls 1))
  | PushBackAll xs =>
      Ok (OElems (moved_from <$> xs), (l ++ xs, cs ++ section_calls (length xs)))
  | PushFront x => Ok (OElem (moved_from x), (x :: l, cs ++ section_calls 1))
  | PushFrontAll xs =>
      Ok (OElems (moved_from <$> xs), (reverse xs ++ l, cs ++ section_calls (length xs)))
  | Swap xs =>
      match l with
      | [] => Ok (OSwap false xs, ([], quiet))
      | _ => Ok (OSwap true l, (xs, quiet))
      end
  | Size => Ok (ONum (zlen l), (l, quiet))
  | Clear => Ok (OUnit, ([], quiet))
  | Empty => Ok (OBool (bool_decide (l = [])), (l, quiet))
  end.

Definition op_ok (o : op) (s : list T * list Monitor.call) : Prop :=
  match o with
  | PushBackAll xs | PushFrontAll xs =>
      zlen xs < 2 ^ 31 - 1 ∧ zlen s.1 + zlen xs < 2 ^ 64
  | PushBack _ | PushFront _ => zlen s.1 + 1 < 2 ^ 64
  | Swap xs => zlen xs < 2 ^ 64
  | _ => True
  end.

Definition state_rel d (s : list T * list Monitor.call) : Prop :=
  repr d s.1 ∧ pthread_calls d = s.2.

(** Leaving a section, in the form the cases below use. *)
Lemma unlock_rel d l cs k :
  inside d l cs k → state_rel (unlock d) (l, cs ++ section_calls k).
Proof. intros Hin. by apply unlock_inside in Hin. Qed.

Lemma pop_front_spec d l :
  repr d l →
  ∃ d', pop_front 0 false id d = Ok (default nullptr (head l), d') ∧
        state_rel d' (tail l, pthread_calls d ++ section_calls 0).
Proof.
  intros Hr. pose proof (lock_inside d l Hr) as Hin. destruct Hr as (Hl & Hs & Hb).
  unfold pop_front. simpl deque_. rewrite Hl. destruct l as [|x l].
  { eexists. split; [done|]. by apply unlock_rel. }
  assert (zlen (x :: l) = zlen l + 1) as Hlen by (simpl; lia).
  simpl size_. rewrite Hs, Hlen, (proj2 (Z.ltb_lt _ _)), u64_small, Z.add_simpl_r by lia.
  eexists. split; [done|]. apply unlock_rel.
  simpl tail. apply set_deque_inside with (x :: l); [done|lia].
Qed.

Lemma push_back_spec d l x :
  repr d l → zlen l + 1 < 2 ^ 64 →
  ∃ d', push_back x d = Ok (moved_from x, d') ∧
        state_rel d' (l ++ [x], pthread_calls d ++ section_calls 1).
Proof.
  intros Hr Hb. destruct (notify_inside _ _ _ _ (lock_inside d l Hr))
    as (d1 & Hn & Hd1 & Hs1 & Hin); [lia|].
  unfold push_back. rewrite Hn. cbn [mbind outcome_bind].
  eexists. split; [done|]. apply unlock_rel. rewrite Hd1, Hs1.
  destruct Hr as (Hl & Hs & _). simpl. rewrite Hl, Hs, u64_small by lia.
  replace (zlen l + 1) with (zlen (l ++ [x])) by (rewrite length_app; simpl; lia).
  apply set_deque_inside with l; [done|rewrite length_app; simpl; lia].
Qed.

Lemma push_front_spec d l x :
  repr d l → zlen l + 1 < 2 ^ 64 →
  ∃ d', push_front x d = Ok (moved_from x, d') ∧
        state_rel d' (x :: l, pthread_calls d ++ section_calls 1).
Proof.
  intros Hr Hb. destruct (notify_inside _ _ _ _ (lock_inside d l Hr))
    as (d1 & Hn & Hd1 & Hs1 & Hin); [lia|].
  unfold push_front. rewrite Hn. cbn [mbind outcome_bind].
  eexists. split; [done|]. apply unlock_rel. rewrite Hd1, Hs1.
  destruct Hr as (Hl & Hs & _). simpl. rewrite Hl, Hs, u64_small by lia.
  replace (zlen l + 1) with (zlen (x :: l)) by (simpl; lia).
  apply set_deque_inside with l; [done|simpl; lia].
Qed.

Lemma swap_spec d l xs :
  repr d l → zlen xs < 2 ^ 64 →
  ∃ d', swap xs 0 false id d =
          (bool_decide (l ≠ []), if bool_decide (l = []) then xs else l, d') ∧
        state_rel d' (if bool_decide (l = []) then [] else xs,
                      pthread_calls d ++ section_calls 0).
Proof.
  intros Hr Hb. pose proof (lock_inside d l Hr) as Hin. destruct Hr as (Hl & _).
  unfold swap. simpl deque_. rewrite Hl. destruct l as [|x l]; simpl.
  { eexists. split; [done|]. by apply unlock_rel. }
  eexists. split; [done|]. apply unlock_rel. by apply set_deque_inside with (x :: l).
Qed.

Lemma deque_step_refines o d s :
  state_rel d s → op_ok o s → outcome_rel (obs_rel state_rel) (step o d) (spec_step o s).
Proof.
  destruct s as [l cs]. intros [Hr Hc] Hok. simpl in Hr, Hc. subst cs.
  destruct o as [| |x|xs|x|xs|xs| | |]; unfold step, spec_step; simpl in Hok.
  - destruct (pop_front_spec d l Hr) as (d' & -> & Hd'). by destruct l.
  - split; [done|]. split; [done|]. unfold pthread_calls, notifyT. simpl.
    by rewrite <- !app_assoc.
  - destruct (push_back_spec d l x Hr Hok) as (d' & -> & Hd'). done.
  - destruct (push_back_loop_inside xs _ _ _ _ (lock_inside d l Hr))
      as (d' & Hp & Hin); [lia|lia|].
    unfold push_back_all. rewrite Hp. split; [done|]. by apply unlock_rel.
  - destruct (push_front_spec d l x Hr Hok) as (d' & -> & Hd'). done.
  - destruct (push_front_loop_inside xs _ _ _ _ (lock_inside d l Hr))
      as (d' & Hp & Hin); [lia|lia|].
    unfold push_front_all. rewrite Hp. split; [done|]. by apply unlock_rel.
  - destruct (swap_spec d l xs Hr Hok) as (d' & -> & Hd'). by destruct l.
  - split; [simpl; f_equal; apply Hr|]. by apply unlock_rel, lock_inside.
  - split; [done|]. apply unlock_rel, (set_deque_inside _ l []); [|done].
    by apply lock_inside.
  - split; [simpl; by rewrite (proj1 Hr)|]. by apply unlock_rel, lock_inside.
Qed.

End refinement.

Arguments op : clear implicits.
Arguments obs : clear implicits.

(** C25: Every sequence of calls on a [ThreadDeque] (without waits) behaves as
    a list: [push_back] appends, [push_front] prepends (a whole deque in
    reverse order), [pop_front] takes the first element or returns null,
    [swap] exchanges the contents unless the deque is empty; [size_] is always
    the number of elements, the caller's elements are left moved-from, and each
    call is one critical section that sends exactly one signal per pushed
    element before it releases the mutex. *)
Theorem thread_deque_refines_list {T} `{Movable T, Nullable T} (ops : list (op T)) :
  admissible op_ok spec_step ops ([], []) →
  outcome_rel (obs_rel state_rel) (run_ops step ops init) (run_ops spec_step ops ([], [])).
Proof. apply run_ops_refines; [intros; by apply deque_step_refines|done]. Qed.

Lemma thread_deque_refines_list_witness :
  let ops := [PushBack (Some 1); PushBackAll [Some 2; Some 3]; PopFront;
              PushFrontAll [Some 4; Some 5]; Swap [Some 9]; Size; PopFront; PopFront] in
  admissible op_ok spec_step ops ([], []) ∧
  outcome_rel (obs_rel state_rel) (run_ops step ops init) (run_ops spec_step ops ([], [])).
Proof.
  intros ops. assert (admissible op_ok spec_step ops ([], [])) as Hadm by by_compute.
  split; [exact Hadm|apply (thread_deque_refines_list ops Hadm)].
Defined.

(** A [pop_front] or a [swap] that finds the deque empty and waits comes
    back empty-handed whatever happens meanwhile: it returns null (or false,
    with the caller's deque unchanged), and every element another thread pushed
    during the wait is still in the deque afterwards. *)
Theorem waiting_takes_nothing {T} `{Movable T, Nullable T}
    millsecond rc (others : t T → t T) (d : t T) xs :
  deque_ d = [] → millsecond ≠ 0 →
  ∃ d1 d2, pop_front millsecond rc others d = Ok (nullptr, d1) ∧
           swap xs millsecond rc others d = (false, xs, d2) ∧
           (∃ d0, deque_ d1 = deque_ (others d0) ∧ size_ d1 = size_ (others d0) ∧
                  deque_ d0 = [] ∧ d2 = d1).
Proof.
  intros Hd Hm. unfold pop_front, swap. simpl deque_. rewrite Hd.
  unfold wait_branch. rewrite (proj2 (Z.eqb_neq _ _)) by done.
  destruct (millsecond =? forever).
  - eexists _, _. split; [done|]. split; [done|]. eexists. split_and!; done.
  - eexists _, _. split; [done|]. split; [done|]. eexists. split_and!; done.
Qed.

Lemma waiting_takes_nothing_witness :
  let others d := set_deque [Some 7] 1 d in
  ∃ d1 d2, pop_front 3 true others init = Ok (nullptr, d1) ∧
           swap [] 3 true others init = (false, [], d2) ∧
           (∃ d0, deque_ d1 = deque_ (others d0) ∧ size_ d1 = size_ (others d0) ∧
                  deque_ d0 = [] ∧ d2 = d1).
Proof. intros others. by apply (waiting_takes_nothing 3 true others init []). Defined.

End ThreadDeque.
