(* ===== verification/TimeoutQueue.v ===== *)
(** * TimeoutQueue: TimeoutQueueNew.hpp

    The queue of the requests a client waits for: [data_] finds a request by
    its id, [time_] orders the requests by deadline, [send_] holds those not
    yet sent; each container stores iterators into the others.  An iterator into
    [time_] or [send_] is the identity of its node (never reused, as while a
    node is alive its address is not), an iterator into [data_] is the key; using
    one whose element is gone is undefined.  An [unordered_map] iterator is
    taken to survive a rehash, as the node pointer of libstdc++ does. *)

From S2P Require Import Prelude.

Module TimeoutQueue.

Record PtrInfo (T : Type) := mk_info {
  ptr : T;
  hasSend : bool;
  timeIter : option nat;
  sendIter : option nat
}.
Arguments mk_info {T}.
Arguments ptr {T}.
Arguments hasSend {T}.
Arguments timeIter {T}.
Arguments sendIter {T}.

(** A node of the multimap [time_] with its [NodeInfo]. *)
Record TimeNode := mk_time { t_key : Z; t_id : nat; t_data : Z }.

(** A node of the list [send_] with its [SendInfo]. *)
Record SendNode := mk_send { s_id : nat; s_data : Z }.

Record t (T : Type) := mk {
  uniqueId_ : Z;
  data_ : gmap Z (PtrInfo T);
  time_ : list TimeNode;
  send_ : list SendNode;
  fresh : nat                   (* identity of the next node *)
}.
Arguments mk {T}.
Arguments uniqueId_ {T}.
Arguments data_ {T}.
Arguments time_ {T}.
Arguments send_ {T}.
Arguments fresh {T}.

Section operations.
Context {T : Type} `{Nullable T, EqDecision T}.
Implicit Types (q : t T) (p : T).

(** The constructor leaves [uniqueId_] with an arbitrary value [id]. *)
Definition new (id : Z) : t T := mk id ∅ [] [] 0.

Definition set_data (d : gmap Z (PtrInfo T)) q : t T :=
  mk (uniqueId_ q) d (time_ q) (send_ q) (fresh q).
Definition set_time (l : list TimeNode) q : t T :=
  mk (uniqueId_ q) (data_ q) l (send_ q) (fresh q).
Definition set_send (l : list SendNode) q : t T :=
  mk (uniqueId_ q) (data_ q) (time_ q) l (fresh q).

(** [while (++uniqueId_ == 0);]: the second increment cannot give 0. *)
Definition generateId q : Z * t T :=
  let id := u32 (uniqueId_ q + 1) in
  let id := if id =? 0 then u32 (id + 1) else id in
  (id, mk id (data_ q) (time_ q) (send_ q) (fresh q)).

Definition sendListEmpty q : bool := bool_decide (send_ q = []).
Definition getSendListSize q : Z := zlen (send_ q).
Definition size q : Z := Z.of_nat (base.size (data_ q)).

(** [*it] for an iterator into [data_]. *)
Definition data_at (uid : Z) q : outcome (PtrInfo T) := deref (data_ q !! uid).

(** [time_.erase(it)] and [send_.erase(it)]. *)
Definition time_erase (it : option nat) q : outcome (t T) :=
  i ← deref it;
  _ ← defined (bool_decide (i ∈ (t_id <$> time_ q)));
  Ok (set_time (filter (λ n, t_id n ≠ i) (time_ q)) q).

Definition send_erase (it : option nat) q : outcome (t T) :=
  i ← deref it;
  _ ← defined (bool_decide (i ∈ (s_id <$> send_ q)));
  Ok (set_send (filter (λ n, s_id n ≠ i) (send_ q)) q).

Definition data_erase (uid : Z) q : outcome (t T) :=
  _ ← data_at uid q;
  Ok (set_data (delete uid (data_ q)) q).

(** [getSend(t)]: the result and the caller's variable, which no branch
    assigns. *)
Definition getSend (p : T) q : outcome (bool * T) :=
  match last (send_ q) with
  | None => Ok (false, p)
  | Some sendinfo =>
      info ← data_at (s_data sendinfo) q;
      _ ← assert_ (bool_decide (ptr info = nullptr));
      Ok (true, p)
  end.

Definition popSend (del : bool) q : outcome (t T) :=
  match last (send_ q) with
  | None => Assert
  | Some sendinfo =>
      let uid := s_data sendinfo in
      info ← data_at uid q;
      let info := mk_info (ptr info) true (timeIter info) (sendIter info) in
      let q := set_data (<[uid := info]> (data_ q)) q in
      q ← (if del then
             q ← time_erase (timeIter info) q;
             data_erase uid q
           else Ok q);
      Ok (set_send (removelast (send_ q)) q)
  end.

(** [get(uniqId, t, erase)]: the result, the caller's variable, the queue. *)
Definition get (uid : Z) (p : T) (erase : bool) q : outcome (bool * T * t T) :=
  match data_ q !! uid with
  | None => Ok (false, p, q)
  | Some info =>
      q ← (if erase then
             q ← time_erase (timeIter info) q;
             q ← (if negb (hasSend info) then send_erase (sendIter info) q else Ok q);
             data_erase uid q
           else Ok q);
      Ok (true, ptr info, q)
  end.

Definition erase (uid : Z) (p : T) q : outcome (bool * T * t T) :=
  match data_ q !! uid with
  | None => Ok (false, p, q)
  | Some info =>
      q ← (if negb (hasSend info) then send_erase (sendIter info) q else Ok q);
      q ← time_erase (timeIter info) q;
      q ← data_erase uid q;
      Ok (true, ptr info, q)
  end.

(** [time_.insert(...)]: behind the nodes with the same key. *)
Fixpoint time_insert (n : TimeNode) (l : list TimeNode) : list TimeNode :=
  match l with
  | [] => [n]
  | m :: l => if t_key m <=? t_key n then m :: time_insert n l else n :: m :: l
  end.

Definition push (p : T) (uid timeout : Z) (hasSend : bool) q : outcome (bool * t T) :=
  match data_ q !! uid with
  | Some _ => Ok (false, q)
  | None =>
      let tid := fresh q in
      let sid := S (fresh q) in
      let info := mk_info p hasSend (Some tid) None in
      let q := mk (uniqueId_ q) (<[uid := info]> (data_ q))
                  (time_insert (mk_time timeout tid uid) (time_ q)) (send_ q) (S sid) in
      if negb hasSend then
        let info := mk_info p hasSend (Some tid) (Some sid) in
        Ok (true, set_data (<[uid := info]> (data_ q))
                    (set_send (mk_send sid uid :: send_ q) q))
      else Ok (true, q)
  end.

(** What the three [timeout] functions do with the first node: remove it from
    the three containers and return its [ptr]. *)
Definition expire (n : TimeNode) (rest : list TimeNode) q : outcome (T * t T) :=
  info ← data_at (t_data n) q;
  q ← (if negb (hasSend info) then send_erase (sendIter info) q else Ok q);
  q ← data_erase (t_data n) q;
  Ok (ptr info, set_time rest q).

(** The [while] loop of [timeout()], at the clock reading [now]. *)
Fixpoint timeout_loop (fuel : nat) (now : Z) q : outcome (t T) :=
  match fuel with
  | O => Spin
  | S fuel =>
      match time_ q with
      | [] => Ok q
      | n :: rest =>
          if now <? t_key n then Ok q
          else '(_, q) ← expire n rest q; timeout_loop fuel now q
      end
  end.

Definition timeout (now : Z) q : outcome (t T) :=
  timeout_loop (S (length (time_ q))) now q.

(** [timeout(T& t)]. *)
Definition timeout_one (now : Z) (p : T) q : outcome (bool * T * t T) :=
  match time_ q with
  | [] => Ok (false, p, q)
  | n :: rest =>
      if now <? t_key n then Ok (false, p, q)
      else '(p, q) ← expire n rest q; Ok (true, p, q)
  end.

(** [timeout(func)]: the clock is read in every round; the pointers handed to
    [func] are returned in order.  What [func] throws is caught, and it is taken
    not to use the queue itself. *)
Fixpoint timeout_func_loop (fuel : nat) (clock : nat → Z) q : outcome (list T * t T) :=
  match fuel with
  | O => Spin
  | S fuel =>
      match time_ q with
      | [] => Ok ([], q)
      | n :: rest =>
          if clock O <? t_key n then Ok ([], q)
          else '(p, q) ← expire n rest q;
               '(ps, q) ← timeout_func_loop fuel (λ i, clock (S i)) q;
               Ok (p :: ps, q)
      end
  end.

Definition timeout_func (clock : nat → Z) q : outcome (list T * t T) :=
  timeout_func_loop (S (length (time_ q))) clock q.

End operations.

(** ** Consistency of the three containers *)

Section consistency.
Context {T : Type} `{Nullable T, EqDecision T}.
Implicit Types (q : t T) (p : T).

Record wf q : Prop := {
  wf_tids : NoDup (t_id <$> time_ q);
  wf_sids : NoDup (s_id <$> send_ q);
  wf_tfresh n : n ∈ time_ q → (t_id n < fresh q)%nat;
  wf_sfresh n : n ∈ send_ q → (s_id n < fresh q)%nat;
  wf_sorted : StronglySorted (λ a b, t_key a ≤ t_key b) (time_ q);
  wf_time n : n ∈ time_ q →
    ∃ info, data_ q !! t_data n = Some info ∧ timeIter info = Some (t_id n);
  wf_send n : n ∈ send_ q →
    ∃ info, data_ q !! s_data n = Some info ∧ hasSend info = false ∧
            sendIter info = Some (s_id n);
  wf_data_time uid info : data_ q !! uid = Some info →
    ∃ n, n ∈ time_ q ∧ t_data n = uid;
  wf_data_send uid info : data_ q !! uid = Some info → hasSend info = false →
    ∃ n, n ∈ send_ q ∧ s_data n = uid
}.

(** The state without the request [uid]. *)
Definition remove (uid : Z) q : t T :=
  mk (uniqueId_ q) (delete uid (data_ q))
     (filter (λ n, t_data n ≠ uid) (time_ q))
     (filter (λ n, s_data n ≠ uid) (send_ q)) (fresh q).

Lemma new_wf id : wf (new id).
Proof.
  split; simpl; try (intros ? Hn; by apply elem_of_nil in Hn); try constructor;
    intros uid info Hu; by rewrite lookup_empty in Hu.
Qed.

Lemma time_node_iff q uid info i n :
  wf q → data_ q !! uid = Some info → timeIter info = Some i → n ∈ time_ q →
  t_id n = i ↔ t_data n = uid.
Proof.
  intros Hwf Hu Hi Hn. split; [|by intros <-; destruct (wf_time _ Hwf n Hn) as (?&?&?); congruence].
  intros <-. destruct (wf_data_time _ Hwf uid info Hu) as (m & Hm & <-).
  destruct (wf_time _ Hwf m Hm) as (info' & Hu' & Hi').
  assert (t_id m = t_id n) as Heq by congruence.
  by rewrite (NoDup_fmap_inj_in t_id (time_ q) m n (wf_tids _ Hwf) Hm Hn Heq).
Qed.

Lemma send_node_iff q uid info i n :
  wf q → data_ q !! uid = Some info → hasSend info = false → sendIter info = Some i →
  n ∈ send_ q → s_id n = i ↔ s_data n = uid.
Proof.
  intros Hwf Hu Hs Hi Hn.
  split; [|by intros <-; destruct (wf_send _ Hwf n Hn) as (?&?&?&?); congruence].
  intros <-. destruct (wf_data_send _ Hwf uid info Hu Hs) as (m & Hm & <-).
  destruct (wf_send _ Hwf m Hm) as (info' & Hu' & _ & Hi').
  assert (s_id m = s_id n) as Heq by congruence.
  by rewrite (NoDup_fmap_inj_in s_id (send_ q) m n (wf_sids _ Hwf) Hm Hn Heq).
Qed.

(** Erasing through the stored iterators removes the nodes of the request. *)
Lemma time_erase_spec q q' uid info :
  wf q → data_ q !! uid = Some info → time_ q' = time_ q →
  time_erase (timeIter info) q' =
  Ok (set_time (filter (λ n, t_data n ≠ uid) (time_ q)) q').
Proof.
  intros Hwf Hu Ht. destruct (wf_data_time _ Hwf uid info Hu) as (n & Hn & <-).
  destruct (wf_time _ Hwf n Hn) as (info' & Hu' & Hi).
  assert (info' = info) as -> by congruence.
  unfold time_erase. rewrite Hi, Ht. simpl.
  rewrite bool_decide_true by (by apply list_elem_of_fmap_2). simpl. do 2 f_equal.
  apply filter_ext_in. intros m Hm. by rewrite (time_node_iff q (t_data n) info (t_id n) m).
Qed.

Lemma send_erase_spec q q' uid info :
  wf q → data_ q !! uid = Some info → send_ q' = send_ q →
  (if negb (hasSend info) then send_erase (sendIter info) q' else Ok q') =
  Ok (set_send (filter (λ n, s_data n ≠ uid) (send_ q)) q').
Proof.
  intros Hwf Hu Ht. destruct (hasSend info) eqn:Hs; simpl.
  - rewrite filter_all, <- Ht; [by destruct q'|].
    intros n Hn <-. destruct (wf_send _ Hwf n Hn) as (?&?&?&?). congruence.
  - destruct (wf_data_send _ Hwf uid info Hu Hs) as (n & Hn & <-).
    destruct (wf_send _ Hwf n Hn) as (info' & Hu' & _ & Hi).
    assert (info' = info) as -> by congruence.
    unfold send_erase. rewrite Hi, Ht. simpl.
    rewrite bool_decide_true by (by apply list_elem_of_fmap_2). simpl. do 2 f_equal.
    apply filter_ext_in. intros m Hm. by rewrite (send_node_iff q (s_data n) info (s_id n) m).
Qed.

Lemma data_erase_spec q uid info :
  data_ q !! uid = Some info → data_erase uid q = Ok (set_data (delete uid (data_ q)) q).
Proof. intros Hu. unfold data_erase, data_at. by rewrite Hu. Qed.

Lemma remove_wf q uid : wf q → wf (remove uid q).
Proof.
  intros Hwf. split; simpl.
  - apply NoDup_fmap_filter, Hwf.
  - apply NoDup_fmap_filter, Hwf.
  - intros n [_ Hn]%list_elem_of_filter. by apply Hwf.
  - intros n [_ Hn]%list_elem_of_filter. by apply Hwf.
  - apply StronglySorted_filter, Hwf.
  - intros n [Hne Hn]%list_elem_of_filter.
    rewrite lookup_delete_ne by congruence. by apply Hwf.
  - intros n [Hne Hn]%list_elem_of_filter.
    rewrite lookup_delete_ne by congruence. by apply Hwf.
  - intros u info [Hne Hu]%lookup_delete_Some.
    destruct (wf_data_time _ Hwf u info Hu) as (n & Hn & <-).
    exists n. split; [|done]. by apply list_elem_of_filter.
  - intros u info [Hne Hu]%lookup_delete_Some Hs.
    destruct (wf_data_send _ Hwf u info Hu Hs) as (n & Hn & <-).
    exists n. split; [|done]. by apply list_elem_of_filter.
Qed.

Lemma get_spec q uid p erase info :
  wf q → data_ q !! uid = Some info →
  get uid p erase q = Ok (true, ptr info, if erase then remove uid q else q).
Proof.
  intros Hwf Hu. unfold get. rewrite Hu. destruct erase; [|done].
  rewrite (time_erase_spec q q uid info) by done. cbn [mbind outcome_bind].
  rewrite (send_erase_spec q _ uid info) by done. cbn [mbind outcome_bind].
  rewrite (data_erase_spec _ uid info) by done. done.
Qed.

Lemma erase_spec q uid p info :
  wf q → data_ q !! uid = Some info → erase uid p q = Ok (true, ptr info, remove uid q).
Proof.
  intros Hwf Hu. unfold erase. rewrite Hu.
  rewrite (send_erase_spec q q uid info) by done. cbn [mbind outcome_bind].
  rewrite (time_erase_spec q _ uid info) by done. cbn [mbind outcome_bind].
  rewrite (data_erase_spec _ uid info) by done. done.
Qed.

Lemma filter_time_head q n rest :
  wf q → time_ q = n :: rest → filter (λ m, t_data m ≠ t_data n) (time_ q) = rest.
Proof.
  intros Hwf Ht. assert (n ∈ time_ q) as Hn by (rewrite Ht; left).
  destruct (wf_time _ Hwf n Hn) as (info & Hu & Hi).
  pose proof (wf_tids _ Hwf) as Hnd. rewrite Ht in Hnd |- *.
  rewrite filter_cons, decide_False by naive_solver.
  apply NoDup_cons in Hnd as [Hnot _]. apply filter_all. intros m Hm Heq.
  assert (m ∈ time_ q) as Hm' by (rewrite Ht; by right).
  apply (time_node_iff q _ info (t_id n) m Hwf Hu Hi Hm') in Heq.
  apply Hnot. rewrite <- Heq. by apply list_elem_of_fmap_2.
Qed.

Lemma expire_spec q n rest :
  wf q → time_ q = n :: rest →
  ∃ info, data_ q !! t_data n = Some info ∧
          expire n rest q = Ok (ptr info, remove (t_data n) q).
Proof.
  intros Hwf Ht. assert (n ∈ time_ q) as Hn by (rewrite Ht; left).
  destruct (wf_time _ Hwf n Hn) as (info & Hu & _). exists info. split; [done|].
  unfold expire, data_at. rewrite Hu. cbn [mbind outcome_bind deref].
  rewrite (send_erase_spec q q _ info) by done. cbn [mbind outcome_bind].
  rewrite (data_erase_spec _ _ info) by done. cbn [mbind outcome_bind].
  unfold remove. by rewrite (filter_time_head q n rest).
Qed.

(** *** Marking the oldest unsent request as sent *)

Definition mark_sent (uid : Z) (l : list SendNode) q : t T :=
  mk (uniqueId_ q)
     (alter (λ info, mk_info (ptr info) true (timeIter info) (sendIter info)) uid (data_ q))
     (time_ q) l (fresh q).

Lemma send_last_filter q l n :
  wf q → send_ q = l ++ [n] → filter (λ m, s_data m ≠ s_data n) (send_ q) = l.
Proof.
  intros Hwf Hs. assert (n ∈ send_ q) as Hn by (rewrite Hs; set_solver).
  destruct (wf_send _ Hwf n Hn) as (info & Hu & Hf & Hi).
  pose proof (wf_sids _ Hwf) as Hnd. rewrite Hs in Hnd |- *.
  rewrite filter_app, filter_cons, filter_nil, decide_False, app_nil_r by naive_solver.
  rewrite fmap_app in Hnd. apply NoDup_app in Hnd as (_ & Hnot & _).
  apply filter_all. intros m Hm Heq.
  assert (m ∈ send_ q) as Hm' by (rewrite Hs; set_solver).
  apply (send_node_iff q _ info (s_id n) m Hwf Hu Hf Hi Hm') in Heq.
  apply (Hnot (s_id m)); [by apply list_elem_of_fmap_2|]. rewrite Heq. simpl. set_solver.
Qed.

Lemma popSend_spec q l n del :
  wf q → send_ q = l ++ [n] →
  popSend del q = Ok (if del then remove (s_data n) q else mark_sent (s_data n) l q).
Proof.
  intros Hwf Hs. assert (n ∈ send_ q) as Hn by (rewrite Hs; set_solver).
  destruct (wf_send _ Hwf n Hn) as (info & Hu & _).
  unfold popSend, data_at. rewrite Hs, last_snoc, Hu. cbn [mbind outcome_bind deref].
  destruct del.
  - cbn [timeIter]. rewrite (time_erase_spec q _ (s_data n) info) by done.
    cbn [mbind outcome_bind].
    rewrite (data_erase_spec _ _ (mk_info (ptr info) true (timeIter info) (sendIter info)))
      by (simpl; by rewrite lookup_insert_eq).
    cbn [mbind outcome_bind]. unfold remove, set_send, set_time, set_data. simpl.
    rewrite (send_last_filter q l n), Hs, removelast_last, delete_insert_eq by done. done.
  - cbn [mbind outcome_bind]. unfold mark_sent, set_send, set_data. simpl.
    rewrite Hs, removelast_last. do 2 f_equal. apply map_eq. intros u.
    destruct (decide (u = s_data n)) as [->|].
    + by rewrite lookup_insert_eq, lookup_alter_eq, Hu.
    + by rewrite lookup_insert_ne, lookup_alter_ne by congruence.
Qed.

Lemma mark_sent_wf q l n : wf q → send_ q = l ++ [n] → wf (mark_sent (s_data n) l q).
Proof.
  intros Hwf Hs.
  assert (∀ m, m ∈ l → m ∈ send_ q ∧ s_data m ≠ s_data n) as Hl.
  { intros m Hm. rewrite <- (send_last_filter q l n) in Hm by done.
    apply list_elem_of_filter in Hm as [??]. done. }
  assert (∀ u info, data_ (mark_sent (s_data n) l q) !! u = Some info →
    ∃ info', data_ q !! u = Some info' ∧ (hasSend info = false → hasSend info' = false ∧ u ≠ s_data n))
    as Hd.
  { intros u info. unfold mark_sent. cbn [data_].
    destruct (decide (u = s_data n)) as [->|].
    - rewrite lookup_alter_eq. destruct (data_ q !! s_data n) as [info'|]; [|done].
      intros [= <-]. exists info'. by split.
    - rewrite lookup_alter_ne by congruence. intros Hu. exists info. by split. }
  split; unfold mark_sent in *; cbn [time_ send_ data_ fresh] in *.
  - apply Hwf.
  - pose proof (wf_sids _ Hwf) as Hnd. rewrite Hs, fmap_app in Hnd.
    by apply NoDup_app in Hnd as (? & _ & _).
  - apply Hwf.
  - intros m Hm. by apply Hwf, Hl.
  - apply Hwf.
  - intros m Hm. destruct (wf_time _ Hwf m Hm) as (info & Hu & Hi).
    destruct (decide (t_data m = s_data n)) as [Heq|].
    + rewrite Heq in *. rewrite lookup_alter_eq, Hu. simpl. eauto.
    + rewrite lookup_alter_ne by congruence. eauto.
  - intros m Hm. destruct (Hl m Hm) as [Hm' Hne]. rewrite lookup_alter_ne by congruence.
    by apply Hwf.
  - intros u info Hu. destruct (Hd u info Hu) as (info' & Hu' & _).
    by apply (wf_data_time _ Hwf u info').
  - intros u info Hu Hf. destruct (Hd u info Hu) as (info' & Hu' & Hf').
    destruct (Hf' Hf) as [Hf'' Hne].
    destruct (wf_data_send _ Hwf u info' Hu' Hf'') as (m & Hm & <-).
    rewrite Hs in Hm. apply elem_of_app in Hm as [Hm|Hm]; [by exists m|].
    apply list_elem_of_singleton in Hm as ->. done.
Qed.

Lemma time_insert_perm n l : time_insert n l ≡ₚ n :: l.
Proof.
  induction l as [|m l IH]; simpl; [done|]. destruct (_ <=? _); [|done].
  rewrite IH. by apply Permutation_swap.
Qed.

Lemma elem_of_time_insert m n l : m ∈ time_insert n l ↔ m = n ∨ m ∈ l.
Proof. by rewrite time_insert_perm, elem_of_cons. Qed.

Lemma time_insert_sorted n l :
  StronglySorted (λ a b, t_key a ≤ t_key b) l →
  StronglySorted (λ a b, t_key a ≤ t_key b) (time_insert n l).
Proof.
  induction 1 as [|m l Hl IH Hm]; simpl; [by repeat constructor|].
  destruct (Z.leb_spec (t_key m) (t_key n)).
  - constructor; [done|]. rewrite Forall_forall in *.
    intros x [->|Hx]%elem_of_time_insert; [done|by apply Hm].
  - constructor; [by constructor|]. constructor; [lia|].
    rewrite Forall_forall in *. intros x Hx. specialize (Hm x Hx). lia.
Qed.

(** The state [push] leaves for a new request. *)
Definition add (p : T) (uid timeout : Z) (sent : bool) q : t T :=
  mk (uniqueId_ q)
     (<[uid := mk_info p sent (Some (fresh q)) (if sent then None else Some (S (fresh q)))]>
        (data_ q))
     (time_insert (mk_time timeout (fresh q) uid) (time_ q))
     (if sent then send_ q else mk_send (S (fresh q)) uid :: send_ q)
     (S (S (fresh q))).

Lemma push_new p uid timeout sent q :
  data_ q !! uid = None → push p uid timeout sent q = Ok (true, add p uid timeout sent q).
Proof.
  intros Hu. unfold push. rewrite Hu. destruct sent; [done|].
  unfold add, set_data, set_send. simpl. by rewrite insert_insert_eq.
Qed.

Lemma push_dup p uid timeout sent q info :
  data_ q !! uid = Some info → push p uid timeout sent q = Ok (false, q).
Proof. intros Hu. unfold push. by rewrite Hu. Qed.

Lemma add_wf p uid timeout sent q : wf q → data_ q !! uid = None → wf (add p uid timeout sent q).
Proof.
  intros Hwf Hu. split; simpl.
  - rewrite time_insert_perm. simpl. apply NoDup_cons. split; [|apply Hwf].
    intros (n & Heq & Hn)%list_elem_of_fmap. pose proof (wf_tfresh _ Hwf n Hn). lia.
  - destruct sent; [apply Hwf|]. simpl. apply NoDup_cons. split; [|apply Hwf].
    intros (n & Heq & Hn)%list_elem_of_fmap. pose proof (wf_sfresh _ Hwf n Hn). lia.
  - intros n [->|Hn]%elem_of_time_insert; simpl; [lia|].
    pose proof (wf_tfresh _ Hwf n Hn). lia.
  - intros n Hn. destruct sent; [pose proof (wf_sfresh _ Hwf n Hn); lia|].
    apply elem_of_cons in Hn as [->|Hn]; simpl; [lia|]. pose proof (wf_sfresh _ Hwf n Hn). lia.
  - apply time_insert_sorted, Hwf.
  - intros n [->|Hn]%elem_of_time_insert; simpl; [rewrite lookup_insert_eq; eauto|].
    destruct (wf_time _ Hwf n Hn) as (info & Hn' & ?).
    rewrite lookup_insert_ne by congruence. eauto.
  - intros n Hn. assert (n ∈ send_ q ∨ sent = false ∧ n = mk_send (S (fresh q)) uid) as Hn'.
    { destruct sent; [by left|]. apply elem_of_cons in Hn as [->|Hn]; auto. }
    destruct Hn' as [Hn'|[-> ->]]; simpl; [|rewrite lookup_insert_eq; eauto].
    destruct (wf_send _ Hwf n Hn') as (info & Hi & ?).
    rewrite lookup_insert_ne by congruence. eauto.
  - intros u info [[<- _]|[Hne Hu']]%lookup_insert_Some.
    + exists (mk_time timeout (fresh q) uid). rewrite elem_of_time_insert. auto.
    + destruct (wf_data_time _ Hwf u info Hu') as (n & Hn & ?).
      exists n. rewrite elem_of_time_insert. auto.
  - intros u info [[<- <-]|[Hne Hu']]%lookup_insert_Some Hf; simpl in Hf.
    + subst sent. exists (mk_send (S (fresh q)) uid). split; [left|done].
    + destruct (wf_data_send _ Hwf u info Hu' Hf) as (n & Hn & ?).
      exists n. split; [|done]. destruct sent; [done|by right].
Qed.

End consistency.

(** ** What the queue promises *)

(** A request in the order of the deadlines. *)
Record Entry (T : Type) := mk_entry { e_deadline : Z; e_uid : Z; e_ptr : T }.
Arguments mk_entry {T}.
Arguments e_deadline {T}.
Arguments e_uid {T}.
Arguments e_ptr {T}.

Module Spec.

(** The last id given out, the requests by deadline and, newest first, the ids
    of those not yet sent. *)
Record t (T : Type) := mk { last_id : Z; requests : list (Entry T); unsent : list Z }.
Arguments mk {T}.
Arguments last_id {T}.
Arguments requests {T}.
Arguments unsent {T}.

Section spec.
Context {T : Type} `{Nullable T, EqDecision T}.
Implicit Types (s : t T) (p : T) (es : list (Entry T)).

Fixpoint find (uid : Z) es : option T :=
  match es with
  | [] => None
  | e :: es => if decide (e_uid e = uid) then Some (e_ptr e) else find uid es
  end.

(** Requests with the same deadline stay in the order of arrival. *)
Fixpoint insert (e : Entry T) es : list (Entry T) :=
  match es with
  | [] => [e]
  | e' :: es => if e_deadline e' <=? e_deadline e then e' :: insert e es else e :: e' :: es
  end.

Definition remove (uid : Z) s : t T :=
  mk (last_id s) (filter (λ e, e_uid e ≠ uid) (requests s))
     (filter (λ u, u ≠ uid) (unsent s)).

Definition push p (uid timeout : Z) (sent : bool) s : bool * t T :=
  match find uid (requests s) with
  | Some _ => (false, s)
  | None => (true, mk (last_id s) (insert (mk_entry timeout uid p) (requests s))
                      (if sent then unsent s else uid :: unsent s))
  end.

Definition get (uid : Z) p (erase : bool) s : bool * T * t T :=
  match find uid (requests s) with
  | Some p => (true, p, if erase then remove uid s else s)
  | None => (false, p, s)
  end.

(** Not with [nullptr] and not with an empty queue, else an assertion fails. *)
Definition getSend p s : outcome (bool * T) :=
  match last (unsent s) with
  | None => Ok (false, p)
  | Some uid => _ ← assert_ (bool_decide (find uid (requests s) = Some nullptr)); Ok (true, p)
  end.

Definition popSend (del : bool) s : outcome (t T) :=
  match last (unsent s) with
  | None => Assert
  | Some uid =>
      Ok (if del then remove uid s
          else mk (last_id s) (requests s) (removelast (unsent s)))
  end.

(** The requests that expire, at the readings [clock] of successive rounds. *)
Fixpoint expired (clock : nat → Z) es : list (Entry T) :=
  match es with
  | [] => []
  | e :: es => if clock O <? e_deadline e then []
               else e :: expired (λ i, clock (S i)) es
  end.

Definition drop_all (es : list (Entry T)) s : t T :=
  foldl (λ s e, remove (e_uid e) s) s es.
End spec.
End Spec.

Section refinement.
Context {T : Type} `{Nullable T, EqDecision T}.
Implicit Types (q : t T) (p : T).

Inductive op :=
| OGenerateId | OPush (p : T) (uid timeout : Z) (sent : bool) | OGet (uid : Z) (p : T) (er : bool)
| OErase (uid : Z) (p : T) | OGetSend (p : T) | OPopSend (del : bool) | OTimeout (now : Z)
| OTimeoutOne (now : Z) (p : T) | OTimeoutFunc (clock : nat → Z)
| OSize | OSendListSize | OSendListEmpty.

Inductive ob :=
| BUnit | BBool (b : bool) | BInt (z : Z) | BFound (b : bool) (p : T) | BList (ps : list T).

Definition step (o : op) q : outcome (ob * t T) :=
  match o with
  | OGenerateId => let '(id, q) := generateId q in Ok (BInt id, q)
  | OPush p uid timeout sent => '(b, q) ← push p uid timeout sent q; Ok (BBool b, q)
  | OGet uid p er => '(b, p, q) ← get uid p er q; Ok (BFound b p, q)
  | OErase uid p => '(b, p, q) ← erase uid p q; Ok (BFound b p, q)
  | OGetSend p => '(b, p) ← getSend p q; Ok (BFound b p, q)
  | OPopSend del => q ← popSend del q; Ok (BUnit, q)
  | OTimeout now => q ← timeout now q; Ok (BUnit, q)
  | OTimeoutOne now p => '(b, p, q) ← timeout_one now p q; Ok (BFound b p, q)
  | OTimeoutFunc clock => '(ps, q) ← timeout_func clock q; Ok (BList ps, q)
  | OSize => Ok (BInt (size q), q)
  | OSendListSize => Ok (BInt (getSendListSize q), q)
  | OSendListEmpty => Ok (BBool (sendListEmpty q), q)
  end.

Definition spec_step (o : op) (s : Spec.t T) : outcome (ob * Spec.t T) :=
  match o with
  | OGenerateId =>
      let id := if u32 (Spec.last_id s + 1) =? 0 then 1 else u32 (Spec.last_id s + 1) in
      Ok (BInt id, Spec.mk id (Spec.requests s) (Spec.unsent s))
  | OPush p uid timeout sent =>
      let '(b, s) := Spec.push p uid timeout sent s in Ok (BBool b, s)
  | OGet uid p er => let '(b, p, s) := Spec.get uid p er s in Ok (BFound b p, s)
  | OErase uid p => let '(b, p, s) := Spec.get uid p true s in Ok (BFound b p, s)
  | OGetSend p => '(b, p) ← Spec.getSend p s; Ok (BFound b p, s)
  | OPopSend del => s ← Spec.popSend del s; Ok (BUnit, s)
  | OTimeout now => Ok (BUnit, Spec.drop_all (Spec.expired (λ _, now) (Spec.requests s)) s)
  | OTimeoutOne now p =>
      match Spec.expired (λ _, now) (Spec.requests s) with
      | [] => Ok (BFound false p, s)
      | e :: _ => Ok (BFound true (e_ptr e), Spec.remove (e_uid e) s)
      end
  | OTimeoutFunc clock =>
      let es := Spec.expired clock (Spec.requests s) in
      Ok (BList (e_ptr <$> es), Spec.drop_all es s)
  | OSize => Ok (BInt (zlen (Spec.requests s)), s)
  | OSendListSize => Ok (BInt (zlen (Spec.unsent s)), s)
  | OSendListEmpty => Ok (BBool (bool_decide (Spec.unsent s = [])), s)
  end.

(** *** The abstraction *)

Definition entry_of q (n : TimeNode) : Entry T :=
  mk_entry (t_key n) (t_data n) (from_option ptr nullptr (data_ q !! t_data n)).

Definition abs q : Spec.t T :=
  Spec.mk (uniqueId_ q) (entry_of q <$> time_ q) (s_data <$> send_ q).

Definition represents q (s : Spec.t T) : Prop := wf q ∧ abs q = s.

Lemma abs_remove uid q : abs (remove uid q) = Spec.remove uid (abs q).
Proof.
  unfold abs, remove, Spec.remove. simpl. f_equal.
  - rewrite (filter_fmap_comm (entry_of q) (λ n, t_data n ≠ uid) (λ e, e_uid e ≠ uid)) by done.
    apply list_fmap_ext. intros i n Hn.
    apply list_elem_of_lookup_2, list_elem_of_filter in Hn as [Hne _].
    unfold entry_of. simpl. by rewrite lookup_delete_ne by congruence.
  - by rewrite (filter_fmap_comm s_data (λ n, s_data n ≠ uid) (λ u, u ≠ uid)) by done.
Qed.

Lemma abs_mark_sent q l n :
  send_ q = l ++ [n] →
  abs (mark_sent (s_data n) l q) =
  Spec.mk (uniqueId_ q) (Spec.requests (abs q)) (s_data <$> l).
Proof.
  intros Hs. unfold abs, mark_sent. simpl. f_equal. apply list_fmap_ext. intros i m _.
  unfold entry_of. cbn [data_]. f_equal. destruct (decide (t_data m = s_data n)) as [->|].
  - rewrite lookup_alter_eq. by destruct (data_ q !! s_data n).
  - by rewrite lookup_alter_ne by congruence.
Qed.

Lemma abs_add p uid timeout sent q :
  wf q → data_ q !! uid = None →
  abs (add p uid timeout sent q) =
  Spec.mk (uniqueId_ q) (Spec.insert (mk_entry timeout uid p) (Spec.requests (abs q)))
          (if sent then Spec.unsent (abs q) else uid :: Spec.unsent (abs q)).
Proof.
  intros Hwf Hu. unfold abs. simpl. f_equal; [|by destruct sent].
  assert (∀ n, n ∈ time_ q → entry_of (add p uid timeout sent q) n = entry_of q n) as Heq.
  { intros n Hn. destruct (wf_time _ Hwf n Hn) as (info & Hi & _).
    unfold entry_of. simpl. by rewrite lookup_insert_ne by congruence. }
  assert (entry_of (add p uid timeout sent q) (mk_time timeout (fresh q) uid)
          = mk_entry timeout uid p) as Hnew.
  { unfold entry_of. simpl. by rewrite lookup_insert_eq. }
  induction (time_ q) as [|m l IH]; simpl; [by rewrite Hnew|].
  destruct (timeout <? t_key m) eqn:Hlt; rewrite Z.leb_antisym, Hlt; simpl.
  - rewrite Hnew, Heq by left. do 2 f_equal. apply list_fmap_ext. intros i x Hx.
    apply Heq. right. by eapply list_elem_of_lookup_2.
  - rewrite Heq by left. f_equal. apply IH. intros; apply Heq; by right.
Qed.

Lemma abs_find q uid :
  wf q → Spec.find uid (Spec.requests (abs q)) = ptr <$> data_ q !! uid.
Proof.
  intros Hwf. unfold abs. simpl.
  destruct (data_ q !! uid) as [info|] eqn:Hu.
  - destruct (wf_data_time _ Hwf uid info Hu) as (n & Hn & Hd). revert Hn.
    generalize (time_ q) as l. induction l as [|m l IH]; [by intros ?%elem_of_nil|].
    simpl. destruct (decide (t_data m = uid)) as [->|]; [by rewrite Hu|].
    intros [->|Hn]%elem_of_cons; [done|by apply IH].
  - assert (∀ n, n ∈ time_ q → t_data n ≠ uid) as Hne.
    { intros n Hn ?. destruct (wf_time _ Hwf n Hn) as (?&?&?). congruence. }
    revert Hne. generalize (time_ q) as l. induction l as [|m l IH]; [done|]. intros Hne.
    simpl. rewrite decide_False by (apply Hne; left). apply IH. intros; apply Hne; by right.
Qed.

Lemma size_requests q : wf q → size q = zlen (time_ q).
Proof.
  intros Hwf. unfold size. f_equal. rewrite <- (size_dom (D:=gset Z)).
  rewrite <- (length_fmap t_data (time_ q)), <- (size_list_to_set (C:=gset Z)).
  - f_equal. apply set_eq. intros u. rewrite elem_of_dom, elem_of_list_to_set, list_elem_of_fmap.
    split.
    + intros [info Hu]. destruct (wf_data_time _ Hwf u info Hu) as (n & ? & <-). eauto.
    + intros (n & -> & Hn). destruct (wf_time _ Hwf n Hn) as (info & ? & _). eauto.
  - apply NoDup_fmap_2_strong; [|by eapply NoDup_fmap_1, Hwf].
    intros x y Hx Hy Heq. destruct (wf_time _ Hwf x Hx) as (info & Hu & Hi).
    apply (NoDup_fmap_inj_in t_id (time_ q)); [apply Hwf|done|done|]. symmetry.
    apply (time_node_iff q _ info _ y Hwf Hu Hi Hy). done.
Qed.

(** *** The expiry loops *)

Lemma requests_tail q n rest :
  wf q → time_ q = n :: rest →
  Spec.requests (abs (remove (t_data n) q)) = entry_of q <$> rest.
Proof.
  intros Hwf Ht. unfold abs. cbn [Spec.requests].
  assert (time_ (remove (t_data n) q) = rest) as -> by by apply filter_time_head.
  apply list_fmap_ext. intros i m Hm%list_elem_of_lookup_2.
  rewrite <- (filter_time_head q n rest) in Hm by done.
  apply list_elem_of_filter in Hm as [Hne _].
  unfold entry_of, remove. cbn [data_]. by rewrite lookup_delete_ne by congruence.
Qed.

Lemma entry_ptr q n info :
  data_ q !! t_data n = Some info → e_ptr (entry_of q n) = ptr info.
Proof. intros Hu. unfold entry_of. simpl. by rewrite Hu. Qed.

Lemma timeout_func_loop_spec fuel : ∀ clock q,
  wf q → (length (time_ q) < fuel)%nat →
  let es := Spec.expired clock (Spec.requests (abs q)) in
  ∃ q', timeout_func_loop fuel clock q = Ok (e_ptr <$> es, q') ∧
        represents q' (Spec.drop_all es (abs q)).
Proof.
  induction fuel as [|fuel IH]; intros clock q Hwf Hlen; [lia|].
  cbn [timeout_func_loop]. cbv zeta.
  change (Spec.requests (abs q)) with (entry_of q <$> time_ q).
  destruct (time_ q) as [|n rest] eqn:Ht; [by exists q|].
  cbn [fmap list_fmap Spec.expired entry_of e_deadline].
  destruct (_ <? _); [by exists q|].
  destruct (expire_spec q n rest Hwf Ht) as (info & Hu & ->). cbn [mbind outcome_bind].
  destruct (IH (λ i, clock (S i)) (remove (t_data n) q)) as (q' & Hq' & HR).
  - by apply remove_wf.
  - cbn [remove time_]. rewrite (filter_time_head q n rest) by done. simpl in Hlen. lia.
  - rewrite (requests_tail q n rest) in Hq', HR by done. rewrite Hq'.
    exists q'. cbn [mbind outcome_bind]. split.
    + rewrite fmap_cons.
      by rewrite (entry_ptr q n info).
    + cbn [Spec.drop_all foldl e_uid]. by rewrite <- abs_remove.
Qed.

(** [timeout()] is [timeout(func)] with a constant clock and no callback. *)
Lemma timeout_loop_func fuel now : ∀ q,
  timeout_loop fuel now q = snd <$> timeout_func_loop fuel (λ _, now) q.
Proof.
  induction fuel as [|fuel IH]; intros q; [done|].
  cbn [timeout_loop timeout_func_loop].
  destruct (time_ q) as [|n rest]; [done|]. destruct (_ <? _); [done|].
  destruct (expire n rest q) as [[p q']| | | |]; cbn [mbind outcome_bind]; try done.
  rewrite IH. by destruct (timeout_func_loop _ _ _) as [[??]| | | |].
Qed.

Lemma generateId_spec q :
  generateId q = (let id := if u32 (uniqueId_ q + 1) =? 0 then 1 else u32 (uniqueId_ q + 1) in
                  (id, mk id (data_ q) (time_ q) (send_ q) (fresh q))).
Proof.
  unfold generateId. destruct (Z.eqb_spec (u32 (uniqueId_ q + 1)) 0) as [->|]; [|done].
  done.
Qed.

Lemma represents_abs q : wf q → represents q (abs q).
Proof. done. Qed.

Lemma represents_remove q uid : wf q → represents (remove uid q) (Spec.remove uid (abs q)).
Proof. intros Hwf. split; [by apply remove_wf|apply abs_remove]. Qed.

Lemma get_refines q uid p er :
  wf q → ∃ q', get uid p er q = Ok (fst (Spec.get uid p er (abs q)), q') ∧
               represents q' (snd (Spec.get uid p er (abs q))).
Proof.
  intros Hwf. unfold Spec.get. rewrite abs_find by done.
  destruct (data_ q !! uid) as [info|] eqn:Hu; simpl.
  - rewrite (get_spec q uid p er info) by done. eexists. split; [done|].
    destruct er; [by apply represents_remove|done].
  - unfold get. rewrite Hu. eauto using represents_abs.
Qed.

Lemma erase_get uid p q : wf q → erase uid p q = get uid p true q.
Proof.
  intros Hwf. destruct (data_ q !! uid) as [info|] eqn:Hu.
  - by rewrite (get_spec q uid p true info), (erase_spec q uid p info).
  - unfold erase, get. by rewrite Hu.
Qed.

Lemma push_refines q p uid timeout sent :
  wf q → ∃ q', push p uid timeout sent q = Ok (fst (Spec.push p uid timeout sent (abs q)), q') ∧
               represents q' (snd (Spec.push p uid timeout sent (abs q))).
Proof.
  intros Hwf. unfold Spec.push. rewrite abs_find by done.
  destruct (data_ q !! uid) as [info|] eqn:Hu; simpl.
  - rewrite (push_dup _ _ _ _ _ info) by done. eauto using represents_abs.
  - rewrite push_new by done. eexists. split; [done|].
    split; [by apply add_wf|]. by apply abs_add.
Qed.

Lemma getSend_refines q p : wf q → getSend p q = Spec.getSend p (abs q).
Proof.
  intros Hwf. unfold getSend, Spec.getSend.
  change (Spec.unsent (abs q)) with (s_data <$> send_ q). rewrite fmap_last.
  destruct (last (send_ q)) as [n|] eqn:Hl; [|done]. cbn [fmap option_fmap option_map].
  apply last_Some in Hl as [l Hl].
  destruct (wf_send _ Hwf n) as (info & Hu & _); [rewrite Hl; set_solver|].
  rewrite abs_find by done. unfold data_at. rewrite Hu. cbn [mbind outcome_bind deref].
  rewrite (bool_decide_ext (ptr info = nullptr) (ptr <$> Some info = Some nullptr));
    [done|].
  simpl. split; [by intros ->|by intros [=]].
Qed.

Lemma popSend_refines q del :
  wf q → match popSend del q, Spec.popSend del (abs q) with
         | Ok q', Ok s' => represents q' s'
         | Assert, Assert => True
         | _, _ => False
         end.
Proof.
  intros Hwf. unfold Spec.popSend. change (Spec.unsent (abs q)) with (s_data <$> send_ q).
  rewrite fmap_last. destruct (last (send_ q)) as [n|] eqn:Hl.
  - apply last_Some in Hl as [l Hl]. rewrite (popSend_spec q l n) by done.
    destruct del; [by apply represents_remove|]. split; [by apply mark_sent_wf|].
    rewrite abs_mark_sent by done. rewrite Hl, fmap_app.
    change (s_data <$> [n]) with [s_data n]. by rewrite removelast_last.
  - unfold popSend. by rewrite Hl.
Qed.

Lemma timeout_one_refines q now p :
  wf q → ∃ q', timeout_one now p q =
    (match Spec.expired (λ _, now) (Spec.requests (abs q)) with
     | [] => Ok (false, p, q')
     | e :: _ => Ok (true, e_ptr e, q')
     end) ∧
    represents q' (match Spec.expired (λ _, now) (Spec.requests (abs q)) with
                   | [] => abs q
                   | e :: _ => Spec.remove (e_uid e) (abs q)
                   end).
Proof.
  intros Hwf. unfold timeout_one. change (Spec.requests (abs q)) with (entry_of q <$> time_ q).
  destruct (time_ q) as [|n rest] eqn:Ht; [by exists q|]. rewrite fmap_cons. simpl.
  destruct (_ <? _); [by exists q|].
  destruct (expire_spec q n rest Hwf Ht) as (info & Hu & ->). cbn [mbind outcome_bind].
  exists (remove (t_data n) q). rewrite (entry_ptr q n info) by done. split; [done|by apply represents_remove].
Qed.

Lemma ops_simulate o q s :
  represents q s → outcome_rel (obs_rel represents) (step o q) (spec_step o s).
Proof.
  intros [Hwf <-]. destruct o; cbn [step spec_step].
  - rewrite generateId_spec. split; [done|]. split; [|done]. by split; apply Hwf.
  - destruct (push_refines q p uid timeout0 sent Hwf) as (q' & -> & HR).
    by destruct (Spec.push _ _ _ _ _).
  - destruct (get_refines q uid p er Hwf) as (q' & -> & HR).
    by destruct (Spec.get _ _ _ _) as [[??]?].
  - rewrite erase_get by done. destruct (get_refines q uid p true Hwf) as (q' & -> & HR).
    by destruct (Spec.get _ _ _ _) as [[??]?].
  - rewrite getSend_refines by done. by destruct (Spec.getSend _ _) as [[??]| | | |].
  - pose proof (popSend_refines q del Hwf) as HR.
    by destruct (popSend del q), (Spec.popSend del (abs q)).
  - unfold timeout. rewrite timeout_loop_func.
    destruct (timeout_func_loop_spec (S (length (time_ q))) (λ _, now) q Hwf)
      as (q' & -> & HR); [lia|]. done.
  - destruct (timeout_one_refines q now p Hwf) as (q' & -> & HR).
    by destruct (Spec.expired _ _).
  - unfold timeout_func.
    destruct (timeout_func_loop_spec (S (length (time_ q))) clock q Hwf)
      as (q' & -> & HR); [lia|]. done.
  - split; [|done]. simpl. by rewrite size_requests, length_fmap.
  - split; [|done]. simpl. unfold getSendListSize. by rewrite length_fmap.
  - split; [|done]. simpl. unfold sendListEmpty. f_equal. apply bool_decide_ext.
    by destruct (send_ q).
Qed.

(** *** What [timeout()] leaves *)

Lemma drop_all_requests (es : list (Entry T)) : ∀ s,
  Spec.requests (Spec.drop_all es s) =
  filter (λ e, e_uid e ∉ e_uid <$> es) (Spec.requests s) ∧
  Spec.unsent (Spec.drop_all es s) = filter (λ u, u ∉ e_uid <$> es) (Spec.unsent s).
Proof.
  induction es as [|e es IH]; intros s; cbn [Spec.drop_all foldl].
  - split; symmetry; apply filter_all; intros; apply not_elem_of_nil.
  - destruct (IH (Spec.remove (e_uid e) s)) as [Hr Hu]. unfold Spec.drop_all in Hr, Hu.
    rewrite Hr, Hu. unfold Spec.remove. cbn [Spec.requests Spec.unsent].
    rewrite !list_filter_filter. split; apply filter_ext_in; intros;
      rewrite fmap_cons, not_elem_of_cons; tauto.
Qed.

Lemma expired_sorted now es :
  StronglySorted (λ a b : Entry T, e_deadline a ≤ e_deadline b) es →
  Spec.expired (λ _, now) es = filter (λ e, e_deadline e ≤ now) es.
Proof.
  induction 1 as [|e es Hes IH He]; [done|]. cbn [Spec.expired]. rewrite filter_cons.
  destruct (Z.ltb_spec now (e_deadline e)).
  - rewrite decide_False by lia. symmetry. rewrite Forall_forall in He.
    destruct (filter _ es) as [|e' es'] eqn:Hf; [done|].
    assert (e' ∈ filter (λ e, e_deadline e ≤ now) es) as Hin by (rewrite Hf; left).
    apply list_elem_of_filter in Hin as [? Hin]. specialize (He e' Hin). lia.
  - rewrite decide_True by lia. by rewrite IH.
Qed.

Lemma requests_sorted q :
  wf q → StronglySorted (λ a b : Entry T, e_deadline a ≤ e_deadline b) (Spec.requests (abs q)).
Proof.
  intros Hwf. unfold abs. cbn [Spec.requests].
  induction (wf_sorted _ Hwf) as [|n l Hl IH Hn]; [constructor|].
  rewrite fmap_cons. constructor; [done|]. apply Forall_forall.
  intros e (m & -> & Hm)%list_elem_of_fmap. by apply (proj1 (Forall_forall _ _) Hn).
Qed.

Lemma requests_uid_inj q e e' :
  wf q → e ∈ Spec.requests (abs q) → e' ∈ Spec.requests (abs q) → e_uid e = e_uid e' → e = e'.
Proof.
  intros Hwf (n & -> & Hn)%list_elem_of_fmap (n' & -> & Hn')%list_elem_of_fmap Heq.
  simpl in Heq. destruct (wf_time _ Hwf n' Hn') as (info & Hu & Hi).
  f_equal. apply (NoDup_fmap_inj_in t_id (time_ q)); [apply Hwf|done|done|].
  by apply (time_node_iff q _ info _ n Hwf Hu Hi Hn).
Qed.

Lemma unsent_known q u :
  wf q → u ∈ Spec.unsent (abs q) → ∃ e, e ∈ Spec.requests (abs q) ∧ e_uid e = u.
Proof.
  intros Hwf (n & -> & Hn)%list_elem_of_fmap.
  destruct (wf_send _ Hwf n Hn) as (info & Hu & _).
  destruct (wf_data_time _ Hwf _ info Hu) as (m & Hm & Heq).
  exists (entry_of q m). split; [by apply list_elem_of_fmap_2|done].
Qed.

Lemma getSend_added p uid deadline q (r : T) :
  send_ q = [] → p ≠ nullptr → getSend r (add p uid deadline false q) = Assert.
Proof.
  intros Hempty Hp. unfold getSend, data_at. simpl. rewrite Hempty. simpl.
  rewrite lookup_insert_eq. simpl. by rewrite bool_decide_false.
Qed.

(** ** Properties *)

(** C19: on every sequence of calls, with whatever arguments and whatever value
    [uniqueId_] starts with, the three mutually linked containers behave as the
    abstract queue: the same results, in the same order, or the same failed
    assertion, and never a dangling iterator; they stay consistent. *)
Theorem timeout_queue_refines ops id :
  outcome_rel (obs_rel represents) (run_ops step ops (new id))
              (run_ops spec_step ops (Spec.mk id [] [])).
Proof.
  apply (run_ops_refines represents (λ _ _, True)); [|by split; [apply new_wf|]|].
  - intros. by apply ops_simulate.
  - apply admissible_all.
Qed.

(** C36: [timeout()] terminates without touching a freed node; the requests whose
    deadline is not over stay, in order, and all others go, from the three
    containers. *)
Theorem timeout_drops_expired now q (Hwf : wf q) :
  ∃ q', timeout now q = Ok q' ∧ wf q' ∧
    Spec.requests (abs q') = filter (λ e, now < e_deadline e) (Spec.requests (abs q)) ∧
    Spec.unsent (abs q') =
      filter (λ u, u ∈ e_uid <$> Spec.requests (abs q')) (Spec.unsent (abs q)).
Proof.
  unfold timeout. rewrite timeout_loop_func.
  destruct (timeout_func_loop_spec (S (length (time_ q))) (λ _, now) q Hwf)
    as (q' & -> & Hwf' & Habs); [lia|].
  exists q'. rewrite Habs. split; [done|]. split; [done|].
  rewrite expired_sorted by (by apply requests_sorted).
  match goal with |- context [Spec.drop_all ?es ?s] => destruct (drop_all_requests es s) as [-> ->] end.
  assert (∀ e, e ∈ Spec.requests (abs q) →
    e_uid e ∉ e_uid <$> filter (λ e, e_deadline e ≤ now) (Spec.requests (abs q)) ↔
    now < e_deadline e) as Hiff.
  { intros e He. rewrite list_elem_of_fmap. split.
    - intros Hno. apply Z.nle_gt. intros Hle. apply Hno. exists e.
      split; [done|]. by apply list_elem_of_filter.
    - intros Hlt (e' & Heq & [Hle He']%list_elem_of_filter).
      rewrite (requests_uid_inj q e e' Hwf He He' Heq) in Hlt. lia. }
  split; [by apply filter_ext_in|]. apply filter_ext_in. intros u Hu.
  destruct (unsent_known q u Hwf Hu) as (e & He & <-). rewrite (Hiff e He).
  rewrite (filter_ext_in _ (λ e, now < e_deadline e)) by done.
  rewrite list_elem_of_fmap. split.
  - intros ?. exists e. split; [done|]. by apply list_elem_of_filter.
  - intros (e' & Heq & [? He']%list_elem_of_filter).
    by rewrite (requests_uid_inj q e e' Hwf He He' Heq).
Qed.

(** [getSend] is no way to get at an unsent request: as soon as one with a
    pointer is queued first, its assertion is false, and when it does return it
    has not assigned the caller's variable. *)
Theorem getSend_unusable p uid deadline q q' (r : T)
    (Hwf : wf q) (Hnew : push p uid deadline false q = Ok (true, q'))
    (Hempty : send_ q = []) (Hp : p ≠ nullptr) :
  getSend r q' = Assert ∧ ∀ b r', getSend r q = Ok (b, r') → r' = r.
Proof.
  destruct (data_ q !! uid) as [info|] eqn:Hu;
    [rewrite (push_dup _ _ _ _ _ info) in Hnew by done; discriminate|].
  rewrite push_new in Hnew by done. injection Hnew as <-. split.
  - by apply getSend_added.
  - intros b r'. unfold getSend. rewrite Hempty. simpl. by intros [= _ <-].
Qed.

End refinement.

(** A queue with three requests, two of them unsent, of which one is overdue. *)
Definition sample : t (option nat) :=
  add (Some 3%nat) 3 30 false
    (add (Some 2%nat) 2 10 false (add (Some 1%nat) 1 20 true (new 0))).

Lemma sample_wf : wf sample.
Proof. repeat apply add_wf; [apply new_wf|..]; by vm_compute. Qed.

Lemma timeout_drops_expired_witness :
  ∃ q', timeout 20 sample = Ok q' ∧
        Spec.requests (abs q') = [mk_entry 30 3 (Some 3%nat)] ∧
        Spec.unsent (abs q') = [3].
Proof.
  destruct (timeout_drops_expired 20 sample sample_wf) as (q' & Hq' & _ & Hr & Hu).
  exists q'. split; [exact Hq'|]. rewrite Hu, Hr. split; reflexivity.
Defined.

Lemma getSend_unusable_witness :
  getSend None (add (Some 1%nat) 7 20 false (new 0)) = Assert.
Proof.
  apply (getSend_unusable (Some 1%nat) 7 20 (new 0));
    [apply new_wf|reflexivity|reflexivity|discriminate].
Defined.

End TimeoutQueue.
