(* ===== verification/Wire.v ===== *)
(** * Wire: the bytes exchanged between client and server

    The length header of a request ([ObjectProxy::sendReqMessage] writes it,
    [Connection::recv] reads it), and the decimal request id in front of a
    request and of a response ([std::to_string] writes it, [atoi] in
    [ObjectProxy::finishInvoke] reads it). *)

From S2P Require Import Prelude.

Module Wire.

(** ** Bytes of a 32-bit word in memory (little-endian) and on the wire *)

Definition byte_of (z : Z) : ascii := ascii_of_N (Z.to_N (u8 z)).
Definition byte_val (c : ascii) : Z := Z.of_N (N_of_ascii c).

Definition load32 (bs : bytes) : Z :=
  foldr (λ c acc, byte_val c + 256 * acc) 0 (take 4 bs).

Definition store32 (z : Z) : bytes :=
  [byte_of z; byte_of (z `div` 2 ^ 8); byte_of (z `div` 2 ^ 16); byte_of (z `div` 2 ^ 24)].

(** [htonl], and [ntohl] which is the same function. *)
Definition htonl (z : Z) : Z :=
  (z `mod` 2 ^ 8) * 2 ^ 24 + ((z `div` 2 ^ 8) `mod` 2 ^ 8) * 2 ^ 16
  + ((z `div` 2 ^ 16) `mod` 2 ^ 8) * 2 ^ 8 + (z `div` 2 ^ 24) `mod` 2 ^ 8.

(** [const int32_t len = ::ntohl(be32)] for [be32] at the start of [bs]. *)
Definition read_len (bs : bytes) : Z := i32 (htonl (load32 bs)).

(** [int32_t be32 = ::htonl(len)] stored at the start of a string. *)
Definition write_len (len : Z) : bytes := store32 (htonl (u32 len)).

Definition colon : ascii := ":"%char.

(** What [sendReqMessage] puts around a payload. *)
Definition frame (payload : bytes) : bytes :=
  write_len (i32 (zlen payload)) ++ colon :: payload.

(** The bytes in front of a payload: length and colon. *)
Definition kHeaderSize : Z := 5.

(** ** Decimal numbers *)

Definition digit (d : Z) : ascii := byte_of (48 + d).

(** The decimal digits of [n], in front of [acc]. *)
Fixpoint digits (fuel : nat) (n : Z) (acc : bytes) : bytes :=
  match fuel with
  | O => acc
  | S fuel =>
      let acc := digit (n `mod` 10) :: acc in
      if n <? 10 then acc else digits fuel (n `div` 10) acc
  end.

(** [std::to_string(int)]: at most ten digits. *)
Definition to_string (n : Z) : bytes :=
  if n <? 0 then "-"%char :: digits 10 (- n) [] else digits 10 n [].

Definition is_space (c : ascii) : bool :=
  let v := byte_val c in (v =? 32) || ((9 <=? v) && (v <=? 13)).

Definition is_digit (c : ascii) : bool :=
  let v := byte_val c in (48 <=? v) && (v <=? 57).

Fixpoint read_digits (bs : bytes) (acc : Z) : Z :=
  match bs with
  | c :: bs => if is_digit c then read_digits bs (10 * acc + (byte_val c - 48)) else acc
  | [] => acc
  end.

Fixpoint skip_space (bs : bytes) : bytes :=
  match bs with
  | c :: bs' => if is_space c then skip_space bs' else bs
  | [] => []
  end.

(** [strtol(..., 10)] saturates at the 64-bit [long], [atoi] converts to [int]. *)
Definition atoi (bs : bytes) : Z :=
  let clamp n := Z.max (- 2 ^ 63) (Z.min (2 ^ 63 - 1) n) in
  i32 (clamp (match skip_space bs with
              | c :: bs' =>
                  if bool_decide (c = "-"%char) then - read_digits bs' 0
                  else if bool_decide (c = "+"%char) then read_digits bs' 0
                  else read_digits (c :: bs') 0
              | [] => 0
              end)).

(** [s.substr(0, s.find(":"))]. *)
Fixpoint before_colon (bs : bytes) : bytes :=
  match bs with
  | c :: bs => if bool_decide (c = colon) then [] else c :: before_colon bs
  | [] => []
  end.

(** The payload of a request: [std::to_string(msg->requestId) + ":" + msg->request],
    with the [int] member [requestId] holding the id. *)
Definition request_payload (id : Z) (request : bytes) : bytes :=
  to_string (i32 id) ++ colon :: request.

(** The bytes of several requests, with the ids from [id + 1] on. *)
Fixpoint stream (id : Z) (requests : list bytes) : bytes :=
  match requests with
  | [] => []
  | r :: requests => frame (request_payload (id + 1) r) ++ stream (id + 1) requests
  end.

Lemma stream_app (l1 l2 : list bytes) : ∀ u,
  stream u (l1 ++ l2) = stream u l1 ++ stream (u + zlen l1) l2.
Proof.
  induction l1 as [|m l1 IH]; intros u; [by rewrite Z.add_0_r|]. cbn [app stream length].
  rewrite IH, <- app_assoc. by replace (u + 1 + zlen l1) with (u + Z.of_nat (S (length l1))) by lia.
Qed.

(** The id that [finishInvoke] looks up for a response. *)
Definition response_id (response : bytes) : Z := u32 (atoi (before_colon response)).

(** ** Lemmas *)

Lemma byte_val_of z : byte_val (byte_of z) = u8 z.
Proof.
  unfold byte_val, byte_of. pose proof (Z.mod_pos_bound z (2 ^ 8)).
  rewrite N_ascii_embedding by (unfold u8; lia). unfold u8. lia.
Qed.

Lemma load_store32 z : load32 (store32 z) = u32 z.
Proof.
  unfold load32, store32. cbn [take foldr]. rewrite !byte_val_of. word.
Qed.

Lemma load32_app bs bs' : (4 ≤ length bs)%nat → load32 (bs ++ bs') = load32 bs.
Proof. intros. unfold load32. by rewrite take_app_le by lia. Qed.

Lemma htonl_bytes b0 b1 b2 b3 :
  0 ≤ b0 < 256 → 0 ≤ b1 < 256 → 0 ≤ b2 < 256 → 0 ≤ b3 < 256 →
  htonl (b0 + 2 ^ 8 * b1 + 2 ^ 16 * b2 + 2 ^ 24 * b3) =
  b3 + 2 ^ 8 * b2 + 2 ^ 16 * b1 + 2 ^ 24 * b0.
Proof.
  intros. unfold htonl. set (z := b0 + _ + _ + _).
  assert (z `mod` 2 ^ 8 = b0) as ->
    by (symmetry; apply (Z.mod_unique_pos _ _ (b1 + 2 ^ 8 * b2 + 2 ^ 16 * b3)); lia).
  assert (z `div` 2 ^ 8 = b1 + 2 ^ 8 * b2 + 2 ^ 16 * b3) as ->
    by (symmetry; apply (Z.div_unique_pos _ _ _ b0); lia).
  assert (z `div` 2 ^ 16 = b2 + 2 ^ 8 * b3) as ->
    by (symmetry; apply (Z.div_unique_pos _ _ _ (b0 + 2 ^ 8 * b1)); lia).
  assert (z `div` 2 ^ 24 = b3) as ->
    by (symmetry; apply (Z.div_unique_pos _ _ _ (b0 + 2 ^ 8 * b1 + 2 ^ 16 * b2)); lia).
  assert ((b1 + 2 ^ 8 * b2 + 2 ^ 16 * b3) `mod` 2 ^ 8 = b1) as ->
    by (symmetry; apply (Z.mod_unique_pos _ _ (b2 + 2 ^ 8 * b3)); lia).
  assert ((b2 + 2 ^ 8 * b3) `mod` 2 ^ 8 = b2) as ->
    by (symmetry; apply (Z.mod_unique_pos _ _ b3); lia).
  rewrite (Z.mod_small b3) by lia. lia.
Qed.

Lemma word_bytes z :
  0 ≤ z < 2 ^ 32 →
  ∃ b0 b1 b2 b3, 0 ≤ b0 < 256 ∧ 0 ≤ b1 < 256 ∧ 0 ≤ b2 < 256 ∧ 0 ≤ b3 < 256 ∧
    z = b0 + 2 ^ 8 * b1 + 2 ^ 16 * b2 + 2 ^ 24 * b3.
Proof.
  intros.
  pose proof (Z.div_mod z 256). pose proof (Z.mod_pos_bound z 256).
  pose proof (Z.div_mod (z `div` 256) 256). pose proof (Z.mod_pos_bound (z `div` 256) 256).
  pose proof (Z.div_mod ((z `div` 256) `div` 256) 256).
  pose proof (Z.mod_pos_bound ((z `div` 256) `div` 256) 256).
  exists (z `mod` 256), ((z `div` 256) `mod` 256), (((z `div` 256) `div` 256) `mod` 256),
    (((z `div` 256) `div` 256) `div` 256). lia.
Qed.

Lemma htonl_twice z : 0 ≤ z < 2 ^ 32 → htonl (htonl z) = z.
Proof.
  intros (b0 & b1 & b2 & b3 & ? & ? & ? & ? & ->)%word_bytes.
  by rewrite !htonl_bytes by done.
Qed.

Lemma htonl_range z : 0 ≤ z < 2 ^ 32 → 0 ≤ htonl z < 2 ^ 32.
Proof.
  intros (b0 & b1 & b2 & b3 & ? & ? & ? & ? & ->)%word_bytes.
  rewrite htonl_bytes by done. lia.
Qed.

Lemma length_write_len len : length (write_len len) = 4%nat.
Proof. done. Qed.

Lemma read_write_len len bs : - 2 ^ 31 ≤ len < 2 ^ 31 → read_len (write_len len ++ bs) = len.
Proof.
  intros. unfold read_len, write_len. rewrite load32_app, load_store32 by (simpl; lia).
  rewrite u32_small by (apply htonl_range, u32_range). rewrite htonl_twice by apply u32_range. word.
Qed.

Lemma length_frame payload : zlen (frame payload) = kHeaderSize + zlen payload.
Proof. unfold frame, kHeaderSize. rewrite length_app, length_write_len. simpl. lia. Qed.

(** *** Decimal numbers *)

Lemma byte_val_digit d : 0 ≤ d < 10 → byte_val (digit d) = 48 + d.
Proof. intros. unfold digit. rewrite byte_val_of. unfold u8. rewrite Z.mod_small; lia. Qed.

Lemma digit_is_digit d : 0 ≤ d < 10 → is_digit (digit d).
Proof.
  intros. unfold is_digit. rewrite byte_val_digit by done. apply Is_true_true. lia.
Qed.

Lemma digits_Forall fuel : ∀ n acc,
  0 ≤ n → Forall is_digit acc → Forall is_digit (digits fuel n acc).
Proof.
  induction fuel as [|fuel IH]; intros n acc Hn Hacc; [done|]. cbn [digits].
  assert (Forall is_digit (digit (n `mod` 10) :: acc)).
  { constructor; [|done]. apply digit_is_digit, Z.mod_pos_bound. lia. }
  destruct (Z.ltb_spec n 10); [done|]. apply IH; [|done]. apply Z.div_pos; lia.
Qed.

Lemma digits_not_nil fuel n acc : digits (S fuel) n acc ≠ [].
Proof.
  revert n acc. induction fuel as [|fuel IH]; intros n acc; cbn [digits].
  - by destruct (_ <? _).
  - destruct (_ <? _); [done|]. apply IH.
Qed.

Lemma read_digits_digits fuel : ∀ n acc,
  0 ≤ n < 10 ^ Z.of_nat (S fuel) →
  read_digits (digits (S fuel) n acc) 0 = read_digits acc n.
Proof.
  induction fuel as [|fuel IH]; intros n acc Hn.
  - change (10 ^ Z.of_nat 1) with 10 in Hn. cbn [digits].
    rewrite (proj2 (Z.ltb_lt n 10)), Z.mod_small by lia. cbn [read_digits].
    rewrite (Is_true_eq_true _ (digit_is_digit n ltac:(lia))), byte_val_digit by lia.
    f_equal. lia.
  - rewrite Nat2Z.inj_succ, Z.pow_succ_r in Hn by lia.
    pose proof (Z.mod_pos_bound n 10). pose proof (Z.div_mod n 10).
    remember (S fuel) as f. cbn [digits]. destruct (Z.ltb_spec n 10).
    + cbn [read_digits]. rewrite Z.mod_small by lia.
      rewrite (Is_true_eq_true _ (digit_is_digit n ltac:(lia))), byte_val_digit by lia.
      f_equal. lia.
    + rewrite IH by lia. cbn [read_digits].
      rewrite (Is_true_eq_true _ (digit_is_digit (n `mod` 10) ltac:(lia))),
        byte_val_digit by lia.
      f_equal. lia.
Qed.

Lemma digit_plain c : is_digit c → c ≠ colon ∧ c ≠ "-"%char ∧ c ≠ "+"%char ∧ is_space c = false.
Proof.
  unfold is_digit, is_space. intros Hc%Is_true_true.
  repeat split; [intros ->; discriminate..|]. lia.
Qed.

(** Reading back a number that has been printed. *)
Lemma atoi_to_string n : - 2 ^ 31 ≤ n < 2 ^ 31 → atoi (to_string n) = n.
Proof.
  intros Hn. unfold atoi, to_string. destruct (Z.ltb_spec n 0).
  - cbn [skip_space]. change (is_space "-"%char) with false. cbv iota zeta.
    rewrite bool_decide_true by done. rewrite read_digits_digits by lia.
    cbn [read_digits]. rewrite i32_small; lia.
  - destruct (digits 10 n []) as [|c bs] eqn:Hd; [by apply digits_not_nil in Hd|].
    assert (is_digit c) as Hc.
    { pose proof (digits_Forall 10 n [] ltac:(lia) ltac:(done)) as Hall. rewrite Hd in Hall.
      by inversion Hall. }
    apply digit_plain in Hc as (_ & ? & ? & Hsp). cbn [skip_space]. rewrite Hsp.
    cbv iota zeta. rewrite !bool_decide_false by done.
    rewrite <- Hd, read_digits_digits by lia. cbn [read_digits]. rewrite i32_small; lia.
Qed.

Lemma before_colon_app bs rest :
  Forall (λ c, c ≠ colon) bs → before_colon (bs ++ colon :: rest) = bs.
Proof.
  induction 1 as [|c bs Hc Hbs IH]; [done|]. cbn [app before_colon].
  by rewrite bool_decide_false, IH.
Qed.

Lemma to_string_no_colon n : Forall (λ c, c ≠ colon) (to_string n).
Proof.
  assert (∀ m, 0 ≤ m → Forall (λ c, c ≠ colon) (digits 10 m [])) as Hd.
  { intros m Hm. apply (Forall_impl is_digit); [by apply digits_Forall|].
    intros c Hc. by apply (digit_plain c). }
  unfold to_string. destruct (Z.ltb_spec n 0); [constructor; [done|]|]; apply Hd; lia.
Qed.

Lemma length_digits fuel : ∀ n acc, (length (digits fuel n acc) ≤ fuel + length acc)%nat.
Proof.
  induction fuel as [|fuel IH]; intros n acc; cbn [digits]; [lia|].
  destruct (_ <? _); [cbn; lia|]. etrans; [apply IH|]. cbn. lia.
Qed.

Lemma length_to_string n : (length (to_string n) ≤ 11)%nat.
Proof.
  unfold to_string. destruct (_ <? _); cbn [length];
    pose proof (length_digits 10 (- n) []); pose proof (length_digits 10 n []); cbn in *; lia.
Qed.

(** The bytes of a request: header, id, two colons. *)
Lemma length_request id r :
  zlen r < zlen (frame (request_payload id r)) ≤ zlen r + 17.
Proof.
  rewrite length_frame. unfold kHeaderSize, request_payload. rewrite length_app. cbn [length].
  pose proof (length_to_string (i32 id)). lia.
Qed.

Lemma response_id_to_string id body :
  0 ≤ id < 2 ^ 32 → response_id (to_string (i32 id) ++ colon :: body) = id.
Proof.
  intros Hid. unfold response_id. rewrite before_colon_app by apply to_string_no_colon.
  rewrite atoi_to_string by apply i32_range. rewrite u32_i32. by apply u32_small.
Qed.

(** A response that starts with the id the client printed into its request
    is found under exactly that id, for all of the 2^32 ids, although the id is
    stored in a signed [int] in between. *)
Theorem request_id_roundtrip id request (Hid : 0 ≤ id < 2 ^ 32) :
  response_id (request_payload id request) = id.
Proof. by apply response_id_to_string. Qed.

Lemma request_id_roundtrip_witness :
  response_id (request_payload 4294967290 ["x"%char; ":"%char]) = 4294967290.
Proof. apply request_id_roundtrip. lia. Defined.

End Wire.
