(* ===== verification/Message.v ===== *)
(** * Message: Message.h

    The messages that pass between the network threads, the handler threads
    and the client's threads.  A [shared_ptr] to an object of another component
    is the handle of that object, [None] for null; strings are byte lists. *)

From S2P Require Import Prelude.

Abbreviation handle := (option nat).

Inductive EM_CLOSE_T : Set := EM_CLIENT_CLOSE | EM_SERVER_CLOSE | EM_SERVER_TIMEOUT_CLOSE.

Definition close_type (c : EM_CLOSE_T) : Z :=
  match c with
  | EM_CLIENT_CLOSE => 0
  | EM_SERVER_CLOSE => 1
  | EM_SERVER_TIMEOUT_CLOSE => 2
  end.

Module RecvData.

Record tagRecvData := mk {
  uid : Z;
  buffer : bytes;
  ip : bytes;
  port : Z;
  recvTimestamp : Z;
  overload : bool;
  closed : bool;
  fd : Z;
  adapter : handle;
  closeType : Z
}.

#[export] Instance tagRecvData_eq_dec : EqDecision tagRecvData.
Proof. solve_decision. Defined.

End RecvData.
Export (hints) RecvData.

Module SendData.

Record tagSendData := mk {
  cmd : ascii;
  uid : Z;
  buffer : bytes;
  ip : bytes;
  port : Z
}.

#[export] Instance tagSendData_eq_dec : EqDecision tagSendData.
Proof. solve_decision. Defined.

End SendData.
Export (hints) SendData.

Module Request.

Inductive CallType : Set := SYNC_CALL | ASYNC_CALL | ONE_WAY | THREAD_EXIT.
Inductive ReqStatus : Set := REQ_REQ | REQ_RSP | REQ_TIME | REQ_BUSY | REQ_EXC.

#[export] Instance CallType_eq_dec : EqDecision CallType.
Proof. solve_decision. Defined.
#[export] Instance ReqStatus_eq_dec : EqDecision ReqStatus.
Proof. solve_decision. Defined.

(** The object behind a [ReqMessage*]; [callback] and [monitor] say whether the
    member holds something. *)
Record ReqMessage := mk {
  status : ReqStatus;
  type : CallType;
  callback : bool;
  objectProxy : handle;
  request : bytes;
  response : bytes;
  reqData : bytes;
  monitor : bool;
  monitorFin : bool;
  push : bool;
  beginTime : Z;
  requestId : Z
}.

#[export] Instance ReqMessage_eq_dec : EqDecision ReqMessage.
Proof. solve_decision. Defined.

Definition fresh : ReqMessage :=
  mk REQ_REQ SYNC_CALL false None [] [] [] false false false 0 1.

(** [ReqMessage::init]; [monitor.release()] gives up the monitor without
    deleting it. *)
Definition init (calltype : CallType) (m : ReqMessage) : ReqMessage :=
  mk REQ_REQ calltype (callback m) (objectProxy m) (request m) (response m) []
     false false false 0 1.

Definition set_status (s : ReqStatus) (m : ReqMessage) : ReqMessage :=
  mk s (type m) (callback m) (objectProxy m) (request m) (response m) (reqData m)
     (monitor m) (monitorFin m) (push m) (beginTime m) (requestId m).

Definition set_response (r : bytes) (m : ReqMessage) : ReqMessage :=
  mk (status m) (type m) (callback m) (objectProxy m) (request m) r (reqData m)
     (monitor m) (monitorFin m) (push m) (beginTime m) (requestId m).

Definition set_request (r d : bytes) (id : Z) (m : ReqMessage) : ReqMessage :=
  mk (status m) (type m) (callback m) (objectProxy m) r (response m) d
     (monitor m) (monitorFin m) (push m) (beginTime m) id.

Definition set_monitorFin (b : bool) (m : ReqMessage) : ReqMessage :=
  mk (status m) (type m) (callback m) (objectProxy m) (request m) (response m) (reqData m)
     (monitor m) b (push m) (beginTime m) (requestId m).

(** The messages made with [new] and not yet deleted. *)
Abbreviation heap := (gmap nat ReqMessage).

(** [delete msg]. *)
Definition delete_msg (p : nat) (h : heap) : outcome heap :=
  _ ← deref (h !! p);
  Ok (delete p h).

End Request.
Export (hints) Request.
