(* ===== verification/AsyncProcThread.v ===== *)
(** * AsyncProcThread: AsyncProcThread.h, AsyncProcThread.cc

    The thread that runs the callbacks of asynchronous calls.  The network
    thread hands it messages through a [LoopQueue]; [run] takes them off one by
    one, calls the callback or prints the response, and deletes the message.
    A [ReqMessage*] is an address in a heap shared with the other threads, and
    [events] records what the user of the library sees. *)

From S2P Require Import Prelude Monitor LoopQueue Message.

Module AsyncProcThread.

Inductive event : Set :=
| Called (p : nat) (response : bytes)  (* msg->callback(msg) *)
| Printed (response : bytes).          (* printf("%s \n", ...) *)

#[export] Instance event_eq_dec : EqDecision event.
Proof. solve_decision. Defined.

Record t := mk {
  monitor_ : Monitor.t;
  msgQueue_ : LoopQueue.t nat;
  exit : bool;
  terminate_ : bool
}.

(** A thread with the memory it shares. *)
Record world := mk_world { thread : t; heap : Request.heap; events : list event }.

Definition new (queueCap : Z) : outcome t :=
  q ← LoopQueue.new queueCap;
  Ok (mk Monitor.init q false false).

Definition set_monitor (m : Monitor.t) (a : t) : t := mk m (msgQueue_ a) (exit a) (terminate_ a).
Definition set_queue (q : LoopQueue.t nat) (a : t) : t := mk (monitor_ a) q (exit a) (terminate_ a).
Definition set_thread (a : t) (w : world) : world := mk_world a (heap w) (events w).

Definition terminate (a : t) : t :=
  let m := Monitor.unlock (Monitor.notifyAll (Monitor.lock (monitor_ a))) in
  mk m (msgQueue_ a) (exit a) true.

(** [push_back]: a message that finds no room is deleted. *)
Definition push_back (msg : nat) (a : t) (h : Request.heap) : outcome (bool * t * Request.heap) :=
  '(flag, q) ← LoopQueue.push_back msg (msgQueue_ a);
  m ← Monitor.notify (Monitor.lock (monitor_ a));
  let a := set_monitor (Monitor.unlock m) (set_queue q a) in
  if negb flag then h ← Request.delete_msg msg h; Ok (flag, a, h)
  else Ok (flag, a, h).

Definition size (a : t) : Z := LoopQueue.size (msgQueue_ a).

(** What the user sees of a message that is taken off the queue. *)
Definition dispatch (p : nat) (m : Request.ReqMessage) : event :=
  if Request.callback m then Called p (Request.response m) else Printed (Request.response m).

(** The wait for messages; [others] is what the other threads do meanwhile, [rc]
    the answer of the condition variable. *)
Definition wait_section (rc : bool) (others : world → outcome world) (w : world) : outcome world :=
  if LoopQueue.empty (msgQueue_ (thread w)) then
    let '(_, m) := Monitor.timedWait 1000 rc (Monitor.lock (monitor_ (thread w))) in
    w ← others (set_thread (set_monitor m (thread w)) w);
    let m := Monitor.unlock (Monitor.set_notify 0 (monitor_ (thread w))) in
    Ok (set_thread (set_monitor m (thread w)) w)
  else Ok w.

(** One pass of the loop of [run]. *)
Definition pass (rc : bool) (others : world → outcome world) (w : world) : outcome world :=
  w ← wait_section rc others w;
  '(ret, msg, q) ← LoopQueue.pop_front_to (msgQueue_ (thread w));
  let a := set_queue q (thread w) in
  if (ret : bool) then
    p ← deref msg;
    m ← deref (heap w !! p);
    h ← Request.delete_msg p (heap w);
    Ok (mk_world a h (events w ++ [dispatch p m]))
  else Ok (mk_world a (heap w) (events w)).

(** What happens around one pass: before the test of [terminate_], and during
    the wait. *)
Record around := mk_around {
  before : world → outcome world;
  rc : bool;
  during : world → outcome world
}.

(** [run], followed for as many passes as [env] has entries. *)
Fixpoint run (env : list around) (w : world) : outcome world :=
  match env with
  | [] => Ok w
  | e :: env =>
      w ← before e w;
      if negb (terminate_ (thread w)) then w ← pass (rc e) (during e) w; run env w
      else
        let a := thread w in
        Ok (set_thread (mk (monitor_ a) (msgQueue_ a) true (terminate_ a)) w)
  end.

(** ** What becomes of the messages

    The specification keeps the messages that found room, in the order of their
    arrival, how many of them have been handled, and the ones that did not. *)

Record spec := mk_spec { accepted : list nat; handled : nat; rejected : list nat }.

Definition pending (s : spec) : list nat := drop (handled s) (accepted s).

Definition start : spec := mk_spec [] 0 [].

Inductive op :=
| Push (p : nat)
| Pass (rc : bool) (arrivals : list nat)   (* messages pushed while the thread waits *)
| Terminate.

Definition push_world (p : nat) (w : world) : outcome (bool * world) :=
  '(flag, a, h) ← push_back p (thread w) (heap w);
  Ok (flag, mk_world a h (events w)).

Fixpoint push_all (ps : list nat) (w : world) : outcome world :=
  match ps with
  | [] => Ok w
  | p :: ps => '(_, w) ← push_world p w; push_all ps w
  end.

Definition step (o : op) (w : world) : outcome (bool * world) :=
  match o with
  | Push p => push_world p w
  | Pass rc arrivals => w ← pass rc (push_all arrivals) w; Ok (true, w)
  | Terminate => Ok (true, set_thread (terminate (thread w)) w)
  end.

Definition spec_push (n : Z) (p : nat) (s : spec) : bool * spec :=
  if zlen (pending s) <? n
  then (true, mk_spec (accepted s ++ [p]) (handled s) (rejected s))
  else (false, mk_spec (accepted s) (handled s) (rejected s ++ [p])).

Definition spec_push_all (n : Z) (ps : list nat) (s : spec) : spec :=
  foldl (λ s p, (spec_push n p s).2) s ps.

Definition spec_take (s : spec) : spec :=
  if (handled s <? length (accepted s))%nat
  then mk_spec (accepted s) (S (handled s)) (rejected s) else s.

Definition spec_step (n : Z) (o : op) (s : spec) : outcome (bool * spec) :=
  match o with
  | Push p => Ok (spec_push n p s)
  | Pass _ arrivals =>
      Ok (true, spec_take (if bool_decide (pending s = []) then spec_push_all n arrivals s else s))
  | Terminate => Ok (true, s)
  end.

(** Messages that are alive and have not been pushed before. *)
Definition fresh (h0 : Request.heap) (ps : list nat) (s : spec) : Prop :=
  NoDup ps ∧ ∀ p, p ∈ ps → is_Some (h0 !! p) ∧ p ∉ accepted s ∧ p ∉ rejected s.

Definition op_ok (h0 : Request.heap) (o : op) (s : spec) : Prop :=
  match o with
  | Push p => fresh h0 [p] s
  | Pass _ arrivals => fresh h0 arrivals s
  | Terminate => True
  end.

(** The messages that have been deleted. *)
Definition freed (s : spec) : list nat := take (handled s) (accepted s) ++ rejected s.

(** The state of the code, for a heap [h0] at the start: each handled message has
    been called back or printed with what it held, and the handled and the
    rejected ones, no others, are deleted. *)
Record simulates (n : Z) (h0 : Request.heap) (w : world) (s : spec) : Prop := {
  sim_queue : LoopQueue.repr n (msgQueue_ (thread w)) (pending s);
  sim_handled : (handled s ≤ length (accepted s))%nat;
  sim_heap : ∀ p, heap w !! p = if bool_decide (p ∈ freed s) then None else h0 !! p;
  sim_live : ∀ p, p ∈ accepted s → is_Some (h0 !! p);
  sim_nodup : NoDup (accepted s ++ rejected s);
  sim_events : Some <$> events w = (λ p, dispatch p <$> h0 !! p) <$> take (handled s) (accepted s)
}.

Section simulation.
Context (n : Z) (h0 : Request.heap) (Hn : 1 ≤ n).
Implicit Types (w : world) (s : spec).

Lemma sim_thread a w s :
  msgQueue_ a = msgQueue_ (thread w) → simulates n h0 w s → simulates n h0 (set_thread a w) s.
Proof. intros Hq Hs. split; cbn; try apply Hs. rewrite Hq. apply Hs. Qed.

Lemma pending_length s : (handled s ≤ length (accepted s))%nat →
  length (pending s) = (length (accepted s) - handled s)%nat.
Proof. intros. unfold pending. by rewrite length_drop. Qed.

Lemma fresh_alive w s p :
  simulates n h0 w s → fresh h0 [p] s →
  ∃ m, h0 !! p = Some m ∧ heap w !! p = Some m ∧ p ∉ accepted s ++ rejected s.
Proof.
  intros Hs [_ Hp]. destruct (Hp p) as ([m Hm] & Ha & Hr); [left|].
  exists m. split; [done|]. split; [|set_solver]. rewrite (sim_heap _ _ _ _ Hs).
  rewrite bool_decide_false; [done|]. unfold freed.
  intros [Ht|?]%elem_of_app; [|done]. apply Ha. eapply elem_of_submseteq; [exact Ht|].
  apply sublist_submseteq, sublist_take.
Qed.

Lemma push_sim p w s :
  simulates n h0 w s → fresh h0 [p] s →
  ∃ w', push_world p w = Ok ((spec_push n p s).1, w') ∧ simulates n h0 w' (spec_push n p s).2.
Proof.
  intros Hs Hp. destruct (fresh_alive w s p Hs Hp) as (m & Hm & Hw & Hno).
  pose proof (sim_nodup _ _ _ _ Hs) as Hnd. pose proof (sim_handled _ _ _ _ Hs) as Hle.
  pose proof (LoopQueue.push_back_empty_spec n _ _ p (sim_queue _ _ _ _ Hs) Hn) as Hq.
  unfold push_world, push_back, LoopQueue.push_back, spec_push.
  destruct (zlen (pending s) <? n).
  - destruct Hq as (q' & -> & Hr). cbn. eexists. split; [done|]. split; cbn; try apply Hs.
    + unfold pending in *. cbn. by rewrite drop_app_le.
    + rewrite length_app. lia.
    + intros x. rewrite (sim_heap _ _ _ _ Hs). unfold freed. cbn. by rewrite take_app_le.
    + intros x [Hx| ->%list_elem_of_singleton]%elem_of_app; [|by eexists].
      by apply (sim_live _ _ _ _ Hs).
    + rewrite <- app_assoc. apply (NoDup_Permutation_proper _ (p :: accepted s ++ rejected s));
        [symmetry; apply Permutation_middle|by constructor].
    + rewrite take_app_le by done. apply Hs.
  - rewrite Hq. cbn. unfold Request.delete_msg. rewrite Hw. cbn. eexists. split; [done|].
    split; cbn; try apply Hs.
    + intros x. unfold freed. cbn. rewrite app_assoc. destruct (decide (x = p)) as [->|Hx].
      * rewrite lookup_delete_eq, bool_decide_true; [done|set_solver].
      * rewrite lookup_delete_ne, (sim_heap _ _ _ _ Hs) by done.
        erewrite bool_decide_ext; [done|]. set_solver.
    + rewrite app_assoc. apply NoDup_app. split; [done|]. split; [|apply NoDup_singleton].
      intros x Hx ->%list_elem_of_singleton. done.
Qed.

Lemma spec_push_elem p s x :
  x ∈ accepted (spec_push n p s).2 ∨ x ∈ rejected (spec_push n p s).2 ↔
  x = p ∨ x ∈ accepted s ∨ x ∈ rejected s.
Proof. unfold spec_push. destruct (_ <? _); cbn; set_solver. Qed.

Lemma fresh_cons p ps s :
  fresh h0 (p :: ps) s → fresh h0 [p] s ∧ fresh h0 ps (spec_push n p s).2.
Proof.
  intros [[Hp Hnd]%NoDup_cons Hl]. split; [split; [apply NoDup_singleton|set_solver]|].
  split; [done|]. intros x Hx. destruct (Hl x) as (? & Ha & Hr); [by right|]. split; [done|].
  assert (¬ (x ∈ accepted (spec_push n p s).2 ∨ x ∈ rejected (spec_push n p s).2)); [|tauto].
  rewrite spec_push_elem. intros [->|[?|?]]; done.
Qed.

Lemma push_all_sim ps : ∀ w s,
  simulates n h0 w s → fresh h0 ps s →
  ∃ w', push_all ps w = Ok w' ∧ simulates n h0 w' (spec_push_all n ps s).
Proof.
  induction ps as [|p ps IH]; intros w s Hs Hf; [by exists w|].
  apply fresh_cons in Hf as [Hp Hf]. destruct (push_sim p w s Hs Hp) as (w1 & Hw & Hs1).
  cbn [push_all]. rewrite Hw. cbn [mbind outcome_bind]. by apply IH.
Qed.

Lemma wait_sim rc arrivals w s :
  simulates n h0 w s → fresh h0 arrivals s →
  ∃ w', wait_section rc (push_all arrivals) w = Ok w' ∧
    simulates n h0 w' (if bool_decide (pending s = []) then spec_push_all n arrivals s else s).
Proof.
  intros Hs Hf. unfold wait_section, LoopQueue.empty.
  rewrite (LoopQueue.empty_test n _ _ (sim_queue _ _ _ _ Hs)). case_bool_decide; [|by exists w].
  destruct (Monitor.timedWait _ _ _) as [? m]. set (w0 := set_thread _ w).
  destruct (push_all_sim arrivals w0 s) as (w1 & -> & Hs1); [by apply sim_thread|done|].
  cbn. eexists. split; [done|]. by apply sim_thread.
Qed.

Lemma take_sim w s :
  simulates n h0 w s →
  ∃ w', ('(ret, msg, q) ← LoopQueue.pop_front_to (msgQueue_ (thread w));
         let a := set_queue q (thread w) in
         if (ret : bool) then
           p ← deref msg;
           m ← deref (heap w !! p);
           h ← Request.delete_msg p (heap w);
           Ok (mk_world a h (events w ++ [dispatch p m]))
         else Ok (mk_world a (heap w) (events w))) = Ok w' ∧ simulates n h0 w' (spec_take s).
Proof.
  intros Hs. pose proof (sim_queue _ _ _ _ Hs) as Hq. pose proof (sim_handled _ _ _ _ Hs) as Hle.
  pose proof (sim_nodup _ _ _ _ Hs) as Hnd.
  unfold LoopQueue.pop_front_to. rewrite (LoopQueue.empty_test n _ _ Hq). unfold spec_take.
  destruct (Nat.ltb_spec (handled s) (length (accepted s))) as [Hlt|Hge].
  2:{ rewrite bool_decide_true by (unfold pending; apply drop_ge; lia). cbn.
      eexists. split; [done|]. split; cbn; apply Hs. }
  destruct (lookup_lt_is_Some_2 _ _ Hlt) as [p Hp].
  assert (pending s = p :: drop (S (handled s)) (accepted s)) as Hpe by by apply drop_S.
  rewrite Hpe in *. rewrite bool_decide_false by done.
  rewrite (LoopQueue.load_head n _ p _ Hq). cbn [mbind outcome_bind deref].
  destruct (sim_live _ _ _ _ Hs p) as [m Hm]; [by eapply list_elem_of_lookup_2|].
  assert (take (S (handled s)) (accepted s) = take (handled s) (accepted s) ++ [p]) as Htake
    by by apply take_S_r.
  assert (p ∉ freed s) as Hno.
  { rewrite <- (take_drop (handled s) (accepted s)) in Hnd.
    change (drop (handled s) (accepted s)) with (pending s) in Hnd. rewrite Hpe in Hnd.
    rewrite <- app_assoc in Hnd. apply NoDup_app in Hnd as (_ & Hdis & Hnd).
    apply NoDup_cons in Hnd as [Hnd _]. unfold freed. intros [Hx|Hx]%elem_of_app; set_solver. }
  assert (heap w !! p = Some m) as Hw by by rewrite (sim_heap _ _ _ _ Hs), bool_decide_false.
  unfold Request.delete_msg. rewrite Hw. cbn [mbind outcome_bind deref].
  eexists. split; [done|]. split; cbn; try apply Hs.
  - by apply LoopQueue.pop_step with p.
  - lia.
  - intros x. unfold freed. cbn. rewrite Htake. destruct (decide (x = p)) as [->|Hx].
    + rewrite lookup_delete_eq, bool_decide_true; [done|set_solver].
    + rewrite lookup_delete_ne, (sim_heap _ _ _ _ Hs) by done. unfold freed.
      erewrite bool_decide_ext; [done|]. set_solver.
  - rewrite Htake, !fmap_app, (sim_events _ _ _ _ Hs). cbn. by rewrite Hm.
Qed.

Lemma step_sim o w s :
  simulates n h0 w s → op_ok h0 o s →
  outcome_rel (obs_rel (simulates n h0)) (step o w) (spec_step n o s).
Proof.
  intros Hs Hok. destruct o as [p|rc arrivals|]; cbn [step spec_step].
  - destruct (push_sim p w s Hs Hok) as (w' & -> & Hs'). by destruct (spec_push n p s).
  - destruct (wait_sim rc arrivals w s Hs Hok) as (w1 & Hw & Hs1). unfold pass. rewrite Hw.
    cbn [mbind outcome_bind]. destruct (take_sim w1 _ Hs1) as (w2 & Hw2 & Hs2).
    cbn [mbind outcome_bind] in Hw2. rewrite Hw2. done.
  - split; [done|]. by apply sim_thread.
Qed.

End simulation.

(** ** Properties *)

(** C24: whatever is pushed and however often [run] goes through its loop, the
    messages that find fewer than [queueCap] others waiting are handled in the
    order of their arrival, each once and with the response it holds, and the
    others are deleted unseen: no message is deleted twice, and none is looked at
    after its deletion. *)
Theorem async_thread_refines n (h0 : Request.heap) (ops : list op)
    (Hn : 1 ≤ n < 10000) (Hok : admissible (op_ok h0) (spec_step n) ops start) :
  ∃ a os w s, new n = Ok a ∧
    run_ops step ops (mk_world a h0 []) = Ok (os, w) ∧
    run_ops (spec_step n) ops start = Ok (os, s) ∧ simulates n h0 w s.
Proof.
  destruct (LoopQueue.new_spec (T := nat) n) as (q & Hq & Hr); [lia|].
  assert (∀ s, ∃ os s', run_ops (spec_step n) ops s = Ok (os, s')) as Htotal.
  { clear. induction ops as [|o ops IH]; intros s; [by eexists _, _|]. cbn [run_ops].
    assert (∃ r, spec_step n o s = Ok r) as [[b s1] ->] by (destruct o; by eexists).
    cbn [mbind outcome_bind]. destruct (IH s1) as (os & s' & ->). by eexists _, _. }
  assert (simulates n h0 (mk_world (mk Monitor.init q false false) h0 []) start) as Hstart.
  { split; cbn; try done; [set_solver|constructor]. }
  destruct (Htotal start) as (os & s & Hs).
  pose proof (run_ops_refines (simulates n h0) (op_ok h0) step (spec_step n)
    ltac:(intros; apply step_sim; try done; lia) ops _ _ Hstart Hok) as Href.
  rewrite Hs in Href. unfold new. rewrite Hq. eexists. cbn [mbind outcome_bind].
  destruct (run_ops step ops _) as [[os' w]| | | |] eqn:Hw; try done.
  destruct Href as [Heq Hsim]. cbn in Heq. subst os'. by exists os, w, s.
Qed.

(** A pass that finds a message waiting. *)
Lemma pass_one n rc others w p ps m :
  LoopQueue.repr n (msgQueue_ (thread w)) (p :: ps) → heap w !! p = Some m →
  ∃ q, pass rc others w =
         Ok (mk_world (set_queue q (thread w)) (delete p (heap w)) (events w ++ [dispatch p m])) ∧
       LoopQueue.repr n q ps.
Proof.
  intros Hq Hm. unfold pass, wait_section, LoopQueue.empty, LoopQueue.pop_front_to.
  rewrite (LoopQueue.empty_test n _ _ Hq), bool_decide_false by done. cbn [mbind outcome_bind].
  rewrite (LoopQueue.empty_test n _ _ Hq), bool_decide_false by done.
  rewrite (LoopQueue.load_head n _ p ps Hq). cbn [mbind outcome_bind deref]. rewrite Hm.
  cbn [mbind outcome_bind deref]. unfold Request.delete_msg. rewrite Hm. eexists. split; [done|].
  by apply LoopQueue.pop_step with p.
Qed.

(** The thread that finds [terminate_] set leaves its loop, and with it whatever
    is still in its queue. *)
Lemma run_terminates w others rc during env :
  terminate_ (thread w) = true → others w = Ok w →
  run (mk_around others rc during :: env) w =
  Ok (set_thread (mk (monitor_ (thread w)) (msgQueue_ (thread w)) true true) w).
Proof. intros Ht Ho. cbn [run before]. rewrite Ho. cbn [mbind outcome_bind]. by rewrite Ht. Qed.

(** ** Witnesses *)

Definition answered (response : bytes) (callback : bool) : Request.ReqMessage :=
  Request.mk Request.REQ_REQ Request.ASYNC_CALL callback None [] response [] false false false 0 1.

Definition two_answered : Request.heap :=
  <[1%nat := answered ["a"%char] true]> {[2%nat := answered ["b"%char] false]}.

Lemma async_thread_refines_witness :
  ∃ a os w s, new 1 = Ok a ∧
    run_ops step [Pass false [1%nat]; Push 2%nat; Pass true []] (mk_world a two_answered [])
      = Ok (os, w) ∧
    run_ops (spec_step 1) [Pass false [1%nat]; Push 2%nat; Pass true []] start = Ok (os, s) ∧
    simulates 1 two_answered w s.
Proof.
  apply (async_thread_refines 1 two_answered [Pass false [1%nat]; Push 2%nat; Pass true []]).
  - lia.
  - assert (∀ p s, is_Some (two_answered !! p) → p ∉ accepted s → p ∉ rejected s →
      fresh two_answered [p] s) as Hone.
    { intros p s Hp Ha Hr. split; [apply NoDup_singleton|].
      intros x ->%list_elem_of_singleton. done. }
    split; [apply Hone; [by eexists|apply not_elem_of_nil..]|]. cbn.
    split; [apply Hone; [by eexists|set_solver..]|].
    split; [|done]. split; [constructor|]. intros p Hp. by apply elem_of_nil in Hp.
Defined.

End AsyncProcThread.
