(* ===== verification/Connection.v ===== *)
(** * Connection: Connection.h, Connection.cc

    One accepted connection: [recv] reads what the socket has and cuts it into
    the requests of the clients, [send] writes a response.  The receive buffer
    is any implementation of [ByteQueue]; results of the system calls are
    arguments. *)

From S2P Require Import Prelude ByteQueue Buffer Wire Message.

Module Connection.

(** What [read] on the socket gives next; the empty block is end of file. *)
Inductive read_result :=
| Rd (bs : bytes)
| RdErr (eagain : bool).

Inductive errno : Set := EAGAIN | EINTR | EINVAL | EOTHER.

(** What [send] or [writev] gives: the number of bytes the kernel took. *)
Inductive send_result :=
| Sent (n : Z)
| SendErr (e : errno).

(** The memory at [data] and [dataLen]. *)
Record Slice := mk_slice { data : bytes; dataLen : Z }.

#[export] Instance Slice_eq_dec : EqDecision Slice.
Proof. solve_decision. Defined.

Record t (B : Type) := mk {
  bindAdapter_ : handle;
  fd_ : Z;
  uid_ : Z;
  listenfd_ : Z;
  ip_ : bytes;
  port_ : Z;
  close_ : bool;
  recvBuffer_ : B;
  sendBuffer_ : list Slice
}.
Arguments mk {B}.
Arguments bindAdapter_ {B}.
Arguments fd_ {B}.
Arguments uid_ {B}.
Arguments listenfd_ {B}.
Arguments ip_ {B}.
Arguments port_ {B}.
Arguments close_ {B}.
Arguments recvBuffer_ {B}.
Arguments sendBuffer_ {B}.

(** [sizeof(buffer)] of [recv]. *)
Definition chunk_size : Z := 32 * 1024.

Section operations.
Context {B : Type} `{ByteQueue B}.
Implicit Types (c : t B) (rb : B).

Definition set_recvBuffer rb c : t B :=
  mk (bindAdapter_ c) (fd_ c) (uid_ c) (listenfd_ c) (ip_ c) (port_ c) (close_ c) rb
     (sendBuffer_ c).
Definition set_sendBuffer (l : list Slice) c : t B :=
  mk (bindAdapter_ c) (fd_ c) (uid_ c) (listenfd_ c) (ip_ c) (port_ c) (close_ c)
     (recvBuffer_ c) l.
Definition set_fd (fd : Z) c : t B :=
  mk (bindAdapter_ c) fd (uid_ c) (listenfd_ c) (ip_ c) (port_ c) (close_ c)
     (recvBuffer_ c) (sendBuffer_ c).

(** The constructor, which leaves [close_] with an arbitrary value. *)
Definition new (garbage : bool) (bind_adapter : handle) (listenfd fd : Z) (ip : bytes) (port : Z)
    : outcome (t B) :=
  _ ← assert_ (negb (fd =? -1));
  Ok (mk bind_adapter fd 0 listenfd ip port garbage bq_init []).

Definition init (uid : Z) c : t B :=
  mk (bindAdapter_ c) (fd_ c) uid (listenfd_ c) (ip_ c) (port_ c) (close_ c)
     (recvBuffer_ c) (sendBuffer_ c).

Definition set_close c : bool * t B :=
  (bool_decide (sendBuffer_ c = []),
   mk (bindAdapter_ c) (fd_ c) (uid_ c) (listenfd_ c) (ip_ c) (port_ c) true
      (recvBuffer_ c) (sendBuffer_ c)).

Definition close c : t B :=
  if negb (listenfd_ c =? -1) && negb (fd_ c =? -1) then set_fd (-1) c else c.

(** [~Connection], whose member [socket_] still holds [fd_]. *)
Definition destroy c : outcome unit :=
  if negb (listenfd_ c =? -1) then assert_ (fd_ c =? -1) else Ok tt.

(** The reading loop of [recv]: whether the connection is closed.  A socket
    with nothing left to give answers [EAGAIN]. *)
Fixpoint recv_loop (env : list read_result) rb : outcome (bool * B) :=
  match env with
  | [] | RdErr true :: _ => Ok (false, rb)
  | RdErr false :: _ | Rd [] :: _ => Ok (true, rb)
  | Rd bs :: env =>
      rb ← bq_push bs rb;
      if zlen bs <? chunk_size then Ok (false, rb) else recv_loop env rb
  end.

(** [std::string(p, n)] for the [n] bytes at the start of the buffer; the
    constructor throws when [n] is above [max_size()]. *)
Definition std_string (n : Z) rb : outcome bytes :=
  if 2 ^ 63 - 1 <? n then Raise LengthError
  else cs ← bq_peek n rb; cells_bytes cs.

(** The framing loop of [recv], which gives the [buffer] members of the
    messages.  [len] is converted to [size_t] where it is added, passed to
    [std::string] and passed to [consume]. *)
Fixpoint frame_loop (fuel : nat) rb : outcome (list bytes * B) :=
  match fuel with
  | O => Spin
  | S fuel =>
      if Wire.kHeaderSize - 1 <=? bq_size rb then
        data ← bq_peek 4 rb;
        be32 ← cells_bytes data;
        let len := Wire.read_len be32 in
        if u64 (len + Wire.kHeaderSize) <=? bq_size rb then
          rb ← bq_consume Wire.kHeaderSize rb;
          req ← std_string (u64 len) rb;
          rb ← bq_consume (u64 len) rb;
          '(reqs, rb) ← frame_loop fuel rb;
          Ok (req :: reqs, rb)
        else Ok ([], rb)
      else Ok ([], rb)
  end.

Definition recv_msg c (req : bytes) : RecvData.tagRecvData :=
  RecvData.mk (uid_ c) req (ip_ c) (port_ c) 0 false false (fd_ c) (bindAdapter_ c) 0.

(** [recv]: the result and the queue. *)
Definition recv (env : list read_result) c
    : outcome (Z * list RecvData.tagRecvData * t B) :=
  '(closed, rb) ← recv_loop env (recvBuffer_ c);
  let c := set_recvBuffer rb c in
  if closed : bool then Ok (-1, [], c)
  else
    '(reqs, rb) ← (if negb (listenfd_ c =? -1)
                   then frame_loop (S (Z.to_nat (bq_size rb))) rb
                   else Ok ([], rb));
    Ok (i32 (zlen reqs), recv_msg c <$> reqs, set_recvBuffer rb c).

(** ** Sending *)

Definition tcpSend (len : Z) (r : send_result) : Z :=
  if len =? 0 then 0
  else match r with
       | Sent n => i32 n
       | SendErr EAGAIN | SendErr EINTR => 0
       | SendErr _ => -1
       end.

Definition tcpWriteV (r : send_result) : outcome Z :=
  match r with
  | Sent n => Ok (i32 n)
  | SendErr EINVAL => Assert
  | SendErr EAGAIN => Ok 0
  | SendErr _ => Ok (-1)
  end.

(** The [iovec]s of one [writev]: their total length. *)
Fixpoint expect_sent (slices : list Slice) : outcome Z :=
  match slices with
  | [] => Ok 0
  | s :: slices =>
      _ ← assert_ (0 <? dataLen s);
      n ← expect_sent slices;
      Ok (u64 (dataLen s + n))
  end.

(** The loop of [send(slices)] on the slices not yet sent; [env] are the
    results of the calls of [writev], after which it answers [EAGAIN]. *)
Fixpoint send_loop (fuel : nat) (maxIOVcount : nat) (env : list send_result)
    (slices : list Slice) (alreadySentBytes : Z) : outcome Z :=
  match fuel with
  | O => Spin
  | S fuel =>
      match slices with
      | [] => Ok (i32 alreadySentBytes)
      | _ =>
          expectSent ← expect_sent (take maxIOVcount slices);
          bytes ← tcpWriteV (default (SendErr EAGAIN) (head env));
          if bytes =? -1 then Ok (-1)
          else if bytes =? 0 then Ok (i32 alreadySentBytes)
          else if bytes =? i32 expectSent then
            send_loop fuel maxIOVcount (tail env) (drop maxIOVcount slices)
                      (u64 (alreadySentBytes + bytes))
          else
            _ ← assert_ (0 <? bytes);
            Ok (i32 (u64 (alreadySentBytes + bytes)))
      end
  end.

Definition send_slices (maxIOVcount : nat) (env : list send_result) (slices : list Slice)
    : outcome Z :=
  send_loop (S (length slices)) maxIOVcount env slices 0.

(** The loop of [adjustSlices] works on a copy of each [Slice], so it moves the
    bytes of a partly sent slice and leaves its [dataLen]. *)
Fixpoint adjust_loop (slices : list Slice) (to_skipped_bytes : Z)
    : outcome (nat * list Slice) :=
  match slices with
  | [] => Ok (0%nat, [])
  | s :: rest =>
      _ ← assert_ (0 <? dataLen s);
      if dataLen s <=? to_skipped_bytes then
        '(skippedVecs, rest) ← adjust_loop rest (to_skipped_bytes - dataLen s);
        Ok (S skippedVecs, s :: rest)
      else if negb (to_skipped_bytes =? 0) then
        moved ← mem_read (data s) to_skipped_bytes (dataLen s - to_skipped_bytes);
        mem ← mem_write (data s) 0 moved;
        Ok (0%nat, mk_slice mem (dataLen s) :: rest)
      else Ok (0%nat, s :: rest)
  end.

Definition adjustSlices (slices : list Slice) (to_skipped_bytes : Z) : outcome (list Slice) :=
  '(skippedVecs, slices) ← adjust_loop slices to_skipped_bytes;
  Ok (drop skippedVecs slices).

Definition clearSlices (slices : list Slice) : outcome (list Slice) :=
  adjustSlices slices (2 ^ 64 - 1).

Definition to_send_bytes (slices : list Slice) : Z :=
  foldl (λ n s, u64 (n + dataLen s)) 0 slices.

(** What both kinds of [send] end with. *)
Definition send_finish c : outcome (Z * t B) :=
  if 8 * 1024 <=? to_send_bytes (sendBuffer_ c) then
    l ← clearSlices (sendBuffer_ c);
    Ok (-2, set_sendBuffer l c)
  else if close_ c && bool_decide (sendBuffer_ c = []) then Ok (-2, c)
  else Ok (0, c).

(** [send(buffer, ip, port, byEpollout)]. *)
Definition send_buffer (maxIOVcount : nat) (env : list send_result) (buffer : bytes)
    (byEpollout : bool) c : outcome (Z * t B) :=
  if byEpollout then
    bytes ← send_slices maxIOVcount env (sendBuffer_ c);
    if bytes =? -1 then Ok (-1, c)
    else
      l ← adjustSlices (sendBuffer_ c) (u64 bytes);
      send_finish (set_sendBuffer l c)
  else
    let bytes := tcpSend (zlen buffer) (default (SendErr EAGAIN) (head env)) in
    if bytes =? -1 then Ok (-1, c) else send_finish c.

(** [send()]. *)
Definition send (maxIOVcount : nat) (env : list send_result) c : outcome (Z * t B) :=
  if bool_decide (sendBuffer_ c = []) then Ok (0, c)
  else send_buffer maxIOVcount env [] true c.

End operations.

(** ** What the operations leave alone *)

Section fields.
Context {B : Type} `{ByteQueue B}.
Implicit Types (c : t B) (rb : B).

Lemma recv_fields env c ret msgs c' :
  recv env c = Ok (ret, msgs, c') →
  c' = set_recvBuffer (recvBuffer_ c') c ∧
  (∃ reqs, msgs = recv_msg c <$> reqs) ∧
  (msgs = [] ∧ ret = -1 ∨ ret = i32 (zlen msgs)).
Proof.
  unfold recv. intros ([closed rb] & _ & Hr)%bind_Ok. destruct closed.
  - injection Hr as <- <- <-. split; [done|]. split; [by exists []|by left].
  - apply bind_Ok in Hr as ([reqs rb'] & _ & Hr). injection Hr as <- <- <-.
    split; [done|]. split; [by exists reqs|]. right. by rewrite length_fmap.
Qed.

(** Nothing ever enters [sendBuffer_], so the two kinds of [send] come back
    without having changed the connection. *)
Lemma send_finish_empty c :
  sendBuffer_ c = [] → send_finish c = Ok (if close_ c then -2 else 0, c).
Proof.
  intros Hs. unfold send_finish. rewrite Hs. rewrite bool_decide_true, andb_true_r by done.
  by destruct (close_ c).
Qed.

Lemma send_buffer_empty maxIOVcount env buffer c :
  sendBuffer_ c = [] → ∃ ret, send_buffer maxIOVcount env buffer false c = Ok (ret, c).
Proof.
  intros Hs. unfold send_buffer. rewrite send_finish_empty by done.
  destruct (_ =? -1); by eexists.
Qed.

Lemma send_empty maxIOVcount env c :
  sendBuffer_ c = [] → send maxIOVcount env c = Ok (0, c).
Proof. intros Hs. unfold send. by rewrite bool_decide_true. Qed.

End fields.

(** ** Cutting the stream into requests *)

Section receiving.
Context {B : Type} `{ByteQueueLaws B}.
Implicit Types (c : t B) (rb : B).

(** What is left of the stream is less than the next frame. *)
Definition partial (part : bytes) (msgs : list bytes) : Prop :=
  match msgs with
  | [] => part = []
  | m :: _ => (length part < length (Wire.frame m))%nat
  end.

Lemma peek_bytes rb q n :
  bq_repr rb (Some <$> q) → 0 ≤ n ≤ zlen q →
  (cs ← bq_peek n rb; cells_bytes cs) = Ok (take (Z.to_nat n) q).
Proof.
  intros Hr Hn. rewrite (bq_peek_repr rb _ n Hr) by (rewrite length_fmap; lia).
  cbn [mbind outcome_bind]. rewrite <- fmap_take. apply cells_bytes_Some.
Qed.

Lemma consume_bytes rb q n :
  bq_repr rb (Some <$> q) → 0 ≤ n ≤ zlen q →
  ∃ rb', bq_consume n rb = Ok rb' ∧ bq_repr rb' (Some <$> drop (Z.to_nat n) q).
Proof.
  intros Hr Hn. destruct (bq_consume_repr rb _ n Hr) as (rb' & ? & ?);
    [rewrite length_fmap; lia|]. exists rb'. by rewrite fmap_drop.
Qed.

Lemma size_bytes rb q : bq_repr rb (Some <$> q) → bq_size rb = zlen q.
Proof. intros Hr. by rewrite (bq_size_repr rb _ Hr), length_fmap. Qed.

Lemma frame_loop_S fuel rb q :
  bq_repr rb (Some <$> q) → 4 ≤ zlen q →
  frame_loop (S fuel) rb =
  let len := Wire.read_len (take 4 q) in
  if u64 (len + Wire.kHeaderSize) <=? zlen q then
    rb ← bq_consume Wire.kHeaderSize rb;
    req ← std_string (u64 len) rb;
    rb ← bq_consume (u64 len) rb;
    '(reqs, rb) ← frame_loop fuel rb;
    Ok (req :: reqs, rb)
  else Ok ([], rb).
Proof.
  intros Hr Hq. cbn [frame_loop]. rewrite (size_bytes rb q Hr).
  rewrite (proj2 (Z.leb_le _ _)) by (unfold Wire.kHeaderSize; lia).
  pose proof (peek_bytes rb q 4 Hr ltac:(lia)) as Hp.
  destruct (bq_peek 4 rb) as [cs| | | |]; try discriminate.
  cbn [mbind outcome_bind] in Hp |- *. by rewrite Hp.
Qed.

Lemma frame_prefix (m q r rest : bytes) :
  q ++ r = Wire.frame m ++ rest → (length (Wire.frame m) ≤ length q)%nat →
  ∃ q', q = Wire.frame m ++ q' ∧ q' ++ r = rest.
Proof.
  intros Heq Hlen. exists (drop (length (Wire.frame m)) q).
  assert (take (length (Wire.frame m)) q = Wire.frame m) as Ht.
  { apply (f_equal (take (length (Wire.frame m)))) in Heq.
    by rewrite take_app_le, take_app_length in Heq. }
  split; [by rewrite <- Ht at 1; rewrite take_drop|].
  apply (f_equal (drop (length (Wire.frame m)))) in Heq.
  by rewrite drop_app_le, drop_app_length in Heq.
Qed.

Lemma frame_header (m q r rest : bytes) :
  q ++ r = Wire.frame m ++ rest → 4 ≤ zlen q → zlen m < 2 ^ 31 →
  Wire.read_len (take 4 q) = zlen m.
Proof.
  intros Heq Hq Hm. apply (f_equal (take 4)) in Heq.
  rewrite take_app_le in Heq by lia. rewrite Heq.
  change (take 4 (Wire.frame m ++ rest)) with (Wire.write_len (i32 (zlen m))).
  rewrite <- (app_nil_r (Wire.write_len _)).
  rewrite Wire.read_write_len by apply i32_range. apply i32_small. lia.
Qed.

(** One frame leaves the buffer. *)
Lemma frame_loop_frame fuel rb m q :
  bq_repr rb (Some <$> Wire.frame m ++ q) → zlen m < 2 ^ 31 →
  ∃ rb', bq_repr rb' (Some <$> q) ∧
    frame_loop (S fuel) rb = ('(reqs, rb) ← frame_loop fuel rb'; Ok (m :: reqs, rb)).
Proof.
  intros Hr Hm. pose proof (Wire.length_frame m) as Hlen. unfold Wire.kHeaderSize in Hlen.
  rewrite (frame_loop_S fuel rb (Wire.frame m ++ q)) by (rewrite ?length_app; lia || done).
  rewrite (frame_header m _ [] q) by (rewrite ?length_app, ?app_nil_r; lia || done).
  cbv zeta. unfold Wire.kHeaderSize. rewrite length_app. nowrap.
  rewrite (proj2 (Z.leb_le _ _)) by lia.
  destruct (consume_bytes rb _ 5 Hr) as (rb1 & -> & Hr1); [rewrite length_app; lia|].
  cbn [mbind outcome_bind].
  assert (drop (Z.to_nat 5) (Wire.frame m ++ q) = m ++ q) as Hd by done.
  rewrite Hd in Hr1. unfold std_string. rewrite (proj2 (Z.ltb_ge _ _)) by lia.
  rewrite (peek_bytes rb1 (m ++ q)) by (rewrite ?length_app; lia || done).
  destruct (consume_bytes rb1 (m ++ q) (zlen m) Hr1) as (rb2 & -> & Hr2);
    [rewrite length_app; lia|].
  cbn [mbind outcome_bind]. rewrite Nat2Z.id, drop_app_length in Hr2.
  rewrite Nat2Z.id, take_app_length. by exists rb2.
Qed.

Lemma frame_loop_prefix msgs : ∀ fuel rb q r,
  Forall (λ m, zlen m < 2 ^ 31) msgs →
  q ++ r = concat (Wire.frame <$> msgs) →
  bq_repr rb (Some <$> q) → (length q < fuel)%nat →
  ∃ ms1 ms2 part rb', msgs = ms1 ++ ms2 ∧ frame_loop fuel rb = Ok (ms1, rb') ∧
    bq_repr rb' (Some <$> part) ∧ q = concat (Wire.frame <$> ms1) ++ part ∧
    partial part ms2.
Proof.
  induction msgs as [|m msgs IH]; intros [|fuel] rb q r Hms Heq Hr Hf; try lia.
  - destruct q; [|done]. exists [], [], [], rb. repeat split; [|done].
    cbn [frame_loop]. by rewrite (size_bytes rb [] Hr).
  - apply Forall_cons in Hms as [Hm Hms]. rewrite fmap_cons in Heq. cbn [concat] in Heq.
    pose proof (Wire.length_frame m) as Hlen. unfold Wire.kHeaderSize in Hlen.
    destruct (decide (length (Wire.frame m) ≤ length q)%nat) as [Hle|Hgt].
    + destruct (frame_prefix m q r _ Heq Hle) as (q' & -> & Heq').
      destruct (frame_loop_frame fuel rb m q' Hr Hm) as (rb1 & Hr1 & ->).
      rewrite length_app in Hf.
      destruct (IH fuel rb1 q' r Hms Heq' Hr1) as (ms1 & ms2 & part & rb2 & -> & -> & Hr2 & -> & Hp);
        [lia|].
      exists (m :: ms1), ms2, part, rb2. repeat split; try done.
      rewrite fmap_cons. cbn [concat]. by rewrite app_assoc.
    + exists [], (m :: msgs), q, rb. repeat split; [|done|simpl; lia].
      destruct (decide (4 ≤ zlen q)).
      * rewrite (frame_loop_S fuel rb q) by done. rewrite (frame_header m q r _ Heq) by lia.
        cbv zeta. unfold Wire.kHeaderSize. nowrap. by rewrite (proj2 (Z.leb_gt _ _)) by lia.
      * cbn [frame_loop]. rewrite (size_bytes rb q Hr). unfold Wire.kHeaderSize.
        by rewrite (proj2 (Z.leb_gt _ _)) by lia.
Qed.

(** The blocks one call of [recv] reads: full ones, then a short one or none. *)
Fixpoint chunks_ok (cs : list bytes) : Prop :=
  match cs with
  | [] => True
  | [bs] => 0 < zlen bs ≤ chunk_size
  | bs :: cs => zlen bs = chunk_size ∧ chunks_ok cs
  end.

Lemma recv_loop_chunks cs : ∀ rb q,
  chunks_ok cs → bq_repr rb q → zlen q + zlen (concat cs) ≤ bq_limit →
  ∃ rb', recv_loop (Rd <$> cs) rb = Ok (false, rb') ∧
         bq_repr rb' (q ++ (Some <$> concat cs)).
Proof.
  induction cs as [|bs cs IH]; intros rb q Hok Hr Hl.
  - exists rb. split; [done|]. cbn. by rewrite app_nil_r.
  - assert (0 < zlen bs ∧ chunks_ok cs ∧ (zlen bs < chunk_size → cs = [])) as (Hp & Hok' & Hlast).
    { destruct cs; cbn [chunks_ok] in Hok; unfold chunk_size in *.
      - repeat split; done || lia.
      - destruct Hok. repeat split; done || lia. }
    cbn [concat] in Hl. rewrite length_app in Hl.
    destruct (bq_push_repr rb q bs Hr) as (rb1 & Hpush & Hr1); [lia|].
    rewrite fmap_cons. cbn [recv_loop]. destruct bs as [|b bs]; [simpl in Hp; lia|].
    rewrite Hpush. cbn [mbind outcome_bind].
    destruct (Z.ltb_spec (zlen (b :: bs)) chunk_size) as [Hlt|Hge].
    + rewrite (Hlast Hlt). exists rb1. split; [done|]. cbn [concat]. by rewrite app_nil_r.
    + destruct (IH rb1 _ Hok' Hr1) as (rb2 & -> & Hr2);
        [rewrite length_app, length_fmap; lia|].
      exists rb2. split; [done|]. cbn [concat]. by rewrite fmap_app, app_assoc.
Qed.

(** One call of [recv] on a stream of frames. *)
Lemma recv_spec msgs cs c q r :
  Forall (λ m, zlen m < 2 ^ 31) msgs → chunks_ok cs →
  bq_repr (recvBuffer_ c) (Some <$> q) → listenfd_ c ≠ -1 →
  (q ++ concat cs) ++ r = concat (Wire.frame <$> msgs) →
  zlen (q ++ concat cs) ≤ bq_limit →
  ∃ ms1 ms2 part rb,
    msgs = ms1 ++ ms2 ∧ q ++ concat cs = concat (Wire.frame <$> ms1) ++ part ∧
    partial part ms2 ∧ bq_repr rb (Some <$> part) ∧
    recv (Rd <$> cs) c = Ok (i32 (zlen ms1), recv_msg c <$> ms1, set_recvBuffer rb c).
Proof.
  intros Hms Hcs Hr Hl Heq Hlim. rewrite length_app in Hlim.
  destruct (recv_loop_chunks cs (recvBuffer_ c) _ Hcs Hr) as (rb1 & Hloop & Hr1);
    [rewrite length_fmap; lia|].
  rewrite <- fmap_app in Hr1.
  destruct (frame_loop_prefix msgs (S (Z.to_nat (bq_size rb1))) rb1 (q ++ concat cs) r Hms Heq Hr1)
    as (ms1 & ms2 & part & rb2 & -> & Hfr & Hr2 & Hq & Hp).
  { rewrite (size_bytes rb1 _ Hr1). lia. }
  exists ms1, ms2, part, rb2. repeat split; try done.
  unfold recv. rewrite Hloop. cbn [mbind outcome_bind set_recvBuffer listenfd_].
  rewrite (proj2 (Z.eqb_neq _ _) Hl). cbn [negb]. rewrite Hfr. done.
Qed.

(** Less than a frame. *)
Definition incomplete (left : bytes) : Prop :=
  ∃ m r, left ++ r = Wire.frame m ∧ r ≠ [] ∧ zlen m < 2 ^ 31.

(** A read that completes [requests], of which [part] had arrived before. *)
Lemma recv_completes c cs part requests left :
  bq_repr (recvBuffer_ c) (Some <$> part) → listenfd_ c ≠ -1 → chunks_ok cs →
  part ++ concat cs = concat (Wire.frame <$> requests) ++ left → incomplete left →
  Forall (λ m, zlen m < 2 ^ 31) requests → zlen (part ++ concat cs) ≤ bq_limit →
  ∃ rb, bq_repr rb (Some <$> left) ∧
    recv (Rd <$> cs) c = Ok (i32 (zlen requests), recv_msg c <$> requests, set_recvBuffer rb c).
Proof.
  intros Hb Hl Hcs Heq (m & r & Hm & Hr & Hlen) Hreqs Hlim.
  destruct (recv_spec (requests ++ [m]) cs c part r)
    as (ms1 & ms2 & part' & rb & Hms & Hq & Hp & Hrb & Hrecv); try done.
  { by apply Forall_app; split; [|constructor]. }
  { rewrite Heq, <- app_assoc, Hm, fmap_app, concat_app. cbn. by rewrite app_nil_r. }
  rewrite Heq in Hq. exists rb.
  apply List.app_eq_app in Hms as (l & [[-> ->]|[-> Hl']]).
  - rewrite fmap_app, concat_app, <- app_assoc in Hq. apply app_inv_head in Hq as <-.
    destruct l as [|x l]; [by rewrite app_nil_r|]. cbn [app partial fmap list_fmap concat] in Hp.
    rewrite !length_app in Hp. lia.
  - rewrite fmap_app, concat_app, <- app_assoc in Hq. apply app_inv_head in Hq as ->.
    destruct l as [|x l]; [by rewrite app_nil_r in *|]. injection Hl' as <- [-> ->]%symmetry%app_eq_nil.
    cbn in Hp, Hm. subst part'. rewrite !app_nil_r in Hm. exfalso. apply Hr.
    by apply (app_inv_head (Wire.frame m)); rewrite app_nil_r.
Qed.

Lemma incomplete_nil : incomplete [].
Proof. exists [], (Wire.frame []). split; [done|]. split; [discriminate|cbn; lia]. Qed.

Lemma frame_loop_waits fuel rb q :
  bq_repr rb (Some <$> q) → zlen q ≤ bq_limit →
  4 ≤ zlen q → Wire.read_len (take 4 q) < - Wire.kHeaderSize →
  frame_loop (S fuel) rb = Ok ([], rb).
Proof.
  intros Hr Hlim Hq Hlen. rewrite (frame_loop_S fuel rb q Hr Hq). cbv zeta.
  unfold Wire.kHeaderSize, bq_limit in *.
  pose proof (i32_range (Wire.htonl (Wire.load32 (take 4 q)))).
  assert (u64 (Wire.read_len (take 4 q) + 5) = 2 ^ 64 + Wire.read_len (take 4 q) + 5) as ->.
  { unfold u64. symmetry. apply (Z.mod_unique_pos _ _ (-1)); unfold Wire.read_len in *; lia. }
  rewrite (proj2 (Z.leb_gt _ _)); [done|]. unfold Wire.read_len in *. lia.
Qed.

(** *** Any bytes

    What [recv] makes of any stream: the requests in [q] and what is left behind
    them.  A length between -5 and -1 ends the program; behind one below -5 nothing
    is found any more. *)
Fixpoint cut (fuel : nat) (q : bytes) : outcome (list bytes * bytes) :=
  match fuel with
  | O => Ok ([], q)
  | S fuel =>
      let len := Wire.read_len (take 4 q) in
      if zlen q <? 4 then Ok ([], q)
      else if (-5 <=? len) && (len <? 0) then (if zlen q =? 4 then Assert else Raise LengthError)
      else if (0 <=? len) && (len + 5 <=? zlen q) then
        '(reqs, rest) ← cut fuel (drop (Z.to_nat (len + 5)) q);
        Ok (take (Z.to_nat len) (drop 5 q) :: reqs, rest)
      else Ok ([], q)
  end.

Definition requests_in (q : bytes) : outcome (list bytes * bytes) := cut (S (length q)) q.

(** A stream in which a frame begins with such a length. *)
Inductive negative_length : bytes → Prop :=
| negative_here hdr d :
    length hdr = 4%nat → -5 ≤ Wire.read_len hdr < 0 → negative_length (hdr ++ d)
| negative_later hdr b m d :
    length hdr = 4%nat → Wire.read_len hdr = zlen m → negative_length d →
    negative_length (hdr ++ b :: m ++ d).

Lemma frame_loop_cut fuel : ∀ rb q,
  bq_repr rb (Some <$> q) → zlen q ≤ bq_limit → (length q < fuel)%nat →
  outcome_rel (λ x y, x.1 = y.1 ∧ bq_repr x.2 (Some <$> y.2)) (frame_loop fuel rb) (cut fuel q).
Proof.
  induction fuel as [|fuel IH]; intros rb q Hr Hlim Hf; [lia|].
  destruct (decide (4 ≤ zlen q)) as [H4|H4].
  2:{ cbn [frame_loop cut]. rewrite (size_bytes rb q Hr). unfold Wire.kHeaderSize.
      rewrite (proj2 (Z.leb_gt _ _)), (proj2 (Z.ltb_lt _ _)) by lia. by split. }
  destruct (decide (Wire.read_len (take 4 q) < - Wire.kHeaderSize)) as [Hlow|Hlow].
  { rewrite (frame_loop_waits fuel rb q) by done. unfold Wire.kHeaderSize in Hlow. cbn [cut].
    rewrite (proj2 (Z.ltb_ge _ _)), (proj2 (Z.leb_gt _ _)), (proj2 (Z.leb_gt 0 _)) by lia. by split. }
  rewrite (frame_loop_S fuel rb q Hr H4). cbn [cut]. cbv zeta. unfold Wire.kHeaderSize in *.
  pose proof (i32_range (Wire.htonl (Wire.load32 (take 4 q)))) as Hrange. fold (Wire.read_len (take 4 q)) in Hrange.
  set (len := Wire.read_len (take 4 q)) in *. rewrite (proj2 (Z.ltb_ge _ _)) by lia.
  rewrite (proj2 (Z.leb_le (-5) _)) by lia. cbn [andb]. rewrite (u64_small (len + 5)) by lia.
  destruct (Z.ltb_spec len 0) as [Hneg|Hpos].
  - rewrite (proj2 (Z.leb_le _ _)) by lia. destruct (Z.eqb_spec (zlen q) 4) as [He|He].
    + by rewrite (bq_consume_assert rb _ 5 Hr) by (rewrite length_fmap; lia).
    + destruct (consume_bytes rb q 5 Hr) as (rb1 & -> & _); [lia|]. cbn [mbind outcome_bind].
      unfold std_string. rewrite (proj2 (Z.ltb_lt _ _)); [done|].
      assert (u64 len = 2 ^ 64 + len) as ->; [|lia].
      unfold u64. symmetry. apply (Z.mod_unique_pos _ _ (-1)); lia.
  - rewrite (proj2 (Z.leb_le 0 _)) by lia. cbn [andb].
    destruct (Z.leb_spec (len + 5) (zlen q)) as [Hle|Hgt]; [|by split].
    destruct (consume_bytes rb q 5 Hr) as (rb1 & -> & Hr1); [lia|]. cbn [mbind outcome_bind].
    rewrite u64_small by lia. unfold std_string. rewrite (proj2 (Z.ltb_ge _ _)) by lia.
    rewrite (peek_bytes rb1 _ len Hr1) by (rewrite length_drop; lia). cbn [mbind outcome_bind].
    destruct (consume_bytes rb1 _ len Hr1) as (rb2 & -> & Hr2); [rewrite length_drop; lia|].
    cbn [mbind outcome_bind]. rewrite drop_drop in Hr2.
    replace (Z.to_nat 5 + Z.to_nat len)%nat with (Z.to_nat (len + 5)) in Hr2 by lia.
    pose proof (IH rb2 _ Hr2) as Hrest. rewrite length_drop in Hrest.
    specialize (Hrest ltac:(lia) ltac:(lia)).
    destruct (frame_loop fuel rb2) as [[reqs rb3]| | | |], (cut fuel _) as [[reqs' rest]| | | |];
      cbn [mbind outcome_bind] in *; try done.
    destruct Hrest as [Heq Hr3]. cbn in *. subst. by split.
Qed.

(** What one call of [recv] reads, and whether the client is gone then. *)
Fixpoint read_data (env : list read_result) : bool * bytes :=
  match env with
  | [] | RdErr true :: _ => (false, [])
  | RdErr false :: _ | Rd [] :: _ => (true, [])
  | Rd bs :: env =>
      if zlen bs <? chunk_size then (false, bs)
      else let '(closed, d) := read_data env in (closed, bs ++ d)
  end.

Lemma recv_loop_data env : ∀ rb q,
  bq_repr rb q → zlen q + zlen (read_data env).2 ≤ bq_limit →
  ∃ rb', recv_loop env rb = Ok ((read_data env).1, rb') ∧ bq_repr rb' (q ++ (Some <$> (read_data env).2)).
Proof.
  induction env as [|[[|b bs]|[]] env IH]; intros rb q Hr Hl; cbn [read_data recv_loop] in *;
    try (exists rb; split; [done|by rewrite app_nil_r]).
  destruct (zlen (b :: bs) <? chunk_size) eqn:Hlt.
  - destruct (bq_push_repr rb q (b :: bs) Hr Hl) as (rb1 & -> & Hr1). by exists rb1.
  - destruct (read_data env) as [closed d] eqn:Hd. cbn [fst snd] in *. rewrite length_app in Hl.
    destruct (bq_push_repr rb q (b :: bs) Hr) as (rb1 & -> & Hr1); [lia|]. cbn [mbind outcome_bind].
    destruct (IH rb1 _ Hr1) as (rb2 & -> & Hr2); [rewrite length_app, length_fmap; lia|].
    exists rb2. split; [done|]. by rewrite fmap_app, app_assoc.
Qed.

Lemma read_data_chunks cs : chunks_ok cs → read_data (Rd <$> cs) = (false, concat cs).
Proof.
  induction cs as [|bs cs IH]; [done|]. intros Hok.
  assert (0 < zlen bs ∧ chunks_ok cs ∧ (zlen bs < chunk_size → cs = [])) as (Hp & Hok' & Hlast).
  { destruct cs; cbn [chunks_ok] in Hok; unfold chunk_size in *.
    - repeat split; done || lia.
    - destruct Hok. repeat split; done || lia. }
  rewrite fmap_cons. cbn [read_data concat]. destruct bs as [|b bs]; [cbn in Hp; lia|].
  destruct (Z.ltb_spec (zlen (b :: bs)) chunk_size) as [Hlt|Hge].
  - by rewrite (Hlast Hlt), app_nil_r.
  - by rewrite (IH Hok').
Qed.

(** One call of [recv], whatever it reads. *)
Definition received (env : list read_result) (q : bytes) : outcome (Z * list bytes * bytes) :=
  let '(closed, d) := read_data env in
  if closed then Ok (-1, [], q ++ d)
  else '(reqs, rest) ← requests_in (q ++ d); Ok (i32 (zlen reqs), reqs, rest).

Lemma recv_exact env c q :
  bq_repr (recvBuffer_ c) (Some <$> q) → listenfd_ c ≠ -1 → zlen (q ++ (read_data env).2) ≤ bq_limit →
  outcome_rel (λ '(ret, msgs, c') '(ret', reqs, rest),
      ret = ret' ∧ msgs = recv_msg c <$> reqs ∧
      ∃ rb, c' = set_recvBuffer rb c ∧ bq_repr rb (Some <$> rest))
    (recv env c) (received env q).
Proof.
  intros Hr Hl Hlim. pose proof Hlim as Hlim'. rewrite length_app in Hlim'.
  destruct (recv_loop_data env (recvBuffer_ c) _ Hr) as (rb & Hloop & Hrb); [rewrite length_fmap; lia|].
  rewrite <- fmap_app in Hrb. unfold recv, received. rewrite Hloop.
  destruct (read_data env) as [closed d]. cbn [fst snd] in *. cbn [mbind outcome_bind set_recvBuffer listenfd_].
  destruct closed; [split; [done|]; split; [done|]; by exists rb|].
  rewrite (proj2 (Z.eqb_neq _ _) Hl). cbn [negb].
  pose proof (frame_loop_cut (S (Z.to_nat (bq_size rb))) rb (q ++ d) Hrb Hlim) as Hf.
  rewrite (size_bytes rb _ Hrb) in Hf |- *. rewrite Nat2Z.id in Hf |- *. specialize (Hf ltac:(lia)).
  unfold requests_in. destruct (frame_loop _ _) as [[reqs rb']| | | |], (cut _ _) as [[reqs' rest]| | | |];
    cbn [mbind outcome_bind] in *; try done.
  destruct Hf as [Heq Hr']. cbn in *. subst. split; [done|]. split; [done|]. by exists rb'.
Qed.

Lemma cut_negative fuel : ∀ q,
  (∃ reqs rest, cut fuel q = Ok (reqs, rest)) ∨
  negative_length q ∧ (cut fuel q = Assert ∨ cut fuel q = Raise LengthError).
Proof.
  induction fuel as [|fuel IH]; intros q; cbn [cut]; [left; by eexists _, _|].
  set (len := Wire.read_len (take 4 q)). destruct (Z.ltb_spec (zlen q) 4) as [|Hq4]; [left; by eexists _, _|].
  destruct ((-5 <=? len) && (len <? 0)) eqn:Hneg.
  - right. apply andb_true_iff in Hneg as [Hlow%Z.leb_le Hup%Z.ltb_lt]. split.
    + rewrite <- (take_drop 4 q). apply negative_here; [rewrite length_take; lia|]. unfold len in *. lia.
    + destruct (_ =? 4); [by left|by right].
  - destruct ((0 <=? len) && (len + 5 <=? zlen q)) eqn:Hle; [|left; by eexists _, _].
    apply andb_true_iff in Hle as [Hpos%Z.leb_le Hfit%Z.leb_le].
    destruct (IH (drop (Z.to_nat (len + 5)) q)) as [(reqs & rest & ->)|[Hn Hc]]; [left; by eexists _, _|].
    right. split; [|by destruct Hc as [-> | ->]; [left|right]].
    assert (∃ b, q = take 4 q ++ b :: take (Z.to_nat len) (drop 5 q) ++ drop (Z.to_nat (len + 5)) q) as [b Hq].
    { destruct (drop 4 q) as [|b d] eqn:Hd.
      { apply (f_equal length) in Hd. rewrite length_drop in Hd. cbn in Hd. lia. }
      exists b. assert (drop 5 q = d) as H5 by (change 5%nat with (4 + 1)%nat; by rewrite <- drop_drop, Hd).
      replace (Z.to_nat (len + 5)) with (5 + Z.to_nat len)%nat by lia.
      rewrite <- drop_drop, H5, take_drop, <- Hd. by rewrite take_drop. }
    rewrite Hq. apply negative_later; [rewrite length_take; lia| |done].
    fold len. rewrite length_take, length_drop. lia.
Qed.

Lemma negative_cut q : negative_length q → ∀ fuel, (length q < fuel)%nat → ∀ x, cut fuel q ≠ Ok x.
Proof.
  induction 1 as [hdr d Hhdr Hlen|hdr b m d Hhdr Hlen _ IH]; intros [|fuel] Hf x; try lia; cbn [cut]; cbv zeta.
  - rewrite length_app, (proj2 (Z.ltb_ge _ 4)) by lia. rewrite <- Hhdr, take_app_length.
    rewrite (proj2 (Z.leb_le _ _)), (proj2 (Z.ltb_lt _ _)) by lia. cbn [andb]. by destruct (_ =? _).
  - rewrite length_app in Hf |- *. cbn [length] in Hf |- *. rewrite length_app in Hf |- *.
    rewrite (proj2 (Z.ltb_ge _ 4)) by lia. rewrite <- Hhdr, take_app_length, Hlen.
    rewrite (proj2 (Z.ltb_ge _ 0)), andb_false_r, !(proj2 (Z.leb_le _ _)) by lia. cbn [andb].
    assert (drop (Z.to_nat (zlen m + 5)) (hdr ++ b :: m ++ d) = d) as ->.
    { replace (Z.to_nat (zlen m + 5)) with (length (hdr ++ b :: m)) by (rewrite length_app; cbn [length]; lia).
      replace (hdr ++ b :: m ++ d) with ((hdr ++ b :: m) ++ d) by (by rewrite <- app_assoc).
      apply drop_app_length. }
    intros (y & Hy & _)%bind_Ok. by apply (IH fuel ltac:(lia) y).
Qed.

Lemma requests_in_Ok q : ¬ negative_length q ↔ ∃ reqs rest, requests_in q = Ok (reqs, rest).
Proof.
  split; [intros Hn; by destruct (cut_negative (S (length q)) q) as [?|[? _]]|].
  intros (reqs & rest & Hr) Hn. exact (negative_cut q Hn (S (length q)) (Nat.lt_succ_diag_r _) _ Hr).
Qed.

(** Frames of requests are cut where they should be. *)
Lemma cut_incomplete fuel left : incomplete left → cut fuel left = Ok ([], left).
Proof.
  intros (m & r & Hm & Hr & Hlen). destruct fuel as [|fuel]; [done|]. cbn [cut]. cbv zeta.
  destruct (Z.ltb_spec (zlen left) 4) as [|H4]; [done|].
  rewrite (frame_header m left r []) by (rewrite ?app_nil_r; done).
  assert (zlen left < zlen m + 5) as Hlt.
  { apply (f_equal length) in Hm. pose proof (Wire.length_frame m) as Hf. unfold Wire.kHeaderSize in Hf.
    rewrite length_app in Hm. destruct r; [done|]. cbn in Hm. lia. }
  rewrite (proj2 (Z.ltb_ge _ 0)), andb_false_r, (proj2 (Z.leb_gt (_ + 5) _)), andb_false_r by lia. done.
Qed.

Lemma cut_frames requests left : ∀ fuel,
  incomplete left → Forall (λ m, zlen m < 2 ^ 31) requests → (length (concat (Wire.frame <$> requests) ++ left) < fuel)%nat →
  cut fuel (concat (Wire.frame <$> requests) ++ left) = Ok (requests, left).
Proof.
  induction requests as [|m requests IH]; intros [|fuel] Hinc Hreqs Hf; try lia; [by apply cut_incomplete|].
  apply Forall_cons in Hreqs as [Hm Hreqs]. rewrite fmap_cons in *. cbn [concat] in *. rewrite <- app_assoc in *.
  set (q := concat (Wire.frame <$> requests) ++ left) in *.
  pose proof (Wire.length_frame m) as Hlen. unfold Wire.kHeaderSize in Hlen. rewrite length_app in Hf.
  cbn [cut]. cbv zeta. rewrite (frame_header m _ [] q) by (rewrite ?length_app, ?app_nil_r; lia || done).
  rewrite length_app, (proj2 (Z.ltb_ge _ 4)), (proj2 (Z.ltb_ge _ 0)), andb_false_r by lia.
  rewrite !(proj2 (Z.leb_le _ _)) by lia. cbn [andb].
  replace (Z.to_nat (zlen m + 5)) with (length (Wire.frame m)) by lia.
  rewrite drop_app_length, (IH fuel Hinc Hreqs) by lia. cbn [mbind outcome_bind].
  assert (drop 5 (Wire.frame m ++ q) = m ++ q) as -> by done. by rewrite Nat2Z.id, take_app_length.
Qed.

Lemma requests_in_frames requests left :
  incomplete left → Forall (λ m, zlen m < 2 ^ 31) requests →
  requests_in (concat (Wire.frame <$> requests) ++ left) = Ok (requests, left).
Proof. intros Hinc Hreqs. apply cut_frames; [done|done|lia]. Qed.

(** Successive calls of [recv]; each reads the blocks of one list. *)
Fixpoint recv_calls (calls : list (list bytes)) c
    : outcome (list RecvData.tagRecvData * t B) :=
  match calls with
  | [] => Ok ([], c)
  | cs :: calls =>
      '(_, msgs, c) ← recv (Rd <$> cs) c;
      '(rest, c) ← recv_calls calls c;
      Ok (msgs ++ rest, c)
  end.

Lemma recv_calls_spec calls : ∀ msgs c q r,
  Forall (λ m, zlen m < 2 ^ 31) msgs → Forall chunks_ok calls →
  bq_repr (recvBuffer_ c) (Some <$> q) → listenfd_ c ≠ -1 → partial q msgs →
  (q ++ concat (concat calls)) ++ r = concat (Wire.frame <$> msgs) →
  zlen (q ++ concat (concat calls)) ≤ bq_limit →
  ∃ ms1 ms2 part c',
    msgs = ms1 ++ ms2 ∧ q ++ concat (concat calls) = concat (Wire.frame <$> ms1) ++ part ∧
    partial part ms2 ∧ bq_repr (recvBuffer_ c') (Some <$> part) ∧
    recv_calls calls c = Ok (recv_msg c <$> ms1, c').
Proof.
  induction calls as [|cs calls IH]; intros msgs c q r Hms Hcalls Hr Hl Hpart Heq Hlim.
  - exists [], msgs, q, c. cbn. rewrite app_nil_r. done.
  - apply Forall_cons in Hcalls as [Hcs Hcalls].
    cbn [concat] in *. rewrite concat_app, app_assoc in *.
    destruct (recv_spec msgs cs c q (concat (concat calls) ++ r) Hms Hcs Hr Hl)
      as (ms1 & ms2 & part & rb & -> & Hq & Hp & Hrb & Hrecv).
    { by rewrite app_assoc. }
    { rewrite length_app in Hlim. lia. }
    rewrite fmap_app, concat_app, Hq, <- !app_assoc in Heq. apply app_inv_head in Heq.
    apply Forall_app in Hms as [_ Hms2].
    destruct (IH ms2 (set_recvBuffer rb c) part r Hms2 Hcalls Hrb Hl Hp)
      as (ms3 & ms4 & part' & c' & -> & Hq' & Hp' & Hr' & Hcs').
    { by rewrite <- app_assoc. }
    { rewrite Hq, <- app_assoc, length_app in Hlim. lia. }
    exists (ms1 ++ ms3), ms4, part', c'. rewrite Hq, <- !app_assoc, Hq'.
    rewrite fmap_app, concat_app, <- app_assoc. repeat split; try done.
    cbn [recv_calls]. rewrite Hrecv. cbn [mbind outcome_bind]. rewrite Hcs'.
    cbn [mbind outcome_bind]. by rewrite fmap_app.
Qed.

(** C13: whatever blocks the kernel cuts the stream into, and whatever calls of
    [recv] read them, the requests handed on are those the clients framed, whole,
    each once and in order; what has arrived of the next frame waits in the
    buffer. *)
Theorem recv_reassembles msgs calls c rest
    (Hms : Forall (λ m, zlen m < 2 ^ 31) msgs) (Hcalls : Forall chunks_ok calls)
    (Hempty : bq_repr (recvBuffer_ c) []) (Hl : listenfd_ c ≠ -1)
    (Hstream : concat (concat calls) ++ rest = concat (Wire.frame <$> msgs))
    (Hlim : zlen (concat (concat calls)) ≤ bq_limit) :
  ∃ done todo part c',
    msgs = done ++ todo ∧ concat (concat calls) = concat (Wire.frame <$> done) ++ part ∧
    partial part todo ∧ bq_repr (recvBuffer_ c') (Some <$> part) ∧
    recv_calls calls c = Ok (recv_msg c <$> done, c').
Proof.
  destruct msgs as [|m msgs].
  - apply app_eq_nil in Hstream as [Hnil ->].
    destruct (recv_calls_spec calls [] c [] [] Hms Hcalls Hempty Hl)
      as (ms1 & ms2 & part & c' & Hm & ? & ? & ? & ?); try done.
    { cbn. by rewrite Hnil. }
    exists ms1, ms2, part, c'. done.
  - apply (recv_calls_spec calls (m :: msgs) c [] rest); try done.
    pose proof (Wire.length_frame m). unfold Wire.kHeaderSize in *. simpl. lia.
Qed.

(** *** Length headers no client of the repository writes *)

(** C40: a length between -5 and -1 in the header takes the server down: the
    assertion of [consume] fails when nothing follows the header, and else the
    constructor of [std::string] throws out of [recv], which nobody catches. *)
Theorem negative_length_aborts (hdr d : bytes) c
    (Hhdr : length hdr = 4%nat) (Hlen : -5 ≤ Wire.read_len hdr < 0)
    (Hsize : zlen (hdr ++ d) < chunk_size)
    (Hempty : bq_repr (recvBuffer_ c) []) (Hl : listenfd_ c ≠ -1) :
  recv [Rd (hdr ++ d)] c = if bool_decide (d = []) then Assert else Raise LengthError.
Proof.
  unfold chunk_size in Hsize. rewrite length_app in Hsize.
  destruct (recv_loop_chunks [hdr ++ d] (recvBuffer_ c) [] ) as (rb & Hloop & Hr); try done.
  { unfold chunks_ok, chunk_size. rewrite length_app. lia. }
  { unfold bq_limit. cbn [concat]. rewrite app_nil_r, length_app. simpl. lia. }
  cbn [concat] in Hr. rewrite app_nil_r in Hr.
  change (bq_repr rb (Some <$> hdr ++ d)) in Hr. change (Rd <$> [hdr ++ d]) with [Rd (hdr ++ d)] in Hloop.
  unfold recv. rewrite Hloop. cbn [mbind outcome_bind set_recvBuffer listenfd_].
  rewrite (proj2 (Z.eqb_neq _ _) Hl). cbn [negb].
  rewrite (frame_loop_S _ rb (hdr ++ d)) by (rewrite ?length_app; lia || done).
  assert (take 4 (hdr ++ d) = hdr) as -> by (rewrite <- Hhdr; apply take_app_length).
  cbv zeta. unfold Wire.kHeaderSize. rewrite length_app.
  assert (u64 (Wire.read_len hdr + 5) = Wire.read_len hdr + 5) as -> by (apply u64_small; lia).
  rewrite (proj2 (Z.leb_le _ _)) by lia.
  destruct d as [|b d].
  - rewrite (bq_consume_assert rb _ 5 Hr); [done|].
    rewrite length_fmap, length_app. simpl. lia.
  - destruct (consume_bytes rb _ 5 Hr) as (rb1 & -> & _); [rewrite length_app; simpl; lia|].
    cbn [mbind outcome_bind]. unfold std_string. rewrite (proj2 (Z.ltb_lt _ _)); [done|].
    assert (u64 (Wire.read_len hdr) = 2 ^ 64 + Wire.read_len hdr) as ->; [|lia].
    unfold u64. symmetry. apply (Z.mod_unique_pos _ _ (-1)); lia.
Qed.

Lemma recv_waits cs c q rest :
  chunks_ok cs → bq_repr (recvBuffer_ c) (Some <$> q) →
  zlen (q ++ concat cs) ≤ bq_limit → 4 ≤ zlen ((q ++ concat cs) ++ rest) →
  Wire.read_len (take 4 ((q ++ concat cs) ++ rest)) < - Wire.kHeaderSize →
  ∃ rb, recv (Rd <$> cs) c = Ok (0, [], set_recvBuffer rb c) ∧
        bq_repr rb (Some <$> q ++ concat cs).
Proof.
  intros Hcs Hr Hlim H4 Hlen. pose proof Hlim as Hlim'. rewrite length_app in Hlim'.
  destruct (recv_loop_chunks cs (recvBuffer_ c) _ Hcs Hr) as (rb & Hloop & Hrb);
    [rewrite length_fmap; lia|].
  rewrite <- fmap_app in Hrb. exists rb. split; [|done].
  unfold recv. rewrite Hloop. cbn [mbind outcome_bind set_recvBuffer listenfd_].
  destruct (negb _); [|done].
  assert (frame_loop (S (Z.to_nat (bq_size rb))) rb = Ok ([], rb)) as ->; [|done].
  destruct (decide (4 ≤ zlen (q ++ concat cs))) as [Hge|Hlt].
  - rewrite take_app_le in Hlen by lia. by apply (frame_loop_waits _ rb (q ++ concat cs)).
  - cbn [frame_loop]. rewrite (size_bytes rb _ Hrb). unfold Wire.kHeaderSize.
    by rewrite (proj2 (Z.leb_gt _ _)) by lia.
Qed.

(** A length below -5 in the header silences the connection: no later
    [recv] returns a request, and all that arrives stays in the buffer. *)
Theorem negative_length_stalls calls c (stream : bytes)
    (Hcalls : Forall chunks_ok calls) (Hempty : bq_repr (recvBuffer_ c) [])
    (Hstream : concat (concat calls) = stream) (Hlim : zlen stream ≤ bq_limit)
    (Hhdr : 4 ≤ zlen stream) (Hlen : Wire.read_len (take 4 stream) < - Wire.kHeaderSize) :
  ∃ c', recv_calls calls c = Ok ([], c') ∧ bq_repr (recvBuffer_ c') (Some <$> stream).
Proof.
  enough (∀ calls q c, Forall chunks_ok calls → bq_repr (recvBuffer_ c) (Some <$> q) →
    q ++ concat (concat calls) = stream →
    ∃ c', recv_calls calls c = Ok ([], c') ∧ bq_repr (recvBuffer_ c') (Some <$> stream))
    as Hgen by by apply (Hgen calls []).
  clear calls c Hcalls Hempty Hstream.
  intros calls. induction calls as [|cs calls IH]; intros q c Hcalls Hr Heq.
  - exists c. cbn in Heq. rewrite app_nil_r in Heq. by subst.
  - apply Forall_cons in Hcalls as [Hcs Hcalls].
    cbn [concat] in Heq. rewrite concat_app, app_assoc in Heq. rewrite <- Heq in Hlim, Hhdr, Hlen.
    destruct (recv_waits cs c q (concat (concat calls)) Hcs Hr) as (rb & Hrecv & Hrb); try done.
    { rewrite length_app in Hlim. lia. }
    destruct (IH (q ++ concat cs) (set_recvBuffer rb c) Hcalls Hrb Heq) as (c' & Hrun & Hr').
    exists c'. split; [|done]. cbn [recv_calls]. rewrite Hrecv. cbn [mbind outcome_bind].
    by rewrite Hrun.
Qed.

(** *** Sending *)

(** [send] of a response takes no notice of how many of its bytes the
    kernel has accepted: with nothing queued it returns 0 and leaves the
    connection as it was, so what was not accepted is lost. *)
Theorem send_ignores_short_writes maxIOVcount n (buffer : bytes) c
    (Hn : 0 ≤ n ≤ zlen buffer) (Hsize : zlen buffer < 2 ^ 31)
    (Hopen : close_ c = false) (Hq : sendBuffer_ c = []) :
  send_buffer maxIOVcount [Sent n] buffer false c = Ok (0, c) ∧
  send_buffer maxIOVcount [SendErr EAGAIN] buffer false c = Ok (0, c).
Proof.
  assert (send_finish c = Ok (0, c)) as Hfin.
  { unfold send_finish. by rewrite Hq, Hopen. }
  unfold send_buffer, tcpSend.
  change (default (SendErr EAGAIN) (head [Sent n])) with (Sent n).
  change (default (SendErr EAGAIN) (head [SendErr EAGAIN])) with (SendErr EAGAIN).
  cbv iota. rewrite i32_small by lia.
  split; destruct (zlen buffer =? 0); cbn [Z.eqb]; try exact Hfin.
  by rewrite (proj2 (Z.eqb_neq n (-1))) by lia.
Qed.

Definition total (slices : list Slice) : Z := foldr (λ s n, dataLen s + n) 0 slices.

Definition slice_ok (s : Slice) : Prop := 0 < dataLen s ∧ dataLen s = zlen (data s).

Lemma total_nonneg slices : Forall slice_ok slices → 0 ≤ total slices.
Proof. induction 1 as [|s ss [Hs _] _ IH]; simpl; lia. Qed.

Lemma adjust_loop_full ss1 : ∀ ss2 n,
  Forall slice_ok ss1 → 0 ≤ n →
  adjust_loop (ss1 ++ ss2) (total ss1 + n) =
  ('(k, ss) ← adjust_loop ss2 n; Ok ((length ss1 + k)%nat, ss1 ++ ss)).
Proof.
  induction ss1 as [|s ss1 IH]; intros ss2 n Hok Hn.
  - cbn [total foldr app length]. rewrite Z.add_0_l. by destruct (adjust_loop ss2 n) as [[]| | | |].
  - apply Forall_cons in Hok as [[Hs Hd] Hok]. pose proof (total_nonneg ss1 Hok).
    cbn [app adjust_loop total foldr]. rewrite (proj2 (Z.ltb_lt 0 _) Hs).
    cbn [assert_ mbind outcome_bind]. rewrite (proj2 (Z.leb_le _ _)) by (unfold total in *; lia).
    replace (dataLen s + foldr _ 0 ss1 + n - dataLen s) with (total ss1 + n) by (unfold total; lia).
    rewrite IH by done. by destruct (adjust_loop ss2 n) as [[]| | | |].
Qed.

(** When [writev] stops inside a slice, [adjustSlices] drops the slices
    before it and moves that slice's rest to its front, but keeps its length: the
    next [writev] sends the slice's last [n] bytes a second time. *)
Theorem adjustSlices_spec ss1 s ss2 n
    (Hok : Forall slice_ok (ss1 ++ s :: ss2)) (Hn : 0 ≤ n < dataLen s) :
  adjustSlices (ss1 ++ s :: ss2) (total ss1 + n) =
  Ok (mk_slice (drop (Z.to_nat n) (data s) ++ drop (Z.to_nat (dataLen s - n)) (data s))
               (dataLen s) :: ss2).
Proof.
  apply Forall_app in Hok as [Hok1 Hok2]. apply Forall_cons in Hok2 as [[Hs Hd] Hok2].
  unfold adjustSlices. rewrite adjust_loop_full by (done || lia). cbn [adjust_loop].
  rewrite (proj2 (Z.ltb_lt 0 _) Hs). cbn [assert_ mbind outcome_bind].
  rewrite (proj2 (Z.leb_gt _ _)) by lia.
  destruct (Z.eqb_spec n 0) as [->|Hne]; cbn [negb].
  - cbn [mbind outcome_bind]. rewrite Nat.add_0_r, drop_app_length, Z.sub_0_r.
    rewrite (drop_ge (data s) (Z.to_nat (dataLen s))), app_nil_r by lia. by destruct s.
  - rewrite mem_read_Ok by lia. cbn [mbind outcome_bind].
    rewrite (take_ge (drop _ _)) by (rewrite length_drop; lia).
    rewrite mem_write_Ok by (rewrite ?length_drop; lia). cbn [mbind outcome_bind].
    rewrite Nat.add_0_r, drop_app_length.
    assert (Z.to_nat 0 + length (drop (Z.to_nat n) (data s)) = Z.to_nat (dataLen s - n))%nat as ->
      by (rewrite length_drop; lia).
    done.
Qed.

End receiving.

(** ** Witnesses, on the buffer of the program *)

Definition sample : t Buffer.t := mk None 7 3 5 [] 80 false Buffer.init [].

Lemma sample_empty : bq_repr (recvBuffer_ sample) [].
Proof. exact (bq_init_repr (B:=Buffer.t)). Qed.

Definition msgs3 : list bytes := [["a"%char]; []; ["b"%char; "c"%char]].
Definition stream3 : bytes := concat (Wire.frame <$> msgs3).

Lemma recv_reassembles_witness :
  ∃ todo part c',
    recv_calls [[take 3 stream3]; [take 9 (drop 3 stream3)]; [drop 12 stream3]] sample
    = Ok (recv_msg sample <$> msgs3, c') ∧ partial part todo.
Proof.
  destruct (recv_reassembles msgs3 [[take 3 stream3]; [take 9 (drop 3 stream3)]; [drop 12 stream3]]
              sample []) as (done & todo & part & c' & Hm & Hd & Hp & _ & Hrun).
  - repeat constructor.
  - repeat constructor; discriminate.
  - apply sample_empty.
  - discriminate.
  - reflexivity.
  - vm_compute. discriminate.
  - exists todo, part, c'. split; [|exact Hp]. rewrite Hrun.
    destruct todo as [|m todo]; [by rewrite app_nil_r in Hm; subst|].
    exfalso. apply (f_equal length) in Hd.
    assert (length (concat (Wire.frame <$> msgs3)) =
            length (concat (Wire.frame <$> done)) + length part)%nat as Hlen.
    { rewrite <- length_app, <- Hd. reflexivity. }
    rewrite Hm, fmap_app, concat_app, length_app, fmap_cons in Hlen. simpl in Hlen, Hp.
    rewrite length_app in Hlen. simpl in Hlen. lia.
Defined.

Lemma negative_length_aborts_witness :
  recv [Rd (Wire.write_len (-2) ++ ["x"%char])] sample = Raise LengthError.
Proof.
  rewrite (negative_length_aborts (Wire.write_len (-2)) ["x"%char] sample);
    [reflexivity|reflexivity|by_compute|reflexivity|apply sample_empty|discriminate].
Defined.

Lemma negative_length_stalls_witness :
  ∃ c', recv_calls [[Wire.write_len (-9)]; [stream3]] sample = Ok ([], c').
Proof.
  destruct (negative_length_stalls [[Wire.write_len (-9)]; [stream3]] sample
              (Wire.write_len (-9) ++ stream3)) as (c' & Hc' & _).
  - repeat constructor; discriminate.
  - apply sample_empty.
  - reflexivity.
  - vm_compute. discriminate.
  - vm_compute. discriminate.
  - vm_compute. reflexivity.
  - exists c'. exact Hc'.
Defined.

Lemma send_ignores_short_writes_witness :
  send_buffer 16 [Sent 1] ["a"%char; "b"%char] false sample = Ok (0, sample).
Proof.
  apply (send_ignores_short_writes 16 1 ["a"%char; "b"%char] sample);
    [by_compute|by_compute|reflexivity|reflexivity].
Defined.

Lemma adjustSlices_spec_witness :
  adjustSlices [mk_slice ["a"%char] 1; mk_slice ["b"%char; "c"%char; "d"%char] 3] 2 =
  Ok [mk_slice ["c"%char; "d"%char; "d"%char] 3].
Proof.
  apply (adjustSlices_spec [mk_slice ["a"%char] 1] (mk_slice ["b"%char; "c"%char; "d"%char] 3) [] 1);
    [repeat constructor|by_compute].
Defined.

End Connection.
