(* ===== verification/Transceiver.v ===== *)
(** * Transceiver: Transceiver.h, Transceiver.cc

    The client's end of a connection: [sendRequest] and [doRequest] write
    requests, through [sendBuffer_] when the socket does not take them whole,
    [doResponse] reads what the server sent.  The results of the system calls
    are arguments; [wire] records the bytes the kernel has accepted and [polled]
    the calls on the epoll set. *)

From S2P Require Import Prelude Buffer.

Module Transceiver.

Definition retError : Z := -1.
Definition retOk : Z := 0.
Definition retFull : Z := 1.

Definition EPOLLIN : Z := 1.
Definition EPOLLOUT : Z := 4.

Inductive poll_call : Set :=
| PollAdd (fd events : Z)
| PollDel (fd events : Z)
| CloseFd (fd : Z).

Record t := mk {
  connected_ : bool;
  fd_ : Z;
  sendBuffer_ : Buffer.t;
  receiveBuffer_ : Buffer.t;
  wire : bytes;
  polled : list poll_call
}.

(** [::send] takes what fits into the [n] bytes of room in the socket. *)
Inductive send_result :=
| Room (n : nat)
| SendErr (eagain : bool).

(** The empty block is end of file. *)
Inductive readv_result :=
| Rdv (bs : bytes)
| RdvErr (eagain : bool).

Definition new : t := mk false (-1) Buffer.init Buffer.init [] [].

Definition set_sendBuffer (b : Buffer.t) (x : t) : t :=
  mk (connected_ x) (fd_ x) b (receiveBuffer_ x) (wire x) (polled x).
Definition set_receiveBuffer (b : Buffer.t) (x : t) : t :=
  mk (connected_ x) (fd_ x) (sendBuffer_ x) b (wire x) (polled x).
Definition add_wire (bs : bytes) (x : t) : t :=
  mk (connected_ x) (fd_ x) (sendBuffer_ x) (receiveBuffer_ x) (wire x ++ bs) (polled x).

Definition valid (x : t) : bool := negb (fd_ x =? -1).

Definition close (x : t) : t :=
  if valid x then
    mk (connected_ x) (-1) (Buffer.clear (sendBuffer_ x)) (Buffer.clear (receiveBuffer_ x))
       (wire x) (polled x ++ [PollDel (fd_ x) (Z.lor EPOLLIN EPOLLOUT); CloseFd (fd_ x)])
  else x.

(** [fd] is what [NetworkUtil::createSocket] returns; the file descriptor is
    used whether the connection is established yet or not. *)
Definition connect (fd : Z) (x : t) : t :=
  mk true fd (sendBuffer_ x) (receiveBuffer_ x) (wire x) (polled x ++ [PollAdd fd EPOLLIN]).

Section operations.
(** What the logging library does at [LOG_SYSFATAL]. *)
Context (log_sysfatal : outcome unit).

(** [::send] on an invalid descriptor fails with [EBADF]. *)
Definition sys_send (r : send_result) (x : t) : send_result :=
  if valid x then r else SendErr false.

(** [send(buf, len, 0)]: the result, with the bytes sent on the wire. *)
Definition send (buf : bytes) (r : send_result) (x : t) : outcome (Z * t) :=
  match sys_send r x with
  | Room n => Ok (i32 (zlen (take n buf)), add_wire (take n buf) x)
  | SendErr false => _ ← log_sysfatal; Ok (-1, x)
  | SendErr true => Ok (0, x)
  end.

(** The length passed to [send] is a [uint32_t]. *)
Definition u32_block (d : bytes) : bytes := take (Z.to_nat (u32 (zlen d))) d.

Definition sendRequest (d : bytes) (r : send_result) (x : t) : outcome (Z * t) :=
  if negb (Buffer.empty (sendBuffer_ x)) then Ok (retError, x)
  else
    '(ret, x) ← send (u32_block d) r x;
    if ret <? 0 then Ok (retError, x)
    else if ret <? i32 (zlen d) then
      '(_, b) ← Buffer.pushData (Some (drop (Z.to_nat ret) d)) (sendBuffer_ x);
      Ok (retFull, set_sendBuffer b x)
    else Ok (ret, x).

(** [doRequest] up to its call of [objectProxy()->doInvoke()]; [Some ret] when
    it returns before. *)
Definition flush (r : send_result) (x : t) : outcome (option Z * t) :=
  if negb (Buffer.empty (sendBuffer_ x)) then
    let '(_, length) := Buffer.peekData (sendBuffer_ x) in
    cs ← Buffer.peek length (sendBuffer_ x);
    data ← cells_bytes cs;
    '(ret, x) ← send (u32_block data) r x;
    if ret <? 0 then Ok (Some ret, x)
    else if 0 <? ret then
      b ← Buffer.consume ret (sendBuffer_ x);
      if Buffer.empty b then
        b ← Buffer.shrink b;
        Ok (None, set_sendBuffer b x)
      else Ok (Some 0, set_sendBuffer b x)
    else Ok (None, x)
  else Ok (None, x).

(** [readv]: the bytes read, none when the call failed or the connection was
    closed. *)
Definition readv (r : readv_result) (x : t) : bytes * t :=
  match r with
  | Rdv [] | RdvErr false => ([], close x)
  | Rdv bs => (bs, x)
  | RdvErr true => ([], x)
  end.

(** Where [readv] puts the bytes: first behind the readable ones, the rest,
    through the array on the stack, with [pushData]. *)
Definition store (bs : bytes) (b : Buffer.t) : outcome Buffer.t :=
  let iov_len := Buffer.writableSize b in
  let first := take (Z.to_nat iov_len) bs in
  mem ← mem_write (Buffer.buffer_ b) (Buffer.writeAddr b) (Some <$> first);
  let b := Buffer.resetBuffer mem b in
  if zlen bs <=? iov_len then Ok (Buffer.produce (zlen bs) b)
  else
    let b := Buffer.produce iov_len b in
    '(_, b) ← Buffer.pushData (Some (drop (Z.to_nat iov_len) bs)) b;
    Ok b.

(** The loop of [doResponse]; a socket with nothing left answers [EAGAIN]. *)
Fixpoint read_loop (env : list readv_result) (x : t) : outcome t :=
  b ← Buffer.assureSpace (8 * 1024) (receiveBuffer_ x);
  let x := set_receiveBuffer b x in
  match env with
  | [] => Ok x
  | r :: env =>
      match readv r x with
      | ([], x) => Ok x
      | (bs, x) =>
          b ← store bs (receiveBuffer_ x);
          read_loop env (set_receiveBuffer b x)
      end
  end.

Definition doResponse (env : list readv_result) (x : t) : outcome (Z * list bytes * t) :=
  x ← read_loop env x;
  let b := receiveBuffer_ x in
  if negb (Buffer.empty b) then
    let len := Buffer.readableSize b in
    cs ← Buffer.peek len b;
    data ← cells_bytes cs;
    b ← Buffer.consume len b;
    b ← (if 8 * 1024 * 1024 <? Buffer.capacity b then Buffer.shrink b else Ok b);
    Ok (1, [data], set_receiveBuffer b x)
  else Ok (0, [], x).

(** ** Lemmas *)

Record wf (x : t) : Prop := {
  wf_send : Buffer.wf (sendBuffer_ x);
  wf_recv : Buffer.wf (receiveBuffer_ x)
}.

(** The bytes of requests that were taken but not yet written. *)
Definition pending (x : t) (bs : bytes) : Prop :=
  Buffer.contents (sendBuffer_ x) = Some <$> bs ∧ zlen bs < 2 ^ 31.

(** A result after which the code goes on. *)
Definition survives (r : send_result) : Prop := r = SendErr false → log_sysfatal = Ok tt.

Lemma add_wire_nil x : add_wire [] x = x.
Proof. destruct x. unfold add_wire. simpl. by rewrite app_nil_r. Qed.

Lemma send_spec buf r x :
  valid x → survives r → zlen buf < 2 ^ 31 →
  ∃ ret sent rest, buf = sent ++ rest ∧ send buf r x = Ok (ret, add_wire sent x) ∧
    (ret = zlen sent ∨ ret = -1 ∧ sent = []) ∧ (ret = -1 → r = SendErr false).
Proof.
  intros Hv Hr Hb. unfold send, sys_send. rewrite (Is_true_true_1 _ Hv).
  destruct r as [n|[]].
  - exists (zlen (take n buf)), (take n buf), (drop n buf).
    rewrite i32_small by (rewrite length_take; lia). rewrite take_drop.
    split_and!; auto. lia.
  - exists 0, [], buf. rewrite add_wire_nil. split_and!; auto. lia.
  - exists (-1), [], buf. rewrite add_wire_nil, Hr by done. split_and!; auto.
Qed.

Lemma u32_block_small d : zlen d < 2 ^ 31 → u32_block d = d.
Proof. intros. unfold u32_block. rewrite u32_small by lia. apply take_ge. lia. Qed.

Lemma empty_pending x bs :
  wf x → pending x bs → Buffer.empty (sendBuffer_ x) = bool_decide (bs = []).
Proof.
  intros Hwf [Hp _]. rewrite Buffer.empty_spec, Hp by apply Hwf.
  apply bool_decide_ext. by destruct bs.
Qed.

Lemma sendRequest_spec d r x bs :
  wf x → pending x bs → valid x → survives r → zlen d < 2 ^ 31 →
  ∃ ret x' bs', sendRequest d r x = Ok (ret, x') ∧ wf x' ∧ pending x' bs' ∧
    fd_ x' = fd_ x ∧
    wire x' ++ bs' = (wire x ++ bs) ++ (if decide (ret = retError) then [] else d) ∧
    (ret = retError → bs ≠ [] ∨ r = SendErr false).
Proof.
  intros Hwf Hp Hv Hr Hd. unfold sendRequest. rewrite (empty_pending x bs Hwf Hp).
  destruct (decide (bs = [])) as [->|Hne].
  2: { rewrite bool_decide_false by done. cbn [negb].
       exists retError, x, bs. rewrite decide_True, app_nil_r by done. auto 10. }
  rewrite bool_decide_true by done. cbn [negb]. rewrite u32_block_small by done.
  destruct (send_spec d r x Hv Hr Hd) as (ret & sent & rest & -> & -> & Hret & Herr).
  cbn [mbind outcome_bind].
  destruct Hret as [->|[-> ->]].
  2: { exists retError, x, []. rewrite add_wire_nil, decide_True, !app_nil_r by done.
       split_and!; auto. }
  rewrite (proj2 (Z.ltb_ge _ _)) by lia. rewrite (i32_small (zlen (sent ++ rest))) by lia.
  assert (wf (add_wire sent x)) as Hwf' by (by split; apply Hwf).
  destruct Hp as [Hp _]. rewrite app_nil_r.
  destruct (Z.ltb_spec (zlen sent) (zlen (sent ++ rest))) as [Hlt|Hge].
  - rewrite Nat2Z.id, drop_app_length.
    destruct (Buffer.pushData_spec rest (sendBuffer_ x)) as (b' & Hb & Hwfb & Hc & _).
    { apply Hwf. }
    { rewrite <- Buffer.zlen_contents, Hp by apply Hwf. rewrite length_app in Hd. simpl. lia. }
    change (sendBuffer_ (add_wire sent x)) with (sendBuffer_ x). rewrite Hb.
    cbn [mbind outcome_bind]. rewrite Hp in Hc. rewrite length_app in Hd.
    exists retFull, (set_sendBuffer b' (add_wire sent x)), rest.
    split_and!; [done|split; [done|apply Hwf]|split; [done|lia]|done| |done].
    rewrite decide_False by done. cbn. by rewrite <- app_assoc.
  - rewrite length_app in Hge. assert (rest = []) as -> by (apply length_zero_iff_nil; lia).
    exists (zlen sent), (add_wire sent x), [].
    split_and!; [done|done|done|done| |unfold retError; lia].
    rewrite decide_False by (unfold retError; lia). cbn. by rewrite !app_nil_r.
Qed.

(** A request that the socket takes whole. *)
Lemma sendRequest_whole d n x :
  wf x → pending x [] → valid x → zlen d < 2 ^ 31 → (length d ≤ n)%nat →
  sendRequest d (Room n) x = Ok (zlen d, add_wire d x).
Proof.
  intros Hwf Hp Hv Hd Hn. unfold sendRequest, send, sys_send.
  rewrite (empty_pending x [] Hwf Hp), (Is_true_true_1 _ Hv). cbn [bool_decide negb].
  rewrite u32_block_small by done. rewrite take_ge by done. cbn [mbind outcome_bind].
  rewrite i32_small by lia. rewrite (proj2 (Z.ltb_ge _ _)) by lia.
  by rewrite (proj2 (Z.ltb_ge _ _)) by lia.
Qed.

(** With something left to write, nothing is taken. *)
Lemma sendRequest_busy d r x bs :
  wf x → pending x bs → bs ≠ [] → sendRequest d r x = Ok (retError, x).
Proof.
  intros Hwf Hp Hne. unfold sendRequest. rewrite (empty_pending x bs Hwf Hp).
  by rewrite bool_decide_false.
Qed.

Lemma flush_pending r x bs :
  wf x → pending x bs → bs ≠ [] →
  flush r x =
  ('(ret, x) ← send bs r x;
   if ret <? 0 then Ok (Some ret, x)
   else if 0 <? ret then
     b ← Buffer.consume ret (sendBuffer_ x);
     if Buffer.empty b then
       b ← Buffer.shrink b;
       Ok (None, set_sendBuffer b x)
     else Ok (Some 0, set_sendBuffer b x)
   else Ok (None, x)).
Proof.
  intros Hwf Hp Hne. unfold flush. rewrite (empty_pending x bs Hwf Hp).
  rewrite bool_decide_false by done. cbn [negb]. unfold Buffer.peekData.
  destruct Hp as [Hp Hlim].
  assert (Buffer.readableSize (sendBuffer_ x) = zlen bs) as Hlen
    by (rewrite <- Buffer.zlen_contents, Hp, length_fmap by apply Hwf; done).
  rewrite Hlen, Buffer.peek_spec by (rewrite ?Hlen; lia || apply Hwf).
  cbn [mbind outcome_bind]. rewrite Hp, <- fmap_take, cells_bytes_Some, Nat2Z.id, take_ge by lia.
  cbn [mbind outcome_bind]. by rewrite u32_block_small.
Qed.

(** What is written leaves [sendBuffer_]. *)
Lemma consume_pending x sent rest :
  wf x → pending x (sent ++ rest) →
  ∃ b, Buffer.consume (zlen sent) (sendBuffer_ x) = Ok b ∧ Buffer.wf b ∧
       Buffer.contents b = Some <$> rest ∧
       (Buffer.empty b → ∃ b', Buffer.shrink b = Ok b' ∧ Buffer.wf b' ∧
                               Buffer.contents b' = Some <$> rest).
Proof.
  intros Hwf [Hp Hlim]. rewrite length_app in Hlim.
  destruct (Buffer.consume_spec (zlen sent) (sendBuffer_ x)) as (b & Hb & Hwfb & Hc & _).
  { apply Hwf. }
  { rewrite <- Buffer.zlen_contents, Hp, length_fmap, length_app by apply Hwf. lia. }
  rewrite Hp, Nat2Z.id, fmap_app, drop_app_length' in Hc by (by rewrite length_fmap).
  exists b. split_and!; [done..|]. intros _.
  destruct (Buffer.shrink_spec b) as (b' & Hb' & Hwfb' & Hc' & _);
    [done|rewrite <- Buffer.zlen_contents, Hc, length_fmap by done; lia|].
  exists b'. by rewrite Hc'.
Qed.

Lemma flush_spec r x bs :
  wf x → pending x bs → valid x → survives r →
  ∃ ret x' bs', flush r x = Ok (ret, x') ∧ wf x' ∧ pending x' bs' ∧ fd_ x' = fd_ x ∧
    wire x' ++ bs' = wire x ++ bs.
Proof.
  intros Hwf Hp Hv Hr. destruct (decide (bs = [])) as [->|Hne].
  { unfold flush. rewrite (empty_pending x [] Hwf Hp). by exists None, x, []. }
  rewrite (flush_pending r x bs) by done. destruct (Hp) as [_ Hlim].
  destruct (send_spec bs r x Hv Hr Hlim) as (ret & sent & rest & -> & -> & Hret & _).
  cbn [mbind outcome_bind]. destruct Hret as [->|[-> ->]].
  2: { exists (Some (-1)), x, rest. by rewrite add_wire_nil. }
  rewrite (proj2 (Z.ltb_ge _ _)) by lia.
  destruct (Z.ltb_spec 0 (zlen sent)) as [Hpos|Hnone].
  2: { assert (sent = []) as -> by (apply length_zero_iff_nil; lia).
       exists None, x, rest. by rewrite add_wire_nil. }
  destruct (consume_pending x sent rest Hwf Hp) as (b & Hb & Hwfb & Hc & Hsh).
  change (sendBuffer_ (add_wire sent x)) with (sendBuffer_ x). rewrite Hb.
  cbn [mbind outcome_bind]. rewrite length_app in Hlim.
  rewrite (app_assoc (wire x)). destruct (Buffer.empty b).
  - destruct Hsh as (b' & -> & Hwfb' & Hc'); [done|]. eexists _, _, rest. split; [done|].
    split_and!; [split; [done|apply Hwf]|split; [done|lia]|done|done].
  - eexists _, _, rest. split; [done|].
    split_and!; [split; [done|apply Hwf]|split; [done|lia]|done|done].
Qed.

(** Enough room lets [doRequest] go on to [doInvoke]. *)
Lemma flush_drains n x bs :
  wf x → pending x bs → bs ≠ [] → valid x → (length bs ≤ n)%nat →
  ∃ x', flush (Room n) x = Ok (None, x').
Proof.
  intros Hwf Hp Hne Hv Hn. rewrite (flush_pending _ x bs) by done.
  destruct (Hp) as [_ Hlim]. unfold send, sys_send. rewrite (Is_true_true_1 _ Hv).
  rewrite (take_ge bs) by done. cbn [mbind outcome_bind]. rewrite i32_small by lia.
  assert (length bs ≠ 0%nat) by (by destruct bs).
  rewrite (proj2 (Z.ltb_ge _ _)), (proj2 (Z.ltb_lt 0 _)) by lia.
  destruct (consume_pending x bs [] Hwf) as (b & Hb & Hwfb & Hc & Hsh); [by rewrite app_nil_r|].
  change (sendBuffer_ (add_wire bs x)) with (sendBuffer_ x). rewrite Hb.
  cbn [mbind outcome_bind].
  assert (Buffer.empty b = true) as He by (by rewrite Buffer.empty_spec, Hc).
  rewrite He. destruct Hsh as (b' & -> & _); [by rewrite He|]. cbn [mbind outcome_bind]. eauto.
Qed.

(** *** Receiving *)

Lemma store_spec bs b :
  Buffer.wf b → Buffer.readableSize b + zlen bs ≤ 2 ^ 62 →
  ∃ b', store bs b = Ok b' ∧ Buffer.wf b' ∧
        Buffer.contents b' = Buffer.contents b ++ (Some <$> bs).
Proof.
  intros Hwf Hl. pose proof (Buffer.writableSize_wf b Hwf) as Hw.
  pose proof (Buffer.wf_cap _ Hwf). pose proof (Buffer.wf_pos _ Hwf).
  set (w := Buffer.writableSize b) in *. set (first := take (Z.to_nat w) bs).
  assert (zlen first ≤ w) as Hfirst by (unfold first; rewrite length_take; lia).
  unfold store. fold w first.
  destruct (Buffer.fill_spec first b Hwf Hfirst) as (mem & Hmem & Hwf1 & Hc1).
  change (Buffer.writeAddr b) with (Buffer.writePos_ b). rewrite Hmem. cbn [mbind outcome_bind].
  destruct (Z.leb_spec (zlen bs) w) as [Hle|Hgt].
  - assert (first = bs) as Heq by (apply take_ge; lia). rewrite Heq in *. eauto.
  - assert (zlen first = w) as Heq by (unfold first; rewrite length_take; lia).
    rewrite Heq in *.
    pose proof (length_app first (drop (Z.to_nat w) bs)) as Hbs.
    unfold first in Hbs at 1. rewrite take_drop in Hbs.
    destruct (Buffer.pushData_spec (drop (Z.to_nat w) bs) _ Hwf1) as (b' & -> & Hwf' & Hc' & _).
    { rewrite <- Buffer.zlen_contents, Hc1, length_app, length_fmap by done.
      rewrite <- Buffer.zlen_contents in Hl by done. lia. }
    cbn [mbind outcome_bind]. exists b'. split_and!; [done|done|].
    rewrite Hc', Hc1, <- app_assoc, <- fmap_app. unfold first. by rewrite take_drop.
Qed.

(** What the program has received and not yet handed on. *)
Definition received (x : t) (bs : bytes) : Prop :=
  Buffer.contents (receiveBuffer_ x) = Some <$> bs.

Lemma assure_received x bs :
  wf x → received x bs → zlen bs ≤ 2 ^ 61 →
  ∃ b, Buffer.assureSpace (8 * 1024) (receiveBuffer_ x) = Ok b ∧
       wf (set_receiveBuffer b x) ∧ received (set_receiveBuffer b x) bs.
Proof.
  intros Hwf Hr Hl. pose proof (wf_recv _ Hwf) as Hb.
  destruct (Buffer.assureSpace_spec (8 * 1024) (receiveBuffer_ x) Hb) as (b & -> & Hwfb & Hc & _).
  { lia. }
  { pose proof (f_equal length Hr) as Hlen. rewrite length_fmap in Hlen.
    unfold Buffer.demand. pose proof (Buffer.zlen_contents _ Hb).
    rewrite Buffer.readableSize_wf in * by done. lia. }
  exists b. split; [done|]. split; [split; [apply Hwf|done]|]. unfold received. cbn. by rewrite Hc.
Qed.

Lemma read_loop_spec blocks : ∀ x bs,
  wf x → received x bs → Forall (λ b, b ≠ []) blocks → zlen bs + zlen (concat blocks) ≤ 2 ^ 61 →
  ∃ b, read_loop (Rdv <$> blocks) x = Ok (set_receiveBuffer b x) ∧ Buffer.wf b ∧
       Buffer.contents b = Some <$> bs ++ concat blocks.
Proof.
  induction blocks as [|blk blocks IH]; intros x bs Hwf Hr Hne Hl.
  - destruct (assure_received x bs Hwf Hr) as (b & Hb & Hwf' & Hr'); [simpl in Hl; lia|].
    exists b. cbn [fmap list_fmap read_loop]. rewrite Hb. cbn. rewrite app_nil_r.
    split_and!; [done|apply Hwf'|exact Hr'].
  - apply Forall_cons in Hne as [Hblk Hne]. cbn [concat] in Hl. rewrite length_app in Hl.
    destruct (assure_received x bs Hwf Hr) as (b & Hb & Hwf' & Hr'); [lia|].
    rewrite fmap_cons. cbn [read_loop]. rewrite Hb. cbn [mbind outcome_bind].
    destruct blk as [|c blk]; [done|]. cbn [readv].
    set (block := c :: blk) in *.
    pose proof (wf_recv _ Hwf') as Hwfb. cbn [receiveBuffer_ set_receiveBuffer] in Hwfb |- *.
    unfold received in Hr'. cbn [receiveBuffer_ set_receiveBuffer] in Hr'.
    destruct (store_spec block b Hwfb) as (b1 & -> & Hwf1 & Hc1).
    { rewrite <- Buffer.zlen_contents, Hr', length_fmap by done. lia. }
    cbn [mbind outcome_bind]. rewrite Hr', <- fmap_app in Hc1.
    destruct (IH (set_receiveBuffer b1 x) (bs ++ block)) as (b2 & Hloop & Hwf2 & Hc2).
    { split; [apply Hwf|done]. }
    { done. }
    { done. }
    { rewrite length_app. lia. }
    exists b2. split; [exact Hloop|]. split; [done|]. cbn [concat]. by rewrite app_assoc.
Qed.

Lemma doResponse_spec blocks x bs :
  wf x → received x bs → Forall (λ b, b ≠ []) blocks → zlen bs + zlen (concat blocks) ≤ 2 ^ 61 →
  ∃ x', doResponse (Rdv <$> blocks) x =
          Ok (if decide (bs ++ concat blocks = []) then (0, [], x') else (1, [bs ++ concat blocks], x')) ∧
        wf x' ∧ received x' [] ∧ x' = set_receiveBuffer (receiveBuffer_ x') x.
Proof.
  intros Hwf Hr Hne Hl. unfold doResponse.
  destruct (read_loop_spec blocks x bs Hwf Hr Hne Hl) as (b & -> & Hwfb & Hc).
  cbn [mbind outcome_bind receiveBuffer_ set_receiveBuffer].
  set (all := bs ++ concat blocks) in *.
  assert (zlen all ≤ 2 ^ 61) as Hall by (unfold all; rewrite length_app; lia).
  rewrite Buffer.empty_spec, Hc by done. destruct (decide (all = [])) as [Hnil|Hnn].
  { rewrite Hnil in *. cbn. exists (set_receiveBuffer b x).
    split_and!; [done|split; [apply Hwf|done]|exact Hc|done]. }
  rewrite bool_decide_false by (by destruct all). cbn [negb].
  assert (Buffer.readableSize b = zlen all) as Hlen
    by (rewrite <- Buffer.zlen_contents, Hc, length_fmap by done; done).
  rewrite Hlen, Buffer.peek_spec by (rewrite ?Hlen; lia || done). cbn [mbind outcome_bind].
  rewrite Hc, <- fmap_take, cells_bytes_Some, Nat2Z.id, take_ge by lia. cbn [mbind outcome_bind].
  destruct (Buffer.consume_spec (zlen all) b Hwfb) as (b1 & -> & Hwf1 & Hc1 & _); [lia|].
  cbn [mbind outcome_bind]. rewrite Hc, drop_ge in Hc1 by (rewrite length_fmap; lia).
  destruct (_ <? _).
  - destruct (Buffer.shrink_spec b1 Hwf1) as (b2 & -> & Hwf2 & Hc2 & _).
    { rewrite <- Buffer.zlen_contents, Hc1 by done. simpl. lia. }
    cbn [mbind outcome_bind]. eexists. split; [done|].
    split; [split; [apply Hwf|done]|]. split; [|done]. unfold received. cbn. by rewrite Hc2.
  - cbn [mbind outcome_bind]. eexists. split; [done|].
    split; [split; [apply Hwf|done]|]. split; [exact Hc1|done].
Qed.

(** ** Properties *)

Inductive op :=
| OSendRequest (d : bytes) (r : send_result)
| OFlush (r : send_result).

Definition op_ok (o : op) : Prop :=
  match o with
  | OSendRequest d r => zlen d < 2 ^ 31 ∧ survives r
  | OFlush r => survives r
  end.

(** The requests of a run that [sendRequest] did not refuse. *)
Fixpoint run (ops : list op) (x : t) : outcome (list bytes * t) :=
  match ops with
  | [] => Ok ([], x)
  | OSendRequest d r :: ops =>
      '(ret, x) ← sendRequest d r x;
      '(ds, x) ← run ops x;
      Ok ((if decide (ret = retError) then [] else [d]) ++ ds, x)
  | OFlush r :: ops =>
      '(_, x) ← flush r x;
      run ops x
  end.

Lemma run_spec ops : ∀ x bs,
  wf x → pending x bs → valid x → Forall op_ok ops →
  ∃ ds x' bs', run ops x = Ok (ds, x') ∧ pending x' bs' ∧
    wire x' ++ bs' = (wire x ++ bs) ++ concat ds.
Proof.
  induction ops as [|[d r|r] ops IH]; intros x bs Hwf Hp Hv Hok.
  - exists [], x, bs. by rewrite app_nil_r.
  - apply Forall_cons in Hok as [[Hd Hr] Hok].
    destruct (sendRequest_spec d r x bs Hwf Hp Hv Hr Hd) as (ret & x1 & bs1 & Hs & Hwf1 & Hp1 & Hfd & Hw & _).
    destruct (IH x1 bs1 Hwf1 Hp1) as (ds & x2 & bs2 & Hrun & Hp2 & Hw2);
      [by unfold valid in *; rewrite Hfd|done|].
    cbn [run]. rewrite Hs. cbn [mbind outcome_bind]. rewrite Hrun. cbn [mbind outcome_bind].
    eexists _, x2, bs2. split; [done|]. split; [done|]. rewrite Hw2, Hw, concat_app, !app_assoc.
    do 2 f_equal. destruct (decide _); cbn; by rewrite ?app_nil_r.
  - apply Forall_cons in Hok as [Hr Hok].
    destruct (flush_spec r x bs Hwf Hp Hv Hr) as (ret & x1 & bs1 & Hs & Hwf1 & Hp1 & Hfd & Hw).
    destruct (IH x1 bs1 Hwf1 Hp1) as (ds & x2 & bs2 & Hrun & Hp2 & Hw2);
      [by unfold valid in *; rewrite Hfd|done|].
    cbn [run]. rewrite Hs. cbn [mbind outcome_bind]. exists ds, x2, bs2.
    by rewrite Hrun, Hw2, Hw.
Qed.

(** C23: what [sendRequest] promises ("the order is kept, no data is lost"): over
    any sequence of calls, however much of each block the socket takes, the bytes
    on the wire followed by those in [sendBuffer_] are the requests it did not
    refuse, in order and each once. *)
Theorem transceiver_keeps_order ops x
    (Hwf : wf x) (Hp : pending x []) (Hv : valid x) (Hok : Forall op_ok ops) :
  ∃ ds x' bs', run ops x = Ok (ds, x') ∧ pending x' bs' ∧
    wire x' ++ bs' = wire x ++ concat ds.
Proof.
  destruct (run_spec ops x [] Hwf Hp Hv Hok) as (ds & x' & bs' & ? & ? & Hw).
  exists ds, x', bs'. by rewrite Hw, app_nil_r.
Qed.

(** [doResponse] hands on all bytes it has read as one response: two
    responses that arrive together come out as a single string. *)
Theorem doResponse_joins r1 r2 x (Hwf : wf x) (Hr : received x [])
    (H1 : r1 ≠ []) (H2 : r2 ≠ []) (Hl : zlen r1 + zlen r2 ≤ 2 ^ 61) :
  ∃ x', doResponse [Rdv r1; Rdv r2] x = Ok (1, [r1 ++ r2], x') ∧ received x' [].
Proof.
  destruct (doResponse_spec [r1; r2] x [] Hwf Hr) as (x' & Hd & _ & Hr' & _);
    [by repeat constructor|simpl; rewrite !length_app; simpl; lia|].
  exists x'. split; [|done]. change (Rdv <$> [r1; r2]) with [Rdv r1; Rdv r2] in Hd.
  rewrite Hd. simpl. rewrite app_nil_r.
  destruct (decide (r1 ++ r2 = [])) as [Hnil|]; [|done]. by apply app_eq_nil in Hnil as [? _].
Qed.

(** A response that arrives together with the end of the stream is lost:
    [readv] closes the transceiver, which empties [receiveBuffer_], and
    [doResponse] reports that there is nothing. *)
Theorem doResponse_eof_drops r x (Hwf : wf x) (Hr : received x []) (Hne : r ≠ [])
    (Hv : valid x) (Hl : zlen r ≤ 2 ^ 60) :
  ∃ x', doResponse [Rdv r; Rdv []] x = Ok (0, [], x') ∧ received x' [] ∧ fd_ x' = -1.
Proof.
  destruct (assure_received x [] Hwf Hr) as (b & Hb & Hwf1 & Hr1); [simpl; lia|].
  pose proof (wf_recv _ Hwf1) as Hwfb. unfold received in Hr1.
  cbn [receiveBuffer_ set_receiveBuffer] in Hwfb, Hr1.
  destruct (store_spec r b Hwfb) as (b2 & Hst & Hwf2 & Hc2).
  { rewrite <- Buffer.zlen_contents, Hr1 by done. simpl. lia. }
  rewrite Hr1 in Hc2.
  destruct (assure_received (set_receiveBuffer b2 x) r) as (b3 & Hb3 & Hwf3 & _);
    [split; [apply Hwf|done]|done|lia|].
  unfold doResponse. cbn [read_loop]. rewrite Hb. cbn [mbind outcome_bind].
  destruct r as [|c r]; [done|]. cbn [readv receiveBuffer_ set_receiveBuffer].
  rewrite Hst. cbn [mbind outcome_bind receiveBuffer_ set_receiveBuffer] in Hb3 |- *.
  rewrite Hb3. cbn [mbind outcome_bind readv]. unfold close, valid in *.
  cbn [fd_ set_receiveBuffer]. rewrite (Is_true_true_1 _ Hv).
  cbn [receiveBuffer_]. rewrite Buffer.empty_spec by (apply Buffer.clear_wf, Hwf3).
  cbn. eexists. split; [done|]. done.
Qed.

(** [connected_] stays set when the connection is closed, so the client does
    not connect again: the next request is written to the descriptor -1, which the
    kernel refuses, and ends in [LOG_SYSFATAL]. *)
Theorem closed_transceiver_unusable d r x (Hwf : wf x) (Hv : valid x) (Hd : d ≠ [])
    (Hc : connected_ x = true) :
  connected_ (close x) = true ∧
  sendRequest d r (close x) = (_ ← log_sysfatal; Ok (retError, close x)).
Proof.
  unfold close. rewrite (Is_true_true_1 _ Hv). split; [done|].
  unfold sendRequest. cbn [sendBuffer_]. rewrite Buffer.empty_spec by (apply Buffer.clear_wf, Hwf).
  cbn. by destruct log_sysfatal.
Qed.

End operations.

(** ** Witnesses *)

Definition sample : t := connect 5 new.

Lemma sample_ok : wf sample ∧ valid sample ∧ pending sample [] ∧ received sample [].
Proof. repeat split; simpl; try apply Buffer.init_wf; lia || done. Qed.

Definition abc : bytes := ["a"%char; "b"%char; "c"%char].

Lemma transceiver_keeps_order_witness :
  ∃ ds x' bs', run Assert [OSendRequest abc (Room 1); OSendRequest abc (Room 9); OFlush (Room 1)] sample
               = Ok (ds, x') ∧ wire x' ++ bs' = concat ds.
Proof.
  destruct (transceiver_keeps_order Assert
              [OSendRequest abc (Room 1); OSendRequest abc (Room 9); OFlush (Room 1)] sample)
    as (ds & x' & bs' & ? & _ & Hw); [apply sample_ok..| |exists ds, x', bs'; by split].
  repeat constructor; discriminate.
Defined.

Lemma doResponse_joins_witness :
  ∃ x', doResponse [Rdv abc; Rdv ["x"%char]] sample = Ok (1, [abc ++ ["x"%char]], x').
Proof.
  destruct (doResponse_joins abc ["x"%char] sample) as (x' & Hx & _);
    [apply sample_ok|apply sample_ok|discriminate|discriminate|by_compute|by exists x'].
Defined.

Lemma doResponse_eof_drops_witness :
  ∃ x', doResponse [Rdv abc; Rdv []] sample = Ok (0, [], x').
Proof.
  destruct (doResponse_eof_drops abc sample) as (x' & Hx & _);
    [apply sample_ok|apply sample_ok|discriminate|apply sample_ok|by_compute|by exists x'].
Defined.

Lemma closed_transceiver_unusable_witness :
  sendRequest Assert abc (Room 9) (close sample) = Assert.
Proof.
  apply (closed_transceiver_unusable Assert abc (Room 9) sample);
    [apply sample_ok|apply sample_ok|discriminate|reflexivity].
Defined.

End Transceiver.
