(* ===== verification/ObjectProxy.v ===== *)
(** * ObjectProxy: ObjectProxy.h, ObjectProxy.cc

    The requests of one client to one server: [sendReqMessage] gives a request
    its id, writes it through the transceiver and files it in the timeout queue;
    [finishInvoke] finds the request of a response and wakes its caller.  A
    [ReqMessage*] is an address in [msgs]; [finished] lists, in order, the
    callers woken and the messages handed to the asynchronous threads. *)

From S2P Require Import Prelude Buffer TimeoutQueue Wire Message Transceiver.

Module ObjectProxy.

(** A [ReqMessage*], which may be null. *)
Abbreviation pointer := (option nat).

Inductive completion : Set :=
| WokeCaller (p : nat)      (* monitor->notify() and monitorFin = true *)
| PushedAsync (p : nat).    (* pushAsyncThreadQueue(msg) *)

Record t := mk {
  trans_ : Transceiver.t;
  timeoutQueue_ : TimeoutQueue.t pointer;
  id_ : Z;
  msgs : gmap nat Request.ReqMessage;
  finished : list completion
}.

Definition new (garbage : Z) (heap : gmap nat Request.ReqMessage) : t :=
  mk Transceiver.new (TimeoutQueue.new garbage) 0 heap [].

Definition set_trans (x : Transceiver.t) (o : t) : t :=
  mk x (timeoutQueue_ o) (id_ o) (msgs o) (finished o).
Definition set_queue (q : TimeoutQueue.t pointer) (o : t) : t :=
  mk (trans_ o) q (id_ o) (msgs o) (finished o).
Definition set_msg (p : nat) (m : Request.ReqMessage) (o : t) : t :=
  mk (trans_ o) (timeoutQueue_ o) (id_ o) (<[p := m]> (msgs o)) (finished o).
Definition finish (c : completion) (o : t) : t :=
  mk (trans_ o) (timeoutQueue_ o) (id_ o) (msgs o) (finished o ++ [c]).

Definition message (p : pointer) (o : t) : outcome Request.ReqMessage :=
  i ← deref p; deref (msgs o !! i).

Definition generateId (o : t) : Z * t :=
  let id := u32 (id_ o + 1) in
  let id := if id =? 0 then u32 (id + 1) else id in
  (id, mk (trans_ o) (timeoutQueue_ o) id (msgs o) (finished o)).

(** [finishInvoke(ReqMessage* msg)]. *)
Definition finishInvoke_msg (p : pointer) (o : t) : outcome t :=
  i ← deref p;
  m ← message p o;
  match Request.type m with
  | Request.SYNC_CALL =>
      _ ← defined (Request.monitor m);
      Ok (finish (WokeCaller i) (set_msg i (Request.set_monitorFin true m) o))
  | Request.ASYNC_CALL => Ok (finish (PushedAsync i) o)
  | _ => Ok o
  end.

(** [finishInvoke(const std::string& response)]. *)
Definition finishInvoke (response : bytes) (o : t) : outcome t :=
  '(retErase, msg, q) ← TimeoutQueue.erase (Wire.response_id response) nullptr (timeoutQueue_ o);
  let o := set_queue q o in
  if negb retErase then Ok o
  else
    i ← deref msg;
    m ← message msg o;
    finishInvoke_msg msg (set_msg i (Request.set_response response m) o).

Section operations.
Context (log_sysfatal : outcome unit).

(** [push] and what follows when it fails. *)
Definition enqueue (i : nat) (id timeout : Z) (hasSend : bool) (o : t) : outcome t :=
  '(flag, q) ← TimeoutQueue.push (Some i) id timeout hasSend (timeoutQueue_ o);
  let o := set_queue q o in
  if negb flag then
    m ← message (Some i) o;
    finishInvoke_msg (Some i) (set_msg i (Request.set_status Request.REQ_EXC m) o)
  else Ok o.

(** [sendReqMessage]: [fd] is the descriptor a new connection gets, [r] the
    answer of the socket.  [requestId] is an [int], a parameter of [push] a
    [uint32_t]. *)
Definition sendReqMessage (p : pointer) (fd : Z) (r : Transceiver.send_result) (o : t)
    : outcome t :=
  let o := if negb (Transceiver.connected_ (trans_ o))
           then set_trans (Transceiver.connect fd (trans_ o)) o else o in
  i ← deref p;
  m ← message p o;
  let '(id, o) := generateId o in
  let requestId := i32 id in
  let reqData := Wire.frame (Wire.to_string requestId ++ Wire.colon :: Request.request m) in
  let o := set_msg i (Request.set_request (Request.request m) reqData requestId m) o in
  let timeout := 1000 + Request.beginTime m in
  if TimeoutQueue.sendListEmpty (timeoutQueue_ o) then
    '(ret, x) ← Transceiver.sendRequest log_sysfatal reqData r (trans_ o);
    enqueue i (u32 requestId) timeout (negb (ret =? Transceiver.retError)) (set_trans x o)
  else enqueue i (u32 requestId) timeout false o.

(** The [while] loop of [doInvoke]; nothing in it takes a request off the list,
    and [env] are the answers of the socket. *)
Fixpoint invoke_loop (env : list Transceiver.send_result) (o : t) : outcome t :=
  if negb (TimeoutQueue.sendListEmpty (timeoutQueue_ o)) then
    '(_, msg) ← TimeoutQueue.getSend nullptr (timeoutQueue_ o);
    m ← message msg o;
    match env with
    | [] => Spin
    | r :: env =>
        '(ret, x) ← Transceiver.sendRequest log_sysfatal (Request.reqData m) r (trans_ o);
        let o := set_trans x o in
        if ret =? Transceiver.retError then Ok o
        else if ret =? Transceiver.retFull then Ok o
        else invoke_loop env o
    end
  else Ok o.

Definition doInvoke (env : list Transceiver.send_result) (o : t) : outcome t :=
  if TimeoutQueue.sendListEmpty (timeoutQueue_ o) then Ok o else invoke_loop env o.

(** [Transceiver::doRequest]. *)
Definition doRequest (r : Transceiver.send_result) (env : list Transceiver.send_result) (o : t)
    : outcome (Z * t) :=
  '(ret, x) ← Transceiver.flush log_sysfatal r (trans_ o);
  let o := set_trans x o in
  match ret with
  | Some ret => Ok (ret, o)
  | None => o ← doInvoke env o; Ok (0, o)
  end.

(** [CommunicatorEpoll::handleInputImp] on the transceiver of [o]. *)
Fixpoint finish_all (done : list bytes) (o : t) : outcome t :=
  match done with
  | [] => Ok o
  | response :: done => o ← finishInvoke response o; finish_all done o
  end.

Definition handleInputImp (env : list Transceiver.readv_result) (o : t) : outcome t :=
  '(ret, done, x) ← Transceiver.doResponse env (trans_ o);
  let o := set_trans x o in
  if 0 <? ret then finish_all done o else Ok o.

End operations.

(** ** Lemmas *)

Definition next_id (o : t) : Z := fst (generateId o).

Lemma next_id_range o : 0 < next_id o < 2 ^ 32.
Proof.
  unfold next_id, generateId. cbn [fst]. pose proof (u32_range (id_ o + 1)).
  destruct (Z.eqb_spec (u32 (id_ o + 1)) 0) as [->|]; [done|lia].
Qed.

Lemma generateId_eq o :
  generateId o = (next_id o, mk (trans_ o) (timeoutQueue_ o) (next_id o) (msgs o) (finished o)).
Proof. done. Qed.

(** A response to request [id] with the given rest. *)
Definition response_to (id : Z) (body : bytes) : bytes :=
  Wire.to_string (i32 id) ++ Wire.colon :: body.

Lemma response_to_app id body more : response_to id body ++ more = response_to id (body ++ more).
Proof. unfold response_to. by rewrite <- app_assoc. Qed.

(** A request somebody waits for synchronously. *)
Definition waiting (o : t) (id : Z) (i : nat) (m : Request.ReqMessage) : Prop :=
  (∃ info, TimeoutQueue.data_ (timeoutQueue_ o) !! id = Some info ∧
           TimeoutQueue.ptr info = Some i) ∧
  msgs o !! i = Some m ∧ Request.type m = Request.SYNC_CALL ∧ Request.monitor m = true.

Definition answered (response : bytes) (m : Request.ReqMessage) : Request.ReqMessage :=
  Request.set_monitorFin true (Request.set_response response m).

Lemma finishInvoke_spec o id i m body :
  TimeoutQueue.wf (timeoutQueue_ o) → 0 ≤ id < 2 ^ 32 → waiting o id i m →
  finishInvoke (response_to id body) o =
  Ok (mk (trans_ o) (TimeoutQueue.remove id (timeoutQueue_ o)) (id_ o)
         (<[i := answered (response_to id body) m]> (msgs o)) (finished o ++ [WokeCaller i])).
Proof.
  intros Hwf Hid ((info & Hu & Hptr) & Hm & Hty & Hmon). unfold finishInvoke.
  assert (Wire.response_id (response_to id body) = id) as ->
    by (by apply Wire.response_id_to_string).
  rewrite (TimeoutQueue.erase_spec _ _ _ info Hwf Hu). cbn [mbind outcome_bind negb].
  rewrite Hptr. unfold message. cbn [mbind outcome_bind deref msgs set_queue]. rewrite Hm.
  cbn [mbind outcome_bind deref]. unfold finishInvoke_msg, message.
  cbn [mbind outcome_bind deref msgs set_queue set_msg]. rewrite lookup_insert_eq.
  cbn [mbind outcome_bind deref]. change (Request.type (Request.set_response _ m)) with (Request.type m).
  change (Request.monitor (Request.set_response _ m)) with (Request.monitor m).
  rewrite Hty, Hmon. cbn [defined mbind outcome_bind]. unfold finish, set_msg, set_queue.
  cbn [trans_ timeoutQueue_ id_ msgs finished]. by rewrite insert_insert_eq.
Qed.

(** The state in which the client talks to a server. *)
Record ready (o : t) : Prop := {
  ready_queue : TimeoutQueue.wf (timeoutQueue_ o);
  ready_trans : Transceiver.wf (trans_ o);
  ready_connected : Transceiver.connected_ (trans_ o) = true;
  ready_valid : Transceiver.valid (trans_ o);
  ready_sent : TimeoutQueue.send_ (timeoutQueue_ o) = [];
  ready_fresh : TimeoutQueue.data_ (timeoutQueue_ o) !! next_id o = None
}.

(** The bytes [sendReqMessage] makes of a request. *)
Definition request_bytes (o : t) (m : Request.ReqMessage) : bytes :=
  Wire.frame (Wire.request_payload (next_id o) (Request.request m)).

Definition filed (o : t) (i : nat) (m : Request.ReqMessage) (x : Transceiver.t) (sent : bool) : t :=
  mk x (TimeoutQueue.add (Some i) (next_id o) (1000 + Request.beginTime m) sent (timeoutQueue_ o))
     (next_id o)
     (<[i := Request.set_request (Request.request m) (request_bytes o m) (i32 (next_id o)) m]>
        (msgs o)) (finished o).

Lemma sendReqMessage_spec log o i m fd r ret x :
  ready o → msgs o !! i = Some m →
  Transceiver.sendRequest log (request_bytes o m) r (trans_ o) = Ok (ret, x) →
  sendReqMessage log (Some i) fd r o =
  Ok (filed o i m x (negb (ret =? Transceiver.retError))).
Proof.
  intros Hrd Hm Hs. pose proof (next_id_range o) as Hid.
  unfold sendReqMessage. rewrite (ready_connected _ Hrd). cbn [negb deref mbind outcome_bind].
  unfold message. cbn [deref mbind outcome_bind]. rewrite Hm. cbn [deref mbind outcome_bind].
  rewrite generateId_eq. cbv beta iota zeta. cbn [timeoutQueue_ set_msg trans_].
  fold (Wire.request_payload (next_id o) (Request.request m)). fold (request_bytes o m).
  unfold TimeoutQueue.sendListEmpty. rewrite (ready_sent _ Hrd), bool_decide_true by done.
  rewrite Hs. cbn [mbind outcome_bind]. unfold enqueue. cbn [set_trans timeoutQueue_].
  rewrite u32_i32, u32_small by lia. by rewrite TimeoutQueue.push_new by apply Hrd.
Qed.

(** *** A client whose socket takes every request whole

    [steady k o]: nothing is waiting to be written, and there are [k] ids left
    before the counter wraps. *)
Record steady (k : Z) (o : t) : Prop := {
  steady_queue : TimeoutQueue.wf (timeoutQueue_ o);
  steady_trans : Transceiver.wf (trans_ o);
  steady_pending : Transceiver.pending (trans_ o) [];
  steady_received : Transceiver.received (trans_ o) [];
  steady_valid : Transceiver.connected_ (trans_ o) = true → Transceiver.valid (trans_ o);
  steady_sent : TimeoutQueue.send_ (timeoutQueue_ o) = [];
  steady_id : 0 ≤ id_ o ∧ id_ o + k < 2 ^ 32;
  steady_known u info : TimeoutQueue.data_ (timeoutQueue_ o) !! u = Some info → 0 < u ≤ id_ o
}.

Lemma steady_weaken k k' o : k' ≤ k → steady k o → steady k' o.
Proof. intros ? Hs. destruct Hs as [? ? ? ? ? ? ? ?]. split; try done. lia. Qed.

Lemma new_steady garbage h k : 0 ≤ k < 2 ^ 32 → steady k (new garbage h).
Proof.
  intros ?. split; try done; [apply TimeoutQueue.new_wf|cbn; lia].
Qed.

Lemma steady_next k o : 1 ≤ k → steady k o → next_id o = id_ o + 1.
Proof.
  intros ? Hs. destruct (steady_id _ _ Hs). unfold next_id, generateId. cbn [fst].
  rewrite u32_small by lia. by rewrite (proj2 (Z.eqb_neq _ _)) by lia.
Qed.

(** The socket before the first byte of a request is written. *)
Definition online (fd : Z) (o : t) : t :=
  if negb (Transceiver.connected_ (trans_ o)) then set_trans (Transceiver.connect fd (trans_ o)) o
  else o.

Lemma online_ready k fd o : 1 ≤ k → fd ≠ -1 → steady k o →
  ready (online fd o) ∧ Transceiver.pending (trans_ (online fd o)) [] ∧
  Transceiver.received (trans_ (online fd o)) [].
Proof.
  intros Hk Hfd Hs. pose proof (steady_next k o Hk Hs) as Hn.
  assert (TimeoutQueue.data_ (timeoutQueue_ o) !! next_id o = None) as Hfresh.
  { rewrite Hn. apply eq_None_not_Some. intros [info Hi]. apply (steady_known _ _ Hs) in Hi. lia. }
  unfold online. destruct (Transceiver.connected_ (trans_ o)) eqn:Hc; cbn [negb].
  - split; [|split; apply Hs]. split; try apply Hs; done.
  - split; [|split; apply Hs]. split; try apply Hs; try done.
    { destruct (steady_trans _ _ Hs). by split. }
    unfold Transceiver.valid. cbn [trans_ set_trans Transceiver.connect Transceiver.fd_].
    by rewrite (proj2 (Z.eqb_neq _ _) Hfd).
Qed.

(** [o] after request [i], with contents [m], has been written. *)
Definition sent (fd : Z) (o : t) (i : nat) (m : Request.ReqMessage) : t :=
  filed (online fd o) i m
    (Transceiver.add_wire (request_bytes o m) (trans_ (online fd o))) true.

Lemma steady_send log k o i m fd n :
  steady (k + 1) o → 0 ≤ k → fd ≠ -1 → msgs o !! i = Some m →
  zlen (request_bytes o m) < 2 ^ 31 → (length (request_bytes o m) ≤ n)%nat →
  sendReqMessage log (Some i) fd (Transceiver.Room n) o = Ok (sent fd o i m) ∧
  steady k (sent fd o i m) ∧ id_ (sent fd o i m) = id_ o + 1.
Proof.
  intros Hs Hk Hfd Hm Hsz Hn.
  destruct (online_ready (k + 1) fd o) as (Hrd & Hp & Hr); [lia|done..|].
  pose proof (steady_next (k + 1) o ltac:(lia) Hs) as Hid. destruct (steady_id _ _ Hs).
  assert (next_id (online fd o) = next_id o ∧ request_bytes (online fd o) m = request_bytes o m ∧
    sendReqMessage log (Some i) fd (Transceiver.Room n) o =
    sendReqMessage log (Some i) fd (Transceiver.Room n) (online fd o)) as (Hni & Hrb & ->).
  { unfold online. destruct (Transceiver.connected_ (trans_ o)) eqn:Hc; [done|].
    split; [done|]. split; [done|]. unfold sendReqMessage. by rewrite Hc. }
  assert (msgs (online fd o) !! i = Some m) as Hm' by (unfold online; by case_match).
  pose proof (Transceiver.sendRequest_whole log (request_bytes o m) n (trans_ (online fd o))
    (ready_trans _ Hrd) Hp (ready_valid _ Hrd) Hsz Hn) as Hsend.
  rewrite <- Hrb in Hsend at 1.
  rewrite (sendReqMessage_spec log _ i m fd _ _ _ Hrd Hm' Hsend).
  rewrite (proj2 (Z.eqb_neq _ _)) by (unfold Transceiver.retError; lia). cbn [negb].
  split; [done|]. split; [|cbn [sent filed id_]; by rewrite Hni]. split; cbn [sent filed trans_ timeoutQueue_ id_].
  - apply TimeoutQueue.add_wf; apply Hrd.
  - destruct (ready_trans _ Hrd). by split.
  - done.
  - done.
  - intros _. apply Hrd.
  - cbn. apply Hrd.
  - rewrite Hni, Hid. lia.
  - intros u info. rewrite Hni, Hid. cbn [TimeoutQueue.add TimeoutQueue.data_].
    assert (timeoutQueue_ (online fd o) = timeoutQueue_ o) as -> by (unfold online; by case_match).
    intros [[<- _]|[_ Hu]]%lookup_insert_Some; [lia|]. apply (steady_known _ _ Hs) in Hu. lia.
Qed.

(** *** Responses *)

(** Request [id] is message [i], and it is a call of the two kinds that get an
    answer. *)
Definition outstanding (o : t) (id : Z) (i : nat) (m : Request.ReqMessage) : Prop :=
  (∃ info, TimeoutQueue.data_ (timeoutQueue_ o) !! id = Some info ∧
           TimeoutQueue.ptr info = Some i) ∧
  msgs o !! i = Some m ∧
  (Request.type m = Request.SYNC_CALL ∧ Request.monitor m = true ∨
   Request.type m = Request.ASYNC_CALL).

(** What a response makes of the message, and whom it concerns. *)
Definition completed (response : bytes) (m : Request.ReqMessage) : Request.ReqMessage :=
  match Request.type m with
  | Request.SYNC_CALL => answered response m
  | _ => Request.set_response response m
  end.

Definition completion_of (i : nat) (m : Request.ReqMessage) : completion :=
  match Request.type m with
  | Request.SYNC_CALL => WokeCaller i
  | _ => PushedAsync i
  end.

Lemma finishInvoke_outstanding o id i m body :
  TimeoutQueue.wf (timeoutQueue_ o) → 0 ≤ id < 2 ^ 32 → outstanding o id i m →
  finishInvoke (response_to id body) o =
  Ok (mk (trans_ o) (TimeoutQueue.remove id (timeoutQueue_ o)) (id_ o)
         (<[i := completed (response_to id body) m]> (msgs o))
         (finished o ++ [completion_of i m])).
Proof.
  intros Hwf Hid ((info & Hu & Hptr) & Hm & [[Hty Hmon]|Hty]);
    unfold completed, completion_of; rewrite Hty.
  { apply finishInvoke_spec; [done..|]. split; [by exists info|done]. }
  unfold finishInvoke.
  assert (Wire.response_id (response_to id body) = id) as ->
    by (by apply Wire.response_id_to_string).
  rewrite (TimeoutQueue.erase_spec _ _ _ info Hwf Hu). cbn [mbind outcome_bind negb].
  rewrite Hptr. unfold message. cbn [mbind outcome_bind deref msgs set_queue]. rewrite Hm.
  cbn [mbind outcome_bind deref]. unfold finishInvoke_msg, message.
  cbn [mbind outcome_bind deref msgs set_queue set_msg]. rewrite lookup_insert_eq.
  cbn [mbind outcome_bind deref]. change (Request.type (Request.set_response _ m)) with (Request.type m).
  by rewrite Hty.
Qed.

Lemma response_to_not_nil id body : response_to id body ≠ [].
Proof. unfold response_to. by destruct (Wire.to_string _). Qed.

(** A response that is read alone. *)
Lemma handleInputImp_one k o id i m body :
  steady k o → 0 ≤ k → outstanding o id i m → zlen (response_to id body) ≤ 2 ^ 61 →
  ∃ o', handleInputImp [Transceiver.Rdv (response_to id body)] o = Ok o' ∧ steady k o' ∧
    Transceiver.wire (trans_ o') = Transceiver.wire (trans_ o) ∧ id_ o' = id_ o ∧
    msgs o' = <[i := completed (response_to id body) m]> (msgs o) ∧
    finished o' = finished o ++ [completion_of i m] ∧
    (∀ u, u ≠ id → TimeoutQueue.data_ (timeoutQueue_ o') !! u =
                   TimeoutQueue.data_ (timeoutQueue_ o) !! u).
Proof.
  intros Hs Hk Hout Hl. pose proof Hout as ((info & Hu & _) & _).
  destruct (steady_known _ _ Hs _ _ Hu) as [Hpos Hle]. destruct (steady_id _ _ Hs) as [Hid0 Hid1].
  destruct (Transceiver.doResponse_spec [response_to id body] (trans_ o) [])
    as (x & Hd & Hwfx & Hrx & Hx); try apply Hs.
  { constructor; [apply response_to_not_nil|constructor]. }
  { cbn [concat app length]. rewrite app_nil_r. cbn. lia. }
  unfold handleInputImp. change [Transceiver.Rdv _] with (Transceiver.Rdv <$> [response_to id body]).
  rewrite Hd. cbn [app concat]. rewrite app_nil_r, decide_False by apply response_to_not_nil.
  cbn [mbind outcome_bind Z.ltb Z.compare finish_all].
  rewrite (finishInvoke_outstanding (set_trans x o) id i m body (steady_queue _ _ Hs) ltac:(lia) Hout).
  cbn [mbind outcome_bind]. eexists. split; [done|]. cbn. split_and!; try done.
  - destruct Hs. split; try done.
    + by apply TimeoutQueue.remove_wf.
    + cbn [trans_]. rewrite Hx. done.
    + cbn [trans_]. rewrite Hx. done.
    + cbn [timeoutQueue_ TimeoutQueue.remove TimeoutQueue.send_ set_trans].
      by rewrite steady_sent0.
    + cbn. intros u info' [_ Hu']%lookup_delete_Some. eauto.
  - by rewrite Hx.
  - intros u Hne. by rewrite lookup_delete_ne.
Qed.

(** ** Properties *)

(** A synchronous call on an idle connection: the request goes on the wire
    or into the send buffer whole, and a response with its id wakes that caller
    with that response and leaves the queue as it was before the call. *)
Theorem response_completes_request log o i m fd n body
    (Hrd : ready o) (Hm : msgs o !! i = Some m) (Hty : Request.type m = Request.SYNC_CALL)
    (Hmon : Request.monitor m = true) (Hidle : Transceiver.pending (trans_ o) [])
    (Hsz : zlen (request_bytes o m) < 2 ^ 31) :
  ∃ o1 o2 bs,
    sendReqMessage log (Some i) fd (Transceiver.Room n) o = Ok o1 ∧
    Transceiver.pending (trans_ o1) bs ∧
    Transceiver.wire (trans_ o1) ++ bs = Transceiver.wire (trans_ o) ++ request_bytes o m ∧
    finishInvoke (response_to (next_id o) body) o1 = Ok o2 ∧
    finished o2 = finished o ++ [WokeCaller i] ∧
    (∃ m', msgs o2 !! i = Some m' ∧ Request.monitorFin m' = true ∧
           Request.response m' = response_to (next_id o) body) ∧
    TimeoutQueue.wf (timeoutQueue_ o2) ∧
    TimeoutQueue.data_ (timeoutQueue_ o2) = TimeoutQueue.data_ (timeoutQueue_ o).
Proof.
  pose proof (next_id_range o) as Hid.
  destruct (Transceiver.sendRequest_spec log (request_bytes o m) (Transceiver.Room n) (trans_ o) [])
    as (ret & x & bs & Hs & Hwf & Hp & _ & Hw & Hret); try done; try apply Hrd.
  assert (ret ≠ Transceiver.retError) as Hne by (intros Heq; destruct (Hret Heq); done).
  rewrite app_nil_r, decide_False in Hw by done.
  eexists _, _, bs. split; [by apply (sendReqMessage_spec log o i m fd _ ret x)|].
  rewrite (proj2 (Z.eqb_neq _ _) Hne). cbn [negb].
  split; [exact Hp|]. split; [exact Hw|].
  assert (TimeoutQueue.wf (timeoutQueue_ (filed o i m x true))) as Hwfq
    by (apply TimeoutQueue.add_wf; apply Hrd).
  split.
  { eapply finishInvoke_spec; [done|lia|]. split; [|split].
    - eexists. cbn. rewrite lookup_insert_eq. done.
    - cbn. by rewrite lookup_insert_eq.
    - by split. }
  split; [done|]. split; [|split; [by apply TimeoutQueue.remove_wf|]].
  - cbn [msgs]. rewrite lookup_insert_eq. by eexists.
  - cbn. apply delete_insert_id, Hrd.
Qed.

(** A request made while an earlier one is not yet written whole is filed as
    unsent; as soon as the earlier one has been written, [doRequest] goes on to
    [doInvoke], and the client aborts in the assertion of [getSend]. *)
Theorem deferred_request_aborts log o i m fd r bs n env
    (Hrd : ready o) (Hm : msgs o !! i = Some m) (Hp : Transceiver.pending (trans_ o) bs)
    (Hbs : bs ≠ []) (Hn : (length bs ≤ n)%nat) :
  ∃ o1, sendReqMessage log (Some i) fd r o = Ok o1 ∧
        doRequest log (Transceiver.Room n) env o1 = Assert.
Proof.
  eexists. split.
  { eapply sendReqMessage_spec; [done|done|].
    apply (Transceiver.sendRequest_busy _ _ _ _ bs); [apply Hrd|done|done]. }
  unfold doRequest. cbn [filed trans_].
  destruct (Transceiver.flush_drains log n (trans_ o) bs) as (x & ->);
    try done; try apply Hrd.
  cbn [mbind outcome_bind]. unfold doInvoke.
  assert (∀ y, TimeoutQueue.sendListEmpty (timeoutQueue_ (set_trans y (filed o i m (trans_ o) false)))
               = false) as He by done.
  rewrite He. destruct env; cbn [invoke_loop]; rewrite He; cbn [negb];
    unfold filed, set_trans; cbn [timeoutQueue_];
    by rewrite TimeoutQueue.getSend_added by (done || apply Hrd).
Qed.

(** Of two responses that arrive together only the first finds its caller:
    the second is taken for a part of it, and its caller goes on waiting. *)
Theorem joined_responses_lose_one o id1 id2 i1 i2 m1 m2 body1 body2
    (Hwf : TimeoutQueue.wf (timeoutQueue_ o)) (Htr : Transceiver.wf (trans_ o))
    (Hrecv : Transceiver.received (trans_ o) [])
    (Hid1 : 0 ≤ id1 < 2 ^ 32) (H1 : waiting o id1 i1 m1) (H2 : waiting o id2 i2 m2)
    (Hid : id1 ≠ id2) (Hi : i1 ≠ i2)
    (Hl : zlen (response_to id1 body1) + zlen (response_to id2 body2) ≤ 2 ^ 61) :
  ∃ o', handleInputImp [Transceiver.Rdv (response_to id1 body1);
                        Transceiver.Rdv (response_to id2 body2)] o = Ok o' ∧
        finished o' = finished o ++ [WokeCaller i1] ∧ waiting o' id2 i2 m2.
Proof.
  destruct (Transceiver.doResponse_spec [response_to id1 body1; response_to id2 body2] (trans_ o) [])
    as (x & Hd & _ & _ & _); try done.
  { repeat constructor; unfold response_to; by destruct (Wire.to_string _). }
  { cbn [concat length]. rewrite !length_app. simpl. lia. }
  unfold handleInputImp. change [Transceiver.Rdv _; _] with
    (Transceiver.Rdv <$> [response_to id1 body1; response_to id2 body2]). rewrite Hd.
  cbn [app concat]. rewrite app_nil_r, decide_False.
  2: { unfold response_to. by destruct (Wire.to_string _). }
  cbn [mbind outcome_bind]. rewrite response_to_app. cbn [Z.ltb Z.compare finish_all].
  rewrite (finishInvoke_spec (set_trans x o) id1 i1 m1) by done.
  cbn [mbind outcome_bind]. eexists. split; [done|]. split; [done|].
  destruct H2 as ((info & Hu & Hptr) & Hm & Hrest). split; [|split; [|done]].
  - exists info. cbn. by rewrite lookup_delete_ne.
  - cbn. by rewrite lookup_insert_ne.
Qed.

(** ** Witnesses *)

Definition call : Request.ReqMessage :=
  Request.mk Request.REQ_REQ Request.SYNC_CALL false None ["h"%char; "i"%char] [] []
             true false false 0 1.

(** A connected client with two calls to make and [sb] to be written. *)
Definition sample (sb : Buffer.t) : t :=
  set_trans (Transceiver.set_sendBuffer sb (Transceiver.connect 5 Transceiver.new))
            (new 0 (<[1%nat := call]> {[2%nat := call]})).

Lemma sample_ready sb : Buffer.wf sb → ready (sample sb).
Proof.
  intros Hsb. split; [apply TimeoutQueue.new_wf| |done..].
  split; [done|apply Buffer.init_wf].
Qed.

Lemma response_completes_request_witness :
  ∃ o1 o2, sendReqMessage Assert (Some 1%nat) 5 (Transceiver.Room 3) (sample Buffer.init) = Ok o1 ∧
           finishInvoke (response_to 1 ["y"%char]) o1 = Ok o2 ∧ finished o2 = [WokeCaller 1].
Proof.
  destruct (response_completes_request Assert (sample Buffer.init) 1 call 5 3 ["y"%char])
    as (o1 & o2 & bs & H1 & _ & _ & H2 & H3 & _);
    [apply sample_ready, Buffer.init_wf|reflexivity|reflexivity|reflexivity|by_compute|by_compute|].
  exists o1, o2. split; [exact H1|]. split; [exact H2|exact H3].
Defined.

Definition one_byte : Buffer.t :=
  match Buffer.pushData (Some ["z"%char]) Buffer.init with Ok (_, b) => b | _ => Buffer.init end.

Lemma one_byte_wf : Buffer.wf one_byte.
Proof. split; by vm_compute. Qed.

Lemma deferred_request_aborts_witness :
  ∃ o1, sendReqMessage Assert (Some 1%nat) 5 (Transceiver.Room 0) (sample one_byte) = Ok o1 ∧
        doRequest Assert (Transceiver.Room 4) [] o1 = Assert.
Proof.
  apply (deferred_request_aborts Assert (sample one_byte) 1 call 5 (Transceiver.Room 0) ["z"%char] 4 []);
    [apply sample_ready, one_byte_wf|reflexivity|by_compute|discriminate|by_compute].
Defined.

Definition two_waiting : t :=
  let q := TimeoutQueue.new 0 in
  set_queue (TimeoutQueue.add (Some 2%nat) 2 1000 true (TimeoutQueue.add (Some 1%nat) 1 1000 true q))
            (sample Buffer.init).

Lemma two_waiting_ok :
  TimeoutQueue.wf (timeoutQueue_ two_waiting) ∧ Transceiver.wf (trans_ two_waiting) ∧
  waiting two_waiting 1 1 call ∧ waiting two_waiting 2 2 call.
Proof.
  split_and!.
  - apply TimeoutQueue.add_wf; [apply TimeoutQueue.add_wf; [apply TimeoutQueue.new_wf|done]|done].
  - apply (ready_trans _ (sample_ready _ Buffer.init_wf)).
  - split; [|split; [|split]]; [|reflexivity..].
    exists (TimeoutQueue.mk_info (Some 1%nat) true (Some 0%nat) None). split; reflexivity.
  - split; [|split; [|split]]; [|reflexivity..].
    exists (TimeoutQueue.mk_info (Some 2%nat) true (Some 2%nat) None). split; reflexivity.
Qed.

Lemma joined_responses_lose_one_witness :
  ∃ o', handleInputImp [Transceiver.Rdv (response_to 1 ["x"%char]);
                        Transceiver.Rdv (response_to 2 ["y"%char])] two_waiting = Ok o' ∧
        finished o' = [WokeCaller 1].
Proof.
  destruct two_waiting_ok as (Hq & Ht & H1 & H2).
  destruct (joined_responses_lose_one two_waiting 1 2 1 2 call call ["x"%char] ["y"%char]
              Hq Ht ltac:(reflexivity) ltac:(by_compute) H1 H2 ltac:(discriminate)
              ltac:(discriminate) ltac:(by_compute)) as (o' & Ho & Hf & _).
  exists o'. split; [exact Ho|exact Hf].
Defined.

End ObjectProxy.
