(* ===== verification/BindAdapter.v ===== *)
(** * BindAdapter: BindAdapter.h, BindAdapter.cc, and HandleGroup of Message.h

    The queue of requests between the network thread that reads them and the
    handler threads that serve them.  Adapters and groups are shared objects;
    they live in stores and are named by handles.  [handleGroup_] is a
    [weak_ptr]: [lock()] gives null when the group is gone. *)

From S2P Require Import Prelude Monitor ThreadDeque Message.

(** A [std::map] with string keys, in the order of its iteration. *)
Module StringMap.

Fixpoint str_ltb (a b : bytes) : bool :=
  match a, b with
  | [], _ :: _ => true
  | _, [] => false
  | x :: a, y :: b =>
      (N_of_ascii x <? N_of_ascii y)%N || (Ascii.eqb x y && str_ltb a b)
  end.

Definition t (V : Type) := list (bytes * V).

Fixpoint find {V} (k : bytes) (m : t V) : option V :=
  match m with
  | [] => None
  | (k', v) :: m => if bool_decide (k = k') then Some v else find k m
  end.

(** [m[k] = v]. *)
Fixpoint insert {V} (k : bytes) (v : V) (m : t V) : t V :=
  match m with
  | [] => [(k, v)]
  | (k', v') :: m =>
      if bool_decide (k = k') then (k, v) :: m
      else if str_ltb k k' then (k, v) :: (k', v') :: m
      else (k', v') :: insert k v m
  end.

Section lemmas.
Context {V : Type}.
Implicit Types (m : t V).

Lemma find_insert_eq k v m : find k (insert k v m) = Some v.
Proof.
  induction m as [|[k' v'] m IH]; simpl; [by rewrite bool_decide_true|].
  case_bool_decide as Hk; simpl; [by rewrite bool_decide_true|].
  destruct (str_ltb k k'); simpl; [by rewrite bool_decide_true|].
  by rewrite bool_decide_false.
Qed.

Lemma find_insert_ne k k0 v m : k0 ≠ k → find k0 (insert k v m) = find k0 m.
Proof.
  intros Hne. induction m as [|[k' v'] m IH]; simpl; [by rewrite bool_decide_false|].
  case_bool_decide as Hk; simpl.
  { subst k'. by rewrite !bool_decide_false. }
  destruct (str_ltb k k'); simpl; [by rewrite (bool_decide_false (k0 = k))|].
  case_bool_decide; [done|apply IH].
Qed.

Lemma elem_of_insert k v m x : x ∈ insert k v m → x = (k, v) ∨ x ∈ m.
Proof.
  induction m as [|[k' v'] m IH]; simpl; [set_solver|].
  case_bool_decide; [set_solver|]. destruct (str_ltb k k'); set_solver.
Qed.

Lemma find_elem k v m : find k m = Some v → (k, v) ∈ m.
Proof.
  induction m as [|[k' v'] m IH]; simpl; [done|].
  case_bool_decide as Hk; [intros [= ->]; subst; left|right; auto].
Qed.

End lemmas.
End StringMap.

Module HandleGroup.

Record t := mk {
  name : bytes;
  monitor : Monitor.t;
  handles : list nat;
  adapters : StringMap.t nat
}.

Definition set_monitor (m : Monitor.t) (g : t) : t := mk (name g) m (handles g) (adapters g).

(** [Lock lock(handleGroup->monitor); handleGroup->monitor.notify();]. *)
Definition notify_one (g : t) : outcome t :=
  m ← Monitor.notify (Monitor.lock (monitor g));
  Ok (set_monitor (Monitor.unlock m) g).

Lemma notify_one_spec g :
  ∃ g', notify_one g = Ok g' ∧ name g' = name g ∧ handles g' = handles g ∧
        adapters g' = adapters g ∧
        Monitor.calls (monitor g') =
          Monitor.calls (monitor g) ++ [Monitor.MutexLock; Monitor.CondSignal; Monitor.MutexUnlock].
Proof. eexists. split; [done|]. split_and!; try done. simpl. by rewrite <- !app_assoc. Qed.

End HandleGroup.

Module BindAdapter.

(** [utagRecvData]: a [std::unique_ptr]. *)
Abbreviation utagRecvData := (option RecvData.tagRecvData).

Record t := mk {
  fd_ : Z;
  host_ : bytes;
  port_ : Z;
  name_ : bytes;
  receiveBuffer_ : ThreadDeque.t utagRecvData;
  handleGroup_ : handle;
  handleGroupName_ : bytes;
  handleNum_ : Z;
  heartBeatTime_ : Z
}.

Definition new : t := mk (-1) [] 0 [] ThreadDeque.init None [] 0 0.

Definition set_name (name : bytes) (a : t) : t :=
  mk (fd_ a) (host_ a) (port_ a) name (receiveBuffer_ a) (handleGroup_ a) (handleGroupName_ a)
     (handleNum_ a) (heartBeatTime_ a).
Definition set_endpoint (host : bytes) (port : Z) (a : t) : t :=
  mk (fd_ a) host port (name_ a) (receiveBuffer_ a) (handleGroup_ a) (handleGroupName_ a)
     (handleNum_ a) (heartBeatTime_ a).
Definition set_heartBeatTime (time : Z) (a : t) : t :=
  mk (fd_ a) (host_ a) (port_ a) (name_ a) (receiveBuffer_ a) (handleGroup_ a)
     (handleGroupName_ a) (handleNum_ a) time.
Definition set_handleGroup (g : handle) (a : t) : t :=
  mk (fd_ a) (host_ a) (port_ a) (name_ a) (receiveBuffer_ a) g (handleGroupName_ a)
     (handleNum_ a) (heartBeatTime_ a).
Definition set_handleGroupName (name : bytes) (a : t) : t :=
  mk (fd_ a) (host_ a) (port_ a) (name_ a) (receiveBuffer_ a) (handleGroup_ a) name
     (handleNum_ a) (heartBeatTime_ a).
Definition set_handleNum (num : Z) (a : t) : t :=
  mk (fd_ a) (host_ a) (port_ a) (name_ a) (receiveBuffer_ a) (handleGroup_ a)
     (handleGroupName_ a) (u64 num) (heartBeatTime_ a).
Definition set_fd (fd : Z) (a : t) : t :=
  mk fd (host_ a) (port_ a) (name_ a) (receiveBuffer_ a) (handleGroup_ a) (handleGroupName_ a)
     (handleNum_ a) (heartBeatTime_ a).
Definition set_receiveBuffer (d : ThreadDeque.t utagRecvData) (a : t) : t :=
  mk (fd_ a) (host_ a) (port_ a) (name_ a) d (handleGroup_ a) (handleGroupName_ a)
     (handleNum_ a) (heartBeatTime_ a).

(** The groups that are alive. *)
Abbreviation groups := (gmap nat HandleGroup.t).

Definition lock_group (gs : groups) (g : handle) : option (nat * HandleGroup.t) :=
  n ← g; grp ← gs !! n; Some (n, grp).

(** [insertRecvDeque]: the caller's deque keeps its moved-from elements. *)
Definition insertRecvDeque (deque : list utagRecvData) (pushback : bool) (a : t) (gs : groups)
    : outcome (list utagRecvData * t * groups) :=
  '(deque, d) ← (if pushback then ThreadDeque.push_back_all deque (receiveBuffer_ a)
                 else ThreadDeque.push_front_all deque (receiveBuffer_ a));
  let a := set_receiveBuffer d a in
  match lock_group gs (handleGroup_ a) with
  | Some (n, g) => g ← HandleGroup.notify_one g; Ok (deque, a, <[n := g]> gs)
  | None => Ok (deque, a, gs)
  end.

(** [waitForRecvQueue]. *)
Definition waitForRecvQueue (wait_time : Z) (rc : bool)
    (others : ThreadDeque.t utagRecvData → ThreadDeque.t utagRecvData) (a : t)
    : outcome (utagRecvData * t) :=
  '(m, d) ← ThreadDeque.pop_front wait_time rc others (receiveBuffer_ a);
  Ok (m, set_receiveBuffer d a).

(** ** The queue as a list of messages *)

(** The messages that wait in [a], oldest first. *)
Definition waiting (a : t) (l : list utagRecvData) : Prop :=
  ThreadDeque.repr (receiveBuffer_ a) l.

(** Everything but the queue. *)
Definition same_but_queue (a a' : t) : Prop := a' = set_receiveBuffer (receiveBuffer_ a') a.

(** Notifying a group leaves its adapters. *)
Definition same_groups (gs gs' : groups) : Prop :=
  ∀ n : nat, HandleGroup.adapters <$> gs' !! n = HandleGroup.adapters <$> gs !! n.

Lemma insertRecvDeque_spec a gs l deque :
  waiting a l → zlen deque < 2 ^ 31 - 1 → zlen l + zlen deque < 2 ^ 64 →
  ∃ a' gs', insertRecvDeque deque true a gs = Ok (moved_from <$> deque, a', gs') ∧
    waiting a' (l ++ deque) ∧ same_but_queue a a' ∧ same_groups gs gs'.
Proof.
  intros Hw Hd Hl.
  destruct (ThreadDeque.push_back_loop_inside deque _ _ _ _
    (ThreadDeque.lock_inside _ l Hw)) as (d' & Hp & Hin); [lia|lia|].
  unfold insertRecvDeque, ThreadDeque.push_back_all. rewrite Hp. cbn [mbind outcome_bind].
  apply ThreadDeque.unlock_inside in Hin as [Hr _].
  destruct (lock_group _ _) as [[n g]|] eqn:Hg.
  - destruct (HandleGroup.notify_one_spec g) as (g' & -> & _ & _ & Had & _).
    eexists _, _. split; [done|]. split; [done|]. split; [done|].
    assert (gs !! n = Some g) as Hn.
    { unfold lock_group in Hg. destruct (handleGroup_ _) as [n'|]; [|done]. cbn in Hg.
      destruct (gs !! n') eqn:Hn'; [|done]. by injection Hg as -> ->. }
    intros n'. destruct (decide (n' = n)) as [->|Hne].
    + rewrite lookup_insert_eq, Hn. cbn. by rewrite Had.
    + by rewrite lookup_insert_ne.
  - by eexists _, _.
Qed.

Lemma waitForRecvQueue_spec a l :
  waiting a l →
  ∃ a', waitForRecvQueue 0 false id a = Ok (default None (head l), a') ∧
    waiting a' (tail l) ∧ same_but_queue a a'.
Proof.
  intros Hw. destruct (ThreadDeque.pop_front_spec _ l Hw) as (d' & Hp & Hr & _).
  unfold waitForRecvQueue. rewrite Hp. cbn [mbind outcome_bind].
  eexists. split; [done|]. done.
Qed.

End BindAdapter.
