(* ===== verification/ObjectProxyFactory.v ===== *)
(** * ObjectProxyFactory: ObjectProxyFactory.h, ObjectProxyFactory.cc

    One [ObjectProxy] per address.  The objects live in a store that all parts
    of the client share and are named by their position in it; a
    [shared_ptr<ObjectProxy>] is such a name. *)

From S2P Require Import Prelude Wire BindAdapter ObjectProxy.

(** An [ObjectProxy] with what its constructor stores: [communicatorEpoll_] is
    the number of a network thread, [host] and [port] are those of its
    [Transceiver]. *)
Module Object.

Record t := mk {
  communicatorEpoll_ : nat;
  host : bytes;
  port : Z;
  proxy : ObjectProxy.t
}.

Definition set_proxy (o : ObjectProxy.t) (x : t) : t :=
  mk (communicatorEpoll_ x) (host x) (port x) o.

End Object.

Module ObjectProxyFactory.

Record t := mk {
  communicatorEpoll_ : nat;
  objectProxys_ : StringMap.t nat;
  objectproxys_ : list nat;
  objectNum_ : Z
}.

Definition new (communicator : nat) : t := mk communicator [] [] 0.

(** [ip + ":" + std::to_string(port)]. *)
Definition tmpObjName (ip : bytes) (port : Z) : bytes :=
  ip ++ Wire.colon :: Wire.to_string port.

(** [get_objectProxy(ip, port)]; [garbage] is what the member of the new timeout
    queue that has no initial value happens to hold. *)
Definition get_objectProxy (ip : bytes) (port garbage : Z) (f : t) (objects : list Object.t)
    : nat * t * list Object.t :=
  match StringMap.find (tmpObjName ip port) (objectProxys_ f) with
  | Some object => (object, f, objects)
  | None =>
      let object := length objects in
      (object,
       mk (communicatorEpoll_ f) (StringMap.insert (tmpObjName ip port) object (objectProxys_ f))
          (objectproxys_ f ++ [object]) (u64 (objectNum_ f + 1)),
       objects ++ [Object.mk (communicatorEpoll_ f) ip port (ObjectProxy.new garbage ∅)])
  end.

Definition get_objNum (f : t) : Z := objectNum_ f.

(** [get_objectProxy(index)]. *)
Definition get_objectProxy_at (index : Z) (f : t) : outcome nat :=
  _ ← assert_ (index <? objectNum_ f);
  deref (objectproxys_ f !! Z.to_nat index).

(** ** One object per address *)

Abbreviation address := (bytes * Z)%type.

(** Requests for the objects of some addresses, one after the other. *)
Fixpoint get_all (calls : list address) (garbage : Z) (f : t) (objects : list Object.t)
    : list nat * t * list Object.t :=
  match calls with
  | [] => ([], f, objects)
  | (ip, port) :: calls =>
      let '(o, f, objects) := get_objectProxy ip port garbage f objects in
      let '(os, f, objects) := get_all calls garbage f objects in
      (o :: os, f, objects)
  end.

(** The position of the first [a] in [l]. *)
Fixpoint position (a : address) (l : list address) : option nat :=
  match l with
  | [] => None
  | b :: l => if bool_decide (a = b) then Some 0%nat else S <$> position a l
  end.

(** The same with a table of the addresses asked for so far, in the order in
    which they came up first. *)
Fixpoint intern_all (calls : list address) (table : list address) : list nat * list address :=
  match calls with
  | [] => ([], table)
  | a :: calls =>
      match position a table with
      | Some i => let '(os, table) := intern_all calls table in (i :: os, table)
      | None => let '(os, t') := intern_all calls (table ++ [a]) in (length table :: os, t')
      end
  end.

Definition port_ok (a : address) : Prop := 0 ≤ a.2 < 2 ^ 16.

Lemma tmpObjName_inj a b :
  port_ok a → port_ok b → tmpObjName a.1 a.2 = tmpObjName b.1 b.2 → a = b.
Proof.
  destruct a as [ip port], b as [ip' port']. unfold port_ok, tmpObjName. cbn. intros Ha Hb Heq.
  assert (∀ ip port, Wire.before_colon (reverse (ip ++ Wire.colon :: Wire.to_string port)) =
    reverse (Wire.to_string port)) as Hport.
  { intros i p. rewrite reverse_app, reverse_cons, <- app_assoc. cbn [app].
    apply Wire.before_colon_app. rewrite reverse_Permutation. apply Wire.to_string_no_colon. }
  assert (Wire.to_string port = Wire.to_string port') as Hp.
  { apply (inj reverse). by rewrite <- (Hport ip), <- (Hport ip'), Heq. }
  assert (port = port') as -> by
    (rewrite <- (Wire.atoi_to_string port), <- (Wire.atoi_to_string port'), Hp by lia; done).
  apply (inj (.++ Wire.colon :: Wire.to_string port')) in Heq. by subst.
Qed.

(** The factory has made an object for each address of [table], at the end of
    the [k] objects that were there before. *)
Record represents (k : nat) (f : t) (objects : list Object.t) (table : list address) : Prop := {
  rep_find a : port_ok a → StringMap.find (tmpObjName a.1 a.2) (objectProxys_ f) =
                           (λ i, k + i)%nat <$> position a table;
  rep_ports : Forall port_ok table;
  rep_list : objectproxys_ f = seq k (length table);
  rep_num : objectNum_ f = u64 (zlen table);
  rep_objects : (λ o, (Object.host o, Object.port o)) <$> drop k objects = table;
  rep_length : (k ≤ length objects)%nat
}.

Lemma position_app a b table :
  position a (table ++ [b]) =
  match position a table with
  | Some i => Some i
  | None => if bool_decide (a = b) then Some (length table) else None
  end.
Proof.
  induction table as [|c table IH]; cbn; [by case_bool_decide|].
  destruct (bool_decide (a = c)); [done|]. rewrite IH. destruct (position a table); [done|].
  by case_bool_decide.
Qed.

Lemma rep_length_table k f objects table :
  represents k f objects table → length objects = (k + length table)%nat.
Proof.
  intros Hr. rewrite <- (rep_objects _ _ _ _ Hr), length_fmap, length_drop.
  pose proof (rep_length _ _ _ _ Hr). lia.
Qed.

Lemma represents_add k f objects table a garbage :
  represents k f objects table → port_ok a → position a table = None →
  get_objectProxy a.1 a.2 garbage f objects =
    (length objects,
     mk (communicatorEpoll_ f)
        (StringMap.insert (tmpObjName a.1 a.2) (length objects) (objectProxys_ f))
        (objectproxys_ f ++ [length objects]) (u64 (objectNum_ f + 1)),
     objects ++ [Object.mk (communicatorEpoll_ f) a.1 a.2 (ObjectProxy.new garbage ∅)]) ∧
  represents k (get_objectProxy a.1 a.2 garbage f objects).1.2
    (get_objectProxy a.1 a.2 garbage f objects).2 (table ++ [a]).
Proof.
  intros Hr Ha Hp. pose proof (rep_length_table _ _ _ _ Hr) as Hlen.
  match goal with |- ?A ∧ _ => assert A as Heq end.
  { unfold get_objectProxy. rewrite (rep_find _ _ _ _ Hr), Hp by done. cbn. done. }
  split; [exact Heq|]. rewrite Heq. split; cbn.
  - intros b Hb. rewrite position_app. destruct (decide (b = a)) as [->|Hne].
    + rewrite Hp, StringMap.find_insert_eq, bool_decide_true by done. cbn. by rewrite Hlen.
    + rewrite StringMap.find_insert_ne, (rep_find _ _ _ _ Hr) by
        (done || intros ?; by apply Hne, tmpObjName_inj).
      by rewrite bool_decide_false by done; destruct (position b table).
  - apply Forall_app. split; [apply Hr|by constructor].
  - by rewrite (rep_list _ _ _ _ Hr), length_app, seq_app, Hlen.
  - rewrite (rep_num _ _ _ _ Hr), length_app. cbn. word.
  - rewrite drop_app_le by apply Hr. rewrite fmap_app, (rep_objects _ _ _ _ Hr). cbn.
    by destruct a.
  - rewrite length_app. pose proof (rep_length _ _ _ _ Hr). lia.
Qed.

Lemma get_all_intern k garbage calls : ∀ f objects table,
  represents k f objects table → Forall port_ok calls →
  ∃ f' objects', get_all calls garbage f objects =
      ((λ i, k + i)%nat <$> (intern_all calls table).1, f', objects') ∧
    represents k f' objects' (intern_all calls table).2.
Proof.
  induction calls as [|a calls IH]; intros f objects table Hr Hc; [by eexists _, _|].
  apply Forall_cons in Hc as [Ha Hc]. destruct a as [ip port] eqn:Hab. rewrite <- Hab in Ha.
  cbn [get_all intern_all]. destruct (position (ip, port) table) as [i|] eqn:Hp.
  - assert (get_objectProxy ip port garbage f objects = ((k + i)%nat, f, objects)) as ->.
    { unfold get_objectProxy. pose proof (rep_find _ _ _ _ Hr a Ha) as Hf.
      rewrite Hab, Hp in Hf. cbn [fst snd] in Hf. by rewrite Hf. }
    destruct (IH f objects table Hr Hc) as (f' & objects' & -> & Hr').
    destruct (intern_all calls table) as [os t']. by eexists _, _.
  - destruct (represents_add k f objects table a garbage Hr Ha) as [Heq Hr1]; [by rewrite Hab|].
    rewrite Heq in Hr1. rewrite Hab in Heq, Hr1. cbn [fst snd] in Heq, Hr1. rewrite Heq.
    destruct (IH _ _ _ Hr1 Hc) as (f' & objects' & -> & Hr').
    destruct (intern_all calls (table ++ [(ip, port)])) as [os t'].
    rewrite (rep_length_table _ _ _ _ Hr). by eexists _, _.
Qed.

(** *** The reference gives equal names to equal addresses and to no others *)

Lemma position_lookup a table i : position a table = Some i → table !! i = Some a.
Proof.
  revert i. induction table as [|b table IH]; intros i; [done|]. cbn.
  case_bool_decide; [intros [= <-]; by subst|].
  destruct (position a table) as [j|]; [|done]. intros [= <-]. by apply IH.
Qed.

Lemma position_None a table : position a table = None → a ∉ table.
Proof.
  induction table as [|b table IH]; cbn; [set_solver|]. case_bool_decide; [done|].
  destruct (position a table); [done|]. intros _. set_solver.
Qed.

Lemma intern_all_NoDup calls : ∀ table,
  NoDup table → NoDup (intern_all calls table).2 ∧
  (length (intern_all calls table).2 ≤ length table + length calls)%nat.
Proof.
  induction calls as [|a calls IH]; intros table Hnd; cbn; [split; [done|lia]|].
  destruct (position a table) as [i|] eqn:Hp.
  - specialize (IH table Hnd). destruct (intern_all calls table). cbn in *. split; [tauto|lia].
  - destruct (IH (table ++ [a])) as [? Hl].
    { apply NoDup_app. split; [done|]. split; [|apply NoDup_singleton].
      intros x Hx ->%list_elem_of_singleton. by apply position_None in Hp. }
    destruct (intern_all calls (table ++ [a])). cbn in *. rewrite length_app in Hl. cbn in Hl.
    split; [done|lia].
Qed.

Lemma intern_all_lookup calls : ∀ table,
  (∃ more, (intern_all calls table).2 = table ++ more) ∧
  Forall2 (λ a i, (intern_all calls table).2 !! i = Some a) calls (intern_all calls table).1.
Proof.
  induction calls as [|a calls IH]; intros table; cbn.
  { split; [exists []; by rewrite app_nil_r|constructor]. }
  destruct (position a table) as [i|] eqn:Hp.
  - destruct (IH table) as [(more & Hm) Hf]. destruct (intern_all calls table) as [os t'].
    cbn in *. subst t'. split; [by exists more|]. constructor; [|done].
    apply lookup_app_l_Some. by apply position_lookup.
  - destruct (IH (table ++ [a])) as [(more & Hm) Hf].
    destruct (intern_all calls (table ++ [a])) as [os t']. cbn in *. subst t'.
    split; [exists (a :: more); by rewrite <- app_assoc|]. constructor; [|done].
    rewrite <- app_assoc, lookup_app_r by lia. by rewrite Nat.sub_diag.
Qed.

(** ** Properties *)

(** C27: whatever addresses are asked for, in whatever order, the factory gives
    the objects that a table of addresses gives: the first request for an address
    makes an object with that host and port, every later one returns the same
    object, different addresses never share one, and [get_objectProxy(index)]
    returns them in the order of their making, failing its assertion beyond. *)
Theorem factory_interns_addresses (epoll : nat) (objects : list Object.t) (calls : list address)
    (garbage : Z) (Hports : Forall port_ok calls) (Hlen : zlen calls < 2 ^ 32) :
  ∃ os f objects', get_all calls garbage (new epoll) objects = (os, f, objects') ∧
    os = (λ i, length objects + i)%nat <$> (intern_all calls []).1 ∧
    (∀ i j a b o o', calls !! i = Some a → calls !! j = Some b →
       os !! i = Some o → os !! j = Some o' → (o = o' ↔ a = b)) ∧
    (∀ i a o, calls !! i = Some a → os !! i = Some o →
       ∃ x, objects' !! o = Some x ∧ (Object.host x, Object.port x) = a) ∧
    (∀ i, 0 ≤ i → get_objectProxy_at i f =
       if i <? zlen (intern_all calls []).2 then Ok (length objects + Z.to_nat i)%nat else Assert).
Proof.
  assert (represents (length objects) (new epoll) objects []) as Hr.
  { split; cbn; try done. by rewrite drop_all. }
  destruct (get_all_intern _ garbage calls _ _ _ Hr Hports) as (f & objects' & Hg & Hr').
  destruct (intern_all_lookup calls []) as [_ Hf].
  destruct (intern_all_NoDup calls []) as [Hnd Hle]; [constructor|].
  set (os := (intern_all calls []).1) in *. set (table := (intern_all calls []).2) in *.
  assert (∀ i a o, calls !! i = Some a → ((λ i, length objects + i)%nat <$> os) !! i = Some o →
    ∃ k, o = (length objects + k)%nat ∧ table !! k = Some a) as Hlook.
  { intros i a o Ha Ho. apply list_lookup_fmap_Some in Ho as (k & -> & Hk).
    exists k. split; [done|]. by apply (Forall2_lookup_lr _ _ _ _ _ _ Hf Ha Hk). }
  eexists _, f, objects'. split; [exact Hg|]. split; [done|]. split; [|split].
  - intros i j a b o o' Ha Hb Ho Ho'.
    destruct (Hlook i a o Ha Ho) as (k & -> & Hk), (Hlook j b o' Hb Ho') as (k' & -> & Hk').
    split; [intros ?; assert (k = k') as -> by lia; congruence|intros ->].
    by rewrite (NoDup_lookup _ _ _ _ Hnd Hk Hk').
  - intros i a o Ha Ho. destruct (Hlook i a o Ha Ho) as (k & -> & Hk).
    rewrite <- (rep_objects _ _ _ _ Hr') in Hk. apply list_lookup_fmap_Some in Hk as (x & -> & Hx).
    rewrite lookup_drop in Hx. by exists x.
  - intros i Hi. unfold get_objectProxy_at. rewrite (rep_num _ _ _ _ Hr').
    fold table. cbn in Hle. rewrite u64_small by lia. destruct (Z.ltb_spec i (zlen table)); [|done].
    cbn. rewrite (rep_list _ _ _ _ Hr'). fold table. by rewrite lookup_seq_lt by lia.
Qed.

(** ** Witness *)

Lemma factory_interns_addresses_witness :
  let a := (["h"%char], 80) in let b := (["h"%char], 81) in
  ∃ f objects', get_all [a; b; a] 0 (new 0) [] = ([0; 1; 0]%nat, f, objects').
Proof.
  intros a b. destruct (factory_interns_addresses 0 [] [a; b; a] 0) as (os & f & o & Hg & Hos & _).
  - repeat constructor; cbn; lia.
  - cbn. lia.
  - exists f, o. rewrite Hg, Hos. reflexivity.
Defined.

End ObjectProxyFactory.
