(* ===== verification/ThreadData.v ===== *)
(** * ThreadData: ServantProxyThreadData of ServantProxy.h, ServantProxy.cc

    What a thread that calls servants keeps for itself: its queues to the
    network threads and the turn it has reached.  The objects are found through
    a pthread key; threads are numbers, and the answers of the pthread
    functions are arguments. *)

From S2P Require Import Prelude Monitor Message.

Module ServantProxyThreadData.

(** [reqQueue_] holds pointers to queues, [None] where nothing was stored yet;
    [objectProxy_], a pointer to the vector of some [ServantProxy], is never read
    and stands for the number of objects in it. *)
Record data := mk {
  reqQueue_ : list handle;
  queueInit_ : bool;
  reqQNo_ : Z;
  netSeq_ : Z;
  netThreadSeq_ : Z;
  objectProxyNum_ : Z;
  objectProxy_ : option nat
}.

Definition new : data := mk (replicate 64 None) false 0 0 (-1) 0 None.

Definition set_netThreadSeq (n : Z) (d : data) : data :=
  mk (reqQueue_ d) (queueInit_ d) (reqQNo_ d) (netSeq_ d) n (objectProxyNum_ d) (objectProxy_ d).
Definition set_netSeq (n : Z) (d : data) : data :=
  mk (reqQueue_ d) (queueInit_ d) (reqQNo_ d) n (netThreadSeq_ d) (objectProxyNum_ d)
     (objectProxy_ d).

(** The static members, with what pthread keeps: [specific] has the values set
    for a key and a thread, [datas] the objects made and not deleted. *)
Record t := mk_tls {
  mutex_ : Monitor.t;
  key_ : Z;
  specific : gmap (Z * nat) nat;
  datas : gmap nat data;
  next : nat
}.

Definition init : t := mk_tls Monitor.init 0 ∅ ∅ 0.

Definition lock (s : t) : t :=
  mk_tls (Monitor.lock (mutex_ s)) (key_ s) (specific s) (datas s) (next s).
Definition unlock (s : t) : t :=
  mk_tls (Monitor.unlock (mutex_ s)) (key_ s) (specific s) (datas s) (next s).

Definition set_data (p : nat) (d : data) (s : t) : t :=
  mk_tls (mutex_ s) (key_ s) (specific s) (<[p := d]> (datas s)) (next s).

(** The first part of [get_data]: the key, [created] being what
    [pthread_key_create] makes of it, [None] when it fails. *)
Definition get_key (created : option Z) (s : t) : bool * t :=
  if key_ s =? 0 then
    let s := lock s in
    match created with
    | None => (false, unlock s)
    | Some k => (true, unlock (mk_tls (mutex_ s) k (specific s) (datas s) (next s)))
    end
  else (true, s).

(** [get_data] in thread [self]; [ret] is the result of [pthread_setspecific]. *)
Definition get_data (created : option Z) (ret : Z) (self : nat) (s : t)
    : outcome (option nat * t) :=
  let '(ok, s) := get_key created s in
  if negb ok then Ok (None, s)
  else
    match specific s !! (key_ s, self) with
    | Some p => Ok (Some p, s)
    | None =>
        let s := lock s in
        let p := next s in
        _ ← assert_ (ret =? 0);
        Ok (Some p, unlock (mk_tls (mutex_ s) (key_ s) (<[(key_ s, self) := p]> (specific s))
                              (<[p := new]> (datas s)) (S p)))
    end.

(** [destructor]; the queues of the object are not deleted with it. *)
Definition destructor (p : option nat) (s : t) : outcome t :=
  match p with
  | None => Ok s
  | Some p =>
      _ ← deref (datas s !! p);
      Ok (mk_tls (mutex_ s) (key_ s) (specific s) (delete p (datas s)) (next s))
  end.

(** ** Every thread has an object of its own *)

Record wf (s : t) : Prop := {
  wf_specific k i p : specific s !! (k, i) = Some p → (p < next s)%nat;
  wf_inj k i j p : specific s !! (k, i) = Some p → specific s !! (k, j) = Some p → i = j
}.

Lemma no_data_wf : wf init.
Proof. split; intros; set_solver. Qed.

Lemma get_key_spec created s :
  key_ s ≠ 0 ∨ (∃ k, created = Some k ∧ k ≠ 0) → wf s →
  (∀ k, created = Some k → ∀ i, specific s !! (k, i) = None) →
  ∃ s', get_key created s = (true, s') ∧ key_ s' ≠ 0 ∧ wf s' ∧
    specific s' = specific s ∧ datas s' = datas s ∧ next s' = next s ∧
    (key_ s ≠ 0 → s' = s).
Proof.
  intros Hk Hwf Hfresh. unfold get_key. destruct (Z.eqb_spec (key_ s) 0) as [H0|H0].
  - destruct Hk as [?|(k & -> & Hk)]; [done|]. eexists. split; [done|]. cbn. split; [done|].
    split; [|done]. split; cbn; apply Hwf.
  - exists s. done.
Qed.

(** Once the key has been made, each thread has one object: [get_data] makes
    it at a thread's first call, fresh, and returns the same one at every later
    call, and two threads never share one.  This needs a key other than 0, which
    the code takes for "not made yet". *)
Theorem get_data_per_thread created ret i j s
    (Hwf : wf s) (Hk : key_ s ≠ 0 ∨ ∃ k, created = Some k ∧ k ≠ 0)
    (Hfresh : ∀ k, created = Some k → ∀ i, specific s !! (k, i) = None) (Hret : ret = 0) :
  ∃ p s1, get_data created ret i s = Ok (Some p, s1) ∧ wf s1 ∧
    (specific s !! (key_ s, i) = None → datas s1 !! p = Some new) ∧
    (∀ d, datas s !! p = Some d → (p < next s)%nat → datas s1 !! p = Some d) ∧
    (∀ created' ret', get_data created' ret' i s1 = Ok (Some p, s1)) ∧
    (i ≠ j → ∃ p' s2, (∀ created', get_data created' ret j s1 = Ok (Some p', s2)) ∧ p' ≠ p).
Proof.
  destruct (get_key_spec created s Hk Hwf Hfresh) as (s0 & Hg & Hk0 & Hwf0 & Hsp & Hda & Hne & Hid).
  assert (∀ c s', key_ s' ≠ 0 → get_key c s' = (true, s')) as Hkey.
  { intros c s' Hs'. unfold get_key. by rewrite (proj2 (Z.eqb_neq _ _) Hs'). }
  assert (∃ p s1, get_data created ret i s = Ok (Some p, s1) ∧ wf s1 ∧ key_ s1 = key_ s0 ∧
    specific s1 !! (key_ s1, i) = Some p ∧
    (specific s !! (key_ s, i) = None → datas s1 !! p = Some new) ∧
    (∀ d, datas s !! p = Some d → (p < next s)%nat → datas s1 !! p = Some d))
    as (p & s1 & H1 & Hwf1 & Hk1 & Hp & Hnew & Hold).
  { unfold get_data. rewrite Hg. cbn [negb]. destruct (specific s0 !! (key_ s0, i)) as [p|] eqn:Hp.
    - exists p, s0. do 4 (split; [done|]). split; [|by rewrite Hda]. intros Hno.
      destruct (decide (key_ s = 0)) as [H0|H0]; [|rewrite (Hid H0) in Hp; congruence].
      destruct Hk as [?|(k & -> & ?)]; [done|]. unfold get_key in Hg. rewrite H0 in Hg. cbn in Hg.
      injection Hg as <-. cbn in Hp. by rewrite (Hfresh k eq_refl i) in Hp.
    - subst ret. cbn. eexists _, _. split; [done|]. split; [|cbn; split; [done|]].
      + split; cbn.
        * intros k x q. destruct (decide ((k, x) = (key_ s0, i))) as [[= -> ->]|Hn].
          { rewrite lookup_insert_eq. intros [= <-]. lia. }
          rewrite lookup_insert_ne by congruence. intros Hq. apply (wf_specific _ Hwf0) in Hq. lia.
        * intros k x y q. rewrite !lookup_insert_Some.
          intros [[[= <- <-] <-]|[Hn Hx]] [[[= ?] Hq]|[Hn' Hy]]; subst; try done.
          -- apply (wf_specific _ Hwf0) in Hy. lia.
          -- apply (wf_specific _ Hwf0) in Hx. lia.
          -- by apply (wf_inj _ Hwf0 k x y q).
      + rewrite lookup_insert_eq. split; [done|]. rewrite lookup_insert_eq. split; [done|].
        intros d _ Hlt. lia. }
  assert (key_ s1 ≠ 0) as Hk1' by congruence.
  exists p, s1. do 4 (split; [done|]). split.
  { intros c r. unfold get_data. rewrite (Hkey c s1 Hk1'). cbn [negb]. by rewrite Hp. }
  intros Hij. unfold get_data.
  destruct (specific s1 !! (key_ s1, j)) as [p'|] eqn:Hp'.
  - exists p', s1. split; [intros c; rewrite (Hkey c s1 Hk1'); cbn [negb]; by rewrite Hp'|].
    intros ->. by apply Hij, (wf_inj _ Hwf1 (key_ s1) i j p).
  - subst ret. eexists (next s1), _. split.
    { intros c. rewrite (Hkey c s1 Hk1'). cbn [negb]. rewrite Hp'. cbn. done. }
    apply (wf_specific _ Hwf1) in Hp. lia.
Qed.

(** Thread [self] has no object yet; when the system makes a key other than 0,
    should it be asked, the next call gives it one. *)
Definition first_use (self : nat) (s : t) : Prop :=
  ∀ created, (key_ s ≠ 0 ∨ ∃ k, created = Some k ∧ k ≠ 0) →
  ∃ p s', get_data created 0 self s = Ok (Some p, s') ∧ datas s' !! p = Some new.

Lemma init_first_use self : first_use self init.
Proof.
  intros created [?|(k & -> & Hk)]; [done|]. unfold get_data, get_key. cbn.
  eexists _, _. split; [done|]. apply lookup_insert_eq.
Qed.

(** With a key 0 every call makes another key, and the thread loses its object. *)
Lemma zero_key_loses_data k i s :
  key_ s = 0 → k ≠ 0 → specific s = ∅ →
  ∃ s1 p s2, get_data (Some 0) 0 i s = Ok (Some (next s), s1) ∧
    get_data (Some k) 0 i s1 = Ok (Some p, s2) ∧ p ≠ next s.
Proof.
  intros H0 Hk Hs. unfold get_data, get_key. rewrite H0. cbn. rewrite Hs, lookup_empty. cbn.
  eexists _, _, _. split; [done|]. cbn. rewrite lookup_insert_ne, lookup_empty by congruence. cbn.
  split; [done|]. lia.
Qed.

Lemma get_data_per_thread_witness :
  ∃ p s1 p' s2, get_data (Some 1) 0 7 init = Ok (Some p, s1) ∧
    (∀ created', get_data created' 0 8 s1 = Ok (Some p', s2)) ∧ p' ≠ p.
Proof.
  destruct (get_data_per_thread (Some 1) 0 7 8 init) as (p & s1 & H1 & _ & _ & _ & _ & H2).
  - apply no_data_wf.
  - right. by exists 1.
  - intros k Hk i. reflexivity.
  - reflexivity.
  - destruct H2 as (p' & s2 & H2 & Hne); [lia|]. exists p, s1, p', s2. split; [exact H1|].
    split; [exact H2|exact Hne].
Defined.

End ServantProxyThreadData.
