(* ===== verification/Epoller.v ===== *)
(** * Epoller: Epoller.h, Epoller.cc

    The calls made to [epoll_ctl]; what [epoll_wait] answers is an argument of
    the loops that use it. *)

From S2P Require Import Prelude.

Module Epoller.

Inductive ctl_op : Set := EPOLL_CTL_ADD | EPOLL_CTL_MOD | EPOLL_CTL_DEL.

Definition EPOLLIN : Z := 1.
Definition EPOLLOUT : Z := 4.
Definition EPOLLERR : Z := 8.
Definition EPOLLHUP : Z := 16.
Definition EPOLLET : Z := 2 ^ 31.

(** [events & mask] as a condition. *)
Definition has (events mask : Z) : bool := negb (Z.land events mask =? 0).

(** An [epoll_event]: [data.u64] and [events]. *)
Record epoll_event := mk_event { data : Z; events : Z }.

Record call := mk_call { op : ctl_op; call_fd : Z; call_event : epoll_event }.

Record t := mk { et_ : bool; maxConnections_ : Z; events_ : Z; calls : list call }.

Definition new (et : bool) : t := mk et 1024 0 [].

(** [events_] is represented by its size. *)
Definition create (maxConnections : Z) (e : t) : t :=
  mk (et_ e) maxConnections (maxConnections + 1) (calls e).

Definition ctrl (op : ctl_op) (fd data event : Z) (e : t) : t :=
  mk (et_ e) (maxConnections_ e) (events_ e)
     (calls e ++ [mk_call op fd (mk_event (u64 data)
                                   (if et_ e then Z.lor event EPOLLET else event))]).

Definition add (fd data event : Z) (e : t) : t := ctrl EPOLL_CTL_ADD fd data event e.
Definition mod_ (fd data event : Z) (e : t) : t := ctrl EPOLL_CTL_MOD fd data event e.
Definition del (fd data event : Z) (e : t) : t := ctrl EPOLL_CTL_DEL fd data event e.

(** [wait]: what [epoll_wait] returns; it was given room for [maxConnections_ + 1]
    events and has stored [reported] in [events_]. *)
Definition wait (ret : Z) (reported : list epoll_event) (e : t) : outcome Z :=
  _ ← defined (bool_decide (zlen reported ≤ events_ e));
  Ok ret.

(** [get(i)]: the [i]-th of the events that [wait] reported. *)
Definition get (i : Z) (reported : list epoll_event) (e : t) : outcome epoll_event :=
  _ ← assert_ (0 <? events_ e);
  _ ← defined (bool_decide (0 ≤ i < events_ e));
  deref (reported !! Z.to_nat i).

(** The destructor: the descriptor that is closed. *)
Definition destroy (epollfd_ : Z) : option Z := if 0 <? epollfd_ then Some epollfd_ else None.

(** *** The events of a wait can be read *)

(** Once the instance has been created, what [epoll_wait] may report, no more than
    it was given room for, fits, and the loops over it read just these events. *)
Theorem reported_events_read reported e
    (He : events_ e = maxConnections_ e + 1) (Hr : zlen reported ≤ maxConnections_ e + 1) :
  wait (zlen reported) reported e = Ok (zlen reported) ∧
  ∀ i ev, reported !! i = Some ev → get (Z.of_nat i) reported e = Ok ev.
Proof.
  unfold wait, get. rewrite He, bool_decide_true by lia. split; [done|]. intros i ev Hi.
  pose proof (lookup_lt_Some _ _ _ Hi) as Hlt.
  rewrite (proj2 (Z.ltb_lt _ _)) by lia. cbn [assert_ mbind outcome_bind].
  rewrite bool_decide_true by lia. cbn [defined mbind outcome_bind]. by rewrite Nat2Z.id, Hi.
Qed.

(** Before [create] there is no room at all. *)
Theorem wait_before_create et reported (Hr : reported ≠ []) : wait (zlen reported) reported (new et) = Undef.
Proof. unfold wait. rewrite bool_decide_false; [done|]. destruct reported; [done|cbn; lia]. Qed.

Example a_wait :
  wait 1 [mk_event 5 EPOLLIN] (create 256 (new true)) = Ok 1 ∧
  get 0 [mk_event 5 EPOLLIN] (create 256 (new true)) = Ok (mk_event 5 EPOLLIN).
Proof. split; reflexivity. Qed.

End Epoller.
