(* ===== verification/CommunicatorEpoll.v ===== *)
(** * CommunicatorEpoll: CommunicatorEpoll.h, CommunicatorEpoll.cc

    The client's network thread.  The threads that call servants leave their
    requests in queues and [notify] the thread, which takes them off in [handle]
    and gives them to the [ObjectProxy] of each; responses come in through the
    transceivers, and asynchronous ones go on to the callback threads.

    All objects of a client are in one [world]: the network threads, the object
    proxies, the queues and messages made with [new], and the threads' own data.
    What the system calls answer is an argument. *)

From S2P Require Import Prelude Buffer Monitor LoopQueue TimeoutQueue Wire Message AsyncProcThread.
From S2P Require Import Transceiver ObjectProxy BindAdapter ObjectProxyFactory ThreadData Epoller.

(** [FDInfo] of Message.h; [p] points to a queue or to the transceiver of an
    object proxy. *)
Module FDInfo.

Inductive fd_type : Set := ET_C_NOTIFY | ET_C_NET.

Inductive pointer : Set := Null | Queue (q : nat) | Trans (object : nat).

#[export] Instance pointer_eq_dec : EqDecision pointer.
Proof. solve_decision. Defined.

Record t := mk { seq : Z; fd : Z; type : fd_type; p : pointer }.

Definition default : t := mk 0 (-1) ET_C_NOTIFY Null.

Definition set_p (p : pointer) (i : t) : t := mk (seq i) (fd i) (type i) p.

(** The [fdInfo_] of a transceiver. *)
Definition of_transceiver (object : nat) : t := mk 0 (-1) ET_C_NET (Trans object).

End FDInfo.
Export (hints) FDInfo.

(** [NotifyInfo] of Message.h; [notify] is the descriptor of the socket, -1 when
    it has none. *)
Module NotifyInfo.

Record t := mk { fd_info : FDInfo.t; notify : Z; eventfd : Z; valid : bool }.

Definition default : t := mk FDInfo.default (-1) (-1) false.

End NotifyInfo.

Module CommunicatorEpoll.

Record t := mk {
  notify_ : list NotifyInfo.t;
  shutdown_ : Z;
  epoller_ : Epoller.t;
  asyncThreadNum_ : Z;
  asyncThread_ : list AsyncProcThread.t;
  asyncSeq_ : Z;
  terminate_ : bool;
  netThreadSeq_ : Z;
  objectProxyFactory_ : ObjectProxyFactory.t
}.

(** The constructor with a communicator; [shutdown] is the descriptor that the
    socket gets, [self] the number of the new object. *)
Definition new (self : nat) (shutdown netThreadSeq : Z) : outcome t :=
  let asyncThreadNum := 1 in
  a ← AsyncProcThread.new 100;
  Ok (mk (replicate 2048 NotifyInfo.default) shutdown
         (Epoller.add shutdown 0 Epoller.EPOLLIN (Epoller.create 1024 (Epoller.new true)))
         asyncThreadNum (replicate (Z.to_nat asyncThreadNum) a) 0 false netThreadSeq
         (ObjectProxyFactory.new self)).

Definition set_notify (l : list NotifyInfo.t) (c : t) : t :=
  mk l (shutdown_ c) (epoller_ c) (asyncThreadNum_ c) (asyncThread_ c) (asyncSeq_ c)
     (terminate_ c) (netThreadSeq_ c) (objectProxyFactory_ c).
Definition set_epoller (e : Epoller.t) (c : t) : t :=
  mk (notify_ c) (shutdown_ c) e (asyncThreadNum_ c) (asyncThread_ c) (asyncSeq_ c)
     (terminate_ c) (netThreadSeq_ c) (objectProxyFactory_ c).
Definition set_async (l : list AsyncProcThread.t) (seq : Z) (c : t) : t :=
  mk (notify_ c) (shutdown_ c) (epoller_ c) (asyncThreadNum_ c) l seq
     (terminate_ c) (netThreadSeq_ c) (objectProxyFactory_ c).
Definition set_factory (f : ObjectProxyFactory.t) (c : t) : t :=
  mk (notify_ c) (shutdown_ c) (epoller_ c) (asyncThreadNum_ c) (asyncThread_ c) (asyncSeq_ c)
     (terminate_ c) (netThreadSeq_ c) f.

(** What a client is made of.  [events] is what the users of asynchronous calls
    see, [woken] the messages whose callers were woken, in order. *)
Record world := mk_world {
  epolls : list t;
  objects : list Object.t;
  queues : gmap nat (LoopQueue.t nat);
  heap : Request.heap;
  events : list AsyncProcThread.event;
  woken : list nat;
  tls : ServantProxyThreadData.t;
  next : nat                         (* the next address of [new] *)
}.

Definition set_epolls (l : list t) (w : world) : world :=
  mk_world l (objects w) (queues w) (heap w) (events w) (woken w) (tls w) (next w).
Definition set_objects (l : list Object.t) (w : world) : world :=
  mk_world (epolls w) l (queues w) (heap w) (events w) (woken w) (tls w) (next w).
Definition set_queues (l : gmap nat (LoopQueue.t nat)) (w : world) : world :=
  mk_world (epolls w) (objects w) l (heap w) (events w) (woken w) (tls w) (next w).
Definition set_heap (h : Request.heap) (w : world) : world :=
  mk_world (epolls w) (objects w) (queues w) h (events w) (woken w) (tls w) (next w).
Definition set_events (l : list AsyncProcThread.event) (w : world) : world :=
  mk_world (epolls w) (objects w) (queues w) (heap w) l (woken w) (tls w) (next w).
Definition set_woken (l : list nat) (w : world) : world :=
  mk_world (epolls w) (objects w) (queues w) (heap w) (events w) l (tls w) (next w).
Definition set_tls (d : ServantProxyThreadData.t) (w : world) : world :=
  mk_world (epolls w) (objects w) (queues w) (heap w) (events w) (woken w) d (next w).
Definition set_next (n : nat) (w : world) : world :=
  mk_world (epolls w) (objects w) (queues w) (heap w) (events w) (woken w) (tls w) n.

Definition put_epoll (e : nat) (c : t) (w : world) : world := set_epolls (<[e := c]> (epolls w)) w.

(** A [FDInfo*] that the epoll set of a thread reports. *)
Inductive fd_pointer : Set := NotifyAt (seq : nat) | TransAt (object : nat).

(** The answers of the system while an event is handled: for each request taken
    off a queue, the descriptor of a new connection and the result of [::send];
    what the transceiver reads; what it can write. *)
Record answers := mk_answers {
  sends : list (Z * Transceiver.send_result);
  reads : list Transceiver.readv_result;
  flushes : Transceiver.send_result;
  invokes : list Transceiver.send_result
}.

Section operations.
Context (log_sysfatal : outcome unit).
(** Where the objects that epoll refers to are in memory. *)
Context (address : nat → fd_pointer → Z).

Definition get_objectProxy (e : nat) (ip : bytes) (port garbage : Z) (w : world)
    : outcome (nat * world) :=
  c ← deref (epolls w !! e);
  let '(o, f, l) := ObjectProxyFactory.get_objectProxy ip port garbage (objectProxyFactory_ c)
                      (objects w) in
  Ok (o, set_objects l (put_epoll e (set_factory f c) w)).

Definition pushAsyncThreadQueue (e msg : nat) (w : world) : outcome world :=
  c ← deref (epolls w !! e);
  let i := Z.to_nat (asyncSeq_ c) in
  a ← deref (asyncThread_ c !! i);
  '(_, a, h) ← AsyncProcThread.push_back msg a (heap w);
  let seq := u64 (asyncSeq_ c + 1) in
  let seq := if seq =? asyncThreadNum_ c then 0 else seq in
  Ok (set_heap h (put_epoll e (set_async (<[i := a]> (asyncThread_ c)) seq c) w)).

(** What [finishInvoke] ends with: waking a caller, or the call of
    [pushAsyncThreadQueue]. *)
Fixpoint complete (e : nat) (l : list ObjectProxy.completion) (w : world) : outcome world :=
  match l with
  | [] => Ok w
  | ObjectProxy.WokeCaller p :: l => complete e l (set_woken (woken w ++ [p]) w)
  | ObjectProxy.PushedAsync p :: l => w ← pushAsyncThreadQueue e p w; complete e l w
  end.

(** An object proxy as it sees the messages. *)
Definition with_heap (h : Request.heap) (o : ObjectProxy.t) : ObjectProxy.t :=
  ObjectProxy.mk (ObjectProxy.trans_ o) (ObjectProxy.timeoutQueue_ o) (ObjectProxy.id_ o) h [].

(** A call of a member function of an object proxy. *)
Definition on_object (k : nat) (f : ObjectProxy.t → outcome ObjectProxy.t) (w : world)
    : outcome world :=
  x ← deref (objects w !! k);
  o ← f (with_heap (heap w) (Object.proxy x));
  complete (Object.communicatorEpoll_ x) (ObjectProxy.finished o)
    (set_heap (ObjectProxy.msgs o) (set_objects (<[k := Object.set_proxy o x]> (objects w)) w)).

(** [notify]; [fd] is the descriptor that a new socket gets. *)
Definition notify (e seq reqQueue : nat) (fd : Z) (w : world) : outcome world :=
  c ← deref (epolls w !! e);
  n ← deref (notify_ c !! seq);
  let data := address e (NotifyAt seq) in
  if NotifyInfo.valid n then
    let info := FDInfo.set_p (FDInfo.Queue reqQueue) (NotifyInfo.fd_info n) in
    let n := NotifyInfo.mk info (NotifyInfo.notify n) (NotifyInfo.eventfd n) true in
    let ep := Epoller.mod_ (NotifyInfo.notify n) data Epoller.EPOLLIN (epoller_ c) in
    _ ← assert_ (bool_decide (FDInfo.p info = FDInfo.Queue reqQueue));
    Ok (put_epoll e (set_epoller ep (set_notify (<[seq := n]> (notify_ c)) c)) w)
  else
    let info := FDInfo.mk (Z.of_nat seq) (NotifyInfo.eventfd n) FDInfo.ET_C_NOTIFY
                  (FDInfo.Queue reqQueue) in
    let n := NotifyInfo.mk info fd (NotifyInfo.eventfd n) true in
    let ep := Epoller.add (NotifyInfo.notify n) data Epoller.EPOLLIN (epoller_ c) in
    Ok (put_epoll e (set_epoller ep (set_notify (<[seq := n]> (notify_ c)) c)) w).

Definition notifyDel (e seq : nat) (w : world) : outcome world :=
  c ← deref (epolls w !! e);
  n ← deref (notify_ c !! seq);
  if NotifyInfo.valid n && negb (bool_decide (FDInfo.p (NotifyInfo.fd_info n) = FDInfo.Null)) then
    let ep := Epoller.mod_ (NotifyInfo.notify n) (address e (NotifyAt seq)) Epoller.EPOLLIN
                (epoller_ c) in
    Ok (put_epoll e (set_epoller ep c) w)
  else Ok w.

(** The branch of [handle] for a [THREAD_EXIT] message: the queue [q] and the
    entry of [notify_] are given up. *)
Definition thread_exit (e : nat) (seq : Z) (q msg : nat) (infoQueue : LoopQueue.t nat) (w : world)
    : outcome world :=
  _ ← assert_ (LoopQueue.empty infoQueue);
  h ← Request.delete_msg msg (heap w);
  let w := set_queues (delete q (queues w)) (set_heap h w) in
  c ← deref (epolls w !! e);
  let i := Z.to_nat seq in
  n ← deref (notify_ c !! i);
  let ep := Epoller.del (NotifyInfo.notify n) (address e (NotifyAt i)) Epoller.EPOLLIN
              (epoller_ c) in
  let n := NotifyInfo.mk (FDInfo.set_p FDInfo.Null (NotifyInfo.fd_info n)) (-1)
             (NotifyInfo.eventfd n) false in
  Ok (put_epoll e (set_epoller ep (set_notify (<[i := n]> (notify_ c)) c)) w).

(** The [while] loop of [handle] over the queue [q]. *)
Fixpoint handle_queue (e : nat) (seq : Z) (q : nat) (env : list (Z * Transceiver.send_result))
    (w : world) : outcome world :=
  infoQueue ← deref (queues w !! q);
  '(ret, msg, infoQueue) ← LoopQueue.pop_front_to infoQueue;
  let w := set_queues (<[q := infoQueue]> (queues w)) w in
  if (ret : bool) then
    p ← deref msg;
    m ← deref (heap w !! p);
    if bool_decide (Request.type m = Request.THREAD_EXIT) then thread_exit e seq q p infoQueue w
    else
      match env with
      | [] => Spin
      | (fd, r) :: env =>
          k ← deref (Request.objectProxy m);
          w ← on_object k (ObjectProxy.sendReqMessage log_sysfatal (Some p) fd r) w;
          handle_queue e seq q env w
      end
  else Ok w.

Definition handleInputImp (object : nat) (reads : list Transceiver.readv_result) (w : world)
    : outcome world := on_object object (ObjectProxy.handleInputImp reads) w.

Definition handleOutputImp (object : nat) (r : Transceiver.send_result)
    (env : list Transceiver.send_result) (w : world) : outcome world :=
  on_object object (λ o, '(_, o) ← ObjectProxy.doRequest log_sysfatal r env o; Ok o) w.

(** [*info]. *)
Definition fd_info_at (e : nat) (info : fd_pointer) (w : world) : outcome FDInfo.t :=
  match info with
  | NotifyAt seq =>
      c ← deref (epolls w !! e);
      n ← deref (notify_ c !! seq);
      Ok (NotifyInfo.fd_info n)
  | TransAt object => _ ← deref (objects w !! object); Ok (FDInfo.of_transceiver object)
  end.

(** [handle(info, events)].  What a C++ exception leaves behind when the [catch]
    at its end drops it is not followed. *)
Definition handle (e : nat) (info : fd_pointer) (events : Z) (env : answers) (w : world)
    : outcome world :=
  i ← fd_info_at e info w;
  match FDInfo.type i with
  | FDInfo.ET_C_NOTIFY =>
      match FDInfo.p i with
      | FDInfo.Queue q => handle_queue e (FDInfo.seq i) q (sends env) w
      | _ => Undef
      end
  | FDInfo.ET_C_NET =>
      match FDInfo.p i with
      | FDInfo.Trans object =>
          w ← (if Epoller.has events Epoller.EPOLLIN then handleInputImp object (reads env) w
               else Ok w);
          if Epoller.has events Epoller.EPOLLOUT
          then handleOutputImp object (flushes env) (invokes env) w else Ok w
      | _ => Undef
      end
  end.

(** The start of [run], in thread [self]. *)
Definition run_begin (e : nat) (created : option Z) (ret : Z) (self : nat) (w : world)
    : outcome world :=
  '(sptd, s) ← ServantProxyThreadData.get_data created ret self (tls w);
  _ ← assert_ (bool_decide (is_Some sptd));
  p ← deref sptd;
  d ← deref (ServantProxyThreadData.datas s !! p);
  c ← deref (epolls w !! e);
  let d := ServantProxyThreadData.set_netThreadSeq (i32 (netThreadSeq_ c)) d in
  Ok (set_tls (ServantProxyThreadData.set_data p d s) w).

(** The [for] loop of [run] over the events that one call of [epoll_wait]
    reported; [None] is an event whose data is 0. *)
Fixpoint run_events (e : nat) (evs : list (option fd_pointer * Z * answers)) (w : world)
    : outcome world :=
  match evs with
  | [] => Ok w
  | (None, _, _) :: evs => run_events e evs w
  | (Some info, events, env) :: evs => w ← handle e info events env w; run_events e evs w
  end.

(** The [while] loop of [run], for as many rounds as [rounds] has entries; each
    begins with what other threads have done since. *)
Fixpoint run_loop (e : nat)
    (rounds : list ((world → outcome world) * list (option fd_pointer * Z * answers)))
    (w : world) : outcome world :=
  match rounds with
  | [] => Ok w
  | (others, evs) :: rounds =>
      w ← others w;
      c ← deref (epolls w !! e);
      if negb (terminate_ c) then w ← run_events e evs w; run_loop e rounds w else Ok w
  end.

Definition terminate (e : nat) (w : world) : outcome world :=
  c ← deref (epolls w !! e);
  let c := mk (notify_ c) (shutdown_ c)
              (Epoller.mod_ (shutdown_ c) 0 Epoller.EPOLLOUT (epoller_ c))
              (asyncThreadNum_ c) (AsyncProcThread.terminate <$> asyncThread_ c) (asyncSeq_ c)
              true (netThreadSeq_ c) (objectProxyFactory_ c) in
  Ok (put_epoll e c w).

(** A pass of callback thread [i] of network thread [e]. *)
Definition async_pass (e i : nat) (w : world) : outcome world :=
  c ← deref (epolls w !! e);
  a ← deref (asyncThread_ c !! i);
  aw ← AsyncProcThread.pass false Ok (AsyncProcThread.mk_world a (heap w) (events w));
  let c := set_async (<[i := AsyncProcThread.thread aw]> (asyncThread_ c)) (asyncSeq_ c) c in
  Ok (set_events (AsyncProcThread.events aw)
        (set_heap (AsyncProcThread.heap aw) (put_epoll e c w))).

End operations.

(** ** Requests on their way to the server *)

Section sending.
Context (log_sysfatal : outcome unit).
Implicit Types (w : world).

Definition put_object (k : nat) (o : ObjectProxy.t) (x : Object.t) w : world :=
  set_objects (<[k := Object.set_proxy o x]> (objects w)) w.

Lemma with_heap_steady h n o :
  ObjectProxy.steady n o → ObjectProxy.steady n (with_heap h o).
Proof. intros []. by split. Qed.

(** Request [p] of object [k], which the network thread may take at any time. *)
Definition callable w (k p : nat) (m : Request.ReqMessage) : Prop :=
  heap w !! p = Some m ∧ Request.objectProxy m = Some k ∧
  (Request.type m = Request.SYNC_CALL ∧ Request.monitor m = true ∨
   Request.type m = Request.ASYNC_CALL) ∧ zlen (Request.request m) < 2 ^ 30.

(** The socket takes a whole request. *)
Definition takes (m : Request.ReqMessage) (a : Z * Transceiver.send_result) : Prop :=
  a.1 ≠ -1 ∧ ∃ n, a.2 = Transceiver.Room n ∧ zlen (Request.request m) + 17 ≤ Z.of_nat n.

(** Message [p] is the request [id] of object [k] and waits for its response. *)
Definition outstanding w (k : nat) (id : Z) (p : nat) (m : Request.ReqMessage) : Prop :=
  ∃ x, objects w !! k = Some x ∧
       ObjectProxy.outstanding (with_heap (heap w) (Object.proxy x)) id p m.

(** Object [k] of network thread [e] has given out the ids up to [id], [n] more
    are left, and these bytes have been written. *)
Definition connected w (k e : nat) (n id : Z) (bs : bytes) : Prop :=
  ∃ x, objects w !! k = Some x ∧ Object.communicatorEpoll_ x = e ∧
    ObjectProxy.steady n (Object.proxy x) ∧ ObjectProxy.id_ (Object.proxy x) = id ∧
    Transceiver.wire (ObjectProxy.trans_ (Object.proxy x)) = bs.

(** What handling a request does not touch. *)
Definition same_but_heap w w' : Prop :=
  epolls w' = epolls w ∧ queues w' = queues w ∧ events w' = events w ∧ woken w' = woken w ∧
  tls w' = tls w ∧ next w' = next w.

Definition request_id (m : Request.ReqMessage) (id : Z) : Request.ReqMessage :=
  Request.set_request (Request.request m)
    (Wire.frame (Wire.request_payload id (Request.request m))) (i32 id) m.

Lemma on_object_send w k e n id bs p m a :
  connected w k e (n + 1) id bs → 0 ≤ n → callable w k p m → takes m a →
  ∃ w', on_object k (ObjectProxy.sendReqMessage log_sysfatal (Some p) a.1 a.2) w = Ok w' ∧
    same_but_heap w w' ∧
    connected w' k e n (id + 1)
      (bs ++ Wire.frame (Wire.request_payload (id + 1) (Request.request m))) ∧
    heap w' = <[p := request_id m (id + 1)]> (heap w) ∧
    outstanding w' k (id + 1) p (request_id m (id + 1)) ∧
    (∀ u q m', u ≤ id → q ≠ p → outstanding w k u q m' → outstanding w' k u q m').
Proof.
  intros (x & Hx & He & Hst & Hid & Hbs) Hn (Hm & Hk & Hty & Hlen) (Hfd & r & Hr & Hroom).
  destruct a as [fd a2]. cbn [fst snd] in *. subst a2.
  apply (with_heap_steady (heap w)) in Hst as Hst'.
  set (o := with_heap (heap w) (Object.proxy x)) in *.
  pose proof (ObjectProxy.steady_next (n + 1) o ltac:(lia) Hst') as Hnext.
  assert (ObjectProxy.id_ o = id) as Hido by done. rewrite Hido in Hnext.
  pose proof (Wire.length_request (id + 1) (Request.request m)) as Hsz.
  assert (ObjectProxy.request_bytes o m = Wire.frame (Wire.request_payload (id + 1) (Request.request m)))
    as Hrb by (unfold ObjectProxy.request_bytes; by rewrite Hnext).
  destruct (ObjectProxy.steady_send log_sysfatal n o p m fd r) as (Hs & Hst1 & Hid1);
    [done..|rewrite Hrb; lia|rewrite Hrb; lia|].
  assert (ObjectProxy.next_id (ObjectProxy.online fd o) = id + 1 ∧
    ObjectProxy.finished (ObjectProxy.online fd o) = [] ∧
    ObjectProxy.msgs (ObjectProxy.online fd o) = heap w ∧
    ObjectProxy.timeoutQueue_ (ObjectProxy.online fd o) = ObjectProxy.timeoutQueue_ o ∧
    Transceiver.wire (ObjectProxy.trans_ (ObjectProxy.online fd o)) = bs)
    as (Hni & Hfin & Hmsgs & Htq & Hwire).
  { unfold ObjectProxy.online. by destruct (negb _). }
  assert (ObjectProxy.request_bytes (ObjectProxy.online fd o) m = ObjectProxy.request_bytes o m)
    as Hrb' by (unfold ObjectProxy.request_bytes; by rewrite Hni, Hnext).
  unfold on_object. rewrite Hx. cbn [deref mbind outcome_bind]. fold o. rewrite Hs.
  cbn [mbind outcome_bind]. set (o1 := ObjectProxy.sent fd o p m) in *.
  assert (ObjectProxy.finished o1 = []) as -> by done. cbn [complete].
  assert (ObjectProxy.msgs o1 = <[p := request_id m (id + 1)]> (heap w)) as Hmsgs1.
  { unfold o1, ObjectProxy.sent, ObjectProxy.filed, request_id. cbn [ObjectProxy.msgs].
    by rewrite Hmsgs, Hrb', Hrb, Hni. }
  assert (TimeoutQueue.data_ (ObjectProxy.timeoutQueue_ o1) =
    <[id + 1 := TimeoutQueue.mk_info (Some p) true
        (Some (TimeoutQueue.fresh (ObjectProxy.timeoutQueue_ o))) None]>
      (TimeoutQueue.data_ (ObjectProxy.timeoutQueue_ o))) as Hdata.
  { unfold o1, ObjectProxy.sent, ObjectProxy.filed. cbn [ObjectProxy.timeoutQueue_].
    by rewrite Htq, Hni. }
  assert (objects w !! k = Some x → <[k := Object.set_proxy o1 x]> (objects w) !! k =
    Some (Object.set_proxy o1 x)) as Hlk.
  { intros ?. apply list_lookup_insert_eq. by eapply lookup_lt_Some. }
  eexists. split; [done|]. split; [done|]. split; [|split; [|split]].
  - exists (Object.set_proxy o1 x). split; [by apply Hlk|].
    cbn [Object.communicatorEpoll_ Object.set_proxy Object.proxy]. split; [done|]. split; [done|].
    split; [by rewrite <- Hido|]. unfold o1, ObjectProxy.sent, ObjectProxy.filed.
    cbn [ObjectProxy.trans_ Transceiver.add_wire Transceiver.wire]. by rewrite Hwire, Hrb.
  - exact Hmsgs1.
  - exists (Object.set_proxy o1 x). split; [by apply Hlk|]. split; [|split; [|done]].
    + eexists. change (ObjectProxy.timeoutQueue_ _) with (ObjectProxy.timeoutQueue_ o1).
      rewrite Hdata, lookup_insert_eq. split; [done|done].
    + change (ObjectProxy.msgs _) with (ObjectProxy.msgs o1).
      by rewrite Hmsgs1, lookup_insert_eq.
  - intros u q m' Hu Hq (x' & Hx' & (info & Hi & Hp) & Hmq & Ht).
    assert (x' = x) as -> by congruence.
    exists (Object.set_proxy o1 x). split; [by apply Hlk|]. split; [|split; [|done]].
    + exists info. change (ObjectProxy.timeoutQueue_ _) with (ObjectProxy.timeoutQueue_ o1).
      rewrite Hdata, lookup_insert_ne by lia. done.
    + change (ObjectProxy.msgs _) with (ObjectProxy.msgs o1).
      rewrite Hmsgs1, lookup_insert_ne by done. done.
Qed.

(** Queue [q] holds the messages [ps]; it was made for [cap] of them. *)
Definition queued w (q : nat) (cap : Z) (ps : list nat) : Prop :=
  ∃ Q, queues w !! q = Some Q ∧ LoopQueue.repr cap Q ps.

Lemma callable_type w k p m : callable w k p m → Request.type m ≠ Request.THREAD_EXIT.
Proof. intros (_ & _ & [[-> _]| ->] & _); done. Qed.

Lemma callable_heap w w' k p m :
  heap w' !! p = heap w !! p → callable w k p m → callable w' k p m.
Proof. intros Hh (Hm & Hr). by split; [rewrite Hh|]. Qed.

(** What handling a queue leaves of the rest. *)
Definition same_but_queue (q : nat) w w' : Prop :=
  (∃ Q, queues w' = <[q := Q]> (queues w)) ∧ epolls w' = epolls w ∧ events w' = events w ∧
  woken w' = woken w ∧ tls w' = tls w ∧ next w' = next w.

(** The requests [ps], with contents [ms], have got the ids from [id + 1] on. *)
Definition all_sent w w' (k : nat) (id : Z) (ps : list nat) (ms : list Request.ReqMessage) : Prop :=
  (∀ (i : nat) p m, ps !! i = Some p → ms !! i = Some m →
     outstanding w' k (id + 1 + Z.of_nat i) p (request_id m (id + 1 + Z.of_nat i))) ∧
  (∀ u p m, u ≤ id → p ∉ ps → outstanding w k u p m → outstanding w' k u p m) ∧
  ∀ p, p ∉ ps → heap w' !! p = heap w !! p.

Context (address : nat → fd_pointer → Z).

Lemma handle_queue_spec e seq q k ee cap n ps : ∀ ms env w id bs,
  queued w q cap ps → NoDup ps → Forall2 (callable w k) ps ms → Forall2 takes ms env →
  connected w k ee (n + zlen ps) id bs → 0 ≤ n →
  ∃ w', handle_queue log_sysfatal address e seq q env w = Ok w' ∧
    queued w' q cap [] ∧ same_but_queue q w w' ∧ all_sent w w' k id ps ms ∧
    connected w' k ee n (id + zlen ps) (bs ++ Wire.stream id (Request.request <$> ms)).
Proof.
  induction ps as [|p ps IH]; intros ms env w id bs (Q & HQ & HQr) Hnd Hcall Htakes Hc Hn.
  - apply Forall2_nil_inv_l in Hcall as ->. apply Forall2_nil_inv_l in Htakes as ->.
    exists (set_queues (<[q := Q]> (queues w)) w). cbn [handle_queue]. rewrite HQ.
    cbn [deref mbind outcome_bind]. unfold LoopQueue.pop_front_to.
    rewrite (LoopQueue.empty_test cap Q [] HQr), bool_decide_true by done.
    cbn [mbind outcome_bind]. split; [done|]. split; [|split; [|split]].
    + exists Q. split; [apply lookup_insert_eq|done].
    + split; [by exists Q|done].
    + split; [|done]. intros i p m Hp. done.
    + cbn. rewrite app_nil_r, Z.add_0_r in *. exact Hc.
  - apply NoDup_cons in Hnd as [Hp Hnd].
    destruct ms as [|m ms]; [by inv Hcall|]. apply Forall2_cons in Hcall as [Hm Hcall].
    destruct env as [|a env]; [by inv Htakes|]. apply Forall2_cons in Htakes as [Ha Htakes].
    destruct a as [fd r] eqn:Hfr. cbn [handle_queue]. rewrite HQ. cbn [deref mbind outcome_bind].
    unfold LoopQueue.pop_front_to.
    rewrite (LoopQueue.empty_test cap Q _ HQr), bool_decide_false by done.
    rewrite (LoopQueue.load_head cap Q p ps HQr). cbn [deref mbind outcome_bind].
    pose proof (LoopQueue.pop_step cap Q p ps HQr) as HQ1.
    set (Q1 := LoopQueue.set_end _ Q) in *. set (w0 := set_queues (<[q := Q1]> (queues w)) w).
    pose proof Hm as (Hmw & Hk & _). change (heap w0) with (heap w). rewrite Hmw.
    cbn [deref mbind outcome_bind].
    rewrite bool_decide_false by by eapply callable_type. rewrite Hk. cbn [deref mbind outcome_bind].
    assert (callable w0 k p m) as Hm0 by by apply (callable_heap w).
    assert (connected w0 k ee (n + zlen ps + 1) id bs) as Hc0.
    { cbn [length] in Hc. replace (n + zlen ps + 1) with (n + Z.of_nat (S (length ps))) by lia. done. }
    rewrite <- Hfr in Ha.
    destruct (on_object_send w0 k ee (n + zlen ps) id bs p m a Hc0) as
      (w1 & Hon & (He1 & Hq1 & Hev1 & Hwo1 & Ht1 & Hn1) & Hc1 & Hh1 & Ho1 & Hold1); [lia|done..|].
    rewrite Hfr in Hon. cbn [fst snd] in Hon. rewrite Hon. cbn [mbind outcome_bind].
    assert (∀ p', p' ≠ p → heap w1 !! p' = heap w !! p') as Hh1'.
    { intros p' Hp'. by rewrite Hh1, lookup_insert_ne. }
    destruct (IH ms env w1 (id + 1) (bs ++ Wire.frame (Wire.request_payload (id + 1) (Request.request m))))
      as (w2 & Hw2 & Hqd & ((Q2 & HQ2) & He2 & Hev2 & Hwo2 & Ht2 & Hn2) & (Hall2 & Hold2 & Hh2) & Hc2);
      try done.
    { exists Q1. rewrite Hq1. split; [apply lookup_insert_eq|done]. }
    { apply Forall2_same_length_lookup. split; [by eapply Forall2_length|].
      intros i p' m' Hp' Hm'. apply (callable_heap w).
      - apply Hh1'. intros ->. by apply Hp, (list_elem_of_lookup_2 _ i).
      - by apply (Forall2_lookup_lr _ _ _ i _ _ Hcall). }
    exists w2. split; [done|]. split; [done|]. split; [|split].
    + split; [|by rewrite He2, Hev2, Hwo2, Ht2, Hn2].
      exists Q2. by rewrite HQ2, Hq1; cbn; rewrite insert_insert_eq.
    + split; [|split].
      * intros [|i] p' m' Hp' Hm'; cbn in Hp', Hm'.
        -- injection Hp' as <-. injection Hm' as <-. rewrite Z.add_0_r. apply Hold2; [lia|done..].
        -- replace (id + 1 + Z.of_nat (S i)) with (id + 1 + 1 + Z.of_nat i) by lia.
           by apply Hall2.
      * intros u p' m' Hu [Hne Hno]%not_elem_of_cons Ho. apply Hold2; [lia|done|].
        apply Hold1; done.
      * intros p' [Hne Hno]%not_elem_of_cons. by rewrite Hh2, Hh1'.
    + cbn [length fmap list_fmap Wire.stream]. rewrite app_assoc.
      replace (id + Z.of_nat (S (length ps))) with (id + 1 + zlen ps) by lia. done.
Qed.

(** Nothing happens to an empty queue. *)
Lemma handle_queue_empty e seq q cap env w :
  queued w q cap [] → handle_queue log_sysfatal address e seq q env w = Ok w.
Proof.
  intros (Q & HQ & Hr). destruct env; cbn [handle_queue]; rewrite HQ; cbn [deref mbind outcome_bind];
    unfold LoopQueue.pop_front_to; rewrite (LoopQueue.empty_test cap Q [] Hr), bool_decide_true by done;
    cbn [mbind outcome_bind]; unfold set_queues; rewrite insert_id by done; by destruct w.
Qed.

(** *** Notifications *)

(** Entry [seq] of [notify_] is unused or one that [notify] made. *)
Definition notifiable w (e seq : nat) : Prop :=
  ∃ c n, epolls w !! e = Some c ∧ notify_ c !! seq = Some n ∧
    (NotifyInfo.valid n = true → FDInfo.type (NotifyInfo.fd_info n) = FDInfo.ET_C_NOTIFY ∧
                                 FDInfo.seq (NotifyInfo.fd_info n) = Z.of_nat seq).

(** The next event at entry [seq] leads to queue [q]. *)
Definition notified w (e seq q : nat) : Prop :=
  ∃ c n, epolls w !! e = Some c ∧ notify_ c !! seq = Some n ∧ NotifyInfo.valid n = true ∧
    FDInfo.type (NotifyInfo.fd_info n) = FDInfo.ET_C_NOTIFY ∧
    FDInfo.seq (NotifyInfo.fd_info n) = Z.of_nat seq ∧
    FDInfo.p (NotifyInfo.fd_info n) = FDInfo.Queue q.

Lemma notified_notifiable w e seq q : notified w e seq q → notifiable w e seq.
Proof. intros (c & n & ? & ? & _ & ? & ? & _). by exists c, n. Qed.

(** The callback threads of network thread [e]. *)
Definition async_state w (e : nat) : option (list AsyncProcThread.t * Z * Z) :=
  (λ c, (asyncThread_ c, asyncThreadNum_ c, asyncSeq_ c)) <$> epolls w !! e.

Definition same_but_notify w w' : Prop :=
  objects w' = objects w ∧ queues w' = queues w ∧ heap w' = heap w ∧ events w' = events w ∧
  woken w' = woken w ∧ tls w' = tls w ∧ next w' = next w ∧
  ∀ e, async_state w' e = async_state w e.

Lemma put_notify_same w e c c' :
  epolls w !! e = Some c →
  (asyncThread_ c', asyncThreadNum_ c', asyncSeq_ c') =
  (asyncThread_ c, asyncThreadNum_ c, asyncSeq_ c) →
  same_but_notify w (put_epoll e c' w).
Proof.
  intros Hc Heq. do 7 (split; [done|]). intros e'. unfold async_state. cbn.
  destruct (decide (e' = e)) as [->|Hne].
  - rewrite list_lookup_insert_eq, Hc by by eapply lookup_lt_Some. cbn. by rewrite Heq.
  - by rewrite list_lookup_insert_ne.
Qed.

Lemma notify_spec e seq q fd w :
  notifiable w e seq →
  ∃ w', notify address e seq q fd w = Ok w' ∧ notified w' e seq q ∧ same_but_notify w w'.
Proof.
  intros (c & n & Hc & Hn & Hv). unfold notify. rewrite Hc. cbn [deref mbind outcome_bind].
  rewrite Hn. cbn [deref mbind outcome_bind].
  assert (∀ c', <[e := c']> (epolls w) !! e = Some c') as Hput
    by (intros; apply list_lookup_insert_eq; by eapply lookup_lt_Some).
  assert (∀ n', <[seq := n']> (notify_ c) !! seq = Some n') as Hput'
    by (intros; apply list_lookup_insert_eq; by eapply lookup_lt_Some).
  destruct (NotifyInfo.valid n).
  - rewrite bool_decide_true by done. cbn [assert_ mbind outcome_bind]. destruct Hv; [done|].
    eexists. split; [done|]. split; [|by eapply put_notify_same].
    eexists _, _. split; [by apply Hput|]. split; [apply Hput'|]. done.
  - eexists. split; [done|]. split; [|by eapply put_notify_same].
    eexists _, _. split; [by apply Hput|]. split; [apply Hput'|]. done.
Qed.

(** An event at a notified entry is the handling of its queue. *)
Lemma handle_notified e seq q events env w :
  notified w e seq q →
  handle log_sysfatal address e (NotifyAt seq) events env w =
  handle_queue log_sysfatal address e (Z.of_nat seq) q (sends env) w.
Proof.
  intros (c & n & Hc & Hn & _ & Ht & Hs & Hp). unfold handle, fd_info_at. rewrite Hc.
  cbn [deref mbind outcome_bind]. rewrite Hn. cbn [deref mbind outcome_bind].
  by rewrite Ht, Hp, Hs.
Qed.

Lemma notified_epolls w w' e seq q :
  epolls w' = epolls w → notified w e seq q → notified w' e seq q.
Proof. intros He (c & n & Hr). exists c, n. by rewrite He. Qed.

(** An epoll object with other contents, but the same notifications. *)
Lemma put_epoll_notified h e c c' w e' seq q :
  epolls w !! e = Some c → notify_ c' = notify_ c →
  notified w e' seq q → notified (set_heap h (put_epoll e c' w)) e' seq q.
Proof.
  intros Hc Hn (c0 & n & Hc0 & Hrest). destruct (decide (e' = e)) as [->|Hne].
  - exists c', n. cbn. rewrite list_lookup_insert_eq by by eapply lookup_lt_Some.
    rewrite Hn. by simplify_eq.
  - exists c0, n. cbn. by rewrite list_lookup_insert_ne.
Qed.

(** *** Responses *)

(** Network thread [e] has the one callback thread that it starts with, in whose
    queue the messages [ps] wait. *)
Definition async_waiting w (e : nat) (ps : list nat) : Prop :=
  ∃ a, async_state w e = Some ([a], 1, 0) ∧ LoopQueue.repr 100 (AsyncProcThread.msgQueue_ a) ps.

Lemma async_waiting_epoll w e ps :
  async_waiting w e ps →
  ∃ c a, epolls w !! e = Some c ∧ asyncThread_ c = [a] ∧ asyncThreadNum_ c = 1 ∧ asyncSeq_ c = 0 ∧
    LoopQueue.repr 100 (AsyncProcThread.msgQueue_ a) ps.
Proof.
  intros (a & Ha & Hq). unfold async_state in Ha.
  apply fmap_Some in Ha as (c & Hc & [= H1 H2 H3]). by exists c, a.
Qed.

Lemma push_async e p ps w :
  async_waiting w e ps → zlen ps < 100 →
  ∃ w', pushAsyncThreadQueue e p w = Ok w' ∧ async_waiting w' e (ps ++ [p]) ∧
    objects w' = objects w ∧ heap w' = heap w ∧ events w' = events w ∧ woken w' = woken w ∧
    queues w' = queues w ∧ tls w' = tls w ∧ next w' = next w ∧
    ∀ e' seq q, notified w e' seq q → notified w' e' seq q.
Proof.
  intros (c & a & Hc & Ha & Hn & Hs & Hq)%async_waiting_epoll Hl.
  unfold pushAsyncThreadQueue. rewrite Hc. cbn [deref mbind outcome_bind]. rewrite Hs, Ha, Hn.
  change ([a] !! Z.to_nat 0) with (Some a). cbn [deref mbind outcome_bind].
  unfold AsyncProcThread.push_back, LoopQueue.push_back.
  pose proof (LoopQueue.push_back_empty_spec 100 _ _ p Hq ltac:(lia)) as Hp.
  rewrite (proj2 (Z.ltb_lt _ _) Hl) in Hp. destruct Hp as (q' & -> & Hq'). cbn.
  eexists. split; [done|]. split; [|do 7 (split; [done|])].
  - eexists. unfold async_state. cbn.
    rewrite list_lookup_insert_eq by by eapply lookup_lt_Some. cbn. by rewrite Hn.
  - intros e' seq q. by apply put_epoll_notified with c.
Qed.

(** A response that arrives alone: the object is as before but for the request
    that is done. *)
Lemma handle_response k e n id bs u p m body env w :
  connected w k e n id bs → 0 ≤ n → outstanding w k u p m →
  (Request.type m = Request.ASYNC_CALL → ∃ ps, async_waiting w e ps ∧ zlen ps < 100) →
  zlen (ObjectProxy.response_to u body) ≤ 2 ^ 61 →
  reads env = [Transceiver.Rdv (ObjectProxy.response_to u body)] →
  let m' := ObjectProxy.completed (ObjectProxy.response_to u body) m in
  ∃ w', handle log_sysfatal address e (TransAt k) Epoller.EPOLLIN env w = Ok w' ∧
    connected w' k e n id bs ∧ heap w' = <[p := m']> (heap w) ∧ events w' = events w ∧
    queues w' = queues w ∧ tls w' = tls w ∧ next w' = next w ∧
    (∀ u' q m'', u' ≠ u → q ≠ p → outstanding w k u' q m'' → outstanding w' k u' q m'') ∧
    match Request.type m with
    | Request.SYNC_CALL => woken w' = woken w ++ [p] ∧ epolls w' = epolls w
    | _ => woken w' = woken w ∧
           (∀ ps, async_waiting w e ps → zlen ps < 100 → async_waiting w' e (ps ++ [p])) ∧
           ∀ e' seq q, notified w e' seq q → notified w' e' seq q
    end.
Proof.
  intros (x & Hx & He & Hst & Hid & Hbs) Hn (x' & Hx' & Hout) Has Hl Hr m'.
  assert (x' = x) as -> by congruence. apply (with_heap_steady (heap w)) in Hst.
  destruct (ObjectProxy.handleInputImp_one n _ u p m body Hst Hn Hout Hl)
    as (o & Ho & Hst' & Hw' & Hid' & Hm' & Hf' & Hother).
  unfold handle, fd_info_at. rewrite Hx. cbn [deref mbind outcome_bind FDInfo.of_transceiver
    FDInfo.type FDInfo.p]. change (Epoller.has Epoller.EPOLLIN Epoller.EPOLLIN) with true.
  change (Epoller.has Epoller.EPOLLIN Epoller.EPOLLOUT) with false. cbv iota.
  unfold handleInputImp, on_object. rewrite Hx. cbn [deref mbind outcome_bind]. rewrite Hr, Ho.
  cbn [mbind outcome_bind]. rewrite Hf'. cbn [with_heap ObjectProxy.finished app].
  set (w1 := set_heap _ _). fold m' in Hm'.
  assert (connected w1 k e n id bs ∧ (∀ u' q m'', u' ≠ u → q ≠ p →
    outstanding w k u' q m'' → outstanding w1 k u' q m'')) as [Hc1 Ho1].
  { assert (objects w1 !! k = Some (Object.set_proxy o x)) as Hx1
      by (apply list_lookup_insert_eq; by eapply lookup_lt_Some).
    split; [exists (Object.set_proxy o x); cbn; by rewrite Hw', Hid'|].
    intros u' q m'' Hu Hq (x2 & Hx2 & (info & Hi & Hp) & Hmq & Hty).
    assert (x2 = x) as -> by congruence. exists (Object.set_proxy o x). split; [done|].
    split; [|split; [|done]].
    - exists info. change (ObjectProxy.timeoutQueue_ _) with (ObjectProxy.timeoutQueue_ o).
      by rewrite Hother.
    - change (ObjectProxy.msgs _) with (ObjectProxy.msgs o). rewrite Hm'.
      by rewrite lookup_insert_ne. }
  assert (heap w1 = <[p := m']> (heap w)) as Hh1 by exact Hm'.
  destruct Hout as (_ & _ & [[Hty _]|Hty]); unfold ObjectProxy.completion_of; rewrite Hty.
  - cbn [complete]. eexists. split; [done|]. done.
  - destruct (Has Hty) as (ps & Hps & Hlen). cbn [complete]. rewrite He.
    destruct (push_async e p ps w1) as (w2 & Hw2 & Ha2 & Hob2 & Hh2 & Hev2 & Hwo2 & Hq2 & Ht2 & Hnx2 & Hnt2); [done..|].
    rewrite Hw2. cbn [mbind outcome_bind]. exists w2. split; [done|].
    split; [destruct Hc1 as (y & Hy & Hc1); exists y; by rewrite Hob2|].
    split; [by rewrite Hh2|]. do 4 (split; [done|]). split; [|split; [done|split; [|exact Hnt2]]].
    + intros u' q m'' Hu Hq Hp. destruct (Ho1 u' q m'' Hu Hq Hp) as (y & Hy & Hout).
      exists y. by rewrite Hob2, Hh2.
    + intros ps' Hps' Hlen'.
      destruct (push_async e p ps' w1 Hps' Hlen') as (w2' & Hw2' & ? & _). congruence.
Qed.

Lemma async_pass_spec e w p ps m :
  async_waiting w e (p :: ps) → heap w !! p = Some m →
  ∃ w', async_pass e 0 w = Ok w' ∧ async_waiting w' e ps ∧ heap w' = delete p (heap w) ∧
    events w' = events w ++ [AsyncProcThread.dispatch p m] ∧ objects w' = objects w ∧
    woken w' = woken w ∧ queues w' = queues w ∧ tls w' = tls w ∧ next w' = next w ∧
    ∀ e' seq q, notified w e' seq q → notified w' e' seq q.
Proof.
  intros (c & a & Hc & Ha & Hn & Hs & Hq)%async_waiting_epoll Hm.
  unfold async_pass. rewrite Hc. cbn [deref mbind outcome_bind]. rewrite Ha.
  change ([a] !! 0%nat) with (Some a). cbn [deref mbind outcome_bind].
  destruct (AsyncProcThread.pass_one 100 false Ok (AsyncProcThread.mk_world a (heap w) (events w))
    p ps m Hq Hm) as (q & Hp & Hq'). rewrite Hp. cbn [mbind outcome_bind].
  eexists. split; [done|]. split; [|do 7 (split; [done|])].
  - exists (AsyncProcThread.set_queue q a). split; [|done]. unfold async_state. cbn.
    rewrite list_lookup_insert_eq by by eapply lookup_lt_Some. cbn. by rewrite Hn, Hs.
  - intros e' seq q'. by apply put_epoll_notified with c.
Qed.

End sending.

(** ** Properties *)

(** An asynchronous call is completed once: the response that arrives for it,
    alone, goes with the message to the callback thread, whose next pass calls the
    callback (or prints the response, when there is none) and deletes the message;
    nobody is woken, and the other requests in flight are as before. *)
Theorem async_call_completes log address w k e n id bs u p m body env
    (Hc : connected w k e n id bs) (Hn : 0 ≤ n) (Ho : outstanding w k u p m)
    (Hty : Request.type m = Request.ASYNC_CALL) (Ha : async_waiting w e [])
    (Hl : zlen (ObjectProxy.response_to u body) ≤ 2 ^ 61)
    (Hr : reads env = [Transceiver.Rdv (ObjectProxy.response_to u body)]) :
  ∃ w1 w2, handle log address e (TransAt k) Epoller.EPOLLIN env w = Ok w1 ∧
    async_pass e 0 w1 = Ok w2 ∧
    events w2 = events w ++
      [if Request.callback m then AsyncProcThread.Called p (ObjectProxy.response_to u body)
       else AsyncProcThread.Printed (ObjectProxy.response_to u body)] ∧
    heap w2 = delete p (heap w) ∧ woken w2 = woken w ∧ async_waiting w2 e [] ∧
    connected w2 k e n id bs ∧
    (∀ u' q m', u' ≠ u → q ≠ p → outstanding w k u' q m' → outstanding w2 k u' q m').
Proof.
  destruct (handle_response log address k e n id bs u p m body env w Hc Hn Ho)
    as (w1 & H1 & Hc1 & Hh1 & Hev1 & _ & _ & _ & Ho1 & Hend); [by intros _; exists []|done..|].
  rewrite Hty in Hend. destruct Hend as (Hwo1 & Ha1 & _). specialize (Ha1 [] Ha ltac:(done)).
  assert (heap w1 !! p = Some (ObjectProxy.completed (ObjectProxy.response_to u body) m)) as Hm
    by (rewrite Hh1; apply lookup_insert_eq).
  destruct (async_pass_spec e w1 p [] _ Ha1 Hm) as (w2 & H2 & Ha2 & Hh2 & Hev2 & Hob2 & Hwo2 & _).
  exists w1, w2. split; [done|]. split; [done|]. split; [|split; [|split; [|split; [done|split]]]].
  - rewrite Hev2, Hev1. unfold AsyncProcThread.dispatch, ObjectProxy.completed. by rewrite Hty.
  - by rewrite Hh2, Hh1, delete_insert_eq.
  - congruence.
  - destruct Hc1 as (x & Hx & Hrest). exists x. by rewrite Hob2.
  - intros u' q m' Hu Hq Hp. destruct (Ho1 u' q m' Hu Hq Hp) as (x & Hx & Hi & Hmq & Ht).
    exists x. split; [by rewrite Hob2|]. split; [done|]. split; [|done]. cbn in Hmq |- *.
    by rewrite Hh2, lookup_delete_ne.
Qed.

(** ** Witnesses *)

(** A client that has just started, with an object for one server and the
    message [m] at address 1. *)
Definition started (m : Request.ReqMessage) : world :=
  let c := match new 0 3 0 with
           | Ok c => c
           | _ => mk [] 0 (Epoller.new true) 0 [] 0 false 0 (ObjectProxyFactory.new 0)
           end in
  mk_world [c] [Object.mk 0 ["h"%char] 80 (ObjectProxy.new 0 ∅)] ∅ {[1%nat := m]} [] []
    ServantProxyThreadData.init 2.

Lemma started_connected m n : 0 ≤ n < 2 ^ 32 → connected (started m) 0 0 n 0 [].
Proof. intros ?. eexists. split; [done|]. split; [done|]. split; [by apply ObjectProxy.new_steady|done]. Qed.

Lemma started_async m : async_waiting (started m) 0 [].
Proof.
  destruct (LoopQueue.new_spec (T := nat) 100) as (q & Hq & Hr); [lia|].
  exists (AsyncProcThread.mk Monitor.init q false false). split; [|done].
  unfold started, new, AsyncProcThread.new. by rewrite Hq.
Qed.

Definition async_call : Request.ReqMessage :=
  Request.mk Request.REQ_REQ Request.ASYNC_CALL true (Some 0%nat) ["h"; "i"]%char [] []
             false false false 0 1.

Lemma async_call_completes_witness :
  let address := λ _ _, 7 in
  let response := ObjectProxy.response_to 1 ["y"%char] in
  ∃ w w1 w2,
    on_object 0 (ObjectProxy.sendReqMessage Assert (Some 1%nat) 5 (Transceiver.Room 40))
      (started async_call) = Ok w ∧
    handle Assert address 0 (TransAt 0) Epoller.EPOLLIN
      (mk_answers [] [Transceiver.Rdv response] (Transceiver.Room 0) []) w = Ok w1 ∧
    async_pass 0 0 w1 = Ok w2 ∧ events w2 = [AsyncProcThread.Called 1 response].
Proof.
  intros address response.
  destruct (on_object_send Assert (started async_call) 0 0 1 0 [] 1 async_call
    (5, Transceiver.Room 40)) as (w & Hw & (He & _ & Hev & _) & Hc & _ & Ho & _).
  - apply started_connected. lia.
  - lia.
  - split; [done|]. split; [done|]. split; [by right|]. cbn. lia.
  - split; [done|]. exists 40%nat. cbn. split; [done|lia].
  - destruct (async_call_completes Assert address w 0 0 1 _ _ 1 1 _ ["y"%char]
      (mk_answers [] [Transceiver.Rdv response] (Transceiver.Room 0) []) Hc ltac:(lia) Ho eq_refl)
      as (w1 & w2 & H1 & H2 & H3 & _).
    + destruct (started_async async_call) as (a & Ha & Hq). exists a.
      unfold async_state. rewrite He. split; [exact Ha|exact Hq].
    + vm_compute. discriminate.
    + reflexivity.
    + exists w, w1, w2. split; [exact Hw|]. split; [exact H1|]. split; [exact H2|].
      rewrite H3, Hev. reflexivity.
Defined.

End CommunicatorEpoll.
