(* ===== verification/ServantProxy.v ===== *)
(** * ServantProxy: ServantProxy of ServantProxy.h, ServantProxy.cc

    What a program calls: [tars_invoke] and [tars_invoke_async] make a message,
    choose a network thread, leave the message in the calling thread's queue to
    it and notify it.  A synchronous call then waits; the steps of that wait and
    of the thread that ends it are those of SyncCall. *)

From S2P Require Import Prelude Buffer Monitor LoopQueue TimeoutQueue Wire Message AsyncProcThread.
From S2P Require Import Transceiver ObjectProxy BindAdapter ObjectProxyFactory ThreadData Epoller.
From S2P Require Import CommunicatorEpoll.

Module ServantProxy.

Abbreviation world := CommunicatorEpoll.world.
Abbreviation data := ServantProxyThreadData.data.

(** [sptd] is a member: it is set by the first thread that uses the proxy. *)
Record t := mk {
  sptd : handle;
  objectProxy_ : list nat;
  objectProxyNum_ : Z;
  queueSize_ : Z
}.

Definition new (objectProxy : list nat) (clientThreadNum : Z) : t :=
  mk None objectProxy clientThreadNum 1000.

(** The answers of the system in one call: the key and the result of
    [pthread_setspecific] for the thread's data, the time, and the descriptor
    that a new notification socket gets. *)
Record answers := mk_answers {
  created : option Z;
  setspecific : Z;
  tv_sec : Z;
  tv_usec : Z;
  socket : Z
}.

Section operations.
Context (address : nat → CommunicatorEpoll.fd_pointer → Z).

(** The [for] loop of [selectNetThreadInfo] from [i] on. *)
Fixpoint make_queues (k : nat) (i queueSize : Z) (q : list handle) (w : world)
    : outcome (list handle * world) :=
  match k with
  | O => Ok (q, w)
  | S k =>
      Q ← LoopQueue.new queueSize;
      let p := CommunicatorEpoll.next w in
      let w := CommunicatorEpoll.set_next (S p)
                 (CommunicatorEpoll.set_queues (<[p := Q]> (CommunicatorEpoll.queues w)) w) in
      q ← mem_write q i [Some p];
      make_queues k (i + 1) queueSize q w
  end.

Definition initialized (d : data) (q : list handle) (num : Z) (l : list nat) : data :=
  ServantProxyThreadData.mk q true (ServantProxyThreadData.reqQNo_ d)
    (ServantProxyThreadData.netSeq_ d) (ServantProxyThreadData.netThreadSeq_ d) num
    (Some (length l)).

(** [reqQueue_[i]]. *)
Definition queue_at (d : data) (i : Z) : outcome handle :=
  _ ← defined (0 <=? i);
  deref (ServantProxyThreadData.reqQueue_ d !! Z.to_nat i).

(** [objectProxy_[i]]. *)
Definition object_at (s : t) (i : Z) : outcome nat :=
  _ ← defined (0 <=? i);
  deref (objectProxy_ s !! Z.to_nat i).

(** The choice, with the data as it is left. *)
Definition select (s : t) (d : data) : outcome (nat * handle * data) :=
  if objectProxyNum_ s =? 1 then
    o ← object_at s 0; q ← queue_at d 0; Ok (o, q, d)
  else if 0 <=? ServantProxyThreadData.netThreadSeq_ d then
    _ ← assert_ (ServantProxyThreadData.netThreadSeq_ d <? i32 (objectProxyNum_ s));
    o ← object_at s (ServantProxyThreadData.netThreadSeq_ d);
    q ← queue_at d (ServantProxyThreadData.netThreadSeq_ d);
    Ok (o, q, d)
  else
    o ← object_at s (ServantProxyThreadData.netSeq_ d);
    q ← queue_at d (ServantProxyThreadData.netSeq_ d);
    let seq := u64 (ServantProxyThreadData.netSeq_ d + 1) in
    let seq := if seq =? objectProxyNum_ s then 0 else seq in
    Ok (o, q, ServantProxyThreadData.set_netSeq seq d).

(** [selectNetThreadInfo] with the data at [p]. *)
Definition selectNetThreadInfo (s : t) (p : nat) (w : world) : outcome (nat * handle * world) :=
  d ← deref (ServantProxyThreadData.datas (CommunicatorEpoll.tls w) !! p);
  '(d, w) ← (if negb (ServantProxyThreadData.queueInit_ d) then
               '(q, w) ← make_queues (Z.to_nat (objectProxyNum_ s)) 0 (queueSize_ s)
                           (ServantProxyThreadData.reqQueue_ d) w;
               Ok (initialized d q (objectProxyNum_ s) (objectProxy_ s), w)
             else Ok (d, w));
  '(o, q, d) ← select s d;
  Ok (o, q, CommunicatorEpoll.set_tls
              (ServantProxyThreadData.set_data p d (CommunicatorEpoll.tls w)) w).

(** What [invoke] writes into the message before it is queued. *)
Definition prepare (time : Z) (o : nat) (m : Request.ReqMessage) : Request.ReqMessage :=
  let sync := bool_decide (Request.type m = Request.SYNC_CALL) in
  Request.mk (Request.status m) (Request.type m) (Request.callback m) (Some o) (Request.request m)
    (Request.response m) (Request.reqData m) (sync || Request.monitor m)
    (negb sync && Request.monitorFin m) (Request.push m) time (Request.requestId m).

(** [objectproxy->communicatorEpoll()->notify(sptd->netSeq_, *reqInfoQueue)]. *)
Definition notify (o p q : nat) (fd : Z) (w : world) : outcome world :=
  x ← deref (CommunicatorEpoll.objects w !! o);
  d ← deref (ServantProxyThreadData.datas (CommunicatorEpoll.tls w) !! p);
  CommunicatorEpoll.notify address (Object.communicatorEpoll_ x)
    (Z.to_nat (ServantProxyThreadData.netSeq_ d)) q fd w.

(** The part of [invoke] from the queueing to the notification; the result says
    whether [msg] still points to the message. *)
Definition enqueue (o p q msg : nat) (fd : Z) (w : world) : outcome (bool * world) :=
  Q ← deref (CommunicatorEpoll.queues w !! q);
  '(ret, _, Q) ← LoopQueue.push_back_empty msg Q;
  let w := CommunicatorEpoll.set_queues (<[q := Q]> (CommunicatorEpoll.queues w)) w in
  if negb ret then
    h ← Request.delete_msg msg (CommunicatorEpoll.heap w);
    w ← notify o p q fd (CommunicatorEpoll.set_heap h w);
    w ← notify o p q fd w;
    Ok (false, w)
  else w ← notify o p q fd w; Ok (true, w).

(** [invoke] up to the wait of a synchronous call, in thread [self]; the result
    says whether the call waits. *)
Definition invoke (self : nat) (env : answers) (msg : nat) (s : t) (w : world)
    : outcome (bool * t * world) :=
  '(p, tls) ← (match sptd s with
               | Some p => Ok (Some p, CommunicatorEpoll.tls w)
               | None => ServantProxyThreadData.get_data (created env) (setspecific env) self
                           (CommunicatorEpoll.tls w)
               end);
  let s := mk p (objectProxy_ s) (objectProxyNum_ s) (queueSize_ s) in
  p ← deref p;
  '(o, q, w) ← selectNetThreadInfo s p (CommunicatorEpoll.set_tls tls w);
  m ← deref (CommunicatorEpoll.heap w !! msg);
  let m := prepare (tv_sec env * 1000 + tv_usec env `div` 1000) o m in
  let w := CommunicatorEpoll.set_heap (<[msg := m]> (CommunicatorEpoll.heap w)) w in
  q ← deref q;
  '(queued, w) ← enqueue o p q msg (socket env) w;
  if bool_decide (Request.type m = Request.SYNC_CALL) then
    m ← (if (queued : bool) then deref (CommunicatorEpoll.heap w !! msg) else Undef);
    Ok (negb (Request.monitorFin m), s, w)
  else Ok (false, s, w).

(** What the calls put into a new message. *)
Definition message_of (type : Request.CallType) (callback : bool) (func_name request : bytes)
    : Request.ReqMessage :=
  let m := Request.init type Request.fresh in
  Request.mk (Request.status m) (Request.type m) callback (Request.objectProxy m)
    (func_name ++ Wire.colon :: request) (Request.response m) (Request.reqData m)
    (Request.monitor m) (Request.monitorFin m) (Request.push m) (Request.beginTime m)
    (Request.requestId m).

(** [new ReqMessage]. *)
Definition new_message (m : Request.ReqMessage) (w : world) : nat * world :=
  let p := CommunicatorEpoll.next w in
  (p, CommunicatorEpoll.set_next (S p)
        (CommunicatorEpoll.set_heap (<[p := m]> (CommunicatorEpoll.heap w)) w)).

(** [tars_invoke]; [others] is what the other threads, and the rest of the
    system, do while it waits. *)
Definition tars_invoke {X} (self : nat) (env : answers) (others : world * X → outcome (world * X))
    (func_name request : bytes) (s : t) (wx : world * X) : outcome (bytes * t * (world * X)) :=
  let '(w, x) := wx in
  let '(msg, w) := new_message (message_of Request.SYNC_CALL false func_name request) w in
  '(waits, s, w) ← invoke self env msg s w;
  '(w, x) ← (if (waits : bool) then others (w, x) else Ok (w, x));
  m ← deref (CommunicatorEpoll.heap w !! msg);
  h ← Request.delete_msg msg (CommunicatorEpoll.heap w);
  Ok (Request.response m, s, (CommunicatorEpoll.set_heap h w, x)).

Definition tars_invoke_async (self : nat) (env : answers) (func_name request : bytes) (cb : bool)
    (s : t) (w : world) : outcome (t * world) :=
  let '(msg, w) := new_message (message_of Request.ASYNC_CALL cb func_name request) w in
  '(_, s, w) ← invoke self env msg s w;
  Ok (s, w).

End operations.

(** ** What a call leaves for the network thread *)

Section calls.
Context (address : nat → CommunicatorEpoll.fd_pointer → Z).
Implicit Types (s : t) (w : world).

(** A proxy with one object, [k], of network thread [e], used by the thread with
    the data [p]; the thread's queue [q] to [e] holds the messages [ps], and it
    uses entry [seq] of [notify_]. *)
Record caller s w (p q k e seq : nat) (ps : list nat) : Prop := {
  cl_sptd : sptd s = Some p;
  cl_num : objectProxyNum_ s = 1;
  cl_proxy : objectProxy_ s = [k];
  cl_data : ∃ d l, ServantProxyThreadData.datas (CommunicatorEpoll.tls w) !! p = Some d ∧
              ServantProxyThreadData.queueInit_ d = true ∧
              ServantProxyThreadData.reqQueue_ d = Some q :: l ∧
              ServantProxyThreadData.netSeq_ d = Z.of_nat seq;
  cl_queue : CommunicatorEpoll.queued w q 1000 ps;
  cl_object : ∃ x, CommunicatorEpoll.objects w !! k = Some x ∧ Object.communicatorEpoll_ x = e;
  cl_notify : CommunicatorEpoll.notifiable w e seq
}.

Lemma select_caller s w p q k e seq ps :
  caller s w p q k e seq ps →
  selectNetThreadInfo s p w = Ok (k, Some q, w).
Proof.
  intros Hs. destruct (cl_data _ _ _ _ _ _ _ _ Hs) as (d & l & Hd & Hi & Hq & _).
  unfold selectNetThreadInfo. rewrite Hd. cbn [deref mbind outcome_bind]. rewrite Hi.
  cbn [negb mbind outcome_bind]. unfold select, object_at, queue_at.
  rewrite (cl_num _ _ _ _ _ _ _ _ Hs), (cl_proxy _ _ _ _ _ _ _ _ Hs), Hq.
  change (1 =? 1) with true. change (defined (0 <=? 0)) with (Ok tt : outcome unit).
  change ([k] !! Z.to_nat 0) with (Some k). change ((Some q :: l) !! Z.to_nat 0) with (Some (Some q)).
  cbn [deref mbind outcome_bind].
  unfold ServantProxyThreadData.set_data. rewrite insert_id by done.
  by destruct w as [? ? ? ? ? ? [] ?].
Qed.

Lemma notify_caller s w p q k e seq ps fd w0 :
  caller s w p q k e seq ps → CommunicatorEpoll.tls w0 = CommunicatorEpoll.tls w →
  CommunicatorEpoll.objects w0 = CommunicatorEpoll.objects w →
  CommunicatorEpoll.epolls w0 = CommunicatorEpoll.epolls w →
  ∃ w', notify address k p q fd w0 = Ok w' ∧ CommunicatorEpoll.notified w' e seq q ∧
    CommunicatorEpoll.same_but_notify w0 w'.
Proof.
  intros Hs Ht Ho He. destruct (cl_data _ _ _ _ _ _ _ _ Hs) as (d & l & Hd & _ & _ & Hseq).
  destruct (cl_object _ _ _ _ _ _ _ _ Hs) as (x & Hx & Hxe).
  unfold notify. rewrite Ho, Hx. cbn [deref mbind outcome_bind]. rewrite Ht, Hd.
  cbn [deref mbind outcome_bind]. rewrite Hseq, Nat2Z.id, Hxe.
  apply CommunicatorEpoll.notify_spec. destruct (cl_notify _ _ _ _ _ _ _ _ Hs) as (c & n & Hn).
  exists c, n. by rewrite He.
Qed.

(** A caller after what does not concern it. *)
Lemma caller_frame s w w' p q k e seq ps ps' :
  caller s w p q k e seq ps → CommunicatorEpoll.tls w' = CommunicatorEpoll.tls w →
  CommunicatorEpoll.objects w' = CommunicatorEpoll.objects w →
  CommunicatorEpoll.notifiable w' e seq → CommunicatorEpoll.queued w' q 1000 ps' →
  caller s w' p q k e seq ps'.
Proof. intros Hs Ht Ho Hn Hq. split; try done; rewrite ?Ht, ?Ho; apply Hs. Qed.

(** The two notifications that [enqueue] makes when the queue is full. *)
Lemma notify_twice s w p q k e seq ps fd :
  caller s w p q k e seq ps →
  ∃ w', (w ← notify address k p q fd w; notify address k p q fd w) = Ok w' ∧
    caller s w' p q k e seq ps ∧ CommunicatorEpoll.heap w' = CommunicatorEpoll.heap w.
Proof.
  intros Hs. destruct (notify_caller s w p q k e seq ps fd w Hs) as
    (w2 & -> & Hnd2 & Ho2 & Hq2 & Hh2 & _ & _ & Ht2 & _); [done..|]. cbn [mbind outcome_bind].
  assert (caller s w2 p q k e seq ps) as Hs2.
  { eapply caller_frame; [done..| |]; [by eapply CommunicatorEpoll.notified_notifiable|].
    unfold CommunicatorEpoll.queued. rewrite Hq2. apply Hs. }
  destruct (notify_caller s w2 p q k e seq ps fd w2 Hs2) as
    (w3 & -> & Hnd3 & Ho3 & Hq3 & Hh3 & _ & _ & Ht3 & _); [done..|].
  exists w3. split; [done|]. split; [|by rewrite Hh3].
  eapply caller_frame; [done..| |]; [by eapply CommunicatorEpoll.notified_notifiable|].
  unfold CommunicatorEpoll.queued. rewrite Hq3. apply Hs2.
Qed.

Lemma enqueue_caller s w p q k e seq ps msg fd :
  caller s w p q k e seq ps → zlen ps < 1000 →
  ∃ w', enqueue address k p q msg fd w = Ok (true, w') ∧ caller s w' p q k e seq (ps ++ [msg]) ∧
    CommunicatorEpoll.notified w' e seq q ∧
    CommunicatorEpoll.objects w' = CommunicatorEpoll.objects w ∧
    CommunicatorEpoll.heap w' = CommunicatorEpoll.heap w ∧
    CommunicatorEpoll.events w' = CommunicatorEpoll.events w ∧
    CommunicatorEpoll.woken w' = CommunicatorEpoll.woken w ∧
    CommunicatorEpoll.next w' = CommunicatorEpoll.next w ∧
    CommunicatorEpoll.tls w' = CommunicatorEpoll.tls w ∧
    (∀ q', q' ≠ q → CommunicatorEpoll.queues w' !! q' = CommunicatorEpoll.queues w !! q') ∧
    (∀ e', CommunicatorEpoll.async_state w' e' = CommunicatorEpoll.async_state w e').
Proof.
  intros Hs Hl. destruct (cl_queue _ _ _ _ _ _ _ _ Hs) as (Q & HQ & Hr).
  unfold enqueue. rewrite HQ. cbn [deref mbind outcome_bind].
  pose proof (LoopQueue.push_back_empty_spec 1000 Q ps msg Hr ltac:(lia)) as Hp.
  rewrite (proj2 (Z.ltb_lt _ _) Hl) in Hp. destruct Hp as (Q' & -> & Hr').
  cbn [mbind outcome_bind negb].
  destruct (notify_caller s w p q k e seq ps fd
    (CommunicatorEpoll.set_queues (<[q := Q']> (CommunicatorEpoll.queues w)) w) Hs)
    as (w' & -> & Hn & Hsame); [done..|]. cbn [mbind outcome_bind].
  destruct Hsame as (Ho & Hq & Hh & Hev & Hwo & Ht & Hnx & Has).
  exists w'. split; [done|]. split; [|split; [done|]].
  - split; try apply Hs.
    + rewrite Ht. apply Hs.
    + exists Q'. rewrite Hq. split; [apply lookup_insert_eq|done].
    + rewrite Ho. apply Hs.
    + by eapply CommunicatorEpoll.notified_notifiable.
  - do 6 (split; [done|]). split; [|exact Has].
    intros q' Hq'. rewrite Hq. by apply lookup_insert_ne.
Qed.

(** A thread that makes its first call becomes such a caller. *)
Lemma select_first s w p k e x :
  sptd s = Some p → objectProxyNum_ s = 1 → objectProxy_ s = [k] → queueSize_ s = 1000 →
  ServantProxyThreadData.datas (CommunicatorEpoll.tls w) !! p = Some ServantProxyThreadData.new →
  CommunicatorEpoll.objects w !! k = Some x → Object.communicatorEpoll_ x = e →
  CommunicatorEpoll.notifiable w e 0 →
  ∃ w', selectNetThreadInfo s p w = Ok (k, Some (CommunicatorEpoll.next w), w') ∧
    caller s w' p (CommunicatorEpoll.next w) k e 0 [] ∧
    CommunicatorEpoll.objects w' = CommunicatorEpoll.objects w ∧
    CommunicatorEpoll.heap w' = CommunicatorEpoll.heap w ∧
    CommunicatorEpoll.epolls w' = CommunicatorEpoll.epolls w ∧
    CommunicatorEpoll.woken w' = CommunicatorEpoll.woken w ∧
    CommunicatorEpoll.next w' = S (CommunicatorEpoll.next w) ∧
    CommunicatorEpoll.events w' = CommunicatorEpoll.events w.
Proof.
  intros Hp Hnum Hobj Hsize Hd Hx He Hn.
  destruct (LoopQueue.new_spec (T := nat) 1000) as (Q & HQ & Hr); [lia|].
  unfold selectNetThreadInfo. rewrite Hd. cbn [deref mbind outcome_bind]. rewrite Hnum, Hsize.
  change (negb _) with true. cbv iota. change (Z.to_nat 1) with 1%nat. cbn [make_queues].
  rewrite HQ. cbn [mbind outcome_bind]. unfold mem_write at 1. cbn [mbind outcome_bind].
  unfold select. rewrite Hnum. change (1 =? 1) with true. unfold object_at. rewrite Hobj.
  cbn. eexists. split; [done|]. split; [|done].
  split; try done; cbn.
  - eexists _, _. rewrite lookup_insert_eq. split; [done|]. split; [done|]. split; [done|done].
  - exists Q. split; [apply lookup_insert_eq|done].
  - by exists x.
Qed.

(** A proxy that no thread has used yet. *)
Record unused s w (self k e : nat) : Prop := {
  un_sptd : sptd s = None;
  un_num : objectProxyNum_ s = 1;
  un_proxy : objectProxy_ s = [k];
  un_size : queueSize_ s = 1000;
  un_data : ServantProxyThreadData.first_use self (CommunicatorEpoll.tls w);
  un_object : ∃ x, CommunicatorEpoll.objects w !! k = Some x ∧ Object.communicatorEpoll_ x = e;
  un_notify : CommunicatorEpoll.notifiable w e 0
}.

(** The first call is like one of a thread that is already such a caller. *)
Lemma invoke_first self env msg s w k e :
  unused s w self k e → (∃ key, created env = Some key ∧ key ≠ 0) → setspecific env = 0 →
  ∃ p s' w', invoke address self env msg s w = invoke address self env msg s' w' ∧
    caller s' w' p (CommunicatorEpoll.next w) k e 0 [] ∧
    CommunicatorEpoll.objects w' = CommunicatorEpoll.objects w ∧
    CommunicatorEpoll.heap w' = CommunicatorEpoll.heap w ∧
    CommunicatorEpoll.woken w' = CommunicatorEpoll.woken w ∧
    CommunicatorEpoll.next w' = S (CommunicatorEpoll.next w) ∧
    CommunicatorEpoll.events w' = CommunicatorEpoll.events w ∧
    CommunicatorEpoll.epolls w' = CommunicatorEpoll.epolls w.
Proof.
  intros Hs Hkey Hret.
  destruct (un_data _ _ _ _ _ Hs (created env) (or_intror Hkey)) as (p & tls & Hg & Hd).
  destruct (un_object _ _ _ _ _ Hs) as (x & Hx & Hxe). rewrite <- Hret in Hg.
  set (s' := mk (Some p) (objectProxy_ s) (objectProxyNum_ s) (queueSize_ s)).
  destruct (select_first s' (CommunicatorEpoll.set_tls tls w) p k e x)
    as (w' & Hsel & Hc & Ho & Hh & Hep & Hwo & Hnx & Hev);
    [done|apply Hs|apply Hs|apply Hs|done|done|done|apply Hs|].
  exists p, s', w'. split; [|split; [done|]; do 5 (split; [done|]); exact Hep].
  unfold invoke at 1. rewrite (un_sptd _ _ _ _ _ Hs), Hg. cbn [mbind outcome_bind].
  fold s'. cbn [deref mbind outcome_bind]. rewrite Hsel. cbn [mbind outcome_bind].
  unfold invoke. cbn [sptd s' mbind outcome_bind objectProxy_ objectProxyNum_ queueSize_].
  replace (CommunicatorEpoll.set_tls (CommunicatorEpoll.tls w') w') with w' by by destruct w'.
  cbn [deref mbind outcome_bind]. fold s'. by rewrite (select_caller s' w' p _ k e 0 [] Hc).
Qed.

(** What [invoke] stores in the message. *)
Definition invoked (env : answers) (k : nat) (m : Request.ReqMessage) : Request.ReqMessage :=
  prepare (tv_sec env * 1000 + tv_usec env `div` 1000) k m.

(** The first part of [invoke] for a caller. *)
Lemma invoke_caller self env msg s w p q k e seq ps m :
  caller s w p q k e seq ps → CommunicatorEpoll.heap w !! msg = Some m →
  invoke address self env msg s w =
  ('(queued, w) ← enqueue address k p q msg (socket env)
       (CommunicatorEpoll.set_heap (<[msg := invoked env k m]> (CommunicatorEpoll.heap w)) w);
   if bool_decide (Request.type m = Request.SYNC_CALL) then
     m ← (if (queued : bool) then deref (CommunicatorEpoll.heap w !! msg) else Undef);
     Ok (negb (Request.monitorFin m), s, w)
   else Ok (false, s, w)).
Proof.
  intros Hs Hm. unfold invoke. rewrite (cl_sptd _ _ _ _ _ _ _ _ Hs). cbn [mbind outcome_bind].
  replace (CommunicatorEpoll.set_tls (CommunicatorEpoll.tls w) w) with w by by destruct w.
  replace (mk (Some p) (objectProxy_ s) (objectProxyNum_ s) (queueSize_ s)) with s
    by (rewrite <- (cl_sptd _ _ _ _ _ _ _ _ Hs); by destruct s).
  cbn [deref mbind outcome_bind]. rewrite (select_caller s w p q k e seq ps Hs).
  cbn [mbind outcome_bind]. rewrite Hm. done.
Qed.

Lemma caller_heap h s w p q k e seq ps :
  caller s w p q k e seq ps → caller s (CommunicatorEpoll.set_heap h w) p q k e seq ps.
Proof. intros []. by split. Qed.

Lemma invoke_spec self env msg s w p q k e seq ps m :
  caller s w p q k e seq ps → zlen ps < 1000 → CommunicatorEpoll.heap w !! msg = Some m →
  ∃ w', invoke address self env msg s w
          = Ok (bool_decide (Request.type m = Request.SYNC_CALL), s, w') ∧
    caller s w' p q k e seq (ps ++ [msg]) ∧ CommunicatorEpoll.notified w' e seq q ∧
    CommunicatorEpoll.objects w' = CommunicatorEpoll.objects w ∧
    CommunicatorEpoll.heap w' = <[msg := invoked env k m]> (CommunicatorEpoll.heap w) ∧
    CommunicatorEpoll.events w' = CommunicatorEpoll.events w ∧
    CommunicatorEpoll.woken w' = CommunicatorEpoll.woken w ∧
    CommunicatorEpoll.next w' = CommunicatorEpoll.next w ∧
    CommunicatorEpoll.tls w' = CommunicatorEpoll.tls w ∧
    (∀ q', q' ≠ q → CommunicatorEpoll.queues w' !! q' = CommunicatorEpoll.queues w !! q') ∧
    (∀ e', CommunicatorEpoll.async_state w' e' = CommunicatorEpoll.async_state w e').
Proof.
  intros Hs Hl Hm. rewrite (invoke_caller self env msg s w p q k e seq ps m Hs Hm).
  destruct (enqueue_caller s _ p q k e seq ps msg (socket env)
    (caller_heap (<[msg := invoked env k m]> (CommunicatorEpoll.heap w)) _ _ _ _ _ _ _ _ Hs) Hl)
    as (w' & -> & Hs' & Hn & Ho & Hh & Hrest). cbn [mbind outcome_bind].
  exists w'. split; [|done]. case_bool_decide as Hty; [|done].
  rewrite Hh. cbn [CommunicatorEpoll.set_heap CommunicatorEpoll.heap]. rewrite lookup_insert_eq.
  cbn. by rewrite bool_decide_true.
Qed.

(** A proxy that a thread [self] can call with, for the first time or again; its
    queue is empty. *)
Definition usable s w (self k e seq : nat) : Prop :=
  (∃ p q, caller s w p q k e seq []) ∨ seq = 0%nat ∧ unused s w self k e.

(** The system makes a key other than 0 when a thread needs one. *)
Definition gives_key (env : answers) : Prop :=
  (∃ key, created env = Some key ∧ key ≠ 0) ∧ setspecific env = 0.

Lemma usable_frame s w w' self k e seq :
  usable s w self k e seq → CommunicatorEpoll.tls w' = CommunicatorEpoll.tls w →
  CommunicatorEpoll.objects w' = CommunicatorEpoll.objects w →
  CommunicatorEpoll.epolls w' = CommunicatorEpoll.epolls w →
  CommunicatorEpoll.queues w' = CommunicatorEpoll.queues w → usable s w' self k e seq.
Proof.
  intros Hu Ht Ho He Hq.
  assert (∀ n, CommunicatorEpoll.notifiable w e n → CommunicatorEpoll.notifiable w' e n) as Hnf
    by (unfold CommunicatorEpoll.notifiable; by rewrite He).
  destruct Hu as [(p & q & Hc)|[-> Hc]].
  - left. exists p, q. eapply caller_frame; [done..|apply Hnf, Hc|].
    unfold CommunicatorEpoll.queued. rewrite Hq. apply Hc.
  - right. split; [done|]. destruct Hc. split; rewrite ?Ht, ?Ho; auto.
Qed.

Lemma invoke_usable self env msg s w k e seq m :
  usable s w self k e seq → gives_key env → CommunicatorEpoll.heap w !! msg = Some m →
  ∃ p q s' w', invoke address self env msg s w
          = Ok (bool_decide (Request.type m = Request.SYNC_CALL), s', w') ∧
    caller s' w' p q k e seq [msg] ∧ CommunicatorEpoll.notified w' e seq q ∧
    CommunicatorEpoll.objects w' = CommunicatorEpoll.objects w ∧
    CommunicatorEpoll.heap w' = <[msg := invoked env k m]> (CommunicatorEpoll.heap w) ∧
    CommunicatorEpoll.woken w' = CommunicatorEpoll.woken w ∧
    (CommunicatorEpoll.next w ≤ CommunicatorEpoll.next w')%nat ∧
    CommunicatorEpoll.events w' = CommunicatorEpoll.events w ∧
    ∀ e', CommunicatorEpoll.async_state w' e' = CommunicatorEpoll.async_state w e'.
Proof.
  intros [(p & q & Hs)|[-> Hs]] [Hkey Hret] Hm.
  - destruct (invoke_spec self env msg s w p q k e seq [] m Hs ltac:(done) Hm)
      as (w' & Hi & Hc & Hn & Ho & Hh & Hev & Hwo & Hnx & _ & _ & Has).
    exists p, q, s, w'. rewrite Hnx. by split_and!.
  - destruct (invoke_first self env msg s w k e Hs Hkey Hret)
      as (p & s1 & w1 & -> & Hs1 & Ho1 & Hh1 & Hwo1 & Hnx1 & Hev1 & Hep1).
    rewrite <- Hh1 in Hm.
    destruct (invoke_spec self env msg s1 w1 p _ k e 0 [] m Hs1 ltac:(done) Hm)
      as (w' & Hi & Hc & Hn & Ho & Hh & Hev & Hwo & Hnx & _ & _ & Has).
    exists p, (CommunicatorEpoll.next w), s1, w'. rewrite Ho, Ho1, Hh, Hh1, Hwo, Hwo1, Hev, Hev1.
    split; [done|]. do 5 (split; [done|]). split; [lia|]. split; [done|]. intros e'.
    rewrite Has. unfold CommunicatorEpoll.async_state. by rewrite Hep1.
Qed.

(** *** Several asynchronous calls *)

(** A function, a request for it, and whether there is a callback. *)
Definition call : Type := bytes * bytes * bool.

Definition payload (c : call) : bytes := c.1.1 ++ Wire.colon :: c.1.2.

(** The message of a call when the network thread takes it. *)
Definition async_message (env : answers) (k : nat) (c : call) : Request.ReqMessage :=
  invoked env k (message_of Request.ASYNC_CALL c.2 c.1.1 c.1.2).

Fixpoint call_all (self : nat) (env : answers) (calls : list call) s w : outcome (t * world) :=
  match calls with
  | [] => Ok (s, w)
  | (func_name, request, cb) :: calls =>
      '(s, w) ← tars_invoke_async address self env func_name request cb s w;
      call_all self env calls s w
  end.

(** The parts of the world that calls leave alone. *)
Definition same_but_calls w w' : Prop :=
  CommunicatorEpoll.objects w' = CommunicatorEpoll.objects w ∧
  CommunicatorEpoll.events w' = CommunicatorEpoll.events w ∧
  CommunicatorEpoll.woken w' = CommunicatorEpoll.woken w ∧
  ∀ e, CommunicatorEpoll.async_state w' e = CommunicatorEpoll.async_state w e.

Lemma call_one self env c s w p q k e seq ps :
  caller s w p q k e seq ps → zlen ps < 1000 →
  ∃ w', tars_invoke_async address self env c.1.1 c.1.2 c.2 s w = Ok (s, w') ∧
    caller s w' p q k e seq (ps ++ [CommunicatorEpoll.next w]) ∧
    CommunicatorEpoll.notified w' e seq q ∧ same_but_calls w w' ∧
    CommunicatorEpoll.heap w' = <[CommunicatorEpoll.next w := async_message env k c]>
                                  (CommunicatorEpoll.heap w) ∧
    CommunicatorEpoll.next w' = S (CommunicatorEpoll.next w).
Proof.
  intros Hs Hl. unfold tars_invoke_async, new_message. cbv zeta. set (w0 := CommunicatorEpoll.set_next _ _).
  assert (caller s w0 p q k e seq ps) as Hs0 by (destruct Hs; by split).
  assert (CommunicatorEpoll.heap w0 !! CommunicatorEpoll.next w =
    Some (message_of Request.ASYNC_CALL c.2 c.1.1 c.1.2)) as Hm by apply lookup_insert_eq.
  destruct (invoke_spec self env _ s w0 p q k e seq ps _ Hs0 Hl Hm)
    as (w' & -> & Hs' & Hn & Ho & Hh & Hev & Hwo & Hnx & _ & _ & Has).
  cbn [mbind outcome_bind]. exists w'. split; [done|]. split; [done|]. split; [done|].
  split; [done|]. split; [|done]. rewrite Hh. apply insert_insert_eq.
Qed.

(** The first call of a thread, or one after its queue was emptied. *)
Lemma call_usable self env c s w k e seq :
  usable s w self k e seq → gives_key env →
  ∃ p q s' w', tars_invoke_async address self env c.1.1 c.1.2 c.2 s w = Ok (s', w') ∧
    caller s' w' p q k e seq [CommunicatorEpoll.next w] ∧ CommunicatorEpoll.notified w' e seq q ∧
    same_but_calls w w' ∧
    CommunicatorEpoll.heap w' = <[CommunicatorEpoll.next w := async_message env k c]>
                                  (CommunicatorEpoll.heap w) ∧
    (CommunicatorEpoll.next w < CommunicatorEpoll.next w')%nat.
Proof.
  intros Hs Hkey. unfold tars_invoke_async, new_message. cbv zeta.
  set (m0 := message_of _ _ _ _). set (w0 := CommunicatorEpoll.set_next _ _).
  assert (usable s w0 self k e seq) as Hs0 by by apply (usable_frame _ w).
  assert (CommunicatorEpoll.heap w0 !! CommunicatorEpoll.next w = Some m0) as Hm0 by apply lookup_insert_eq.
  destruct (invoke_usable self env _ s w0 k e seq m0 Hs0 Hkey Hm0)
    as (p & q & s1 & w1 & -> & Hs1 & Hn1 & Ho1 & Hh1 & Hwo1 & Hnx1 & Hev1 & Has1).
  cbn [mbind outcome_bind]. exists p, q, s1, w1. do 3 (split; [done|]).
  split; [by split; [|split; [|split]]|]. split; [|exact Hnx1]. rewrite Hh1. apply insert_insert_eq.
Qed.

Lemma call_all_spec self env k p q e seq calls : ∀ s w ps,
  caller s w p q k e seq ps → zlen ps + zlen calls ≤ 1000 → calls ≠ [] →
  ∃ w', call_all self env calls s w = Ok (s, w') ∧
    caller s w' p q k e seq (ps ++ List.seq (CommunicatorEpoll.next w) (length calls)) ∧
    CommunicatorEpoll.notified w' e seq q ∧ same_but_calls w w' ∧
    (∀ i c, calls !! i = Some c →
       CommunicatorEpoll.heap w' !! (CommunicatorEpoll.next w + i)%nat
         = Some (async_message env k c)) ∧
    (∀ r, (r < CommunicatorEpoll.next w)%nat →
       CommunicatorEpoll.heap w' !! r = CommunicatorEpoll.heap w !! r).
Proof.
  induction calls as [|c calls IH]; intros s w ps Hs Hl Hne; [done|].
  cbn [length] in Hl. destruct (call_one self env c s w p q k e seq ps Hs) as
    (w1 & H1 & Hs1 & Hn1 & (Ho1 & Hev1 & Hwo1 & Has1) & Hh1 & Hnx1); [lia|].
  destruct c as [[func_name request] cb] eqn:Hc. cbn [call_all fst snd] in *. rewrite H1.
  cbn [mbind outcome_bind]. destruct (decide (calls = [])) as [->|Hcs].
  { exists w1. split; [done|]. split; [done|]. split; [done|]. split; [done|].
    split; [|intros r Hr; by rewrite Hh1, lookup_insert_ne by lia].
    intros [|i] c' Hi; [|done]. injection Hi as <-. rewrite Nat.add_0_r, Hh1. apply lookup_insert_eq. }
  destruct (IH s w1 (ps ++ [CommunicatorEpoll.next w]) Hs1) as
    (w2 & -> & Hs2 & Hn2 & (Ho2 & Hev2 & Hwo2 & Has2) & Hh2 & Hold2);
    [rewrite length_app; cbn; lia|done|].
  exists w2. split; [done|]. split.
  { rewrite <- app_assoc in Hs2. by rewrite Hnx1 in Hs2. }
  split; [done|]. split.
  { split; [by rewrite Ho2|]. split; [by rewrite Hev2|]. split; [by rewrite Hwo2|].
    intros e'. by rewrite Has2. }
  rewrite Hnx1 in *. split.
  - intros [|i] c' Hi; cbn in Hi.
    + injection Hi as <-. rewrite Nat.add_0_r, Hold2, Hh1 by lia. apply lookup_insert_eq.
    + rewrite <- (Hh2 i c' Hi). f_equal. lia.
  - intros r Hr. rewrite Hold2, Hh1, lookup_insert_ne by lia. done.
Qed.

(** The other queues stay as they are. *)
Lemma call_one_queues self env c s w p q k e seq ps s' w' :
  caller s w p q k e seq ps → zlen ps < 1000 →
  tars_invoke_async address self env c.1.1 c.1.2 c.2 s w = Ok (s', w') →
  ∀ q', q' ≠ q → CommunicatorEpoll.queues w' !! q' = CommunicatorEpoll.queues w !! q'.
Proof.
  intros Hs Hl. unfold tars_invoke_async, new_message. cbv zeta. set (w0 := CommunicatorEpoll.set_next _ _).
  assert (caller s w0 p q k e seq ps) as Hs0 by (destruct Hs; by split).
  assert (CommunicatorEpoll.heap w0 !! CommunicatorEpoll.next w =
    Some (message_of Request.ASYNC_CALL c.2 c.1.1 c.1.2)) as Hm by apply lookup_insert_eq.
  destruct (invoke_spec self env _ s w0 p q k e seq ps _ Hs0 Hl Hm)
    as (w1 & -> & _ & _ & _ & _ & _ & _ & _ & _ & Hq & _).
  cbn [mbind outcome_bind]. intros [= _ <-] q' Hne. by rewrite (Hq q' Hne).
Qed.

Lemma call_all_others self env k p q e seq calls : ∀ s w ps s' w',
  caller s w p q k e seq ps → zlen ps + zlen calls ≤ 1000 → call_all self env calls s w = Ok (s', w') →
  (∀ q', q' ≠ q → CommunicatorEpoll.queues w' !! q' = CommunicatorEpoll.queues w !! q') ∧
  (CommunicatorEpoll.next w ≤ CommunicatorEpoll.next w')%nat.
Proof.
  induction calls as [|c calls IH]; intros s w ps s' w' Hs Hl Hc; [by injection Hc as <- <-|].
  cbn [length] in Hl. destruct (call_one self env c s w p q k e seq ps Hs) as
    (w1 & H1 & Hs1 & _ & _ & _ & Hnx1); [lia|].
  pose proof (call_one_queues self env c s w p q k e seq ps _ _ Hs ltac:(lia) H1) as Hq.
  destruct c as [[func_name request] cb]. cbn [call_all fst snd] in *. rewrite H1 in Hc.
  cbn [mbind outcome_bind] in Hc.
  destruct (IH s w1 _ s' w' Hs1) as [Hq' Hnx]; [rewrite length_app; cbn; lia|done|].
  split; [|lia]. intros q' Hne. by rewrite (Hq' q' Hne), (Hq q' Hne).
Qed.

End calls.

(** The messages [ms] that wait in the queue are sent together. *)
Lemma messages_sent log address s w p q k e seq n id bs ps ms events sends :
  caller s w p q k e seq ps → CommunicatorEpoll.notified w e seq q → NoDup ps →
  Forall2 (CommunicatorEpoll.callable w k) ps ms →
  Forall2 CommunicatorEpoll.takes ms (CommunicatorEpoll.sends sends) →
  CommunicatorEpoll.connected w k e (n + zlen ps) id bs → 0 ≤ n →
  ∃ w', CommunicatorEpoll.handle log address e (CommunicatorEpoll.NotifyAt seq) events sends w = Ok w' ∧
    caller s w' p q k e seq [] ∧ CommunicatorEpoll.notified w' e seq q ∧
    CommunicatorEpoll.connected w' k e n (id + zlen ps) (bs ++ Wire.stream id (Request.request <$> ms)) ∧
    CommunicatorEpoll.all_sent w w' k id ps ms ∧
    CommunicatorEpoll.epolls w' = CommunicatorEpoll.epolls w ∧
    CommunicatorEpoll.events w' = CommunicatorEpoll.events w ∧
    CommunicatorEpoll.woken w' = CommunicatorEpoll.woken w ∧
    CommunicatorEpoll.next w' = CommunicatorEpoll.next w.
Proof.
  intros Hs Hn1 Hnd Hcall Htakes Hc Hn.
  destruct (CommunicatorEpoll.handle_queue_spec log address e (Z.of_nat seq) q k e 1000 n ps _ _ w id bs
    (cl_queue _ _ _ _ _ _ _ _ Hs) Hnd Hcall Htakes Hc Hn)
    as (w2 & H2 & Hq2 & (_ & He2 & Hev2 & Hwo2 & Ht2 & Hnx2) & Hall & Hc2).
  pose proof (CommunicatorEpoll.notified_epolls _ _ _ _ _ He2 Hn1) as Hn2.
  exists w2. split; [by rewrite (CommunicatorEpoll.handle_notified log address e seq q)|].
  split; [|done]. split; try apply Hs; try done;
    [rewrite Ht2; apply Hs| |by eapply CommunicatorEpoll.notified_notifiable].
  destruct Hc2 as (x & Hx & He & _). by exists x.
Qed.

Lemma async_callable w env k ps calls :
  length ps = length calls →
  (∀ (i : nat) r c, ps !! i = Some r → calls !! i = Some c →
     CommunicatorEpoll.heap w !! r = Some (async_message env k c)) →
  Forall (λ c, zlen (payload c) < 2 ^ 30) calls →
  Forall2 (CommunicatorEpoll.callable w k) ps (async_message env k <$> calls).
Proof.
  intros Hlps Hh Hsz. apply Forall2_same_length_lookup. split; [by rewrite length_fmap|].
  intros i r m Hr (c & -> & Hcc)%list_lookup_fmap_Some. split; [by apply (Hh i)|]. split; [done|].
  split; [by right|]. by apply (Forall_lookup_1 _ _ _ _ Hsz Hcc).
Qed.

(** The messages of asynchronous calls. *)
Lemma sent_together log address env s w p q k e seq n id bs ps calls events sends :
  caller s w p q k e seq ps → CommunicatorEpoll.notified w e seq q →
  NoDup ps → length ps = length calls →
  (∀ (i : nat) r c, ps !! i = Some r → calls !! i = Some c →
     CommunicatorEpoll.heap w !! r = Some (async_message env k c)) →
  Forall (λ c, zlen (payload c) < 2 ^ 30) calls →
  Forall2 CommunicatorEpoll.takes (async_message env k <$> calls) (CommunicatorEpoll.sends sends) →
  CommunicatorEpoll.connected w k e (n + zlen calls) id bs → 0 ≤ n →
  ∃ w', CommunicatorEpoll.handle log address e (CommunicatorEpoll.NotifyAt seq) events sends w = Ok w' ∧
    caller s w' p q k e seq [] ∧ CommunicatorEpoll.notified w' e seq q ∧
    CommunicatorEpoll.connected w' k e n (id + zlen calls) (bs ++ Wire.stream id (payload <$> calls)) ∧
    CommunicatorEpoll.all_sent w w' k id ps (async_message env k <$> calls) ∧
    CommunicatorEpoll.epolls w' = CommunicatorEpoll.epolls w ∧
    CommunicatorEpoll.events w' = CommunicatorEpoll.events w ∧
    CommunicatorEpoll.woken w' = CommunicatorEpoll.woken w.
Proof.
  intros Hs Hn1 Hnd Hlps Hh Hsz Htakes Hc Hn. rewrite <- Hlps in Hc.
  destruct (messages_sent log address s w p q k e seq n id bs ps (async_message env k <$> calls) events sends
    Hs Hn1 Hnd) as (w' & H1 & H2 & H3 & Hc' & H4 & H5 & H6 & H7 & _); [|done..|].
  - by apply async_callable.
  - rewrite Hlps, <- list_fmap_compose in Hc'. by exists w'.
Qed.

(** ** Properties *)

(** Requests made asynchronously by one thread, up to the thousand its queue
    holds, are taken by the network thread in one event: they go on the wire whole
    and in the order of the calls, behind what was written before, each with the
    next id of the object, every message is filed under its id with the callback
    it was given, and the queue is empty again. *)
Theorem calls_reach_the_wire log address self env s w p q k e seq n id bs calls events sends
    (Hs : caller s w p q k e seq []) (Hc : CommunicatorEpoll.connected w k e (n + zlen calls) id bs)
    (Hn : 0 ≤ n) (Hne : calls ≠ []) (Hlen : zlen calls ≤ 1000)
    (Hsz : Forall (λ c, zlen (payload c) < 2 ^ 30) calls)
    (Htakes : Forall2 CommunicatorEpoll.takes (async_message env k <$> calls)
                (CommunicatorEpoll.sends sends)) :
  ∃ w1 w2, call_all address self env calls s w = Ok (s, w1) ∧
    CommunicatorEpoll.handle log address e (CommunicatorEpoll.NotifyAt seq) events sends w1 = Ok w2 ∧
    caller s w2 p q k e seq [] ∧
    CommunicatorEpoll.connected w2 k e n (id + zlen calls)
      (bs ++ Wire.stream id (payload <$> calls)) ∧
    (∀ (i : nat) c, calls !! i = Some c → ∃ m,
       CommunicatorEpoll.outstanding w2 k (id + 1 + Z.of_nat i) (CommunicatorEpoll.next w + i) m ∧
       Request.type m = Request.ASYNC_CALL ∧ Request.callback m = c.2 ∧
       Request.request m = payload c) ∧
    CommunicatorEpoll.events w2 = CommunicatorEpoll.events w ∧
    CommunicatorEpoll.woken w2 = CommunicatorEpoll.woken w.
Proof.
  destruct (call_all_spec address self env k p q e seq calls s w [] Hs Hlen Hne)
    as (w1 & H1 & Hs1 & Hn1 & (Ho1 & Hev1 & Hwo1 & _) & Hh1 & _).
  destruct (sent_together log address env s w1 p q k e seq n id bs
    (List.seq (CommunicatorEpoll.next w) (length calls)) calls events sends)
    as (w2 & H2 & Hs2 & _ & Hc2 & (Hall & _) & _ & Hev2 & Hwo2); try done.
  { apply NoDup_seq. }
  { apply length_seq. }
  { intros i r c [-> _]%lookup_seq Hc'. by apply Hh1. }
  { destruct Hc as (x & Hx & Hrest). exists x. by rewrite Ho1. }
  exists w1, w2. do 4 (split; [done|]). split; [|by rewrite Hev2, Hwo2].
  intros i c Hi. eexists. split; [|split; [|split]].
  - apply (Hall i _ (async_message env k c)); [|apply list_lookup_fmap_Some; by exists c].
    apply lookup_seq. split; [done|by eapply lookup_lt_Some].
  - done.
  - done.
  - done.
Qed.

(** A call that finds a thousand messages in the thread's queue is lost: an
    asynchronous one returns as if all were well, its message deleted and its
    callback never to be called, and a synchronous one reads through the pointer
    that [invoke] has just set to null. *)
Theorem full_queue_loses_call address self env s w p q k e seq ps msg m
    (Hs : caller s w p q k e seq ps) (Hfull : zlen ps = 1000)
    (Hm : CommunicatorEpoll.heap w !! msg = Some m) :
  match Request.type m with
  | Request.SYNC_CALL => invoke address self env msg s w = Undef
  | _ => ∃ w', invoke address self env msg s w = Ok (false, s, w') ∧
           caller s w' p q k e seq ps ∧
           CommunicatorEpoll.heap w' = delete msg (CommunicatorEpoll.heap w)
  end.
Proof.
  rewrite (invoke_caller address self env msg s w p q k e seq ps m Hs Hm).
  destruct (cl_queue _ _ _ _ _ _ _ _ Hs) as (Q & HQ & Hr).
  set (w0 := CommunicatorEpoll.set_heap _ w).
  pose proof (LoopQueue.push_back_empty_spec 1000 Q ps msg Hr ltac:(lia)) as Hp.
  rewrite (proj2 (Z.ltb_ge _ _)) in Hp by lia.
  set (w1 := CommunicatorEpoll.set_heap (delete msg (CommunicatorEpoll.heap w))
               (CommunicatorEpoll.set_queues (<[q := Q]> (CommunicatorEpoll.queues w)) w)).
  destruct (notify_twice address s w1 p q k e seq ps (socket env)) as (w3 & Hn & Hs3 & Hh3).
  { apply (caller_frame s w _ _ _ _ _ _ ps); try done; [apply Hs|].
    exists Q. split; [apply lookup_insert_eq|done]. }
  assert (enqueue address k p q msg (socket env) w0 = Ok (false, w3)) as ->.
  { unfold enqueue. change (CommunicatorEpoll.queues w0) with (CommunicatorEpoll.queues w).
    rewrite HQ. cbn [deref mbind outcome_bind]. rewrite Hp. cbn [mbind outcome_bind negb].
    unfold Request.delete_msg. change (CommunicatorEpoll.heap _) with
      (<[msg := invoked env k m]> (CommunicatorEpoll.heap w)).
    rewrite lookup_insert_eq. cbn [deref mbind outcome_bind]. rewrite delete_insert_eq.
    change (CommunicatorEpoll.set_heap (delete msg (CommunicatorEpoll.heap w)) _) with w1.
    destruct (notify _ _ _ _ _ w1) as [w2| | | |]; cbn [mbind outcome_bind] in *; try done.
    by rewrite Hn. }
  cbn [mbind outcome_bind].
  destruct (Request.type m) eqn:Hty; cbn; [done|..]; exists w3; by rewrite Hh3.
Qed.

(** *** A request that nobody comes to *)

(** A thread makes some calls, if any, and then the network thread looks at entry
    [seq] of [notify_]. *)
Record further := mk_further {
  f_env : answers;
  f_calls : list call;
  f_events : Z;
  f_answers : CommunicatorEpoll.answers
}.

Fixpoint go_on (log : outcome unit) (address : nat → CommunicatorEpoll.fd_pointer → Z) (self e seq : nat)
    (ls : list further) s (w : world) : outcome (t * world) :=
  match ls with
  | [] => Ok (s, w)
  | l :: ls =>
      '(s, w) ← call_all address self (f_env l) (f_calls l) s w;
      w ← CommunicatorEpoll.handle log address e (CommunicatorEpoll.NotifyAt seq) (f_events l) (f_answers l) w;
      go_on log address self e seq ls s w
  end.

Definition sendable (k : nat) (l : further) : Prop :=
  zlen (f_calls l) ≤ 1000 ∧ Forall (λ c, zlen (payload c) < 2 ^ 30) (f_calls l) ∧
  (f_calls l ≠ [] →
   Forall2 CommunicatorEpoll.takes (async_message (f_env l) k <$> f_calls l) (CommunicatorEpoll.sends (f_answers l))).

(** Message [msg], which is [m], waits in queue [q1], and [notify_] has [q2]. *)
Definition hidden (w : world) (q1 q2 e seq msg : nat) (m : Request.ReqMessage) : Prop :=
  CommunicatorEpoll.queued w q1 1000 [msg] ∧ CommunicatorEpoll.heap w !! msg = Some m ∧
  CommunicatorEpoll.notified w e seq q2 ∧ (msg < CommunicatorEpoll.next w)%nat.

Lemma hidden_further log address self e seq s w p q1 q2 k msg m n id bs l :
  caller s w p q2 k e seq [] → hidden w q1 q2 e seq msg m → q1 ≠ q2 → sendable k l →
  CommunicatorEpoll.connected w k e (n + zlen (f_calls l)) id bs → 0 ≤ n →
  ∃ w1 w', call_all address self (f_env l) (f_calls l) s w = Ok (s, w1) ∧
    CommunicatorEpoll.handle log address e (CommunicatorEpoll.NotifyAt seq) (f_events l) (f_answers l) w1 = Ok w' ∧
    caller s w' p q2 k e seq [] ∧ hidden w' q1 q2 e seq msg m ∧
    CommunicatorEpoll.connected w' k e n (id + zlen (f_calls l)) (bs ++ Wire.stream id (payload <$> f_calls l)).
Proof.
  intros Hs (Hqd & Hm & Hnot & Hold) Hq (Hlen & Hsz & Htakes) Hc Hn.
  destruct (decide (f_calls l = [])) as [Hnil|Hne].
  { rewrite Hnil in *. exists w, w. cbn [call_all]. split; [done|].
    rewrite (CommunicatorEpoll.handle_notified log address e seq q2) by done.
    rewrite (CommunicatorEpoll.handle_queue_empty _ _ _ _ _ 1000) by apply Hs.
    split; [done|]. split; [done|]. split; [done|]. cbn [fmap list_fmap length] in *.
    change (Wire.stream id []) with (@nil ascii). rewrite app_nil_r, Z.add_0_r in *. exact Hc. }
  destruct (call_all_spec address self (f_env l) k p q2 e seq (f_calls l) s w [] Hs Hlen Hne)
    as (w1 & H1 & Hs1 & Hn1 & (Ho1 & _) & Hh1 & Hh1').
  destruct (call_all_others address self (f_env l) k p q2 e seq (f_calls l) s w [] s w1 Hs Hlen H1) as [Hq1 Hnx].
  set (ps := List.seq (CommunicatorEpoll.next w) (length (f_calls l))) in *.
  assert (msg ∉ ps) as Hnew by (unfold ps; intros [i [-> _]%lookup_seq]%list_elem_of_lookup; lia).
  destruct (sent_together log address (f_env l) s w1 p q2 k e seq n id bs ps (f_calls l) (f_events l) (f_answers l)
    Hs1 Hn1) as (w2 & H2 & Hs2 & Hn2 & Hc2 & (_ & _ & Hh2) & _); auto.
  { apply NoDup_seq. }
  { apply length_seq. }
  { intros i r c [-> _]%lookup_seq Hc'. by apply Hh1. }
  { destruct Hc as (x & Hx & Hrest). exists x. by rewrite Ho1. }
  destruct (CommunicatorEpoll.handle_queue_spec log address e (Z.of_nat seq) q2 k e 1000 n ps
    (async_message (f_env l) k <$> f_calls l) (CommunicatorEpoll.sends (f_answers l)) w1 id bs)
    as (w3 & H3 & _ & ((Q & HQ) & _ & _ & _ & _ & Hnx3) & _); auto.
  { apply Hs1. }
  { apply NoDup_seq. }
  { apply async_callable; [apply length_seq| |done]. intros i r c [-> _]%lookup_seq Hc'. by apply Hh1. }
  { destruct Hc as (x & Hx & Hrest). exists x. unfold ps. by rewrite Ho1, length_seq. }
  assert (w3 = w2) as ->.
  { rewrite (CommunicatorEpoll.handle_notified log address e seq q2) in H2 by done. congruence. }
  exists w1, w2. do 3 (split; [done|]). split; [|exact Hc2]. split; [|split; [|split; [done|lia]]].
  - unfold CommunicatorEpoll.queued. rewrite HQ, lookup_insert_ne, Hq1 by done. exact Hqd.
  - by rewrite (Hh2 msg Hnew), Hh1' by done.
Qed.

(** The calls in [ls]. *)
Definition calls_of (ls : list further) : list call := concat (f_calls <$> ls).

Lemma hidden_for_ever log address self e seq p q1 q2 k msg m n ls : ∀ s w id bs,
  caller s w p q2 k e seq [] → hidden w q1 q2 e seq msg m → q1 ≠ q2 → Forall (sendable k) ls →
  CommunicatorEpoll.connected w k e (n + zlen (calls_of ls)) id bs → 0 ≤ n →
  ∃ w', go_on log address self e seq ls s w = Ok (s, w') ∧ hidden w' q1 q2 e seq msg m ∧
    CommunicatorEpoll.connected w' k e n (id + zlen (calls_of ls))
      (bs ++ Wire.stream id (payload <$> calls_of ls)).
Proof.
  induction ls as [|l ls IH]; intros s w id bs Hs Hh Hq Hok Hc Hn.
  { exists w. do 2 (split; [done|]). change (calls_of []) with (@nil call) in *.
    change (Wire.stream id (payload <$> [])) with (@nil ascii). cbn [length] in *.
    rewrite app_nil_r, Z.add_0_r in *. exact Hc. }
  apply Forall_cons in Hok as [Hl Hok]. change (calls_of (l :: ls)) with (f_calls l ++ calls_of ls) in *.
  rewrite length_app, Nat2Z.inj_add in *.
  destruct (hidden_further log address self e seq s w p q1 q2 k msg m (n + zlen (calls_of ls)) id bs l
    Hs Hh Hq Hl) as (w1 & w2 & H1 & H2 & Hs2 & Hh2 & Hc2); [|lia|].
  { by replace (n + zlen (calls_of ls) + zlen (f_calls l)) with
      (n + (zlen (f_calls l) + zlen (calls_of ls))) by lia. }
  destruct (IH s w2 _ _ Hs2 Hh2 Hq Hok Hc2 Hn) as (w3 & H3 & Hh3 & Hc3).
  exists w3. cbn [go_on]. rewrite H1. cbn [mbind outcome_bind]. rewrite H2. cbn [mbind outcome_bind].
  split; [done|]. split; [done|]. rewrite fmap_app, Wire.stream_app, length_fmap.
  rewrite <- Z.add_assoc, <- app_assoc in Hc3. exact Hc3.
Qed.

(** C38: two threads with proxies of their own, which both use the same entry of
    [notify_] (as all threads do in their first calls) and whose queues are empty,
    get in each other's way: when both call before the network thread gets to look,
    the second call replaces the queue of the first, and the event leads to the
    second thread's request only.  The first thread's request stays in its queue
    however many times the network thread then looks at that entry, also when the
    second thread makes further asynchronous calls in between (up to a thousand
    between two looks, as many as there are ids left, each taken whole by the
    socket): all of these go on the wire. *)
Theorem second_caller_hides_first log address self1 self2 env1 env2 s1 s2 w p1 p2 q1 q2 k1 k2 e seq
    msg1 msg2 m1 m2 n id bs events a
    (Hs1 : caller s1 w p1 q1 k1 e seq []) (Hs2 : caller s2 w p2 q2 k2 e seq [])
    (Hq : q1 ≠ q2) (Hmsg : msg1 ≠ msg2)
    (Hm1 : CommunicatorEpoll.heap w !! msg1 = Some m1)
    (Hm2 : CommunicatorEpoll.heap w !! msg2 = Some m2)
    (Hty : Request.type m2 = Request.SYNC_CALL ∨ Request.type m2 = Request.ASYNC_CALL)
    (Hsz : zlen (Request.request m2) < 2 ^ 30)
    (Hold : (msg1 < CommunicatorEpoll.next w)%nat)
    (Hc : CommunicatorEpoll.connected w k2 e (n + 1) id bs) (Hn : 0 ≤ n)
    (Ha : CommunicatorEpoll.takes (invoked env2 k2 m2) a) :
  let answer := CommunicatorEpoll.mk_answers [a] [] (Transceiver.Room 0) [] in
  ∃ b1 b2 w1 w2 w3, invoke address self1 env1 msg1 s1 w = Ok (b1, s1, w1) ∧
    invoke address self2 env2 msg2 s2 w1 = Ok (b2, s2, w2) ∧
    CommunicatorEpoll.handle log address e (CommunicatorEpoll.NotifyAt seq) events answer w2 = Ok w3 ∧
    hidden w3 q1 q2 e seq msg1 (invoked env1 k1 m1) ∧
    CommunicatorEpoll.connected w3 k2 e n (id + 1) (bs ++ Wire.stream id [Request.request m2]) ∧
    ∀ ls, Forall (sendable k2) ls → zlen (calls_of ls) ≤ n →
      ∃ w4, go_on log address self2 e seq ls s2 w3 = Ok (s2, w4) ∧
        hidden w4 q1 q2 e seq msg1 (invoked env1 k1 m1) ∧
        CommunicatorEpoll.connected w4 k2 e (n - zlen (calls_of ls)) (id + 1 + zlen (calls_of ls))
          (bs ++ Wire.stream id (Request.request m2 :: (payload <$> calls_of ls))).
Proof.
  intros answer.
  destruct (invoke_spec address self1 env1 msg1 s1 w p1 q1 k1 e seq [] m1 Hs1 ltac:(done) Hm1)
    as (w1 & H1 & Hc1 & _ & Ho1 & Hh1 & _ & _ & Hnx1 & Ht1 & Hq1 & _).
  assert (caller s2 w1 p2 q2 k2 e seq []) as Hs2'.
  { eapply caller_frame; [done..|apply Hc1|]. unfold CommunicatorEpoll.queued.
    rewrite Hq1 by done. apply Hs2. }
  assert (CommunicatorEpoll.heap w1 !! msg2 = Some m2) as Hm2' by (by rewrite Hh1, lookup_insert_ne).
  destruct (invoke_spec address self2 env2 msg2 s2 w1 p2 q2 k2 e seq [] m2 Hs2' ltac:(done) Hm2')
    as (w2 & H2 & Hc2 & Hn2 & Ho2 & Hh2 & _ & _ & Hnx2 & Ht2 & Hq2 & _).
  assert (CommunicatorEpoll.callable w2 k2 msg2 (invoked env2 k2 m2)) as Hcall.
  { split; [rewrite Hh2; apply lookup_insert_eq|]. split; [done|]. split; [|done].
    destruct Hty as [Hty|Hty]; [left|by right]. cbn. by rewrite Hty. }
  assert (CommunicatorEpoll.queued w2 q1 1000 [msg1]) as Hqd.
  { unfold CommunicatorEpoll.queued. rewrite Hq2 by done. apply Hc1. }
  destruct (CommunicatorEpoll.handle_queue_spec log address e (Z.of_nat seq) q2 k2 e 1000 n [msg2]
    [invoked env2 k2 m2] [a] w2 id bs)
    as (w3 & H3 & Hq3 & ((Q3 & HQ3) & He3 & _ & _ & Ht3 & Hnx3) & (_ & _ & Hh3) & Hc3);
    [apply Hc2|apply NoDup_singleton|constructor; [done|constructor]|constructor; [done|constructor]| |done|].
  { destruct Hc as (x & Hx & Hrest). exists x. by rewrite Ho2, Ho1. }
  assert (CommunicatorEpoll.notified w3 e seq q2) as Hn3 by by eapply CommunicatorEpoll.notified_epolls.
  assert (hidden w3 q1 q2 e seq msg1 (invoked env1 k1 m1)) as Hhid.
  { split; [|split; [|split; [exact Hn3|by rewrite Hnx3, Hnx2, Hnx1]]].
    - unfold CommunicatorEpoll.queued. rewrite HQ3, lookup_insert_ne by done. exact Hqd.
    - rewrite Hh3 by (intros ?%list_elem_of_singleton; done).
      rewrite Hh2, lookup_insert_ne, Hh1 by done. apply lookup_insert_eq. }
  assert (caller s2 w3 p2 q2 k2 e seq []) as Hs3.
  { destruct Hc2. split; try done; [by rewrite Ht3| |by eapply CommunicatorEpoll.notified_notifiable].
    destruct Hc3 as (x & Hx & Hxe & _). by exists x. }
  eexists _, _, w1, w2, w3. split; [exact H1|]. split; [exact H2|].
  split; [by rewrite (CommunicatorEpoll.handle_notified log address e seq q2)|]. do 2 (split; [done|]).
  intros ls Hls Hroom.
  destruct (hidden_for_ever log address self2 e seq p2 q1 q2 k2 msg1 (invoked env1 k1 m1)
    (n - zlen (calls_of ls)) ls s2 w3 (id + 1) (bs ++ Wire.stream id [Request.request m2]))
    as (w4 & H4 & Hh4 & Hc4); [done..| |lia|].
  { by replace (n - zlen (calls_of ls) + zlen (calls_of ls)) with n by lia. }
  exists w4. split; [done|]. split; [done|]. rewrite <- app_assoc in Hc4.
  change (Request.request m2 :: ?l) with ([Request.request m2] ++ l). by rewrite Wire.stream_app.
Qed.

(** ** Witnesses *)

Definition thread_data (q : nat) : data :=
  ServantProxyThreadData.mk (Some q :: replicate 63 None) true 0 0 (-1) 1 (Some 1%nat).

Definition proxy (p : nat) : t := mk (Some p) [0%nat] 1 1000.

(** Two threads that have made their first calls, with queue [Q] each, and two
    messages. *)
Definition two_threads (Q : LoopQueue.t nat) (m : Request.ReqMessage) : world :=
  let w := CommunicatorEpoll.started m in
  CommunicatorEpoll.mk_world (CommunicatorEpoll.epolls w) (CommunicatorEpoll.objects w)
    (<[10%nat := Q]> {[11%nat := Q]}) (<[1%nat := m]> {[2%nat := m]}) [] []
    (ServantProxyThreadData.mk_tls Monitor.init 1 ∅
       (<[0%nat := thread_data 10]> {[1%nat := thread_data 11]}) 2) 12.

Lemma two_threads_notifiable Q m : CommunicatorEpoll.notifiable (two_threads Q m) 0 0.
Proof. eexists _, _. split; [vm_compute; reflexivity|]. split; [vm_compute; reflexivity|done]. Qed.

Lemma two_threads_caller Q m ps i :
  LoopQueue.repr 1000 Q ps → i = 0%nat ∨ i = 1%nat →
  caller (proxy i) (two_threads Q m) i (10 + i) 0 0 0 ps.
Proof.
  intros HQ Hi. split; try done.
  - destruct Hi as [-> | ->]; by eexists _, _.
  - exists Q. by destruct Hi as [-> | ->].
  - by eexists.
  - apply two_threads_notifiable.
Qed.

Definition no_answers : answers := mk_answers None 0 0 0 6.

Definition here : nat → CommunicatorEpoll.fd_pointer → Z := λ _ _, 7.

Lemma calls_reach_the_wire_witness :
  ∃ w w1 w2, call_all here 0 no_answers [(["f"%char], ["x"%char], true); (["g"%char], [], false)]
      (proxy 0) w = Ok (proxy 0, w1) ∧
    CommunicatorEpoll.handle Assert here 0 (CommunicatorEpoll.NotifyAt 0) 1
      (CommunicatorEpoll.mk_answers [(5, Transceiver.Room 30); (5, Transceiver.Room 30)] []
         (Transceiver.Room 0) []) w1 = Ok w2 ∧
    CommunicatorEpoll.connected w2 0 0 1 2
      (Wire.stream 0 [["f"; ":"; "x"]%char; ["g"; ":"]%char]).
Proof.
  destruct (LoopQueue.new_spec (T := nat) 1000) as (Q & _ & Hr); [lia|].
  destruct (calls_reach_the_wire Assert here 0 no_answers (proxy 0)
    (two_threads Q Request.fresh) 0 10 0 0 0 1 0 []
    [(["f"%char], ["x"%char], true); (["g"%char], [], false)] 1
    (CommunicatorEpoll.mk_answers [(5, Transceiver.Room 30); (5, Transceiver.Room 30)] []
         (Transceiver.Room 0) [])) as (w1 & w2 & H1 & H2 & _ & H3 & _).
  - apply (two_threads_caller Q Request.fresh [] 0 Hr). by left.
  - apply (CommunicatorEpoll.started_connected Request.fresh 3). lia.
  - lia.
  - done.
  - cbn. lia.
  - repeat constructor.
  - cbn [CommunicatorEpoll.sends fmap list_fmap].
    repeat (constructor; [split; [done|]; exists 30%nat; split; [done|]; vm_compute; discriminate|]).
    constructor.
  - exists (two_threads Q Request.fresh), w1, w2. split; [exact H1|]. split; [exact H2|exact H3].
Defined.

Lemma full_queue_loses_call_witness :
  ∃ s w, invoke here 0 no_answers 1 s w = Undef.
Proof.
  destruct (LoopQueue.new_spec (T := nat) 1000) as (Q & _ & Hr); [lia|].
  pose proof (LoopQueue.push_back_vec_spec 1000 Q [] (replicate 1000 5%nat) Hr) as Hp.
  change (zlen [] + zlen (replicate 1000 5%nat) <=? 1000) with true in Hp.
  destruct Hp as (Q' & _ & Hr').
  exists (proxy 0), (two_threads Q' Request.fresh).
  apply (full_queue_loses_call here 0 no_answers (proxy 0) (two_threads Q' Request.fresh) 0 10 0 0 0
    (replicate 1000 5%nat) 1 Request.fresh).
  - apply (two_threads_caller Q' Request.fresh _ 0 Hr'). by left.
  - reflexivity.
  - reflexivity.
Defined.

(** The network thread looks again, then there is another call of the second
    thread, and it looks twice. *)
Definition more_calls : list further :=
  let quiet := CommunicatorEpoll.mk_answers [] [] (Transceiver.Room 0) [] in
  let room := CommunicatorEpoll.mk_answers [(5, Transceiver.Room 30)] [] (Transceiver.Room 0) [] in
  [mk_further no_answers [] 1 quiet; mk_further no_answers [(["f"%char], ["x"%char], true)] 1 room;
   mk_further no_answers [] 1 quiet].

Lemma second_caller_hides_first_witness :
  ∃ b1 b2 w w1 w2 w3 w4, invoke here 0 no_answers 1 (proxy 0) w = Ok (b1, proxy 0, w1) ∧
    invoke here 1 no_answers 2 (proxy 1) w1 = Ok (b2, proxy 1, w2) ∧
    CommunicatorEpoll.handle Assert here 0 (CommunicatorEpoll.NotifyAt 0) 1
      (CommunicatorEpoll.mk_answers [(5, Transceiver.Room 30)] [] (Transceiver.Room 0) []) w2 = Ok w3 ∧
    CommunicatorEpoll.queued w3 10 1000 [1%nat] ∧
    go_on Assert here 1 0 0 more_calls (proxy 1) w3 = Ok (proxy 1, w4) ∧
    CommunicatorEpoll.queued w4 10 1000 [1%nat] ∧
    CommunicatorEpoll.connected w4 0 0 0 2 (Wire.stream 0 [[]; ["f"; ":"; "x"]%char]).
Proof.
  destruct (LoopQueue.new_spec (T := nat) 1000) as (Q & _ & Hr); [lia|].
  destruct (second_caller_hides_first Assert here 0 1 no_answers no_answers (proxy 0) (proxy 1)
    (two_threads Q Request.fresh) 0 1 10 11 0 0 0 0 1 2 Request.fresh Request.fresh 1 0 [] 1
    (5, Transceiver.Room 30)) as (b1 & b2 & w1 & w2 & w3 & H1 & H2 & H3 & (H4 & _) & _ & Hlater).
  - apply (two_threads_caller Q Request.fresh [] 0 Hr). by left.
  - apply (two_threads_caller Q Request.fresh [] 1 Hr). by right.
  - lia.
  - lia.
  - reflexivity.
  - reflexivity.
  - by left.
  - done.
  - cbn. lia.
  - apply (CommunicatorEpoll.started_connected Request.fresh 2). lia.
  - lia.
  - split; [done|]. exists 30%nat. split; [done|]. vm_compute. discriminate.
  - destruct (Hlater more_calls) as (w4 & H5 & (H6 & _) & H7); [|vm_compute; discriminate|].
    { repeat apply List.Forall_cons; [..|apply List.Forall_nil]; (split; [vm_compute; discriminate|]).
      - split; [constructor|]. intros Hne. by destruct Hne.
      - split; [repeat constructor|]. intros _. constructor; [|constructor]. split; [done|].
        exists 30%nat. split; [done|]. vm_compute. discriminate.
      - split; [constructor|]. intros Hne. by destruct Hne. }
    exists b1, b2, (two_threads Q Request.fresh), w1, w2, w3, w4.
    split; [exact H1|]. split; [exact H2|]. split; [exact H3|]. split; [exact H4|]. split; [exact H5|].
    split; [exact H6|]. exact H7.
Defined.

End ServantProxy.
