(* ===== verification/SyncCall.v ===== *)
(** * SyncCall: the handshake of a synchronous call

    The caller's thread runs the end of [ServantProxy::invoke] and of
    [tars_invoke] (ServantProxy.cc), the network thread runs
    [ObjectProxy::finishInvoke] (ObjectProxy.cc); they share the message, its
    flag [monitorFin] and its monitor (Monitor.hpp, Lock.hpp).  Each function
    below is one step of a thread; a run is any interleaving of them. *)

From S2P Require Import Prelude.

Module SyncCall.

(** Where the caller is, after it has queued the message. *)
Inductive caller_pc : Set :=
| TestUnlocked    (* if (!msg->monitorFin) *)
| Locking         (* the constructor of Lock *)
| TestLocked      (* if (!msg->monitorFin), inside *)
| Waiting         (* inside pthread_cond_wait, mutex released *)
| Relocking       (* woken up, wants the mutex back *)
| Unlocking       (* ~Lock *)
| Deleting        (* resp = std::move(msg->response); delete msg *)
| Returned.

(** Where the network thread is. *)
Inductive finisher_pc : Set :=
| Responding      (* msg->response = response *)
| FLocking        (* the constructor of Lock *)
| Notifying       (* msg->monitor->notify() *)
| Finishing       (* msg->monitorFin = true *)
| Signalling      (* ~Lock: notifyImpl(notify_) *)
| FUnlocking      (* ~Lock: mutex_.unlock() *)
| FReturned.

Inductive owner : Set := Caller | Finisher.

#[export] Instance caller_pc_eq_dec : EqDecision caller_pc.
Proof. solve_decision. Defined.
#[export] Instance finisher_pc_eq_dec : EqDecision finisher_pc.
Proof. solve_decision. Defined.
#[export] Instance owner_eq_dec : EqDecision owner.
Proof. solve_decision. Defined.

Record state := mk {
  caller : caller_pc;
  finisher : finisher_pc;
  monitorFin : bool;
  notify_ : Z;
  mutex : option owner;
  response : bool;      (* the response has been stored *)
  freed : bool          (* the message has been deleted *)
}.

Definition start : state := mk TestUnlocked Responding false 0 None false false.

(** One step of the caller; [None] while it is blocked or done.  The message is
    its own, so nobody else can have deleted it. *)
Definition caller_step (s : state) : option state :=
  let goto pc := mk pc (finisher s) (monitorFin s) (notify_ s) (mutex s) (response s) (freed s) in
  match caller s with
  | TestUnlocked => Some (goto (if monitorFin s then Deleting else Locking))
  | Locking =>
      match mutex s with
      | None => Some (mk TestLocked (finisher s) (monitorFin s) 0 (Some Caller) (response s) (freed s))
      | Some _ => None
      end
  | TestLocked =>
      if monitorFin s then Some (goto Unlocking)
      else Some (mk Waiting (finisher s) (monitorFin s) (notify_ s) None (response s) (freed s))
  | Waiting => None
  | Relocking =>
      match mutex s with
      | None => Some (mk Unlocking (finisher s) (monitorFin s) 0 (Some Caller) (response s) (freed s))
      | Some _ => None
      end
  | Unlocking => Some (mk Deleting (finisher s) (monitorFin s) (notify_ s) None (response s) (freed s))
  | Deleting => Some (mk Returned (finisher s) (monitorFin s) (notify_ s) (mutex s) (response s) true)
  | Returned => None
  end.

(** One step of the network thread, which touches the message in each:
    [Undef] once the message is gone. *)
Definition finisher_step (s : state) : option (outcome state) :=
  let goto pc := mk (caller s) pc (monitorFin s) (notify_ s) (mutex s) (response s) (freed s) in
  let touch (r : state) := Some (if freed s then Undef else Ok r) in
  match finisher s with
  | Responding =>
      touch (mk (caller s) FLocking (monitorFin s) (notify_ s) (mutex s) true (freed s))
  | FLocking =>
      if freed s then Some Undef
      else match mutex s with
           | None => Some (Ok (mk (caller s) Notifying (monitorFin s) 0 (Some Finisher) (response s)
                                  (freed s)))
           | Some _ => None
           end
  | Notifying =>
      touch (mk (caller s) Finishing (monitorFin s) (notify_ s + 1) (mutex s) (response s) (freed s))
  | Finishing =>
      touch (mk (caller s) Signalling true (notify_ s) (mutex s) (response s) (freed s))
  | Signalling =>
      touch (mk (if bool_decide (caller s = Waiting ∧ 0 < notify_ s) then Relocking else caller s)
                FUnlocking (monitorFin s) (notify_ s) (mutex s) (response s) (freed s))
  | FUnlocking =>
      touch (mk (caller s) FReturned (monitorFin s) (notify_ s) None (response s) (freed s))
  | FReturned => None
  end.

(** [pthread_cond_wait] may also return without a signal. *)
Definition spurious_step (s : state) : option state :=
  match caller s with
  | Waiting => Some (mk Relocking (finisher s) (monitorFin s) (notify_ s) (mutex s) (response s)
                        (freed s))
  | _ => None
  end.

Inductive step : state → state → Prop :=
| step_caller s s' : caller_step s = Some s' → step s s'
| step_finisher s s' : finisher_step s = Some (Ok s') → step s s'.

Inductive step_spurious : state → state → Prop :=
| step_regular s s' : step s s' → step_spurious s s'
| step_wake s s' : spurious_step s = Some s' → step_spurious s s'.

(** The next step of the network thread would touch deleted memory. *)
Definition touches_freed (s : state) : Prop := finisher_step s = Some Undef.

(** ** The invariant *)

Definition finisher_holds (s : state) : bool :=
  match finisher s with Notifying | Finishing | Signalling | FUnlocking => true | _ => false end.
Definition caller_holds (s : state) : bool :=
  match caller s with TestLocked | Unlocking => true | _ => false end.
Definition finished (s : state) : bool :=
  match finisher s with Signalling | FUnlocking | FReturned => true | _ => false end.

Record inv (s : state) : Prop := {
  inv_fin : monitorFin s = finished s;
  inv_mutex : mutex s = if finisher_holds s then Some Finisher
                        else if caller_holds s then Some Caller else None;
  inv_excl : finisher_holds s && caller_holds s = false;
  inv_notify : match finisher s with Finishing | Signalling => notify_ s = 1 | Notifying => notify_ s = 0
               | _ => True end;
  inv_waiting : caller s = Waiting → finisher s ≠ FUnlocking ∧ finisher s ≠ FReturned;
  inv_through : match caller s with Relocking | Unlocking | Deleting | Returned => monitorFin s = true
                | _ => True end;
  inv_response : finisher s ≠ Responding → response s = true;
  inv_freed : freed s = bool_decide (caller s = Returned)
}.

Lemma inv_start : inv start.
Proof. by split. Qed.

Lemma inv_step s s' : step s s' → inv s → inv s'.
Proof.
  intros Hstep [H1 H2 H3 H4 H5 H6 H7 H8].
  destruct Hstep as [s s' Hs|s s' Hs]; destruct s as [c f fin n mu resp fr];
    cbn in *; destruct c, f; cbn in *; simplify_eq; cbn in *; simplify_eq; try done;
    try (destruct mu as [[]|]; simplify_eq; cbn in * );
    (split; cbn; first [done | naive_solver]).
Qed.

Lemma inv_reachable s : rtc step start s → inv s.
Proof. intros Hr. eapply rtc_invariant; [apply inv_step|exact Hr|apply inv_start]. Qed.

(** ** Progress *)

(** How many steps each thread has left. *)
Definition rank (s : state) : nat :=
  match caller s with
  | TestUnlocked => 7 | Locking => 6 | TestLocked => 5 | Waiting => 4 | Relocking => 3
  | Unlocking => 2 | Deleting => 1 | Returned => 0
  end +
  match finisher s with
  | Responding => 6 | FLocking => 5 | Notifying => 4 | Finishing => 3 | Signalling => 2
  | FUnlocking => 1 | FReturned => 0
  end.

Lemma rank_step s s' : step s s' → (rank s' < rank s)%nat.
Proof.
  intros [s0 s1 Hs|s0 s1 Hs]; destruct s0 as [c f fin n mu resp fr]; unfold rank;
    cbn in *; destruct c, f; cbn in *; repeat case_match; simplify_eq; cbn in *; lia || done.
Qed.

Lemma rank_nsteps n : ∀ s s', nsteps step n s s' → (n + rank s' ≤ rank s)%nat.
Proof.
  induction n as [|n IH]; intros s s' Hn; inversion Hn as [|? ? s1 ? Hs Hr]; subst; [lia|].
  pose proof (rank_step _ _ Hs). specialize (IH _ _ Hr). lia.
Qed.

(** A state in which nobody can move. *)
Lemma stuck_finished s :
  inv s → (∀ s', ¬ step s s') → ¬ touches_freed s → caller s = Returned ∧ finisher s = FReturned.
Proof.
  intros [H1 H2 H3 H4 H5 H6 H7 H8] Hstuck Hbad.
  assert (caller_step s = None) as Hc.
  { destruct (caller_step s) eqn:Hs; [|done]. destruct (Hstuck s0). by constructor. }
  assert (finisher_step s = None) as Hf.
  { destruct (finisher_step s) as [[s0| | | |]|] eqn:Hs; try done; try (by destruct Hbad).
    - destruct (Hstuck s0). by constructor.
    - exfalso. destruct s as [c f fin n mu resp fr]. destruct f; cbn in Hs;
        repeat case_match; discriminate.
    - exfalso. destruct s as [c f fin n mu resp fr]. destruct f; cbn in Hs;
        repeat case_match; discriminate.
    - exfalso. destruct s as [c f fin n mu resp fr]. destruct f; cbn in Hs;
        repeat case_match; discriminate. }
  clear Hstuck Hbad. destruct s as [c f fin n mu resp fr]. cbn in *.
  destruct c, f; cbn in *; subst; cbn in *; try discriminate; try done;
    by destruct H5.
Qed.

(** C22: in every interleaving of a synchronous call with its completion in which
    [pthread_cond_wait] returns only when signalled: at most 13 steps are taken;
    nobody is left waiting, so a run that cannot go on has ended for both
    threads (or the network thread is about to touch deleted memory, see the
    next theorem); the caller comes back only after the response is stored; and
    the two threads never hold the monitor together. *)
Theorem sync_call_completes :
  (∀ n s, nsteps step n start s → (n ≤ 13)%nat) ∧
  (∀ s, rtc step start s →
     ((∀ s', ¬ step s s') → ¬ touches_freed s → caller s = Returned ∧ finisher s = FReturned) ∧
     (caller s = Deleting ∨ caller s = Returned → response s = true) ∧
     finisher_holds s && caller_holds s = false).
Proof.
  split.
  - intros n s Hn. apply rank_nsteps in Hn. change (rank start) with 13%nat in Hn. lia.
  - intros s Hr. pose proof (inv_reachable s Hr) as Hinv. split; [by apply stuck_finished|].
    split; [|apply Hinv]. intros Hc. apply (inv_response _ Hinv).
    pose proof (inv_through _ Hinv) as Ht. pose proof (inv_fin _ Hinv) as Hf.
    intros Hresp. unfold finished in Hf. rewrite Hresp in Hf.
    destruct Hc as [Hc|Hc]; rewrite Hc in Ht; congruence.
Qed.

(** Runs by a list that says who moves. *)
Fixpoint follow (who : list owner) (s : state) : option state :=
  match who with
  | [] => Some s
  | Caller :: who => s ← caller_step s; follow who s
  | Finisher :: who =>
      match finisher_step s with Some (Ok s) => follow who s | _ => None end
  end.

Lemma follow_reachable who : ∀ s s', follow who s = Some s' → rtc step s s'.
Proof.
  induction who as [|[] who IH]; intros s s' Hf; cbn in Hf.
  - injection Hf as ->. done.
  - destruct (caller_step s) as [s1|] eqn:Hs; [|done].
    eapply rtc_l; [by apply step_caller|by apply IH].
  - destruct (finisher_step s) as [[s1| | | |]|] eqn:Hs; try done.
    eapply rtc_l; [by apply step_finisher|by apply IH].
Qed.

(** Two ways in which the handshake fails.  The caller tests [monitorFin]
    before it takes the lock, so it can see the flag set while the network thread
    is still inside its critical section, delete the message with its monitor,
    and leave the network thread to signal and to unlock a monitor that is gone.
    And [wait] is not repeated: if [pthread_cond_wait] returns spuriously, the
    caller comes back, and deletes the message, before there is a response. *)
Theorem sync_call_races :
  (∃ s, rtc step start s ∧ finisher s = Signalling ∧ mutex s = Some Finisher ∧
        freed s = true ∧ touches_freed s) ∧
  (∃ s, rtc step start s ∧ finisher s = FUnlocking ∧ mutex s = Some Finisher ∧
        freed s = true ∧ touches_freed s) ∧
  (∃ s, rtc step_spurious start s ∧ caller s = Returned ∧ response s = false ∧ touches_freed s).
Proof.
  split; [|split].
  - eexists. split; [apply (follow_reachable
      [Finisher; Finisher; Finisher; Finisher; Caller; Caller]); vm_compute; reflexivity|].
    done.
  - eexists. split; [apply (follow_reachable
      [Finisher; Finisher; Finisher; Finisher; Finisher; Caller; Caller]); vm_compute; reflexivity|].
    done.
  - assert (∃ s, follow [Caller; Caller; Caller] start = Some s ∧
      ∃ s1, spurious_step s = Some s1 ∧ ∃ s2, follow [Caller; Caller; Caller] s1 = Some s2 ∧
        caller s2 = Returned ∧ response s2 = false ∧ touches_freed s2)
      as (s & Hs & s1 & Hs1 & s2 & Hs2 & Hend).
    { do 3 (eexists; split; [vm_compute; reflexivity|]). done. }
    exists s2. split; [|exact Hend].
    assert (∀ a b, rtc step a b → rtc step_spurious a b) as Hsub.
    { intros a b Hab. eapply rtc_subrel; [|exact Hab]. intros x y Hxy. by constructor. }
    apply follow_reachable, Hsub in Hs. apply follow_reachable, Hsub in Hs2.
    etrans; [exact Hs|]. eapply rtc_l; [by apply step_wake|exact Hs2].
Qed.

End SyncCall.
