(* ===== verification/CoroList.v ===== *)
(** * CoroList: the list functions of CoroutineInfo (CoroutineScheduler.h)

    The scheduler keeps its coroutines in five circular doubly linked lists
    whose links are members of the coroutines themselves.  Memory is the two
    link fields of every node; following a null link is undefined. *)

From stdpp Require Import functions.
From S2P Require Import Prelude.

(** [CORO_STATUS], which also names the five list heads of the scheduler. *)
Inductive CORO_STATUS : Set :=
| CORO_FREE | CORO_ACTIVE | CORO_AVAIL | CORO_INACTIVE | CORO_TIMEOUT.

#[export] Instance CORO_STATUS_eq_dec : EqDecision CORO_STATUS.
Proof. solve_decision. Defined.

(** A [CoroutineInfo*]: one of the scheduler's list heads or an object made
    with [new]. *)
Inductive node : Set :=
| Head (s : CORO_STATUS)
| Info (n : nat).

#[export] Instance node_eq_dec : EqDecision node.
Proof. solve_decision. Defined.

#[export] Instance Info_inj : Inj (=) (=) Info.
Proof. by intros ?? [=]. Qed.

Module CoroList.

Record mem := mk { next_ : node → option node; prev_ : node → option node }.

Definition set_next (x : node) (v : option node) (m : mem) : mem :=
  mk (<[x := v]> (next_ m)) (prev_ m).
Definition set_prev (x : node) (v : option node) (m : mem) : mem :=
  mk (next_ m) (<[x := v]> (prev_ m)).

Definition coroutineHeadInit (coro : node) (m : mem) : mem :=
  set_prev coro (Some coro) (set_next coro (Some coro) m).

Definition coroutineHeadEmpty (coro_head : node) (m : mem) : bool :=
  bool_decide (next_ m coro_head = Some coro_head).

(** [__coroutineAdd]. *)
Definition coroutineAdd_between (coro : node) (prev next : option node) (m : mem)
    : outcome mem :=
  n ← deref next;
  let m := set_prev n (Some coro) m in
  let m := set_next coro next m in
  let m := set_prev coro prev m in
  p ← deref prev;
  Ok (set_next p (Some coro) m).

Definition coroutineAdd (new_coro coro_head : node) (m : mem) : outcome mem :=
  coroutineAdd_between new_coro (Some coro_head) (next_ m coro_head) m.

Definition coroutineAddTail (new_coro coro_head : node) (m : mem) : outcome mem :=
  coroutineAdd_between new_coro (prev_ m coro_head) (Some coro_head) m.

(** [__coroutineDel]. *)
Definition coroutineDel_between (prev next : option node) (m : mem) : outcome mem :=
  n ← deref next;
  let m := set_prev n prev m in
  p ← deref prev;
  Ok (set_next p next m).

Definition coroutineDel (coro : node) (m : mem) : outcome mem :=
  m ← coroutineDel_between (prev_ m coro) (next_ m coro) m;
  Ok (set_prev coro None (set_next coro None m)).

Definition coroutineMove (coro coro_head : node) (m : mem) : outcome mem :=
  m ← coroutineDel coro m; coroutineAdd coro coro_head m.

Definition coroutineMoveTail (coro coro_head : node) (m : mem) : outcome mem :=
  m ← coroutineDel coro m; coroutineAddTail coro coro_head m.

(** ** Lists in memory *)

(** Each node of [xs] points to its successor and back. *)
Fixpoint linked (m : mem) (xs : list node) : Prop :=
  match xs with
  | a :: (b :: _) as ys => next_ m a = Some b ∧ prev_ m b = Some a ∧ linked m ys
  | _ => True
  end.

(** The circular list with head [h] holds [l]. *)
Definition circ (m : mem) (h : node) (l : list node) : Prop :=
  NoDup (h :: l) ∧ linked m (h :: l ++ [h]).

Lemma linked_app m xs a ys :
  linked m (xs ++ a :: ys) ↔ linked m (xs ++ [a]) ∧ linked m (a :: ys).
Proof.
  induction xs as [|x xs IH]; [simpl; tauto|].
  destruct xs as [|x' xs]; cbn [app linked] in *; [|rewrite IH]; tauto.
Qed.

Lemma linked_ext m m' xs :
  (∀ a, a ∈ removelast xs → next_ m' a = next_ m a) →
  (∀ a, a ∈ tail xs → prev_ m' a = prev_ m a) → linked m xs → linked m' xs.
Proof.
  induction xs as [|a [|b xs] IH]; intros Hn Hp Hl; [done|done|].
  cbn [linked] in *. destruct Hl as (H1 & H2 & Hl).
  change (removelast (a :: b :: xs)) with (a :: removelast (b :: xs)) in Hn.
  rewrite Hn, Hp by (left). split_and!; try done. apply IH; [|intros; apply Hp; by right|done].
  intros c Hc. apply Hn. by right.
Qed.

(** Changes to other nodes do not touch a list. *)
Lemma circ_ext m m' h l :
  (∀ a, a ∈ h :: l → next_ m' a = next_ m a ∧ prev_ m' a = prev_ m a) →
  circ m h l → circ m' h l.
Proof.
  intros Heq [Hnd Hl]. split; [done|]. revert Hl. apply linked_ext.
  - intros a Ha. apply Heq. rewrite app_comm_cons, removelast_last in Ha. done.
  - intros a Ha. apply Heq. cbn [tail] in Ha.
    rewrite elem_of_app, list_elem_of_singleton in Ha. rewrite elem_of_cons. tauto.
Qed.

Lemma circ_prev m h l : circ m h l → prev_ m h = last (h :: l).
Proof.
  intros [_ Hl]. destruct (decide (l = [])) as [->|Hne]; [apply Hl|].
  destruct (exists_last Hne) as (l' & p & ->).
  rewrite <- app_assoc in Hl. cbn [app] in Hl. rewrite app_comm_cons in Hl.
  apply (linked_app m (h :: l') p [h]) in Hl as [_ (_ & Hp & _)].
  by rewrite Hp, app_comm_cons, last_snoc.
Qed.

Lemma circ_next m h l : circ m h l → next_ m h = head (l ++ [h]).
Proof. intros [_ Hl]. destruct l; apply Hl. Qed.

Lemma circ_empty m h l : circ m h l → coroutineHeadEmpty h m = bool_decide (l = []).
Proof.
  intros Hc. unfold coroutineHeadEmpty. rewrite (circ_next m h l Hc). destruct Hc as [Hnd _].
  apply bool_decide_ext. destruct l as [|x l]; [done|]. cbn. split; [|done].
  intros [= ->]. apply NoDup_cons in Hnd as [Hn _]. destruct Hn. left.
Qed.

(** Reads fields of nodes known to differ from those written. *)
Ltac fields :=
  unfold set_next, set_prev; cbn [next_ prev_];
  repeat first [rewrite fn_lookup_insert
               | rewrite fn_lookup_insert_ne by (try done; intros ->; tauto)].

(** The neighbours of a place between [l1] and [l2]. *)
Lemma neighbours (h : node) l1 l2 :
  NoDup (h :: l1 ++ l2) →
  ∃ pre p n post, h :: l1 = pre ++ [p] ∧ l2 ++ [h] = n :: post ∧
    (p ∉ pre) ∧ (p ∉ l2) ∧ (n ∉ l1) ∧ (n ∉ post) ∧
    (∀ a, a ∉ h :: l1 ++ l2 →
       a ≠ p ∧ a ≠ n ∧ (a ∉ pre) ∧ (a ∉ post) ∧ (a ∉ l1) ∧ (a ∉ l2)).
Proof.
  intros [Hh Hnd]%NoDup_cons. apply NoDup_app in Hnd as (H1 & H12 & H2).
  rewrite not_elem_of_app in Hh. destruct Hh as [Hh1 Hh2].
  destruct (exists_last (l := h :: l1)) as (pre & p & Hp); [done|].
  assert (p ∈ h :: l1) as Hin by (rewrite Hp; apply elem_of_app; right; left).
  assert (NoDup (pre ++ [p])) as Hnd1 by (rewrite <- Hp; by apply NoDup_cons).
  apply NoDup_app in Hnd1 as (_ & Hpre & _).
  assert (p ∉ pre) by (intros Hpp; apply (Hpre p Hpp); left).
  assert (p ∉ l2).
  { apply elem_of_cons in Hin as [->|Hin]; [done|by apply H12]. }
  assert (∀ a, a ∉ h :: l1 ++ l2 → a ≠ p ∧ (a ∉ pre) ∧ (a ∉ l1) ∧ (a ∉ l2) ∧ a ≠ h) as Hout.
  { intros a Ha. rewrite not_elem_of_cons, not_elem_of_app in Ha. destruct Ha as (? & ? & ?).
    assert (a ∉ h :: l1) as Hal by (by apply not_elem_of_cons).
    rewrite Hp, not_elem_of_app, list_elem_of_singleton in Hal. tauto. }
  exists pre, p. rewrite Hp. destruct l2 as [|n l2].
  - exists h, []. split_and!; try done.
    intros a Ha. destruct (Hout a Ha) as (?&?&?&?&?). split_and!; done.
  - apply NoDup_cons in H2 as [Hn _]. rewrite not_elem_of_cons in Hh2. destruct Hh2 as [Hhn Hh2].
    exists n, (l2 ++ [h]).
    assert (∀ a, a ≠ h → (a ∉ l2) → a ∉ l2 ++ [h]) as Hpost.
    { intros a ??. rewrite not_elem_of_app, list_elem_of_singleton. done. }
    split_and!; try done.
    + intros Hnl. apply (H12 n Hnl). left.
    + by apply Hpost.
    + intros a Ha. destruct (Hout a Ha) as (?&?&?&Hl&?). rewrite not_elem_of_cons in Hl.
      destruct Hl. split_and!; try done; [by apply Hpost|by apply not_elem_of_cons].
Qed.

(** The four links around a place hold the list together. *)
Lemma linked_around m m' pre p mid n post l1 l2 h :
  h :: l1 = pre ++ [p] → l2 ++ [h] = n :: post →
  linked m (pre ++ [p]) → linked m (n :: post) →
  (∀ a, a ∈ pre ∨ a ∈ l2 → next_ m' a = next_ m a) →
  (∀ a, a ∈ l1 ∨ a ∈ post → prev_ m' a = prev_ m a) →
  linked m' (p :: mid ++ [n]) → linked m' (pre ++ p :: mid ++ n :: post).
Proof.
  intros Hp Hn Hl1 Hl2 Hnext Hprev Hmid. apply linked_app. split.
  - revert Hl1. apply linked_ext.
    + intros a Ha. rewrite removelast_last in Ha. auto.
    + intros a Ha. rewrite <- Hp in Ha. auto.
  - change (p :: mid ++ n :: post) with ((p :: mid) ++ n :: post). apply linked_app.
    split; [done|]. revert Hl2. apply linked_ext.
    + intros a Ha. rewrite <- Hn, removelast_last in Ha. auto.
    + intros a Ha. auto.
Qed.

Lemma add_between_spec m h l1 l2 x :
  circ m h (l1 ++ l2) → x ∉ h :: l1 ++ l2 →
  ∃ m', coroutineAdd_between x (last (h :: l1)) (head (l2 ++ [h])) m = Ok m' ∧
    circ m' h (l1 ++ x :: l2) ∧
    (∀ a, a ∉ x :: h :: l1 ++ l2 → next_ m' a = next_ m a ∧ prev_ m' a = prev_ m a).
Proof.
  intros [Hnd Hl] Hx.
  destruct (neighbours h l1 l2 Hnd) as (pre & p & n & post & Hp & Hn & ? & ? & ? & ? & Hout).
  destruct (Hout x Hx) as (? & ? & ? & ? & ? & ?).
  rewrite <- app_assoc, Hn, app_comm_cons, Hp, <- app_assoc in Hl.
  apply linked_app in Hl as [Hl1 (_ & _ & Hl2)].
  rewrite Hp, Hn, last_snoc. cbn [head]. eexists. split; [done|]. split; [split|].
  - rewrite <- Permutation_middle, Permutation_swap. by apply NoDup_cons.
  - rewrite <- app_assoc. cbn [app]. rewrite Hn, app_comm_cons, Hp, <- app_assoc.
    apply (linked_around m _ pre p [x] n post l1 l2 h); try done.
    + intros a [Ha|Ha]; by fields.
    + intros a [Ha|Ha]; by fields.
    + cbn [app linked]. split_and!; by fields.
  - intros a [Hax Ha]%not_elem_of_cons. destruct (Hout a Ha) as (? & ? & _). by fields.
Qed.

Lemma del_spec m h l1 l2 x :
  circ m h (l1 ++ x :: l2) →
  ∃ m', coroutineDel x m = Ok m' ∧ circ m' h (l1 ++ l2) ∧
    (∀ a, a ∉ h :: l1 ++ x :: l2 → next_ m' a = next_ m a ∧ prev_ m' a = prev_ m a).
Proof.
  intros [Hnd Hl].
  rewrite <- Permutation_middle, Permutation_swap in Hnd. apply NoDup_cons in Hnd as [Hx Hnd].
  destruct (neighbours h l1 l2 Hnd) as (pre & p & n & post & Hp & Hn & ? & ? & ? & ? & Hout).
  destruct (Hout x Hx) as (? & ? & ? & ? & ? & ?).
  rewrite <- app_assoc in Hl. cbn [app] in Hl. rewrite Hn, app_comm_cons, Hp, <- app_assoc in Hl.
  apply linked_app in Hl as [Hl1 (_ & Hpx & Hxn & _ & Hl2)].
  unfold coroutineDel, coroutineDel_between. rewrite Hpx, Hxn. cbn [deref mbind outcome_bind].
  eexists. split; [done|]. split; [split; [done|]|].
  - rewrite <- app_assoc, Hn, app_comm_cons, Hp, <- app_assoc.
    apply (linked_around m _ pre p [] n post l1 l2 h); try done.
    + intros a [Ha|Ha]; by fields.
    + intros a [Ha|Ha]; by fields.
    + cbn [app linked]. split_and!; by fields.
  - intros a Ha. assert (a ∉ x :: h :: l1 ++ l2) as [Hax Ha']%not_elem_of_cons.
    { rewrite <- Permutation_middle, Permutation_swap in Ha. done. }
    destruct (Hout a Ha') as (? & ? & _). by fields.
Qed.

Lemma headInit_spec m h : circ (coroutineHeadInit h m) h [].
Proof.
  split; [by apply NoDup_singleton|]. unfold coroutineHeadInit. cbn [app linked].
  split_and!; by fields.
Qed.

Lemma headInit_frame m h a :
  a ≠ h → next_ (coroutineHeadInit h m) a = next_ m a ∧ prev_ (coroutineHeadInit h m) a = prev_ m a.
Proof. intros ?. unfold coroutineHeadInit. by fields. Qed.

Lemma addTail_spec m h l x :
  circ m h l → x ∉ h :: l →
  ∃ m', coroutineAddTail x h m = Ok m' ∧ circ m' h (l ++ [x]) ∧
    (∀ a, a ∉ x :: h :: l → next_ m' a = next_ m a ∧ prev_ m' a = prev_ m a).
Proof.
  intros Hc Hx. pose proof (add_between_spec m h l [] x) as Hadd.
  rewrite app_nil_r in Hadd. destruct (Hadd Hc Hx) as (m' & Ha & ? & ?).
  exists m'. split; [|done]. unfold coroutineAddTail. by rewrite (circ_prev m h l Hc).
Qed.

Lemma add_spec m h l x :
  circ m h l → x ∉ h :: l →
  ∃ m', coroutineAdd x h m = Ok m' ∧ circ m' h (x :: l) ∧
    (∀ a, a ∉ x :: h :: l → next_ m' a = next_ m a ∧ prev_ m' a = prev_ m a).
Proof.
  intros Hc Hx. destruct (add_between_spec m h [] l x Hc Hx) as (m' & Ha & ? & ?).
  exists m'. split; [|done]. unfold coroutineAdd. by rewrite (circ_next m h l Hc).
Qed.

(** Lists that share no node. *)
Definition apart (h1 h2 : node) (l1 l2 : list node) : Prop :=
  ∀ a, a ∈ h1 :: l1 → a ∉ h2 :: l2.

Lemma moveTail_spec m h1 l1 l2 x h2 l :
  circ m h1 (l1 ++ x :: l2) → circ m h2 l → apart h1 h2 (l1 ++ x :: l2) l →
  ∃ m', coroutineMoveTail x h2 m = Ok m' ∧
    circ m' h1 (l1 ++ l2) ∧ circ m' h2 (l ++ [x]) ∧
    ∀ h3 l3, circ m h3 l3 → apart h3 h1 l3 (l1 ++ x :: l2) → apart h3 h2 l3 l → circ m' h3 l3.
Proof.
  intros H1 H2 Hap.
  assert (x ∈ h1 :: l1 ++ x :: l2) as Hin.
  { right. apply elem_of_app. right. left. }
  destruct (del_spec m h1 l1 l2 x H1) as (m1 & Hdel & Hc1 & Hfr1).
  assert (circ m1 h2 l) as Hc2.
  { revert H2. apply circ_ext. intros a Ha. apply Hfr1. intros Ha1. by apply (Hap a). }
  destruct (addTail_spec m1 h2 l x Hc2 (Hap x Hin)) as (m2 & Hadd & Hc2' & Hfr2).
  exists m2. unfold coroutineMoveTail. rewrite Hdel. cbn [mbind outcome_bind].
  split; [done|]. split; [|split; [done|]].
  - revert Hc1. apply circ_ext. intros a Ha. apply Hfr2.
    assert (a ∈ h1 :: l1 ++ x :: l2) as Ha'.
    { apply elem_of_cons in Ha as [->|Ha]; [left|]. right.
      apply elem_of_app in Ha as [?|?]; apply elem_of_app; [by left|right; by right]. }
    apply not_elem_of_cons. split; [|by apply Hap]. intros ->.
    destruct H1 as [Hnd _]. rewrite <- Permutation_middle, Permutation_swap in Hnd.
    by apply NoDup_cons in Hnd as [? _].
  - intros h3 l3 Hc3 Ha1 Ha2. revert Hc3. apply circ_ext. intros a Ha.
    assert (a ≠ x) by (intros ->; by apply (Ha1 x)).
    destruct (Hfr1 a (Ha1 a Ha)) as [<- <-]. apply Hfr2.
    apply not_elem_of_cons. split; [done|by apply Ha2].
Qed.

(** Moving a coroutine to the end of another list takes it out of the one
    it was in, wherever it stood there, appends it to the other, and changes no
    list it has nothing to do with; no null link is followed. *)
Theorem coroutineMoveTail_moves m h1 l1 l2 x h2 l
    (H1 : circ m h1 (l1 ++ x :: l2)) (H2 : circ m h2 l)
    (Hap : apart h1 h2 (l1 ++ x :: l2) l) :
  ∃ m', coroutineMoveTail x h2 m = Ok m' ∧
    circ m' h1 (l1 ++ l2) ∧ circ m' h2 (l ++ [x]) ∧
    ∀ h3 l3, circ m h3 l3 → apart h3 h1 l3 (l1 ++ x :: l2) → apart h3 h2 l3 l → circ m' h3 l3.
Proof. by apply moveTail_spec. Qed.

(** Two lists, of two nodes and of one. *)
Definition sample : outcome mem :=
  let m := mk (λ _, None) (λ _, None) in
  let m := coroutineHeadInit (Head CORO_FREE) m in
  let m := coroutineHeadInit (Head CORO_AVAIL) m in
  m ← coroutineAddTail (Info 1) (Head CORO_FREE) m;
  m ← coroutineAddTail (Info 2) (Head CORO_FREE) m;
  coroutineAddTail (Info 3) (Head CORO_AVAIL) m.

Lemma coroutineMoveTail_example :
  ∃ m m', sample = Ok m ∧ coroutineMoveTail (Info 1) (Head CORO_AVAIL) m = Ok m' ∧
          circ m' (Head CORO_AVAIL) [Info 3; Info 1].
Proof.
  eexists.
  match goal with |- ∃ m', sample = Ok ?m ∧ _ =>
    assert (sample = Ok m) as Hs by reflexivity; revert Hs end.
  intros Hs.
  match type of Hs with _ = Ok ?m =>
    destruct (coroutineMoveTail_moves m (Head CORO_FREE) [] [Info 2] (Info 1) (Head CORO_AVAIL) [Info 3])
      as (m' & Hm & _ & Hc & _) end.
  - split; [by apply (bool_decide_unpack _)|]. cbn. repeat split.
  - split; [by apply (bool_decide_unpack _)|]. cbn. repeat split.
  - intros a Ha. repeat (apply elem_of_cons in Ha as [->|Ha]; [by apply (bool_decide_unpack _)|]).
    by apply elem_of_nil in Ha.
  - exists m'. split; [exact Hs|]. split; [exact Hm|exact Hc].
Defined.

End CoroList.
