(* ===== verification/Stacks.v ===== *)
(** * Stacks: standard_stack_allocator of CoroutineScheduler.h, CoroutineScheduler.cc

    The stacks of coroutines: whole pages from [mmap], the lowest of which is
    protected.  The size of a page and the limit of [getrlimit] are parameters;
    the results of [mmap] and [mprotect] are arguments. *)

From S2P Require Import Prelude.

Module Stacks.

Record stack_context := mk { size : Z; sp : Z }.

(** [stack_context s_ctx;]: a null pointer is 0. *)
Definition new : stack_context := mk 0 0.

Definition RLIM_INFINITY : Z := 2 ^ 64 - 1.

(** [sizeof(fcontext_t)]: eight registers, a [stack_t] and an [fp_t]. *)
Definition sizeof_fcontext : Z := 8 * 8 + (8 + 8) + 2 * 4.

(** [static_cast<float>(z)] for an unsigned [z]: 24 significant bits, to the
    nearest, ties to even. *)
Definition float_of (z : Z) : Z :=
  if z <? 2 ^ 24 then z
  else
    let ulp := 2 ^ (Z.log2 z - 23) in
    let q := z `div` ulp in
    let twice := 2 * (z `mod` ulp) in
    let up := (ulp <? twice) || ((ulp =? twice) && Z.odd q) in
    (if up then q + 1 else q) * ulp.

Section allocator.
Context (pagesize rlim_max : Z).

(** [ceil(float / pagesize)]: dividing by the size of a page, a power of two,
    is exact. *)
Definition page_count (stacksize : Z) : Z := (float_of stacksize + pagesize - 1) `div` pagesize.

Definition is_stack_unbound : bool := rlim_max =? RLIM_INFINITY.

Definition minimum_stacksize : Z := 8 * 1024 + sizeof_fcontext + 15.

Definition maximum_stacksize : outcome Z :=
  _ ← assert_ (negb is_stack_unbound); Ok rlim_max.

Definition default_stacksize : outcome Z :=
  let size := 8 * minimum_stacksize in
  if is_stack_unbound then Ok size
  else
    m ← maximum_stacksize;
    _ ← assert_ (minimum_stacksize <=? m);
    Ok (if m =? size then size else Z.min size m).

(** [assert(is_stack_unbound() || maximum_stacksize() >= size)]. *)
Definition assert_limit (size : Z) : outcome unit :=
  if is_stack_unbound then Ok () else m ← maximum_stacksize; assert_ (size <=? m).

(** [allocate] with the region that [mmap] gave and whether [mprotect] worked. *)
Definition allocate (mapped : option Z) (protected : bool) (size : Z) (ctx : stack_context)
    : outcome (Z * stack_context) :=
  _ ← assert_ (minimum_stacksize <=? size);
  _ ← assert_limit size;
  let pages := page_count size + 1 in
  let size_ := u64 (pages * pagesize) in
  _ ← assert_ ((0 <? size) && (0 <? size_));
  match mapped with
  | None => Ok (-1, ctx)
  | Some limit => _ ← assert_ protected; Ok (0, mk size_ (limit + size_))
  end.

(** What [deallocate] passes to [munmap]. *)
Definition deallocate (ctx : stack_context) : outcome (Z * Z) :=
  _ ← assert_ (negb (sp ctx =? 0));
  _ ← assert_ (minimum_stacksize <=? size ctx);
  _ ← assert_limit (size ctx);
  Ok (sp ctx - size ctx, size ctx).

End allocator.

(** ** What a stack has room for *)

Lemma float_small z : z ≤ 2 ^ 24 → float_of z = z.
Proof.
  intros Hz. unfold float_of. destruct (Z.ltb_spec z (2 ^ 24)); [done|].
  by assert (z = 2 ^ 24) as -> by lia.
Qed.

Lemma page_count_spec k z :
  0 ≤ k → 0 ≤ z ≤ 2 ^ 24 →
  z ≤ page_count (2 ^ k) z * 2 ^ k < z + 2 ^ k.
Proof.
  intros Hk Hz. unfold page_count. rewrite float_small by lia.
  pose proof (Z.pow_pos_nonneg 2 k). Z.to_euclidean_division_equations. nia.
Qed.

Section rooms.
Context (k rlim_max : Z) (Hk : 0 ≤ k ≤ 24).

(** The number of bytes that [allocate] asks for. *)
Definition mapped_size (size : Z) : Z := (page_count (2 ^ k) size + 1) * 2 ^ k.

Lemma mapped_size_spec size :
  0 ≤ size ≤ 2 ^ 24 → size + 2 ^ k ≤ mapped_size size < size + 2 * 2 ^ k ∧
                      u64 (mapped_size size) = mapped_size size.
Proof.
  intros Hs. pose proof (page_count_spec k size ltac:(lia) Hs).
  assert (2 ^ k ≤ 2 ^ 24) by (apply Z.pow_le_mono_r; lia).
  assert (mapped_size size = page_count (2 ^ k) size * 2 ^ k + 2 ^ k) as ->
    by (unfold mapped_size; lia).
  split; [lia|]. apply u64_small. lia.
Qed.

(** A size that [allocate] accepts. *)
Definition allowed (size : Z) : Prop :=
  minimum_stacksize ≤ size ∧ (rlim_max = RLIM_INFINITY ∨ size ≤ rlim_max).

Lemma assert_limit_spec size :
  rlim_max = RLIM_INFINITY ∨ size ≤ rlim_max → assert_limit rlim_max size = Ok ().
Proof.
  unfold assert_limit, maximum_stacksize, is_stack_unbound. intros Hl.
  destruct (Z.eqb_spec rlim_max RLIM_INFINITY); [done|]. cbn [negb assert_ mbind outcome_bind].
  destruct Hl; [done|]. by rewrite (proj2 (Z.leb_le _ _)).
Qed.

Lemma allocate_spec mapped size ctx :
  allowed size → size ≤ 2 ^ 24 →
  allocate (2 ^ k) rlim_max mapped true size ctx =
    Ok match mapped with
       | None => (-1, ctx)
       | Some limit => (0, mk (mapped_size size) (limit + mapped_size size))
       end.
Proof.
  intros [Hmin Hl] Hs.
  assert (0 < minimum_stacksize) by done.
  destruct (mapped_size_spec size) as [Hm Hu]; [lia|]. unfold mapped_size in Hm, Hu.
  pose proof (Z.pow_pos_nonneg 2 k). unfold allocate.
  rewrite (proj2 (Z.leb_le _ _)) by done. cbn [assert_ mbind outcome_bind].
  rewrite assert_limit_spec by done. cbn [mbind outcome_bind]. cbv zeta. rewrite Hu.
  rewrite !(proj2 (Z.ltb_lt _ _)) by lia. cbn [andb assert_ mbind outcome_bind].
  by destruct mapped.
Qed.

(** Whether [deallocate] accepts stacks of that size: it compares the limit with
    the size mapped, [allocate] with the size asked for. *)
Definition takes_back (mapped : Z) : bool := (rlim_max =? RLIM_INFINITY) || (mapped <=? rlim_max).

Lemma deallocate_spec limit size ctx :
  0 < limit → allowed size → size ≤ 2 ^ 24 →
  allocate (2 ^ k) rlim_max (Some limit) true size new = Ok (0, ctx) →
  Stacks.size ctx = mapped_size size ∧
  deallocate rlim_max ctx =
    if takes_back (mapped_size size) then Ok (limit, mapped_size size) else Assert.
Proof.
  intros Hlimit Ha Hs. rewrite allocate_spec by done. intros [= <-]. cbn [Stacks.size].
  split; [done|]. destruct Ha as [Hmin Hl]. assert (0 < minimum_stacksize) by done.
  destruct (mapped_size_spec size) as [Hm _]; [lia|]. pose proof (Z.pow_pos_nonneg 2 k).
  unfold deallocate, takes_back. cbn [Stacks.size sp].
  rewrite (proj2 (Z.eqb_neq _ 0)) by lia. cbn [negb assert_ mbind outcome_bind].
  rewrite (proj2 (Z.leb_le _ _)) by lia. cbn [assert_ mbind outcome_bind].
  unfold assert_limit, maximum_stacksize, is_stack_unbound.
  destruct (rlim_max =? RLIM_INFINITY); cbn [orb negb assert_ mbind outcome_bind].
  - do 2 f_equal. lia.
  - destruct (mapped_size size <=? rlim_max); [|done]. cbn [assert_ mbind outcome_bind].
    do 2 f_equal. lia.
Qed.

End rooms.

(** C34: a stack of at most 2^24 bytes, of a size that [allocate] accepts and with
    pages of at most 2^24 bytes, has room for the bytes asked for above its guard
    page and is given back to the system exactly as it was mapped, unless the limit
    on stacks lies between the size asked for and the size mapped: then
    [deallocate], which compares the limit with the latter, aborts.  Beyond 2^24
    bytes it is not so: the size goes through a [float] ([float_loses_a_byte]). *)
Theorem stack_roundtrip k rlim_max limit size (Hk : 0 ≤ k ≤ 24) (Hlimit : 0 < limit)
    (Ha : allowed rlim_max size) (Hs : size ≤ 2 ^ 24) :
  ∃ ctx, allocate (2 ^ k) rlim_max (Some limit) true size new = Ok (0, ctx) ∧
    size ≤ Stacks.size ctx - 2 ^ k < size + 2 ^ k ∧
    deallocate rlim_max ctx =
      (if (rlim_max =? RLIM_INFINITY) || (Stacks.size ctx <=? rlim_max)
       then Ok (limit, Stacks.size ctx) else Assert).
Proof.
  pose proof (allocate_spec k rlim_max Hk (Some limit) size new Ha Hs) as Hall.
  destruct (deallocate_spec k rlim_max Hk limit size _ Hlimit Ha Hs Hall) as [Hsz Hd].
  eexists. split; [exact Hall|]. rewrite Hsz. destruct Ha as [Hmin _].
  assert (0 < minimum_stacksize) by done.
  destruct (mapped_size_spec k Hk size) as [Hm _]; [lia|]. split; [lia|]. exact Hd.
Qed.

(** The stacks of the handlers, with pages of 4096 bytes: 321 pages. *)
Lemma stack_roundtrip_witness :
  ∃ ctx, allocate (2 ^ 12) RLIM_INFINITY (Some 65536) true 1310272 new = Ok (0, ctx) ∧
    Stacks.size ctx = 321 * 4096 ∧ deallocate RLIM_INFINITY ctx = Ok (65536, 321 * 4096).
Proof.
  destruct (stack_roundtrip 12 RLIM_INFINITY 65536 1310272) as (ctx & Ha & Hs & Hd).
  - lia.
  - lia.
  - split; [vm_compute; discriminate|by left].
  - lia.
  - exists ctx. split; [exact Ha|]. vm_compute in Ha. injection Ha as <-.
    split; [reflexivity|exact Hd].
Defined.

(** With a limit of 1310272 bytes the handlers' stacks can be made, but not freed. *)
Example tight_limit :
  (allocate 4096 1310272 (Some 65536) true 1310272 new ≫= λ '(_, ctx), deallocate 1310272 ctx) = Assert.
Proof. reflexivity. Qed.

(** A [float] has 24 bits: of a stack of one byte more the last page is missing,
    and its first byte would be in the guard page. *)
Theorem float_loses_a_byte limit :
  ∃ ctx, allocate (2 ^ 12) RLIM_INFINITY (Some limit) true (2 ^ 24 + 1) new = Ok (0, ctx) ∧
    size ctx - 2 ^ 12 < 2 ^ 24 + 1.
Proof. eexists. split; [reflexivity|]. done. Qed.

(** The number of bytes wraps around: for the largest size only the guard page is
    mapped. *)
Example huge_stack_wraps limit :
  allocate (2 ^ 12) RLIM_INFINITY (Some limit) true (2 ^ 64 - 1) new = Ok (0, mk 4096 (limit + 4096)).
Proof. reflexivity. Qed.

End Stacks.
