(* ===== verification/Contexts.v ===== *)
(** * Contexts: tc_jump_x86_64_sysv_elf_gas.s, tc_make_x86_64_sysv_elf_gas.s,
    tc_fcontext.h, and the entry functions of CoroutineScheduler.cc

    How coroutines are switched.  Module Fcontext has the two assembly routines,
    instruction by instruction; Module Entry has the jumps that the scheduler makes
    with them, over abstract points of control, and the theorem that they let every
    coroutine go on where it stopped.  This is why Scheduler can keep what is left
    of a coroutine as one value. *)

From S2P Require Import Prelude Stacks.

(** ** The assembly routines *)

Module Fcontext.

(** The registers that the routines touch; [mxcsr] and [x87_cw] are the control
    words of the floating point units. *)
Record regs := mk_regs {
  rax : Z; rbx : Z; rcx : Z; rdx : Z; rsi : Z; rdi : Z; rbp : Z; rsp : Z;
  r12 : Z; r13 : Z; r14 : Z; r15 : Z; mxcsr : Z; x87_cw : Z
}.

(** Memory: the value stored at an address, at the width it was stored with. *)
Abbreviation memory := (Z → Z).

Definition store (a v : Z) (m : memory) : memory := λ x, if x =? a then v else m x.

(** The address of [off(base)]. *)
Definition ea (base off : Z) : Z := u64 (base + off).

(** [jump_fcontext(ofc, nfc, vp, preserve_fpu)]: [ofc] in [rdi], [nfc] in [rsi],
    [vp] in [rdx] and [preserve_fpu] in [rcx]; the return address is at [rsp].  The
    registers and the memory behind the last jump, and where it goes. *)
Definition jump_fcontext (r : regs) (m : memory) : regs * memory * Z :=
  let m := store (ea (rdi r) 0) (rbx r) m in
  let m := store (ea (rdi r) 8) (r12 r) m in
  let m := store (ea (rdi r) 16) (r13 r) m in
  let m := store (ea (rdi r) 24) (r14 r) m in
  let m := store (ea (rdi r) 32) (r15 r) m in
  let m := store (ea (rdi r) 40) (rbp r) m in
  let '(fp, m) :=
    if rcx r =? 0 then ((mxcsr r, x87_cw r), m)
    else
      let m := store (ea (rdi r) 80) (mxcsr r) m in
      let m := store (ea (rdi r) 84) (x87_cw r) m in
      ((m (ea (rsi r) 80), m (ea (rsi r) 84)), m) in
  let m := store (ea (rdi r) 48) (ea (rsp r) 8) m in
  let m := store (ea (rdi r) 56) (m (ea (rsp r) 0)) m in
  let target := m (ea (rsi r) 56) in
  (mk_regs (rdx r) (m (ea (rsi r) 0)) target (rdx r) (rsi r) (rdx r)
     (m (ea (rsi r) 40)) (m (ea (rsi r) 48))
     (m (ea (rsi r) 8)) (m (ea (rsi r) 16)) (m (ea (rsi r) 24)) (m (ea (rsi r) 32)) fp.1 fp.2,
   m, target).

(** [make_fcontext(sp, size, fn)]: [sp] in [rdi], [size] in [rsi] and [fn] in
    [rdx]; [finish] is the address of that label.  The result, in [rax], and the
    memory. *)
Definition make_fcontext (finish : Z) (r : regs) (m : memory) : Z * memory :=
  let rax := Z.land (ea (rdi r) (-88)) (-16) in
  let m := store (ea rax 64) (rdi r) m in
  let m := store (ea rax 72) (rsi r) m in
  let m := store (ea rax 56) (rdx r) m in
  let m := store (ea rax 80) (mxcsr r) m in
  let m := store (ea rax 84) (x87_cw r) m in
  let rdx := ea rax (-8) in
  let m := store (ea rax 48) rdx m in
  (rax, store rdx finish m).

(** *** What they promise *)

(** A context at [a], of eighty-eight bytes. *)
Definition placed (a : Z) : Prop := 0 ≤ a ∧ a + 88 < 2 ^ 64.

Definition apart (a b : Z) : Prop := a + 88 ≤ b ∨ b + 88 ≤ a.

Definition offsets : list Z := [0; 8; 16; 24; 32; 40; 48; 56; 64; 72; 80; 84].

Lemma ea_small a off : 0 ≤ a + off < 2 ^ 64 → ea a off = a + off.
Proof. intros. unfold ea. by rewrite u64_small. Qed.

Lemma store_same a v m x : x = a → store a v m x = v.
Proof. intros ->. unfold store. by rewrite Z.eqb_refl. Qed.

Lemma store_other a v m x : x ≠ a → store a v m x = m x.
Proof. intros Hx. unfold store. by rewrite (proj2 (Z.eqb_neq x a) Hx). Qed.

(** Reading through stores to addresses that arithmetic tells apart. *)
Ltac cells :=
  repeat match goal with
  | |- context [ea ?a ?off] => rewrite (ea_small a off) by lia
  | |- context [store ?a ?v ?m ?x] =>
      first [ rewrite (store_same a v m x) by lia
            | rewrite (store_other a v m x) by lia ]
  end.

(** A register set as it is in a context at [a]. *)
Definition in_context (m : memory) (a : Z) (r : regs) (sp ip : Z) : Prop :=
  m a = rbx r ∧ m (a + 8) = r12 r ∧ m (a + 16) = r13 r ∧ m (a + 24) = r14 r ∧
  m (a + 32) = r15 r ∧ m (a + 40) = rbp r ∧ m (a + 48) = sp ∧ m (a + 56) = ip.

(** The return address on the stack is not in the context that is written. *)
Definition stack_apart (r : regs) : Prop :=
  0 ≤ rsp r ∧ rsp r + 8 < 2 ^ 64 ∧ (rsp r + 8 ≤ rdi r ∨ rdi r + 88 ≤ rsp r).

(** A jump writes nothing outside [ofc]. *)
Lemma jump_frame r m x :
  placed (rdi r) → x < rdi r ∨ rdi r + 88 ≤ x → (jump_fcontext r m).1.2 x = m x.
Proof.
  intros [Ha Hb] Hx. unfold jump_fcontext. destruct (rcx r =? 0); cbn [fst snd]; by cells.
Qed.

(** It writes the caller there, with the stack as it is after the return and the
    return address. *)
Lemma jump_saves r m :
  placed (rdi r) → stack_apart r →
  in_context (jump_fcontext r m).1.2 (rdi r) r (rsp r + 8) (m (rsp r)).
Proof.
  intros [Ha Hb] (Hs1 & Hs2 & Hs). unfold jump_fcontext.
  destruct (rcx r =? 0); cbn [fst snd]; unfold in_context; split_and!; cells;
    rewrite ?Z.add_0_r; try done; f_equal; lia.
Qed.

(** A jump goes on from what is in [nfc], with [vp] as result and as argument. *)
Lemma jump_restores r m r' sp ip :
  placed (rdi r) → placed (rsi r) → apart (rdi r) (rsi r) →
  in_context m (rsi r) r' sp ip →
  let '(r1, _, target) := jump_fcontext r m in
  target = ip ∧ rsp r1 = sp ∧ rax r1 = rdx r ∧ rdi r1 = rdx r ∧
  rbx r1 = rbx r' ∧ rbp r1 = rbp r' ∧ r12 r1 = r12 r' ∧ r13 r1 = r13 r' ∧ r14 r1 = r14 r' ∧
  r15 r1 = r15 r' ∧ (rcx r = 0 → mxcsr r1 = mxcsr r ∧ x87_cw r1 = x87_cw r).
Proof.
  intros [Ha Hb] [Hc Hd] Hap (H0 & H8 & H16 & H24 & H32 & H40 & H48 & H56). unfold apart in Hap.
  unfold jump_fcontext. destruct (Z.eqb_spec (rcx r) 0) as [Hz|Hz]; cbn [fst snd rax rbx rcx rdx rsi
    rdi rbp rsp r12 r13 r14 r15 mxcsr x87_cw]; split_and!; cells; rewrite ?Z.add_0_r; done.
Qed.

(** C18: a coroutine that has jumped away goes on where it was: when anybody jumps
    back to its context, which nobody has written since, the jump returns to the
    caller, above its return address, with every register that a function must
    preserve and with the value that came along as its result. *)
Theorem jump_roundtrip r m r2 m2
    (Hofc : placed (rdi r)) (Hstack : stack_apart r)
    (Hback : rsi r2 = rdi r) (Hofc2 : placed (rdi r2)) (Hap : apart (rdi r2) (rsi r2))
    (Hkept : ∀ x, rdi r ≤ x < rdi r + 88 → m2 x = (jump_fcontext r m).1.2 x) :
  let '(r3, _, target) := jump_fcontext r2 m2 in
  target = m (rsp r) ∧ rsp r3 = rsp r + 8 ∧ rax r3 = rdx r2 ∧
  rbx r3 = rbx r ∧ rbp r3 = rbp r ∧ r12 r3 = r12 r ∧ r13 r3 = r13 r ∧ r14 r3 = r14 r ∧
  r15 r3 = r15 r ∧ (rcx r2 = 0 → mxcsr r3 = mxcsr r2 ∧ x87_cw r3 = x87_cw r2).
Proof.
  pose proof (jump_saves r m Hofc Hstack) as Hin.
  assert (in_context m2 (rsi r2) r (rsp r + 8) (m (rsp r))) as Hin2.
  { unfold in_context in *. rewrite Hback, !Hkept by lia. exact Hin. }
  pose proof (jump_restores r2 m2 r _ _ Hofc2 ltac:(by rewrite Hback) Hap Hin2) as Hr.
  destruct (jump_fcontext r2 m2) as [[r3 m3] target]. tauto.
Qed.

(** [andq $-16]: down to a multiple of 16. *)
Lemma align_spec x : Z.land x (-16) ≤ x < Z.land x (-16) + 16 ∧ Z.land x (-16) `mod` 16 = 0.
Proof.
  change (-16) with (Z.lnot (Z.ones 4)). rewrite <- Z.ldiff_land, Z.ldiff_ones_r by lia.
  rewrite Z.shiftl_mul_pow2, Z.shiftr_div_pow2 by lia. change (2 ^ 4) with 16.
  Z.to_euclidean_division_equations. lia.
Qed.

(** Where [make_fcontext] writes, and what a jump to it finds. *)
Lemma make_spec finish r m a :
  8 ≤ a → rdi r < 2 ^ 64 → 88 ≤ rdi r → Z.land (rdi r - 88) (-16) = a →
  (make_fcontext finish r m).1 = a ∧
  (let m' := (make_fcontext finish r m).2 in
   m' (a - 8) = finish ∧ m' (a + 48) = a - 8 ∧ m' (a + 56) = rdx r ∧
   m' (a + 64) = rdi r ∧ m' (a + 72) = rsi r ∧
   ∀ x, x < a - 8 ∨ a + 88 ≤ x → m' x = m x).
Proof.
  intros Ha Hlt Hge Hal. pose proof (align_spec (rdi r - 88)) as [Hr Hm]. rewrite Hal in *.
  unfold make_fcontext. rewrite (ea_small (rdi r) (-88)) by lia.
  replace (rdi r + -88) with (rdi r - 88) by lia. rewrite Hal. cbn [fst snd].
  split; [done|]. split_and!; try (cells; lia). intros x Hx. by cells.
Qed.

(** C31: a context that [make_fcontext] puts on a stack lies inside it, above the
    protected page, for every stack of at most 2^24 bytes that [allocate] grants,
    with pages of at most 2^24 bytes, in the lower half of the addresses; the first jump to it,
    from a context elsewhere, enters the function with the value that comes along
    as its argument, the stack aligned as a call leaves it, and the routine that
    ends the program as its return address, provided that what is on the stack has
    not been written to since and that the context left is not saved there.  (For
    the size 2^64 - 1 [allocate] grants a stack that is nothing but the protected
    page: [Stacks.huge_stack_wraps].) *)
Theorem make_fcontext_enters k rlim_max mapped size ctx finish r m r2 m2
    (Hk : 0 ≤ k ≤ 24) (Hallowed : Stacks.allowed rlim_max size) (Hsize : size ≤ 2 ^ 24)
    (Hmap : 0 < mapped < 2 ^ 63)
    (Halloc : Stacks.allocate (2 ^ k) rlim_max (Some mapped) true size Stacks.new = Ok (0, ctx))
    (Hsp : rdi r = Stacks.sp ctx)
    (Hto : rsi r2 = (make_fcontext finish r m).1) (Hofc : placed (rdi r2))
    (Hap : rdi r2 + 88 ≤ mapped ∨ Stacks.sp ctx ≤ rdi r2)
    (Hkept : ∀ x, mapped ≤ x < Stacks.sp ctx → m2 x = (make_fcontext finish r m).2 x) :
  (∀ x, x < mapped + 2 ^ k ∨ Stacks.sp ctx ≤ x → (make_fcontext finish r m).2 x = m x) ∧
  let '(r3, m3, target) := jump_fcontext r2 m2 in
  target = rdx r ∧ rdi r3 = rdx r2 ∧ m3 (rsp r3) = finish ∧
  (rsp r3 + 8) `mod` 16 = 0 ∧ mapped + 2 ^ k ≤ rsp r3 < Stacks.sp ctx.
Proof.
  rewrite Stacks.allocate_spec in Halloc by done. injection Halloc as <-. cbn [Stacks.sp] in *.
  destruct Hallowed as [Hmin _]. unfold Stacks.minimum_stacksize, Stacks.sizeof_fcontext in Hmin.
  destruct (Stacks.mapped_size_spec k Hk size) as [Hms _]; [lia|].
  assert (2 ^ k ≤ 2 ^ 24) by (apply Z.pow_le_mono_r; lia). pose proof (Z.pow_pos_nonneg 2 k).
  set (top := mapped + Stacks.mapped_size k size) in *.
  pose proof (align_spec (top - 88)) as [Hr Hm]. set (a := Z.land (top - 88) (-16)) in *.
  destruct (make_spec finish r m a) as (Hres & Hfin & Hrsp & Hfn & _ & _ & Hframe);
    [lia..|by rewrite Hsp|].
  rewrite Hres in Hto. split; [intros x Hx; apply Hframe; lia|].
  pose proof (λ x, jump_frame r2 m2 x Hofc) as Hf.
  assert (∀ x, mapped ≤ x < top → (jump_fcontext r2 m2).1.2 x = (make_fcontext finish r m).2 x) as Hkeep.
  { intros x Hx. rewrite Hf by lia. by apply Hkept. }
  assert (in_context m2 (rsi r2) (mk_regs 0 (m2 a) 0 0 0 0 (m2 (a + 40)) 0 (m2 (a + 8)) (m2 (a + 16))
            (m2 (a + 24)) (m2 (a + 32)) 0 0) (a - 8) (rdx r)) as Hin.
  { unfold in_context. rewrite Hto. cbn. split_and!; try done; rewrite Hkept by lia; done. }
  pose proof (jump_restores r2 m2 _ _ _ Hofc ltac:(rewrite Hto; unfold placed; lia)
    ltac:(rewrite Hto; unfold apart; lia) Hin) as Hj.
  destruct (jump_fcontext r2 m2) as [[r3 m3] target]. cbn [fst snd] in *.
  destruct Hj as (-> & -> & _ & -> & _). split; [done|]. split; [done|].
  rewrite Hkeep by lia. split; [done|]. split; [|lia].
  replace (a - 8 + 8) with a by lia. done.
Qed.

(** A caller with 77 as its return address, jumped back to from elsewhere. *)
Definition a_caller : regs := mk_regs 0 1 0 2 2000 1000 3 5000 4 5 6 7 8 9.
Definition a_stack : memory := store 5000 77 (λ _, 0).

Lemma jump_roundtrip_witness :
  let m2 := (jump_fcontext a_caller a_stack).1.2 in
  let '(r3, _, target) := jump_fcontext (mk_regs 0 0 0 42 1000 3000 0 9000 0 0 0 0 0 0) m2 in
  target = 77 ∧ rsp r3 = 5008 ∧ rax r3 = 42 ∧ rbp r3 = 3.
Proof.
  pose proof (jump_roundtrip a_caller a_stack (mk_regs 0 0 0 42 1000 3000 0 9000 0 0 0 0 0 0)
    (jump_fcontext a_caller a_stack).1.2) as H.
  cbv zeta. destruct (jump_fcontext (mk_regs 0 0 0 42 1000 3000 0 9000 0 0 0 0 0 0) _) as [[r3 m3] target].
  destruct H as (-> & -> & -> & _ & -> & _).
  - split; vm_compute; [discriminate|reflexivity].
  - split; [vm_compute; discriminate|]. split; [vm_compute; reflexivity|]. right. vm_compute. discriminate.
  - reflexivity.
  - split; vm_compute; [discriminate|reflexivity].
  - right. vm_compute. discriminate.
  - reflexivity.
  - split; [reflexivity|]. split; [reflexivity|]. split; reflexivity.
Defined.

(** The stack of a handler, mapped at 65536. *)
Lemma make_fcontext_enters_witness :
  let r := mk_regs 0 0 0 4242 (321 * 4096) (65536 + 321 * 4096) 0 0 0 0 0 0 0 0 in
  let m := (make_fcontext 9 r (λ _, 0)).2 in
  let to := (make_fcontext 9 r (λ _, 0)).1 in
  let '(r3, m3, target) := jump_fcontext (mk_regs 0 0 0 42 to 1000 0 5000 0 0 0 0 0 0) m in
  target = 4242 ∧ rdi r3 = 42 ∧ m3 (rsp r3) = 9.
Proof.
  intros r m to.
  pose proof (make_fcontext_enters 12 Stacks.RLIM_INFINITY 65536 1310272
    (Stacks.mk (321 * 4096) (65536 + 321 * 4096)) 9 r (λ _, 0)
    (mk_regs 0 0 0 42 to 1000 0 5000 0 0 0 0 0 0) m) as H.
  destruct H as [_ H].
  - lia.
  - split; [vm_compute; discriminate|by left].
  - lia.
  - lia.
  - vm_compute. reflexivity.
  - reflexivity.
  - reflexivity.
  - split; vm_compute; [discriminate|reflexivity].
  - left. vm_compute. discriminate.
  - reflexivity.
  - destruct (jump_fcontext _ m) as [[r3 m3] target]. destruct H as (-> & -> & -> & _).
    split; [reflexivity|]. split; reflexivity.
Defined.

End Fcontext.

(** ** The jumps of the coroutines *)

Module Entry.

Section contexts.
Context {Prog W : Type}.

(** What a coroutine does until it gives up the processor or ends, an exception
    included: the coroutines it creates, and what is left of it, if anything. *)
Context (work : Prog → W → list (nat * Prog) * option Prog * W).

(** What the scheduler does from the main coroutine: [createCoroutine] from outside
    of the coroutines, and [switchCoro(&mainCoro_, coro)]. *)
Inductive cmd := Register (n : nat) (p : Prog) | Switch (n : nat).

(** The places where control can be: in the main coroutine, with what it is going to
    do; at the start of [corotineEntry] and behind its jump; in the program of a
    coroutine, with the coroutines that it is still going to create and with what it
    has left for later; behind the [switchCoro] of a [yield] or [sleep]; behind the
    one at the end of [corotineProc]. *)
Inductive point :=
| InMain (rest : list cmd)
| EntryStart (n : nat)
| EntryGo (n : nat)
| InBody (n : nat) (creates : list (nat * Prog)) (next : option Prog)
| Resumed (n : nat) (p : Prog)
| NoCome (n : nat).

(** A [fcontext_t]: the one in a [CoroutineInfo], [ctx_from_], or the one on its
    stack to which [ctx_to_] points; [None] is [mainCoro_]. *)
Inductive cell := From (coro : option nat) | To (coro : option nat).

#[global] Instance cell_eq_dec : EqDecision cell.
Proof. solve_decision. Defined.

#[global] Program Instance cell_countable : Countable cell :=
  inj_countable' (λ c, match c with From c => inl c | To c => inr c end)
                 (λ s, match s with inl c => From c | inr c => To c end) _.
Next Obligation. by intros []. Qed.

(** [get_ctx]; [main_] is true of [mainCoro_] only. *)
Definition get_ctx (coro : option nat) : cell :=
  match coro with None => From None | Some n => To (Some n) end.

Record t := mk {
  control : point;
  contexts : gmap cell point;
  callback_ : gmap nat Prog;
  world : W
}.

(** [jump_fcontext(ofc, nfc, ...)], called at [here]. *)
Definition jump_fcontext (ofc nfc : cell) (here : point) (s : t) : outcome t :=
  let ctxs := <[ofc := here]> (contexts s) in
  to ← deref (ctxs !! nfc);
  Ok (mk to ctxs (callback_ s) (world s)).

(** [make_fcontext] on the stack of [n]. *)
Definition make_fcontext (n : nat) (fn : point) (s : t) : t :=
  mk (control s) (<[To (Some n) := fn]> (contexts s)) (callback_ s) (world s).

(** [registerFunc] of [n], called before [here]. *)
Definition registerFunc (n : nat) (p : Prog) (here : point) (s : t) : outcome t :=
  let s := mk (control s) (contexts s) (<[n := p]> (callback_ s)) (world s) in
  let s := make_fcontext n (EntryStart n) s in
  jump_fcontext (From (Some n)) (To (Some n)) here s.

Definition switchCoro (from to : option nat) (here : point) (s : t) : outcome t :=
  jump_fcontext (get_ctx from) (get_ctx to) here s.

(** The program of [n] goes on with [p]. *)
Definition go (n : nat) (p : Prog) (s : t) : t :=
  let '(creates, next, w) := work p (world s) in
  mk (InBody n creates next) (contexts s) (callback_ s) w.

(** One step, up to the next jump; a context is never made on the stack that is in
    use; no step when the main coroutine is done.  Behind
    [NoCome] the function of the context returns, and the program ends. *)
Definition step (s : t) : option (outcome t) :=
  match control s with
  | InMain [] => None
  | InMain (Register n p :: rest) => Some (registerFunc n p (InMain rest) s)
  | InMain (Switch n :: rest) => Some (switchCoro None (Some n) (InMain rest) s)
  | EntryStart n => Some (jump_fcontext (To (Some n)) (From (Some n)) (EntryGo n) s)
  | EntryGo n => Some (p ← deref (callback_ s !! n); Ok (go n p s))
  | InBody n ((m, q) :: creates) next =>
      Some (_ ← defined (bool_decide (m ≠ n)); registerFunc m q (InBody n creates next) s)
  | InBody n [] (Some p) => Some (switchCoro (Some n) None (Resumed n p) s)
  | InBody n [] None => Some (switchCoro (Some n) None (NoCome n) s)
  | Resumed n p => Some (Ok (go n p s))
  | NoCome n => Some Assert
  end.

Definition steps : relation t := rtc (λ s s', step s = Some (Ok s')).

(** *** The specification: a table of what is left of every coroutine *)

Definition spec (c : cmd) (x : gmap nat Prog * W) : outcome (gmap nat Prog * W) :=
  let '(T, w) := x in
  match c with
  | Register n p => Ok (<[n := p]> T, w)
  | Switch n =>
      p ← deref (T !! n);
      let '(creates, next, w) := work p w in
      _ ← defined (bool_decide (n ∉ creates.*1));
      let T := foldl (λ T c, <[c.1 := c.2]> T) T creates in
      Ok (match next with Some p => <[n := p]> T | None => delete n T end, w)
  end.

Fixpoint spec_all (cs : list cmd) (x : gmap nat Prog * W) : outcome (gmap nat Prog * W) :=
  match cs with [] => Ok x | c :: cs => x ← spec c x; spec_all cs x end.

(** *** The contexts implement the table *)

Implicit Types (s : t) (T : gmap nat Prog) (n : nat).

(** What a jump to the context of a coroutine finds is what is left of it. *)
Definition represents s T : Prop :=
  ∀ n p, T !! n = Some p →
    contexts s !! To (Some n) = Some (EntryGo n) ∧ callback_ s !! n = Some p ∨
    contexts s !! To (Some n) = Some (Resumed n p).

(** A registration comes back to the place it was called from; the context of the
    main coroutine is left alone. *)
Lemma register_returns n p here s T :
  represents s T →
  ∃ s1 s2, registerFunc n p here s = Ok s1 ∧ step s1 = Some (Ok s2) ∧
    control s2 = here ∧ world s2 = world s ∧ represents s2 (<[n := p]> T) ∧
    contexts s2 !! From None = contexts s !! From None.
Proof.
  intros Hrep. unfold registerFunc, jump_fcontext, make_fcontext. cbn [contexts callback_ world control].
  rewrite lookup_insert_ne, lookup_insert_eq by done. cbn [deref mbind outcome_bind].
  eexists _, _. split; [done|]. cbn [step control]. unfold jump_fcontext. cbn [contexts callback_ world].
  rewrite lookup_insert_ne, lookup_insert_eq by done. cbn [deref mbind outcome_bind].
  split; [done|]. split; [done|]. split; [done|]. cbn [contexts]. split.
  - intros m q Hm. cbn [contexts callback_]. destruct (decide (m = n)) as [->|Hne].
    + rewrite lookup_insert_eq in Hm. injection Hm as <-. left. by rewrite !lookup_insert_eq.
    + rewrite lookup_insert_ne in Hm by done. rewrite !lookup_insert_ne by congruence. by apply Hrep.
  - by rewrite !lookup_insert_ne by done.
Qed.

Lemma creates_run n next : ∀ creates s T,
  control s = InBody n creates next → n ∉ creates.*1 → represents s T →
  ∃ s', steps s s' ∧ control s' = InBody n [] next ∧ world s' = world s ∧
    represents s' (foldl (λ T c, <[c.1 := c.2]> T) T creates) ∧
    contexts s' !! From None = contexts s !! From None.
Proof.
  induction creates as [|[m q] creates IH]; intros s T Hc Hn Hrep.
  { exists s. by split; [apply rtc_refl|]. }
  cbn in Hn. apply not_elem_of_cons in Hn as [Hnm Hn].
  destruct (register_returns m q (InBody n creates next) s T Hrep)
    as (s1 & s2 & H1 & H2 & Hc2 & Hw2 & Hrep2 & Hf2).
  destruct (IH s2 _ Hc2 Hn Hrep2) as (s' & Hs & Hc' & Hw' & Hrep' & Hf').
  exists s'. split; [|by split_and!; try congruence].
  apply rtc_l with s1; [|by apply rtc_l with s2].
  unfold step. rewrite Hc, bool_decide_true by congruence. cbn [defined mbind outcome_bind].
  by rewrite H1.
Qed.

(** From the program of a coroutine back to the main coroutine. *)
Lemma body_returns n p w0 s T creates next w rest :
  control s = InBody n creates next → work p w0 = (creates, next, w) → world s = w →
  n ∉ creates.*1 → represents s T → contexts s !! From None = Some (InMain rest) →
  ∃ s', steps s s' ∧ control s' = InMain rest ∧ world s' = w ∧
    represents s' (let T := foldl (λ T c, <[c.1 := c.2]> T) T creates in
                   match next with Some p => <[n := p]> T | None => delete n T end).
Proof.
  intros Hc Hwork Hw Hn Hrep Hmain.
  destruct (creates_run n next creates s T Hc Hn Hrep) as (s1 & Hs1 & Hc1 & Hw1 & Hrep1 & Hf1).
  rewrite Hmain in Hf1. set (T1 := foldl _ _ _) in *. cbv zeta.
  destruct next as [p'|].
  - eexists. split; [eapply rtc_r; [exact Hs1|]|].
    { unfold step. rewrite Hc1. unfold switchCoro, jump_fcontext. cbn [get_ctx].
      rewrite lookup_insert_ne, Hf1 by done. reflexivity. }
    split; [done|]. split; [cbn; congruence|]. intros m q Hm. cbn [contexts callback_].
    destruct (decide (m = n)) as [->|Hne].
    + rewrite lookup_insert_eq in Hm. rewrite lookup_insert_eq. right. congruence.
    + rewrite lookup_insert_ne in Hm by done. rewrite lookup_insert_ne by congruence. by apply Hrep1.
  - eexists. split; [eapply rtc_r; [exact Hs1|]|].
    { unfold step. rewrite Hc1. unfold switchCoro, jump_fcontext. cbn [get_ctx].
      rewrite lookup_insert_ne, Hf1 by done. reflexivity. }
    split; [done|]. split; [cbn; congruence|]. intros m q [Hne Hm]%lookup_delete_Some.
    cbn [contexts callback_]. rewrite lookup_insert_ne by congruence. by apply Hrep1.
Qed.

(** C17: the jumps implement the table: whatever the main coroutine registers and
    switches to, in any order, it gets control back after finitely many jumps, and
    each switch has run the coroutine from where it stopped, or from the start of
    the function it was registered with, coroutines that it created on the way
    included. *)
Theorem contexts_implement_coroutines cs : ∀ s T T' w',
  control s = InMain cs → represents s T → spec_all cs (T, world s) = Ok (T', w') →
  ∃ s', steps s s' ∧ control s' = InMain [] ∧ world s' = w' ∧ represents s' T'.
Proof.
  induction cs as [|[n p|n] cs IH]; intros s T T' w' Hc Hrep Hspec; cbn [spec_all] in Hspec.
  { injection Hspec as <- <-. exists s. by split; [apply rtc_refl|]. }
  - destruct (register_returns n p (InMain cs) s T Hrep) as (s1 & s2 & H1 & H2 & Hc2 & Hw2 & Hrep2 & _).
    cbn [spec mbind outcome_bind] in Hspec. rewrite <- Hw2 in Hspec.
    destruct (IH s2 _ _ _ Hc2 Hrep2 Hspec) as (s' & Hs & Hrest). exists s'. split; [|done].
    apply rtc_l with s1; [|by apply rtc_l with s2]. unfold step. by rewrite Hc, H1.
  - apply bind_Ok in Hspec as ([T1 w1] & Hspec1 & Hspec). cbn [spec] in Hspec1.
    apply bind_Ok in Hspec1 as (p & Hp & Hspec1). destruct (T !! n) as [p'|] eqn:HT; [|done].
    injection Hp as ->. destruct (work p (world s)) as [[creates next] w] eqn:Hwork.
    apply bind_Ok in Hspec1 as ([] & Hn & Hspec1). case_bool_decide as Hn'; [|done].
    injection Hspec1 as <- <-.
    assert (∃ s1, steps s s1 ∧ control s1 = InBody n creates next ∧ world s1 = w ∧ represents s1 T ∧
      contexts s1 !! From None = Some (InMain cs)) as (s1 & Hs1 & Hc1 & Hw1 & Hrep1 & Hm1).
    { destruct (Hrep n p HT) as [[Hctx Hcb]|Hctx].
      all: eexists; split; [eapply rtc_l; [|eapply rtc_once]|].
      all: try (unfold step; rewrite Hc; unfold switchCoro, jump_fcontext; cbn [get_ctx];
                rewrite lookup_insert_ne, Hctx by done; reflexivity).
      all: unfold step; cbn [control callback_ world]; rewrite ?Hcb; cbn [deref mbind outcome_bind];
           unfold go; cbn [world contexts callback_]; rewrite ?Hwork; try reflexivity.
      all: split; [done|]; split; [done|]; split; [|cbn [contexts]; by rewrite lookup_insert_eq].
      all: intros m q Hm; cbn [contexts callback_]; rewrite lookup_insert_ne by done; by apply Hrep. }
    destruct (body_returns n p (world s) s1 T creates next w cs Hc1 Hwork Hw1 Hn' Hrep1 Hm1)
      as (s2 & Hs2 & Hc2 & Hw2 & Hrep2).
    rewrite <- Hw2 in Hspec. destruct (IH s2 _ _ _ Hc2 Hrep2 Hspec) as (s' & Hs & Hrest).
    exists s'. split; [|done]. etrans; [exact Hs1|]. by etrans.
Qed.

End contexts.

(** A coroutine that counts down to its end, and at 5 creates another one. *)
Definition countdown (p : nat) (w : list nat) : list (nat * nat) * option nat * list nat :=
  match p with
  | O => ([], None, w ++ [O])
  | 5%nat => ([(1%nat, 1%nat)], Some 1%nat, w ++ [p])
  | S q => ([], Some q, w ++ [p])
  end.

Definition countdown_cmds : list (@cmd nat) :=
  [Register 0 5%nat; Switch 0; Switch 1; Switch 0; Switch 0; Switch 1; Register 0 2%nat; Switch 0].

Lemma contexts_implement_coroutines_witness :
  ∃ s', steps countdown (mk (InMain countdown_cmds) ∅ ∅ []) s' ∧ control s' = InMain [] ∧
    world s' = [5; 1; 1; 0; 0; 2]%nat.
Proof.
  assert (represents (mk (InMain countdown_cmds) ∅ ∅ ([] : list nat)) ∅) as Hr
    by (intros n p Hp; discriminate Hp).
  assert (match spec_all countdown countdown_cmds (∅, []) with
          | Ok (_, w) => w = [5; 1; 1; 0; 0; 2]%nat
          | _ => False
          end) as Hs by (vm_compute; reflexivity).
  destruct (spec_all _ _ _) as [[T' w']| | | |] eqn:He; try contradiction.
  destruct (contexts_implement_coroutines countdown countdown_cmds
    (mk (InMain countdown_cmds) ∅ ∅ []) ∅ T' w' eq_refl Hr He)
    as (s' & H1 & H2 & H3 & _).
  exists s'. split; [exact H1|]. split; [exact H2|]. rewrite H3. exact Hs.
Defined.

End Entry.
