(* ===== verification/Scheduler.v ===== *)
(** * Scheduler: CoroutineScheduler of CoroutineScheduler.h, CoroutineScheduler.cc

    A pool of coroutines in five lists, one for each status.  Switching to a
    coroutine runs it until it yields, sleeps or ends, and comes back to the
    scheduler: [resume] says what a suspended coroutine does to the rest of the
    program (of type [W]) when it is switched to, which coroutines it creates
    meanwhile and how it pauses.  The queue of
    ids to wake is a list, which [ThreadDeque] implements.  [alloc_ok n] says
    whether memory for the stack of the [n]-th coroutine object is granted. *)

From S2P Require Import Prelude CoroList Stacks.

Module Scheduler.
Import CoroList.

(** How a running coroutine gives up control. *)
Inductive pause :=
| Yield (flag : bool)
| Sleep (now sleeptime : Z).

Record CoroutineInfo (Prog : Type) := mk_info {
  uid_ : Z;
  status_ : CORO_STATUS;
  callback_ : option Prog
}.
Arguments mk_info {Prog}.
Arguments uid_ {Prog}.
Arguments status_ {Prog}.
Arguments callback_ {Prog}.

(** The object [n] of [objs] is the one behind the pointer [Info n]; [current]
    is [None] for the main coroutine. *)
Record t (Prog : Type) := mk {
  terminal_ : bool;
  poolSize_ : Z;
  currentSize_ : Z;
  usedSize_ : Z;
  uniqId_ : Z;
  current : option nat;
  allCoro_ : list (option nat);
  links : mem;
  objs : gmap nat (CoroutineInfo Prog);
  fresh : nat;
  activeCoroQueue_ : list Z;
  needActiveCoroId_ : list Z;
  timeoutCoroId_ : list (Z * Z)
}.
Arguments mk {Prog}.
Arguments terminal_ {Prog}.
Arguments poolSize_ {Prog}.
Arguments currentSize_ {Prog}.
Arguments usedSize_ {Prog}.
Arguments uniqId_ {Prog}.
Arguments current {Prog}.
Arguments allCoro_ {Prog}.
Arguments links {Prog}.
Arguments objs {Prog}.
Arguments fresh {Prog}.
Arguments activeCoroQueue_ {Prog}.
Arguments needActiveCoroId_ {Prog}.
Arguments timeoutCoroId_ {Prog}.

Section operations.
Context {Prog W : Type}.
Context (resume : t Prog → Prog → W → outcome (list Prog * option (pause * Prog) * W)).
Context (alloc_ok : nat → bool).
Implicit Types (st : t Prog).

Definition set_links (m : mem) st : t Prog :=
  mk (terminal_ st) (poolSize_ st) (currentSize_ st) (usedSize_ st) (uniqId_ st) (current st)
     (allCoro_ st) m (objs st) (fresh st) (activeCoroQueue_ st) (needActiveCoroId_ st)
     (timeoutCoroId_ st).
Definition set_obj (n : nat) (i : CoroutineInfo Prog) st : t Prog :=
  mk (terminal_ st) (poolSize_ st) (currentSize_ st) (usedSize_ st) (uniqId_ st) (current st)
     (allCoro_ st) (links st) (<[n := i]> (objs st)) (fresh st) (activeCoroQueue_ st)
     (needActiveCoroId_ st) (timeoutCoroId_ st).
Definition set_sizes (currentSize usedSize : Z) st : t Prog :=
  mk (terminal_ st) (poolSize_ st) currentSize usedSize (uniqId_ st) (current st)
     (allCoro_ st) (links st) (objs st) (fresh st) (activeCoroQueue_ st)
     (needActiveCoroId_ st) (timeoutCoroId_ st).
Definition set_current (c : option nat) st : t Prog :=
  mk (terminal_ st) (poolSize_ st) (currentSize_ st) (usedSize_ st) (uniqId_ st) c
     (allCoro_ st) (links st) (objs st) (fresh st) (activeCoroQueue_ st)
     (needActiveCoroId_ st) (timeoutCoroId_ st).
Definition set_queues (act need : list Z) (time : list (Z * Z)) st : t Prog :=
  mk (terminal_ st) (poolSize_ st) (currentSize_ st) (usedSize_ st) (uniqId_ st) (current st)
     (allCoro_ st) (links st) (objs st) (fresh st) act need time.

(** The constructor. *)
Definition new : t Prog :=
  let m := CoroList.mk (λ _, None) (λ _, None) in
  let m := coroutineHeadInit (Head CORO_ACTIVE) m in
  let m := coroutineHeadInit (Head CORO_AVAIL) m in
  let m := coroutineHeadInit (Head CORO_INACTIVE) m in
  let m := coroutineHeadInit (Head CORO_TIMEOUT) m in
  let m := coroutineHeadInit (Head CORO_FREE) m in
  mk false 1000 0 0 0 None (replicate 1000 None) m ∅ 0 [] [] [].

(** A pointer into a list, as a coroutine object. *)
Definition object (x : option node) : outcome nat :=
  match x with Some (Info n) => Ok n | _ => Undef end.

Definition info (n : nat) st : outcome (CoroutineInfo Prog) := deref (objs st !! n).

Definition set_uniqId (id : Z) st : t Prog :=
  mk (terminal_ st) (poolSize_ st) (currentSize_ st) (usedSize_ st) id (current st)
     (allCoro_ st) (links st) (objs st) (fresh st) (activeCoroQueue_ st)
     (needActiveCoroId_ st) (timeoutCoroId_ st).

(** [while (++uniqId_ < 1); assert(uniqId_ <= poolSize_);] *)
Definition generateId st : outcome (Z * t Prog) :=
  let id := u32 (uniqId_ st + 1) in
  let id := if id <? 1 then u32 (id + 1) else id in
  _ ← assert_ (id <=? poolSize_ st);
  Ok (id, set_uniqId id st).

(** [new CoroutineInfo(this)]. *)
Definition new_object st : nat * t Prog :=
  (fresh st,
   mk (terminal_ st) (poolSize_ st) (currentSize_ st) (usedSize_ st) (uniqId_ st) (current st)
      (allCoro_ st) (links st) (objs st) (S (fresh st)) (activeCoroQueue_ st)
      (needActiveCoroId_ st) (timeoutCoroId_ st)).

(** [allCoro_[id] = coro; coroutineAddTail(coro, &free_);] for a new coroutine. *)
Definition enter (id : Z) (n : nat) st : outcome (t Prog) :=
  _ ← defined (bool_decide (0 ≤ id < zlen (allCoro_ st)));
  m ← coroutineAddTail (Info n) (Head CORO_FREE) (links st);
  Ok (mk (terminal_ st) (poolSize_ st) (currentSize_ st) (usedSize_ st) (uniqId_ st) (current st)
         (<[Z.to_nat id := Some n]> (allCoro_ st)) m
         (<[n := mk_info id CORO_FREE None]> (objs st)) (fresh st) (activeCoroQueue_ st)
         (needActiveCoroId_ st) (timeoutCoroId_ st)).

(** The loop of [init]: [succ] counts the coroutines made. *)
Fixpoint init_loop (i : nat) (succ : Z) st : outcome (Z * t Prog) :=
  match i with
  | O => Ok (succ, st)
  | S i =>
      let '(n, st) := new_object st in
      if alloc_ok n then
        '(id, st) ← generateId st;
        st ← enter id n st;
        init_loop i (succ + 1) st
      else Ok (succ, st)
  end.

(** [init] after the constructor. *)
Definition init (poolSize : Z) st : outcome (t Prog) :=
  if poolSize <=? 0 then Ok st
  else
    let n := if poolSize <=? 100 then poolSize else 100 in
    let all := if bool_decide (allCoro_ st = []) then []
               else replicate (Z.to_nat (u32 (poolSize + 1))) None in
    let st := mk false poolSize n 0 0 (current st) all (links st) (objs st) (fresh st)
                 (activeCoroQueue_ st) (needActiveCoroId_ st) (timeoutCoroId_ st) in
    '(succ, st) ← init_loop (Z.to_nat n) 0 st;
    Ok (set_current None (set_sizes succ (usedSize_ st) st)).

(** The loop of [increaseCoroPoolSize], which takes the id first. *)
Fixpoint increase_loop (i : nat) (succ : Z) st : outcome (Z * t Prog) :=
  match i with
  | O => Ok (succ, st)
  | S i =>
      let '(n, st) := new_object st in
      '(id, st) ← generateId st;
      if alloc_ok n then
        st ← enter id n st;
        increase_loop i (succ + 1) st
      else Ok (succ, st)
  end.

Definition increaseCoroPoolSize st : outcome (Z * t Prog) :=
  let room := u32 (poolSize_ st - currentSize_ st) in
  let inc := if 100 <? room then 100 else room in
  if inc <=? 0 then Ok (-1, st)
  else
    '(succ, st) ← increase_loop (Z.to_nat inc) 0 st;
    if succ =? 0 then Ok (-1, st)
    else Ok (0, set_sizes (u32 (currentSize_ st + succ)) (usedSize_ st) st).

Definition set_status (s : CORO_STATUS) (n : nat) st : outcome (t Prog) :=
  i ← info n st;
  Ok (set_obj n (mk_info (uid_ i) s (callback_ i)) st).

(** [registerFunc]: the switch it makes comes straight back. *)
Definition registerFunc (callback : Prog) (n : nat) st : outcome (t Prog) :=
  i ← info n st;
  Ok (set_obj n (mk_info (uid_ i) (status_ i) (Some callback)) st).

(** The second half of [createCoroutine]. *)
Definition take_free (callback : Prog) st : outcome (Z * t Prog) :=
  coro ← object (next_ (links st) (Head CORO_FREE));
  m ← coroutineDel (Info coro) (links st);
  let st := set_links m st in
  let st := set_sizes (currentSize_ st) (u32 (usedSize_ st + 1)) st in
  st ← set_status CORO_AVAIL coro st;
  m ← coroutineAddTail (Info coro) (Head CORO_AVAIL) (links st);
  st ← registerFunc callback coro (set_links m st);
  i ← info coro st;
  Ok (uid_ i, st).

Definition createCoroutine (callback : Prog) st : outcome (Z * t Prog) :=
  '(ret, st) ← (if (currentSize_ st <=? usedSize_ st)
                   || coroutineHeadEmpty (Head CORO_FREE) (links st)
                then increaseCoroPoolSize st else Ok (0, st));
  if negb (ret =? 0) then Ok (0, st) else take_free callback st.

(** [moveTo], and the same three lines where they are written out. *)
Definition moveTo (n : nat) (s : CORO_STATUS) st : outcome (t Prog) :=
  m ← coroutineDel (Info n) (links st);
  st ← set_status s n (set_links m st);
  m ← coroutineAddTail (Info n) (Head s) (links st);
  Ok (set_links m st).

Definition moveToActive (n : nat) st : outcome (t Prog) :=
  i ← info n st;
  match status_ i with
  | CORO_INACTIVE | CORO_TIMEOUT => moveTo n CORO_ACTIVE st
  | _ => Ok st
  end.

Definition moveToAvail (n : nat) st : outcome (t Prog) :=
  i ← info n st;
  match status_ i with
  | CORO_INACTIVE => moveTo n CORO_AVAIL st
  | _ => Ok st
  end.

Definition moveToInactive (n : nat) st : outcome (t Prog) :=
  i ← info n st;
  match status_ i with
  | CORO_ACTIVE | CORO_AVAIL => moveTo n CORO_INACTIVE st
  | _ => Ok st
  end.

Definition moveToTimeout (n : nat) st : outcome (t Prog) :=
  i ← info n st;
  match status_ i with
  | CORO_ACTIVE | CORO_AVAIL => moveTo n CORO_TIMEOUT st
  | _ => Ok st
  end.

Definition moveToFreeList (n : nat) st : outcome (t Prog) :=
  i ← info n st;
  match status_ i with
  | CORO_FREE => Ok st
  | _ => moveTo n CORO_FREE st
  end.

Definition putbyself (id : Z) st : t Prog :=
  if terminal_ st then st
  else set_queues (activeCoroQueue_ st) (needActiveCoroId_ st ++ [id]) (timeoutCoroId_ st) st.

(** [put], from any thread. *)
Definition put (id : Z) st : t Prog :=
  if terminal_ st then st
  else set_queues (activeCoroQueue_ st ++ [id]) (needActiveCoroId_ st) (timeoutCoroId_ st) st.

(** [timeoutCoroId_.insert(...)]: behind the entries with the same key. *)
Fixpoint time_insert (k id : Z) (l : list (Z * Z)) : list (Z * Z) :=
  match l with
  | [] => [(k, id)]
  | e :: l => if e.1 <=? k then e :: time_insert k id l else (k, id) :: e :: l
  end.

(** [yield], up to the switch to the main coroutine. *)
Definition yield (flag : bool) (n : nat) st : outcome (t Prog) :=
  i ← info n st;
  moveToInactive n (if flag then putbyself (uid_ i) st else st).

(** [sleep], up to the switch to the main coroutine. *)
Definition sleep (now sleeptime : Z) (n : nat) st : outcome (t Prog) :=
  let timeout := now + (if 0 <=? sleeptime then sleeptime else - sleeptime) in
  i ← info n st;
  moveToTimeout n (set_queues (activeCoroQueue_ st) (needActiveCoroId_ st)
                              (time_insert timeout (uid_ i) (timeoutCoroId_ st)) st).

(** The end of [corotineProc]. *)
Definition finish (n : nat) st : outcome (t Prog) :=
  moveToFreeList n (set_sizes (currentSize_ st) (u32 (usedSize_ st - 1)) st).

Fixpoint create_all (ps : list Prog) st : outcome (t Prog) :=
  match ps with
  | [] => Ok st
  | p :: ps => '(_, st) ← createCoroutine p st; create_all ps st
  end.

(** [switchCoro(&mainCoro_, coro)] until the coroutine switches back. *)
Definition switchCoro (n : nat) st (w : W) : outcome (t Prog * W) :=
  let st := set_current (Some n) st in
  i ← info n st;
  p ← deref (callback_ i);
  '(created, paused, w) ← resume st p w;
  st ← create_all created st;
  st ← match paused with
       | None => finish n st
       | Some (how, p) =>
           st ← registerFunc p n st;
           match how with
           | Yield flag => yield flag n st
           | Sleep now sleeptime => sleep now sleeptime n st
           end
       end;
  Ok (set_current None st, w).

(** The loops of [tars_run] and [run] over the active and available lists. *)
Fixpoint run_list (loop : nat) (h : CORO_STATUS) st (w : W) : outcome (t Prog * W) :=
  match loop with
  | O => Ok (st, w)
  | S loop =>
      if coroutineHeadEmpty (Head h) (links st) then Ok (st, w)
      else
        coro ← object (next_ (links st) (Head h));
        '(st, w) ← switchCoro coro st w;
        run_list loop h st w
  end.

(** [allCoro_[id]] with the assertion that follows it. *)
Definition coro_at (id : Z) st : outcome nat :=
  _ ← defined (bool_decide (0 ≤ id));
  c ← deref (allCoro_ st !! Z.to_nat id);
  match c with Some n => Ok n | None => Assert end.

Fixpoint wake_all (move : nat → t Prog → outcome (t Prog)) (ids : list Z) st
    : outcome (t Prog) :=
  match ids with
  | [] => Ok st
  | id :: ids => n ← coro_at id st; st ← move n st; wake_all move ids st
  end.

Definition wakeupbyself st : outcome (t Prog) :=
  if terminal_ st then Ok st
  else
    st ← wake_all moveToAvail (needActiveCoroId_ st) st;
    Ok (set_queues (activeCoroQueue_ st) [] (timeoutCoroId_ st) st).

Definition wakeup st : outcome (t Prog) :=
  if terminal_ st then Ok st
  else
    let coroIds := activeCoroQueue_ st in
    wake_all moveToActive coroIds
             (set_queues [] (needActiveCoroId_ st) (timeoutCoroId_ st) st).

(** The loop of [wakeupbytimeout] over the entries of [timeoutCoroId_]. *)
Fixpoint timeout_loop (now : Z) (l : list (Z * Z)) st : outcome (t Prog) :=
  let st := set_queues (activeCoroQueue_ st) (needActiveCoroId_ st) l st in
  match l with
  | [] => Ok st
  | (k, id) :: l =>
      if now <? k then Ok st
      else n ← coro_at id st; st ← moveToActive n st; timeout_loop now l st
  end.

Definition wakeupbytimeout (now : Z) st : outcome (t Prog) :=
  if terminal_ st then Ok st else timeout_loop now (timeoutCoroId_ st) st.

Definition tars_run (now : Z) st (w : W) : outcome (t Prog * W) :=
  if terminal_ st then Ok (st, w)
  else
    st ← wakeupbytimeout now st;
    st ← wakeupbyself st;
    st ← wakeup st;
    '(st, w) ← run_list 100 CORO_ACTIVE st w;
    run_list 100 CORO_AVAIL st w.

(** One round of the loop of [run]: whether the loop is left. *)
Definition run_round (now : Z) st (w : W) : outcome (bool * t Prog * W) :=
  st ← wakeupbytimeout now st;
  st ← wakeupbyself st;
  st ← wakeup st;
  '(st, w) ← run_list 100 CORO_ACTIVE st w;
  '(st, w) ← run_list 1 CORO_AVAIL st w;
  Ok (usedSize_ st =? 0, st, w).

(** The loop of [run] with the clock readings of its rounds; [Spin] when it goes on. *)
Fixpoint run_loop (clock : list Z) st (w : W) : outcome (t Prog * W) :=
  if terminal_ st then Ok (st, w)
  else match clock with
       | [] => Spin
       | now :: clock => '(stop, st, w) ← run_round now st w;
                         if stop : bool then Ok (st, w) else run_loop clock st w
       end.

Definition terminate st : t Prog :=
  mk true (poolSize_ st) (currentSize_ st) (usedSize_ st) (uniqId_ st) (current st)
     (allCoro_ st) (links st) (objs st) (fresh st) (activeCoroQueue_ st) (needActiveCoroId_ st)
     (timeoutCoroId_ st).

(** The loop of [destroy] from index [i]: the regions given back to the system;
    [stack] has the stacks that the coroutines were made with. *)
Fixpoint destroy_loop (rlim_max : Z) (stack : nat → Stacks.stack_context) (k i : nat) st
    : outcome (list (Z * Z)) :=
  match k with
  | O => Ok []
  | S k =>
      c ← deref (allCoro_ st !! i);
      match c with
      | None => destroy_loop rlim_max stack k (S i) st
      | Some n =>
          r ← Stacks.deallocate rlim_max (stack n);
          rs ← destroy_loop rlim_max stack k (S i) st;
          Ok (r :: rs)
      end
  end.

Definition destroy (rlim_max : Z) (stack : nat → Stacks.stack_context) st : outcome (list (Z * Z)) :=
  if bool_decide (allCoro_ st = []) then Ok []
  else destroy_loop rlim_max stack (Z.to_nat (poolSize_ st)) 1 st.

(** [run]: the loop, then [destroy]. *)
Definition run (rlim_max : Z) (stack : nat → Stacks.stack_context) (clock : list Z) st (w : W)
    : outcome (t Prog * W * list (Z * Z)) :=
  '(st, w) ← run_loop clock st w;
  freed ← destroy rlim_max stack st;
  Ok (st, w, freed).

End operations.

(** ** The pool and its five lists *)

Section invariant.
Context {Prog : Type}.
Implicit Types (st : t Prog) (L : CORO_STATUS → list nat).

Definition known st (id : Z) : Prop :=
  0 ≤ id ∧ ∃ n, allCoro_ st !! Z.to_nat id = Some (Some n).

Definition used L : Z :=
  zlen (L CORO_ACTIVE) + zlen (L CORO_AVAIL) + zlen (L CORO_INACTIVE) + zlen (L CORO_TIMEOUT).
Definition total L : Z := zlen (L CORO_FREE) + used L.

(** The list of each status holds exactly the coroutines with that status, and
    [allCoro_] finds each coroutine under its id. *)
Record inv st L : Prop := {
  inv_circ s : circ (links st) (Head s) (Info <$> L s);
  inv_status n s : n ∈ L s ↔ ∃ i, objs st !! n = Some i ∧ status_ i = s;
  inv_all id n : allCoro_ st !! id = Some (Some n) →
    ∃ i, objs st !! n = Some i ∧ uid_ i = Z.of_nat id;
  inv_obj n i : objs st !! n = Some i →
    allCoro_ st !! Z.to_nat (uid_ i) = Some (Some n) ∧ 1 ≤ uid_ i ≤ uniqId_ st ∧
    (n < fresh st)%nat ∧ (status_ i ≠ CORO_FREE → is_Some (callback_ i));
  inv_len : zlen (allCoro_ st) = poolSize_ st + 1;
  inv_pool : 0 < poolSize_ st < 2 ^ 32 - 1;
  inv_uniq : uniqId_ st = total L ∧ total L ≤ poolSize_ st;
  inv_queues id : id ∈ activeCoroQueue_ st ++ needActiveCoroId_ st ++ (timeoutCoroId_ st).*2 →
    known st id
}.

Lemma inv_nodup st L s : inv st L → NoDup (L s).
Proof.
  intros Hinv. destruct (inv_circ _ _ Hinv s) as [Hnd _].
  apply NoDup_cons in Hnd as [_ Hnd]. by apply NoDup_fmap_1 in Hnd.
Qed.

Lemma lists_apart st L s1 s2 :
  inv st L → s1 ≠ s2 → apart (Head s1) (Head s2) (Info <$> L s1) (Info <$> L s2).
Proof.
  intros Hinv Hne a Ha Hb. apply elem_of_cons in Ha as [->|Ha], Hb as [Hb|Hb].
  - congruence.
  - by apply list_elem_of_fmap in Hb as (?&?&?).
  - subst. by apply list_elem_of_fmap in Ha as (?&?&?).
  - apply list_elem_of_fmap in Ha as (n & -> & Hn), Hb as (n' & [= <-] & Hn').
    apply (inv_status _ _ Hinv) in Hn as (i & Hi & <-), Hn' as (i' & Hi' & <-). congruence.
Qed.

(** The lists after [n] has gone from [s0] to the end of [s]. *)
Definition moved L (n : nat) (s0 s : CORO_STATUS) : CORO_STATUS → list nat :=
  λ s', if decide (s' = s) then L s ++ [n]
        else if decide (s' = s0) then filter (λ m, m ≠ n) (L s0) else L s'.

Lemma filter_split (l1 l2 : list nat) n :
  NoDup (l1 ++ n :: l2) → filter (λ m, m ≠ n) (l1 ++ n :: l2) = l1 ++ l2.
Proof.
  intros (_ & H12 & [Hn _]%NoDup_cons)%NoDup_app.
  rewrite filter_app, filter_cons, decide_False by naive_solver. f_equal; apply filter_all.
  - intros m Hm ->. apply (H12 n Hm). left.
  - by intros m Hm ->.
Qed.

(** 1 for equal statuses and 0 for others. *)
Definition same (s s' : CORO_STATUS) : Z :=
  match s, s' with
  | CORO_FREE, CORO_FREE | CORO_ACTIVE, CORO_ACTIVE | CORO_AVAIL, CORO_AVAIL
  | CORO_INACTIVE, CORO_INACTIVE | CORO_TIMEOUT, CORO_TIMEOUT => 1
  | _, _ => 0
  end.

Lemma same_eq s s' : same s s' = if decide (s = s') then 1 else 0.
Proof. by destruct s, s'. Qed.

Lemma moved_counts st L n s0 s :
  inv st L → n ∈ L s0 → s0 ≠ s →
  total (moved L n s0 s) = total L ∧
  used (moved L n s0 s) = used L - same s CORO_FREE + same s0 CORO_FREE.
Proof.
  intros Hinv Hn Hne. pose proof (inv_nodup st L s0 Hinv) as Hnd.
  destruct (list_elem_of_split _ _ Hn) as (l1 & l2 & Heq). rewrite Heq in Hnd.
  assert (∀ s', zlen (moved L n s0 s s') =
    zlen (L s') + same s' s - same s' s0) as Hlen.
  { intros s'. rewrite !same_eq. unfold moved. rewrite Heq, filter_split by done.
    repeat case_decide; subst; rewrite ?Heq, ?length_app; simpl; congruence || lia. }
  unfold total, used. rewrite !Hlen.
  destruct s0, s; try done; cbn [same]; lia.
Qed.

Lemma move_inv st L n i s :
  inv st L → objs st !! n = Some i → status_ i ≠ s → is_Some (callback_ i) ∨ s = CORO_FREE →
  ∃ m1 m, coroutineDel (Info n) (links st) = Ok m1 ∧
    coroutineAddTail (Info n) (Head s) m1 = Ok m ∧
    inv (set_links m (set_obj n (mk_info (uid_ i) s (callback_ i)) st)) (moved L n (status_ i) s).
Proof.
  intros Hinv Hi Hne Hcb. set (s0 := status_ i) in *.
  assert (n ∈ L s0) as Hn by (apply (inv_status _ _ Hinv); eauto).
  pose proof (inv_nodup st L s0 Hinv) as Hnd.
  destruct (list_elem_of_split _ _ Hn) as (l1 & l2 & Heq).
  pose proof (inv_circ _ _ Hinv s0) as Hc0. pose proof (inv_circ _ _ Hinv s) as Hc.
  pose proof (lists_apart st L s0 s Hinv Hne) as Hap.
  rewrite Heq, fmap_app, fmap_cons in Hc0, Hap.
  destruct (moveTail_spec _ _ _ _ _ _ _ Hc0 Hc Hap) as (m & Hm & Hc0' & Hc' & Hfr).
  unfold coroutineMoveTail in Hm. apply bind_Ok in Hm as (m1 & Hdel & Hadd).
  exists m1, m. split; [done|]. split; [done|].
  destruct (moved_counts st L n s0 s Hinv Hn Hne) as [Htot _].
  split; cbn [links objs allCoro_ poolSize_ uniqId_ fresh set_links set_obj].
  - intros s'. unfold moved. destruct (decide (s' = s)) as [->|Hs].
    { rewrite fmap_app. exact Hc'. }
    destruct (decide (s' = s0)) as [->|Hs0].
    { rewrite Heq, filter_split, fmap_app by (by rewrite <- Heq). done. }
    apply Hfr; [apply Hinv| |by apply (lists_apart st)].
    pose proof (lists_apart st L s' s0 Hinv Hs0) as Hap'.
    rewrite Heq, fmap_app, fmap_cons in Hap'. done.
  - intros n' s'. unfold moved. destruct (decide (n' = n)) as [->|Hn'].
    + rewrite lookup_insert_eq. destruct (decide (s' = s)) as [->|Hs].
      { rewrite elem_of_app, list_elem_of_singleton. naive_solver. }
      destruct (decide (s' = s0)) as [->|Hs0].
      { rewrite list_elem_of_filter. naive_solver. }
      rewrite (inv_status _ _ Hinv). naive_solver.
    + rewrite lookup_insert_ne by done.
      destruct (decide (s' = s)) as [->|Hs].
      { rewrite elem_of_app, list_elem_of_singleton, <- (inv_status _ _ Hinv). tauto. }
      destruct (decide (s' = s0)) as [->|Hs0].
      { rewrite list_elem_of_filter, <- (inv_status _ _ Hinv). tauto. }
      apply (inv_status _ _ Hinv).
  - intros id n' Hid. destruct (inv_all _ _ Hinv id n' Hid) as (i' & Hi' & Hu).
    destruct (decide (n' = n)) as [->|Hn'].
    + assert (i' = i) as -> by congruence. rewrite lookup_insert_eq. by eexists.
    + rewrite lookup_insert_ne by done. eauto.
  - intros n' i' Hi'. destruct (decide (n' = n)) as [->|Hn'].
    + rewrite lookup_insert_eq in Hi'. injection Hi' as <-. cbn.
      destruct (inv_obj _ _ Hinv n i Hi) as (? & ? & ? & _).
      split_and!; try done; try lia. intros. by destruct Hcb.
    + rewrite lookup_insert_ne in Hi' by done. by apply (inv_obj _ _ Hinv).
  - apply Hinv.
  - apply Hinv.
  - rewrite Htot. apply Hinv.
  - apply Hinv.
Qed.

Lemma moveTo_spec st L n i s :
  inv st L → objs st !! n = Some i → status_ i ≠ s → is_Some (callback_ i) ∨ s = CORO_FREE →
  ∃ m, let st' := set_links m (set_obj n (mk_info (uid_ i) s (callback_ i)) st) in
    moveTo n s st = Ok st' ∧ inv st' (moved L n (status_ i) s).
Proof.
  intros Hinv Hi Hne Hcb.
  destruct (move_inv st L n i s Hinv Hi Hne Hcb) as (m1 & m & Hdel & Hadd & Hinv').
  exists m. split; [|done]. unfold moveTo. rewrite Hdel. cbn [mbind outcome_bind].
  unfold set_status, info. cbn [objs set_links]. rewrite Hi.
  cbn [deref mbind outcome_bind links set_obj set_links]. by rewrite Hadd.
Qed.

(** Fields the invariant does not speak about. *)
Lemma inv_same st st' L :
  links st' = links st → objs st' = objs st → allCoro_ st' = allCoro_ st →
  poolSize_ st' = poolSize_ st → uniqId_ st' = uniqId_ st → fresh st' = fresh st →
  (∀ id, id ∈ activeCoroQueue_ st' ++ needActiveCoroId_ st' ++ (timeoutCoroId_ st').*2 →
         known st id) →
  inv st L → inv st' L.
Proof.
  intros Hl Ho Ha Hp Hu Hf Hq Hinv.
  split; unfold known in *; rewrite ?Hl, ?Ho, ?Ha, ?Hp, ?Hu, ?Hf; apply Hinv || done.
Qed.

Lemma inv_callback st L n i p :
  inv st L → objs st !! n = Some i → inv (set_obj n (mk_info (uid_ i) (status_ i) (Some p)) st) L.
Proof.
  intros Hinv Hi. split; cbn [links objs allCoro_ poolSize_ uniqId_ fresh set_obj]; try apply Hinv.
  - intros m s. rewrite (inv_status _ _ Hinv). destruct (decide (m = n)) as [->|].
    + rewrite lookup_insert_eq. split; intros (i' & Hi' & <-).
      * assert (i' = i) as -> by congruence. by eexists.
      * injection Hi' as <-. by exists i.
    + by rewrite lookup_insert_ne by done.
  - intros id m Hid. destruct (inv_all _ _ Hinv id m Hid) as (i' & Hi' & Hu).
    destruct (decide (m = n)) as [->|].
    + rewrite lookup_insert_eq. eexists. split; [done|]. cbn. congruence.
    + rewrite lookup_insert_ne by done. eauto.
  - intros m i' Hi'. destruct (decide (m = n)) as [->|].
    + rewrite lookup_insert_eq in Hi'. injection Hi' as <-. cbn.
      destruct (inv_obj _ _ Hinv n i Hi) as (? & ? & ? & _).
      split; [done|]. split; [done|]. split; [done|by eexists].
    + rewrite lookup_insert_ne in Hi' by done. by apply (inv_obj _ _ Hinv).
Qed.

(** What a running coroutine can rely on while others are created or moved. *)
Record grows st st' : Prop := {
  grows_pool : poolSize_ st' = poolSize_ st;
  grows_obj n i : objs st !! n = Some i → status_ i ≠ CORO_FREE → objs st' !! n = Some i;
  grows_known id : known st id → known st' id;
  grows_terminal : terminal_ st' = terminal_ st;
  grows_queues : activeCoroQueue_ st' = activeCoroQueue_ st ∧
    needActiveCoroId_ st' = needActiveCoroId_ st ∧ timeoutCoroId_ st' = timeoutCoroId_ st
}.

Lemma grows_refl st : grows st st.
Proof. done. Qed.

Lemma grows_trans st1 st2 st3 : grows st1 st2 → grows st2 st3 → grows st1 st3.
Proof.
  intros [? Ho1 ? ? (? & ? & ?)] [? Ho2 ? ? (? & ? & ?)].
  split; [congruence| |by auto|congruence|split_and!; congruence].
  intros n i Hi Hs. apply Ho2; [|done]. by apply Ho1.
Qed.

Definition with_free L (l : list nat) : CORO_STATUS → list nat :=
  λ s, if decide (s = CORO_FREE) then l else L s.

Lemma with_free_counts L l :
  used (with_free L l) = used L ∧ total (with_free L l) = zlen l + used L.
Proof. done. Qed.

Lemma next_id_spec st :
  0 ≤ uniqId_ st < poolSize_ st → poolSize_ st < 2 ^ 32 - 1 →
  generateId st = Ok (uniqId_ st + 1, set_uniqId (uniqId_ st + 1) st).
Proof.
  intros ??. unfold generateId. rewrite (u32_small (uniqId_ st + 1)) by lia. cbv zeta.
  rewrite (proj2 (Z.ltb_ge _ _)) by lia. by rewrite (proj2 (Z.leb_le _ _)) by lia.
Qed.

(** A new coroutine, entered under the next id. *)
Lemma enter_spec st L :
  inv st L → uniqId_ st < poolSize_ st →
  let n := fresh st in let id := uniqId_ st + 1 in
  ∃ st', enter id n (set_uniqId id (snd (new_object st))) = Ok st' ∧
    inv st' (with_free L (L CORO_FREE ++ [n])) ∧ grows st st' ∧
    currentSize_ st' = currentSize_ st ∧ usedSize_ st' = usedSize_ st ∧
    uniqId_ st' = id ∧ terminal_ st' = terminal_ st ∧ current st' = current st.
Proof.
  intros Hinv Hlt n id. assert (id = uniqId_ st + 1) as Hide by done.
  destruct (inv_uniq _ _ Hinv) as [Huq Htot].
  pose proof (inv_pool _ _ Hinv) as Hpool. pose proof (inv_len _ _ Hinv) as Hlen.
  assert (0 ≤ total L) by (unfold total, used; lia).
  unfold enter. cbn [allCoro_ links set_uniqId new_object snd].
  rewrite bool_decide_true by lia. cbn [defined mbind outcome_bind].
  assert (objs st !! n = None) as Hnew.
  { destruct (objs st !! n) as [i|] eqn:Hi; [|done].
    destruct (inv_obj _ _ Hinv n i Hi) as (_ & _ & ? & _). lia. }
  assert (∀ s, Info n ∉ Head s :: (Info <$> L s)) as Hnotin.
  { intros s [?|(m & [= <-] & Hm)%list_elem_of_fmap]%elem_of_cons; [done|].
    apply (inv_status _ _ Hinv) in Hm as (? & ? & _). congruence. }
  destruct (addTail_spec (links st) (Head CORO_FREE) (Info <$> L CORO_FREE) (Info n))
    as (m & -> & Hc & Hfr); [apply Hinv|apply Hnotin|].
  cbn [mbind outcome_bind]. eexists. split; [done|].
  assert (∀ j, allCoro_ st !! Z.to_nat id = Some (Some j) → False) as Hslot.
  { intros j Hj. destruct (inv_all _ _ Hinv _ _ Hj) as (i & Hi & Hu).
    destruct (inv_obj _ _ Hinv j i Hi) as (_ & ? & _). lia. }
  assert (∀ id', known st id' → known (mk (terminal_ st) (poolSize_ st) (currentSize_ st) (usedSize_ st) id
     (current st) (<[Z.to_nat id:=Some n]> (allCoro_ st)) m
     (<[n:=mk_info id CORO_FREE None]> (objs st)) (S n) (activeCoroQueue_ st)
     (needActiveCoroId_ st) (timeoutCoroId_ st)) id') as Hknown.
  { intros id' (? & j & Hj). split; [done|]. exists j. cbn [allCoro_].
    rewrite list_lookup_insert_ne; [done|]. intros Heq. apply (Hslot j). by rewrite Heq. }
  split; [split|split_and!; try done; split; try done]; cbn [links objs allCoro_ poolSize_ uniqId_ fresh].
  - intros s. unfold with_free. destruct (decide (s = CORO_FREE)) as [->|Hs];
      [by rewrite fmap_app|].
    pose proof (inv_circ _ _ Hinv s) as Hcs. revert Hcs. apply circ_ext. intros a Ha. apply Hfr.
    rewrite not_elem_of_cons. split; [intros ->; by apply (Hnotin s)|].
    by apply (lists_apart st L s CORO_FREE Hinv Hs).
  - intros j s. unfold with_free. destruct (decide (j = n)) as [->|Hj].
    + rewrite lookup_insert_eq. destruct (decide (s = CORO_FREE)) as [->|Hs].
      * rewrite elem_of_app, list_elem_of_singleton. split; [by eexists|by right].
      * rewrite (inv_status _ _ Hinv), Hnew. split; intros (i & Hi & ?); [done|].
        injection Hi as <-. by destruct Hs.
    + rewrite lookup_insert_ne by done. rewrite <- (inv_status _ _ Hinv).
      destruct (decide (s = CORO_FREE)) as [->|]; [|done].
      rewrite elem_of_app, list_elem_of_singleton. tauto.
  - intros id' j Hj. destruct (decide (id' = Z.to_nat id)) as [->|Hid].
    + rewrite list_lookup_insert_eq in Hj by lia. injection Hj as <-. rewrite lookup_insert_eq.
      eexists. split; [done|]. cbn. lia.
    + rewrite list_lookup_insert_ne in Hj by done. destruct (inv_all _ _ Hinv _ _ Hj) as (i & Hi & Hu).
      rewrite lookup_insert_ne by congruence. eauto.
  - intros j i Hi. destruct (decide (j = n)) as [->|Hj].
    + rewrite lookup_insert_eq in Hi. injection Hi as <-. cbn [uid_ status_].
      rewrite list_lookup_insert_eq by lia. split_and!; try done; try lia.
      cbn. unfold n. lia.
    + rewrite lookup_insert_ne in Hi by done.
      destruct (inv_obj _ _ Hinv j i Hi) as (Hall & ? & ? & ?).
      rewrite list_lookup_insert_ne by (intros Heq; apply (Hslot j); by rewrite Heq).
      cbn [set_uniqId fresh uniqId_]. split_and!; try done; lia.
  - by rewrite length_insert.
  - cbn [set_uniqId poolSize_]. lia.
  - destruct (with_free_counts L (L CORO_FREE ++ [n])) as [_ ->].
    rewrite length_app. cbn [length set_uniqId uniqId_ poolSize_]. unfold total in *. lia.
  - intros id' Hid'. apply Hknown. by apply (inv_queues _ _ Hinv).
  - intros j i Hi Hs. rewrite lookup_insert_ne by congruence. done.
Qed.

Lemma inv_ext st L L' : (∀ s, L s = L' s) → inv st L → inv st L'.
Proof.
  intros Heq Hinv.
  split; try apply Hinv; [intros s; rewrite <- Heq; apply Hinv
    |intros n s; rewrite <- Heq; apply Hinv|].
  unfold total, used. rewrite <- !Heq. apply Hinv.
Qed.

(** The sizes the scheduler counts. *)
Record counted st L : Prop := {
  counted_used : usedSize_ st = used L;
  counted_current : currentSize_ st = total L
}.

Definition consistent st : Prop := ∃ L, inv st L ∧ counted st L.

Lemma used_nonneg L : 0 ≤ used L ≤ total L.
Proof. unfold total, used. lia. Qed.

End invariant.

(** ** Runs when memory for stacks is granted *)

Section runs.
Context {Prog W : Type}.
Context (resume : t Prog → Prog → W → outcome (list Prog * option (pause * Prog) * W)).
Context (alloc_ok : nat → bool).
Implicit Types (st : t Prog) (w : W) (L : CORO_STATUS → list nat).
Hypothesis alloc_total : ∀ n, alloc_ok n = true.
Hypothesis resume_total : ∀ st p w, ∃ r, resume st p w = Ok r.

Lemma increase_loop_spec k : ∀ succ st L,
  inv st L → uniqId_ st + Z.of_nat k ≤ poolSize_ st →
  ∃ st' l, increase_loop alloc_ok k succ st = Ok (succ + Z.of_nat k, st') ∧
    inv st' (with_free L (L CORO_FREE ++ l)) ∧ length l = k ∧ grows st st' ∧
    currentSize_ st' = currentSize_ st ∧ usedSize_ st' = usedSize_ st ∧
    terminal_ st' = terminal_ st.
Proof.
  induction k as [|k IH]; intros succ st L Hinv Hk.
  - exists st, []. rewrite app_nil_r, Z.add_0_r. split_and!; try done.
    revert Hinv. apply inv_ext. intros s. unfold with_free. by destruct (decide _) as [->|].
  - pose proof (inv_pool _ _ Hinv). pose proof (used_nonneg L).
    destruct (inv_uniq _ _ Hinv) as [Hu _].
    destruct (enter_spec st L Hinv) as (st1 & He & Hinv1 & Hg1 & Hc1 & Hus1 & Hid1 & Ht1 & _); [lia|].
    cbn [increase_loop]. unfold new_object at 1.
    rewrite next_id_spec by (cbn; lia). cbn [mbind outcome_bind]. rewrite alloc_total.
    unfold new_object in He. cbn [snd] in He. cbn [uniqId_]. rewrite He. cbn [mbind outcome_bind].
    destruct (IH (succ + 1) st1 _ Hinv1) as (st2 & l & Hl & Hinv2 & Hlen & Hg2 & Hc2 & Hus2 & Ht2).
    { rewrite Hid1, (grows_pool _ _ Hg1). lia. }
    exists st2, (fresh st :: l). split; [rewrite Hl; do 2 f_equal; lia|].
    split.
    { revert Hinv2. apply inv_ext. intros s. unfold with_free.
      repeat case_decide; try done. by rewrite <- app_assoc. }
    split; [simpl; lia|]. split; [by eapply grows_trans|]. split_and!; congruence.
Qed.

Lemma increaseCoroPoolSize_spec st L :
  inv st L → counted st L →
  (total L = poolSize_ st ∧ increaseCoroPoolSize alloc_ok st = Ok (-1, st)) ∨
  ∃ st' l, increaseCoroPoolSize alloc_ok st = Ok (0, st') ∧ l ≠ [] ∧
    inv st' (with_free L (L CORO_FREE ++ l)) ∧ counted st' (with_free L (L CORO_FREE ++ l)) ∧
    grows st st' ∧ terminal_ st' = terminal_ st.
Proof.
  intros Hinv [Hused Hcur]. pose proof (inv_pool _ _ Hinv). pose proof (used_nonneg L).
  destruct (inv_uniq _ _ Hinv) as [Hu Ht]. unfold increaseCoroPoolSize. rewrite Hcur.
  rewrite (u32_small (_ - _)) by lia. cbv zeta.
  set (inc := if 100 <? _ then 100 else _).
  assert (0 ≤ inc ≤ poolSize_ st - total L ∧ (inc = 0 → total L = poolSize_ st)) as [Hinc Hfull].
  { unfold inc. destruct (Z.ltb_spec 100 (poolSize_ st - total L)); lia. }
  destruct (Z.leb_spec inc 0).
  { left. split; [apply Hfull; lia|done]. }
  right. destruct (increase_loop_spec (Z.to_nat inc) 0 st L Hinv)
    as (st' & l & -> & Hinv' & Hlen & Hg & Hc' & Hus & Hter); [lia|].
  cbn [mbind outcome_bind]. rewrite Z.add_0_l, (proj2 (Z.eqb_neq _ 0)) by lia.
  eexists _, l. split; [done|]. split; [by intros ->; simpl in Hlen; lia|].
  assert (total (with_free L (L CORO_FREE ++ l)) = total L + inc) as Htot.
  { destruct (with_free_counts L (L CORO_FREE ++ l)) as [_ ->].
    rewrite length_app. unfold total. lia. }
  split; [|split; [|split; [|done]]].
  - apply (inv_same st'); try done. intros id Hid. by apply (inv_queues _ _ Hinv').
  - split; cbn [usedSize_ currentSize_ set_sizes].
    { rewrite Hus. exact Hused. }
    rewrite Htot, Hc', Hcur. rewrite u32_small; lia.
  - destruct Hg as [? Ho Hk ? ?]. split; done.
Qed.

(** Taking a coroutine off the free list. *)
Lemma take_free_spec p st L n l :
  inv st L → counted st L → L CORO_FREE = n :: l →
  ∃ id st', take_free p st = Ok (id, st') ∧
    inv st' (moved L n CORO_FREE CORO_AVAIL) ∧ counted st' (moved L n CORO_FREE CORO_AVAIL) ∧
    grows st st' ∧ terminal_ st' = terminal_ st ∧
    0 < id ∧ objs st' !! n = Some (mk_info id CORO_AVAIL (Some p)).
Proof.
  intros Hinv [Hused Hcur] Hfree. pose proof (inv_pool _ _ Hinv). pose proof (used_nonneg L).
  destruct (inv_uniq _ _ Hinv) as [_ Ht].
  assert (n ∈ L CORO_FREE) as Hn by (rewrite Hfree; left).
  destruct (proj1 (inv_status _ _ Hinv n CORO_FREE) Hn) as (i & Hi & Hs).
  set (st1 := set_obj n (mk_info (uid_ i) CORO_FREE (Some p))
                (set_sizes (currentSize_ st) (u32 (usedSize_ st + 1)) st)).
  assert (inv st1 L) as Hinv1.
  { unfold st1. rewrite <- Hs. apply inv_callback; [|done].
    apply (inv_same st); try done. apply Hinv. }
  destruct (move_inv st1 L n (mk_info (uid_ i) CORO_FREE (Some p)) CORO_AVAIL Hinv1)
    as (m1 & m2 & Hdel & Hadd & Hinv2); [by apply lookup_insert_eq|done|left; by eexists|].
  destruct (moved_counts st L n CORO_FREE CORO_AVAIL Hinv Hn) as [Htot Hus]; [done|].
  pose proof (circ_next _ _ _ (inv_circ _ _ Hinv CORO_FREE)) as Hnext. rewrite Hfree in Hnext.
  exists (uid_ i), (set_links m2 (set_obj n (mk_info (uid_ i) CORO_AVAIL (Some p))
                      (set_sizes (currentSize_ st) (u32 (usedSize_ st + 1)) st))).
  split.
  { unfold take_free. rewrite Hnext. cbn [head app fmap list_fmap object mbind outcome_bind].
    change (links st1) with (links st) in Hdel. rewrite Hdel. cbn [mbind outcome_bind].
    unfold set_status, registerFunc, info. cbn [objs set_links set_sizes]. rewrite Hi.
    cbn [deref mbind outcome_bind links set_obj set_links set_sizes]. rewrite Hadd.
    cbn [mbind outcome_bind objs set_links set_obj set_sizes]. rewrite lookup_insert_eq.
    cbn [deref mbind outcome_bind uid_ status_ objs set_links set_obj set_sizes].
    rewrite insert_insert_eq, lookup_insert_eq. cbn [deref mbind outcome_bind uid_].
    unfold set_obj. cbn [objs set_links set_sizes]. by rewrite insert_insert_eq. }
  split; [|split; [split|split; [split|split; [done|split]]]].
  - apply (inv_same (set_links m2 (set_obj n (mk_info (uid_ i) CORO_AVAIL (Some p)) st1)));
      try done; [cbn; by rewrite insert_insert_eq|]. intros id Hid. by apply (inv_queues _ _ Hinv2).
  - cbn. rewrite Hus, Hused. cbn [same]. assert (used L + 1 ≤ total L).
    { unfold total. rewrite Hfree. simpl. lia. }
    rewrite u32_small by lia. lia.
  - cbn. by rewrite Htot.
  - done.
  - intros n' i' Hi' Hs'. cbn. rewrite lookup_insert_ne; [done|]. intros <-. congruence.
  - done.
  - done.
  - done.
  - destruct (inv_obj _ _ Hinv n i Hi) as (_ & ? & _). lia.
  - cbn. by rewrite lookup_insert_eq.
Qed.

(** The creation of a coroutine, list by list: it fails when the pool is full,
    and otherwise puts the new coroutine at the end of the available ones. *)
Lemma create_lists p st L :
  inv st L → counted st L →
  ∃ id st', createCoroutine alloc_ok p st = Ok (id, st') ∧ grows st st' ∧
    (id = 0 ∧ st' = st ∧ used L = poolSize_ st ∨
     0 < id ∧ used L < poolSize_ st ∧ ∃ n L', inv st' L' ∧ counted st' L' ∧
       L' CORO_AVAIL = L CORO_AVAIL ++ [n] ∧
       (∀ s, s ≠ CORO_FREE → s ≠ CORO_AVAIL → L' s = L s) ∧
       objs st' !! n = Some (mk_info id CORO_AVAIL (Some p))).
Proof.
  intros Hinv [Hused Hcur]. destruct (inv_uniq _ _ Hinv) as [_ Htot].
  unfold createCoroutine. rewrite (circ_empty _ _ _ (inv_circ _ _ Hinv CORO_FREE)).
  destruct (L CORO_FREE) as [|n l] eqn:Hfree.
  - rewrite bool_decide_true, orb_true_r by done.
    destruct (increaseCoroPoolSize_spec st L Hinv) as [[Hfull ->]|(st1 & l & -> & Hl & Hinv1 & Hct1 & Hg & Hter)];
      [done| |].
    + cbn. exists 0, st. split; [done|]. split; [done|]. left. split_and!; try done.
      rewrite <- Hfull. unfold total. by rewrite Hfree.
    + destruct l as [|n l]; [done|]. cbn [mbind outcome_bind negb Z.eqb].
      destruct (take_free_spec p st1 _ n l Hinv1 Hct1)
        as (id & st2 & -> & Hinv2 & Hct2 & Hg2 & Hter2 & Hid & Ho); [by rewrite Hfree|].
      exists id, st2. split; [done|]. split; [by eapply grows_trans|]. right. split; [done|].
      split.
      { destruct (inv_uniq _ _ Hinv1) as [_ Htot1]. rewrite (grows_pool _ _ Hg) in Htot1.
        destruct (with_free_counts L (L CORO_FREE ++ n :: l)) as [_ Ht]. rewrite Ht in Htot1.
        rewrite length_app in Htot1. simpl in Htot1. lia. }
      eexists n, _. split; [done|]. split; [done|]. split; [done|]. split; [|done].
      intros s Hs1 Hs2. unfold moved, with_free. by rewrite !decide_False.
  - rewrite bool_decide_false by done.
    assert (used L < total L) by (unfold total; rewrite Hfree; simpl; lia).
    assert ((currentSize_ st <=? usedSize_ st) = false) as ->.
    { apply Z.leb_gt. by rewrite Hused, Hcur. }
    cbn [orb mbind outcome_bind negb Z.eqb].
    destruct (take_free_spec p st L n l Hinv)
      as (id & st2 & -> & Hinv2 & Hct2 & Hg2 & Hter2 & Hid & Ho); [done|done|].
    exists id, st2. split; [done|]. split; [done|]. right. split; [done|]. split; [lia|].
    eexists n, _. split; [done|]. split; [done|]. split; [done|]. split; [|done].
    intros s Hs1 Hs2. unfold moved. by rewrite !decide_False.
Qed.

Lemma createCoroutine_spec p st :
  consistent st →
  ∃ id st', createCoroutine alloc_ok p st = Ok (id, st') ∧ consistent st' ∧ grows st st' ∧
    terminal_ st' = terminal_ st ∧
    (id = 0 ∧ st' = st ∧ usedSize_ st = poolSize_ st ∨
     0 < id ∧ ∃ n, objs st' !! n = Some (mk_info id CORO_AVAIL (Some p))).
Proof.
  intros (L & Hinv & Hct). destruct (create_lists p st L Hinv Hct)
    as (id & st' & -> & Hg & [(-> & -> & Hu)|(Hid & _ & n & L' & Hinv' & Hct' & _ & _ & Ho)]).
  - exists 0, st. split; [done|]. split; [by exists L|]. split; [done|]. split; [done|].
    left. split_and!; [done..|]. destruct Hct. congruence.
  - exists id, st'. split; [done|]. split; [by exists L'|]. split; [done|].
    split; [apply Hg|]. right. eauto.
Qed.

(** What every operation leaves in place. *)
Record extends st st' : Prop := {
  extends_pool : poolSize_ st' = poolSize_ st;
  extends_terminal : terminal_ st' = terminal_ st;
  extends_known id : known st id → known st' id
}.

Lemma extends_refl st : extends st st.
Proof. done. Qed.

Lemma extends_trans st1 st2 st3 : extends st1 st2 → extends st2 st3 → extends st1 st3.
Proof. intros [?? H1] [?? H2]. split; [congruence..|]. auto. Qed.

Lemma create_all_spec ps : ∀ st,
  consistent st →
  ∃ st', create_all alloc_ok ps st = Ok st' ∧ consistent st' ∧ grows st st' ∧
         terminal_ st' = terminal_ st.
Proof.
  induction ps as [|p ps IH]; intros st Hc; [by exists st|]. cbn [create_all].
  destruct (createCoroutine_spec p st Hc) as (id & st1 & -> & Hc1 & Hg1 & Ht1 & _).
  cbn [mbind outcome_bind]. destruct (IH st1 Hc1) as (st2 & -> & Hc2 & Hg2 & Ht2).
  exists st2. split_and!; [done|done|by eapply grows_trans|congruence].
Qed.

Lemma consistent_queues st act need time :
  consistent st → (∀ id, id ∈ act ++ need ++ time.*2 → known st id) →
  consistent (set_queues act need time st).
Proof.
  intros (L & Hinv & [Hu Hc]) Hq. exists L. split; [|done]. by apply (inv_same st).
Qed.

Lemma consistent_known st id :
  consistent st →
  id ∈ activeCoroQueue_ st ++ needActiveCoroId_ st ++ (timeoutCoroId_ st).*2 → known st id.
Proof. intros (L & Hinv & _). apply (inv_queues _ _ Hinv). Qed.

Lemma consistent_current st c : consistent st → consistent (set_current c st).
Proof.
  intros (L & Hinv & [Hu Hc]). exists L. split; [|done].
  apply (inv_same st); try done. apply Hinv.
Qed.

Lemma object_known st n i : consistent st → objs st !! n = Some i → known st (uid_ i).
Proof.
  intros (L & Hinv & _) Hi. destruct (inv_obj _ _ Hinv n i Hi) as (? & ? & _).
  split; [lia|]. by exists n.
Qed.

Lemma elem_of_insert_ids k id l x : x ∈ (time_insert k id l).*2 ↔ x = id ∨ x ∈ l.*2.
Proof.
  induction l as [|e l IH]; cbn [time_insert].
  { change ([(k, id)].*2) with [id]. rewrite list_elem_of_singleton, elem_of_nil. tauto. }
  destruct (_ <=? _); rewrite !fmap_cons, !elem_of_cons; [|done]. rewrite IH. tauto.
Qed.

(** A coroutine in use changes its list. *)
Lemma moveTo_used st n i s :
  consistent st → objs st !! n = Some i → status_ i ≠ s → status_ i ≠ CORO_FREE → s ≠ CORO_FREE →
  ∃ m, let st' := set_links m (set_obj n (mk_info (uid_ i) s (callback_ i)) st) in
    moveTo n s st = Ok st' ∧ consistent st' ∧ extends st st'.
Proof.
  intros (L & Hinv & [Hused Hcur]) Hi Hne H1 H2.
  destruct (inv_obj _ _ Hinv n i Hi) as (_ & _ & _ & Hcb).
  destruct (moveTo_spec st L n i s Hinv Hi Hne) as (m & Hm & Hinv'); [left; auto|].
  assert (n ∈ L (status_ i)) as Hn by (apply (inv_status _ _ Hinv); eauto).
  destruct (moved_counts st L n _ s Hinv Hn Hne) as [Htot Hus].
  exists m. split; [done|]. split; [|done]. eexists. split; [done|].
  split; cbn; rewrite ?Htot, ?Hus; [|done]. rewrite !same_eq, !decide_False by done. lia.
Qed.

(** A coroutine that has ended returns to the free list. *)
Lemma finish_lists st L n i :
  inv st L → counted st L → objs st !! n = Some i → status_ i ≠ CORO_FREE →
  ∃ st', finish n st = Ok st' ∧ extends st st' ∧
    inv st' (moved L n (status_ i) CORO_FREE) ∧ counted st' (moved L n (status_ i) CORO_FREE) ∧
    objs st' = <[n := mk_info (uid_ i) CORO_FREE (callback_ i)]> (objs st) ∧
    activeCoroQueue_ st' = activeCoroQueue_ st ∧ needActiveCoroId_ st' = needActiveCoroId_ st ∧
    timeoutCoroId_ st' = timeoutCoroId_ st.
Proof.
  intros Hinv [Hused Hcur] Hi Hs. pose proof (inv_pool _ _ Hinv).
  destruct (inv_uniq _ _ Hinv) as [_ Ht]. pose proof (used_nonneg L).
  set (st1 := set_sizes (currentSize_ st) (u32 (usedSize_ st - 1)) st).
  assert (inv st1 L) as Hinv1 by (apply (inv_same st); try done; apply Hinv).
  assert (n ∈ L (status_ i)) as Hn by (apply (inv_status _ _ Hinv); eauto).
  destruct (moveTo_spec st1 L n i CORO_FREE Hinv1 Hi Hs) as (m & Hm & Hinv'); [by right|].
  destruct (moved_counts st L n _ CORO_FREE Hinv Hn Hs) as [Htot Hus].
  unfold finish, moveToFreeList, info. fold st1. cbn [objs st1 set_sizes]. rewrite Hi.
  cbn [deref mbind outcome_bind]. rewrite Hm.
  exists (set_links m (set_obj n (mk_info (uid_ i) CORO_FREE (callback_ i)) st1)).
  split; [by destruct (status_ i) eqn:?; congruence|].
  split; [done|]. split; [done|]. split; [|done].
  split; cbn; rewrite ?Htot, ?Hus; [|done].
  rewrite !same_eq, decide_True, decide_False by done.
  assert (1 ≤ used L).
  { assert (0 < zlen (L (status_ i))) by (destruct (L (status_ i)); simpl; [by apply elem_of_nil in Hn|lia]).
    unfold used. destruct (status_ i); try done; lia. }
  rewrite u32_small by lia. lia.
Qed.

Lemma finish_spec st n i :
  consistent st → objs st !! n = Some i → status_ i ≠ CORO_FREE →
  ∃ st', finish n st = Ok st' ∧ consistent st' ∧ extends st st'.
Proof.
  intros (L & Hinv & Hct) Hi Hs.
  destruct (finish_lists st L n i Hinv Hct Hi Hs) as (st' & -> & ? & ? & ? & _).
  exists st'. split; [done|]. split; [by eexists|done].
Qed.

(** A running coroutine: it is on the active or on the available list. *)
Definition runnable (i : CoroutineInfo Prog) : Prop :=
  status_ i = CORO_ACTIVE ∨ status_ i = CORO_AVAIL.

Lemma yield_spec st n i flag :
  consistent st → objs st !! n = Some i → runnable i →
  ∃ st', yield flag n st = Ok st' ∧ consistent st' ∧ extends st st'.
Proof.
  intros Hc Hi Hr. unfold yield, info. rewrite Hi. cbn [deref mbind outcome_bind].
  set (st1 := if flag then putbyself (uid_ i) st else st).
  assert (consistent st1 ∧ extends st st1 ∧ objs st1 = objs st) as (Hc1 & He1 & Ho1).
  { unfold st1, putbyself. destruct flag, (terminal_ st); try done. split; [|done].
    apply consistent_queues; [done|]. intros id Hid.
    rewrite !elem_of_app, list_elem_of_singleton in Hid.
    destruct Hid as [Hid|[[Hid| ->]|Hid]]; try by apply (object_known st n).
    all: apply consistent_known; [done|]; rewrite !elem_of_app; tauto. }
  destruct (moveTo_used st1 n i CORO_INACTIVE) as (m & Hm & Hc2 & He2);
    [done|by rewrite Ho1|by destruct Hr as [-> | ->]..|done|].
  unfold moveToInactive, info. rewrite Ho1, Hi. cbn [deref mbind outcome_bind]. rewrite Hm.
  eexists. split; [by destruct Hr as [-> | ->]|]. split; [done|by eapply extends_trans].
Qed.

Lemma sleep_spec st n i now sleeptime :
  consistent st → objs st !! n = Some i → runnable i →
  ∃ st', sleep now sleeptime n st = Ok st' ∧ consistent st' ∧ extends st st'.
Proof.
  intros Hc Hi Hr. unfold sleep, info. rewrite Hi. cbn [deref mbind outcome_bind].
  set (st1 := set_queues _ _ _ st).
  assert (consistent st1) as Hc1.
  { apply consistent_queues; [done|]. intros id Hid.
    rewrite !elem_of_app, elem_of_insert_ids in Hid.
    destruct Hid as [Hid|[Hid|[->|Hid]]]; try by apply (object_known st n).
    all: apply consistent_known; [done|]; rewrite !elem_of_app; tauto. }
  destruct (moveTo_used st1 n i CORO_TIMEOUT) as (m & Hm & Hc2 & He2);
    [done|done|by destruct Hr as [-> | ->]..|done|].
  unfold moveToTimeout, info. cbn [objs st1 set_queues]. rewrite Hi.
  cbn [deref mbind outcome_bind]. rewrite Hm.
  eexists. split; [by destruct Hr as [-> | ->]|]. done.
Qed.

Lemma switchCoro_spec st n i w :
  consistent st → objs st !! n = Some i → runnable i →
  ∃ st' w', switchCoro resume alloc_ok n st w = Ok (st', w') ∧ consistent st' ∧ extends st st'.
Proof.
  intros Hc Hi Hr.
  assert (status_ i ≠ CORO_FREE) as Hs by (by destruct Hr as [-> | ->]).
  assert (is_Some (callback_ i)) as [p Hp].
  { destruct Hc as (L & Hinv & _). destruct (inv_obj _ _ Hinv n i Hi) as (_ & _ & _ & Hcb). auto. }
  unfold switchCoro, info. cbn [objs set_current]. rewrite Hi. cbn [deref mbind outcome_bind].
  rewrite Hp. cbn [deref mbind outcome_bind]. 
  destruct (resume_total (set_current (Some n) st) p w) as [[[created paused] w'] ->].
  cbn [mbind outcome_bind].
  destruct (create_all_spec created (set_current (Some n) st)) as (st1 & -> & Hc1 & Hg1 & Ht1);
    [by apply consistent_current|].
  cbn [mbind outcome_bind]. destruct Hg1 as [Hp1 Ho1 Hk1 _ _]. pose proof (Ho1 n i Hi Hs) as Hi1.
  assert (extends st st1) as He1 by done.
  assert (∃ st2, match paused with
     | None => finish n st1
     | Some (how, p) => st ← registerFunc p n st1;
         match how with
         | Yield flag => yield flag n st
         | Sleep now sleeptime => sleep now sleeptime n st
         end
     end = Ok st2 ∧ consistent st2 ∧ extends st1 st2) as (st2 & -> & Hc2 & He2).
  { destruct paused as [[how q]|]; [|by apply (finish_spec st1 n i)].
    unfold registerFunc, info. rewrite Hi1. cbn [deref mbind outcome_bind].
    set (i2 := mk_info (uid_ i) (status_ i) (Some q)). set (st2 := set_obj n i2 st1).
    assert (consistent st2) as Hc2.
    { destruct Hc1 as (L & Hinv & [Hu Hcu]). exists L. split; [by apply inv_callback|done]. }
    assert (objs st2 !! n = Some i2) as Hi2 by (by apply lookup_insert_eq).
    destruct how as [flag|now sleeptime].
    - destruct (yield_spec st2 n i2 flag Hc2 Hi2 Hr) as (st3 & ? & ? & [???]). by exists st3.
    - destruct (sleep_spec st2 n i2 now sleeptime Hc2 Hi2 Hr) as (st3 & ? & ? & [???]).
      by exists st3. }
  cbn [mbind outcome_bind]. eexists _, w'. split; [done|].
  split; [by apply consistent_current|].
  destruct (extends_trans _ _ _ He1 He2) as [???]. done.
Qed.

Lemma coro_at_spec st id :
  consistent st → known st id → ∃ n i, coro_at id st = Ok n ∧ objs st !! n = Some i.
Proof.
  intros (L & Hinv & _) (Hid & n & Hn).
  destruct (inv_all _ _ Hinv _ _ Hn) as (i & Hi & _). exists n, i.
  unfold coro_at. rewrite bool_decide_true by done. cbn [defined mbind outcome_bind].
  by rewrite Hn.
Qed.

(** The functions that wake coroutines. *)
Definition waker (move : nat → t Prog → outcome (t Prog)) : Prop :=
  ∀ st n i, consistent st → objs st !! n = Some i →
    ∃ st', move n st = Ok st' ∧ consistent st' ∧ extends st st'.

Lemma moveToActive_waker : waker moveToActive.
Proof.
  intros st n i Hc Hi. unfold moveToActive, info. rewrite Hi. cbn [deref mbind outcome_bind].
  destruct (status_ i) eqn:Hs; try by exists st.
  - destruct (moveTo_used st n i CORO_ACTIVE) as (m & -> & ? & ?); rewrite ?Hs; try done. by eexists.
  - destruct (moveTo_used st n i CORO_ACTIVE) as (m & -> & ? & ?); rewrite ?Hs; try done. by eexists.
Qed.

Lemma moveToAvail_waker : waker moveToAvail.
Proof.
  intros st n i Hc Hi. unfold moveToAvail, info. rewrite Hi. cbn [deref mbind outcome_bind].
  destruct (status_ i) eqn:Hs; try by exists st.
  destruct (moveTo_used st n i CORO_AVAIL) as (m & -> & ? & ?); rewrite ?Hs; try done. by eexists.
Qed.

Lemma wake_all_spec move ids : waker move → ∀ st,
  consistent st → (∀ id, id ∈ ids → known st id) →
  ∃ st', wake_all move ids st = Ok st' ∧ consistent st' ∧ extends st st'.
Proof.
  intros Hw. induction ids as [|id ids IH]; intros st Hc Hk; [by exists st|]. cbn [wake_all].
  destruct (coro_at_spec st id Hc) as (n & i & -> & Hi); [apply Hk; left|].
  cbn [mbind outcome_bind]. destruct (Hw st n i Hc Hi) as (st1 & -> & Hc1 & He1).
  cbn [mbind outcome_bind]. destruct (IH st1 Hc1) as (st2 & -> & Hc2 & He2).
  { intros id' Hid'. apply He1, Hk. by right. }
  exists st2. split; [done|]. split; [done|]. by eapply extends_trans.
Qed.

Lemma wakeup_spec st :
  consistent st → ∃ st', wakeup st = Ok st' ∧ consistent st' ∧ extends st st'.
Proof.
  intros Hc. unfold wakeup. destruct (terminal_ st) eqn:Ht; [by exists st|].
  destruct (wake_all_spec moveToActive (activeCoroQueue_ st) moveToActive_waker
    (set_queues [] (needActiveCoroId_ st) (timeoutCoroId_ st) st)) as (st' & ? & ? & [???]).
  - apply consistent_queues; [done|]. intros id Hid. apply consistent_known; [done|].
    rewrite !elem_of_app in *. rewrite elem_of_nil in Hid. tauto.
  - intros id Hid. apply (consistent_known st); [done|]. rewrite !elem_of_app. tauto.
  - by exists st'.
Qed.

Lemma wakeupbyself_spec st :
  consistent st → ∃ st', wakeupbyself st = Ok st' ∧ consistent st' ∧ extends st st'.
Proof.
  intros Hc. unfold wakeupbyself. destruct (terminal_ st) eqn:Ht; [by exists st|].
  destruct (wake_all_spec moveToAvail (needActiveCoroId_ st) moveToAvail_waker st Hc)
    as (st' & -> & Hc' & [???]).
  - intros id Hid. apply consistent_known; [done|]. rewrite !elem_of_app. tauto.
  - cbn [mbind outcome_bind]. eexists. split; [done|]. split; [|done].
    apply consistent_queues; [done|]. intros id Hid. apply consistent_known; [done|].
    rewrite !elem_of_app in *. rewrite elem_of_nil in Hid. tauto.
Qed.

Lemma timeout_loop_spec now l : ∀ st,
  consistent st → (∀ id, id ∈ l.*2 → known st id) →
  ∃ st', timeout_loop now l st = Ok st' ∧ consistent st' ∧ extends st st'.
Proof.
  induction l as [|[k id] l IH]; intros st Hc Hk.
  - eexists. split; [done|]. split; [|done]. apply consistent_queues; [done|].
    intros id Hid. apply consistent_known; [done|].
    rewrite !elem_of_app in *. rewrite elem_of_nil in Hid. tauto.
  - cbn [timeout_loop]. set (st1 := set_queues _ _ _ st).
    assert (consistent st1) as Hc1.
    { apply consistent_queues; [done|]. intros id' Hid'. rewrite !elem_of_app in Hid'.
      destruct Hid' as [?|[?|?]]; [..|by apply Hk];
        apply consistent_known; rewrite ?elem_of_app; tauto. }
    destruct (now <? k); [by exists st1|].
    destruct (coro_at_spec st1 id Hc1) as (n & i & -> & Hi); [apply Hk; left|].
    cbn [mbind outcome_bind]. destruct (moveToActive_waker st1 n i Hc1 Hi) as (st2 & -> & Hc2 & He2).
    cbn [mbind outcome_bind]. destruct (IH st2 Hc2) as (st3 & -> & Hc3 & He3).
    { intros id' Hid'. apply He2, Hk. by right. }
    exists st3. split; [done|]. split; [done|].
    destruct (extends_trans _ _ _ He2 He3) as [???]. done.
Qed.

Lemma run_list_spec k h : ∀ st w,
  consistent st → h = CORO_ACTIVE ∨ h = CORO_AVAIL →
  ∃ st' w', run_list resume alloc_ok k h st w = Ok (st', w') ∧ consistent st' ∧ extends st st'.
Proof.
  induction k as [|k IH]; intros st w Hc Hh; [by exists st, w|]. cbn [run_list].
  destruct (Hc) as (L & Hinv & _). pose proof (inv_circ _ _ Hinv h) as Hcirc.
  rewrite (circ_empty _ _ _ Hcirc), (circ_next _ _ _ Hcirc).
  destruct (L h) as [|n l] eqn:HL; [by exists st, w|].
  rewrite bool_decide_false by done. cbn [fmap list_fmap app head object mbind outcome_bind].
  destruct (proj1 (inv_status _ _ Hinv n h)) as (i & Hi & Hs); [rewrite HL; left|].
  destruct (switchCoro_spec st n i w Hc Hi) as (st1 & w1 & -> & Hc1 & He1).
  { unfold runnable. rewrite Hs. done. }
  cbn [mbind outcome_bind]. destruct (IH st1 w1 Hc1 Hh) as (st2 & w2 & -> & Hc2 & He2).
  exists st2, w2. split; [done|]. split; [done|]. by eapply extends_trans.
Qed.

(** Waking up in a round, which both [run] and [tars_run] begin with. *)
Lemma round_spec now k st w :
  consistent st →
  ∃ st' w', (st ← wakeupbytimeout now st; st ← wakeupbyself st; st ← wakeup st;
             '(st, w) ← run_list resume alloc_ok 100 CORO_ACTIVE st w;
             run_list resume alloc_ok k CORO_AVAIL st w) = Ok (st', w') ∧
            consistent st' ∧ extends st st'.
Proof.
  intros Hc.
  assert (∃ st', wakeupbytimeout now st = Ok st' ∧ consistent st' ∧ extends st st')
    as (st1 & -> & Hc1 & He1).
  { unfold wakeupbytimeout. destruct (terminal_ st); [by exists st|].
    apply timeout_loop_spec; [done|]. intros id Hid. apply consistent_known; [done|].
    rewrite !elem_of_app. tauto. }
  cbn [mbind outcome_bind]. destruct (wakeupbyself_spec st1 Hc1) as (st2 & -> & Hc2 & He2).
  cbn [mbind outcome_bind]. destruct (wakeup_spec st2 Hc2) as (st3 & -> & Hc3 & He3).
  cbn [mbind outcome_bind].
  destruct (run_list_spec 100 CORO_ACTIVE st3 w Hc3) as (st4 & w4 & -> & Hc4 & He4); [by left|].
  cbn [mbind outcome_bind].
  destruct (run_list_spec k CORO_AVAIL st4 w4 Hc4) as (st5 & w5 & -> & Hc5 & He5); [by right|].
  exists st5, w5. split; [done|]. split; [done|]. eauto using extends_trans.
Qed.

(** *** The beginning *)

Lemma init_loop_increase k : ∀ succ st,
  init_loop alloc_ok k succ st = increase_loop alloc_ok k succ st.
Proof.
  induction k as [|k IH]; intros succ st; [done|]. cbn [init_loop increase_loop new_object].
  rewrite !alloc_total. destruct (generateId _) as [[id st1]| | | |]; cbn [mbind outcome_bind]; try done.
  by destruct (enter _ _ _); cbn [mbind outcome_bind].
Qed.

Lemma init_lists poolSize :
  0 < poolSize < 2 ^ 32 - 1 →
  ∃ st l, init alloc_ok poolSize new = Ok st ∧
    inv st (with_free (λ _, []) l) ∧ counted st (with_free (λ _, []) l) ∧
    terminal_ st = false ∧ poolSize_ st = poolSize ∧
    activeCoroQueue_ st = [] ∧ needActiveCoroId_ st = [] ∧ timeoutCoroId_ st = [].
Proof.
  intros Hp. unfold init. rewrite (proj2 (Z.leb_gt _ _)) by lia.
  rewrite bool_decide_false by done. rewrite u32_small by lia. cbv zeta.
  set (n := if poolSize <=? 100 then poolSize else 100).
  assert (0 < n ≤ poolSize) as Hn by (unfold n; destruct (Z.leb_spec poolSize 100); lia).
  set (st0 := mk _ _ _ _ _ _ _ _ _ _ _ _ _).
  assert (inv st0 (λ _, [])) as Hinv.
  { split; cbn [links objs allCoro_ poolSize_ uniqId_ fresh st0].
    - intros s. split; [by apply NoDup_singleton|]. by destruct s.
    - intros m s. rewrite elem_of_nil. unfold new. cbn [objs]. split; [done|].
      intros (i & Hi & _). by rewrite lookup_empty in Hi.
    - intros id m Hm. apply lookup_replicate in Hm as [? _]. done.
    - intros m i Hm. unfold new in Hm. cbn [objs] in Hm. by rewrite lookup_empty in Hm.
    - rewrite length_replicate. lia.
    - lia.
    - unfold total, used. simpl. lia.
    - intros id Hid. by apply elem_of_nil in Hid. }
  rewrite init_loop_increase.
  destruct (increase_loop_spec (Z.to_nat n) 0 st0 _ Hinv)
    as (st1 & l & -> & Hinv1 & Hlen & [Hg _ _ _ Hqueues] & _ & Hu & Ht); [cbn; lia|].
  cbn [mbind outcome_bind]. eexists _, ([] ++ l). split; [done|].
  split; [apply (inv_same st1); try done; apply Hinv1|]. split; [|by split].
  split; cbn [usedSize_ currentSize_ set_current set_sizes]; [by rewrite Hu|].
  destruct (with_free_counts (λ _ : CORO_STATUS, []) ([] ++ l)) as [_ ->].
  cbn [app]. unfold used. cbn [length]. rewrite Hlen. lia.
Qed.

Lemma init_spec poolSize :
  0 < poolSize < 2 ^ 32 - 1 →
  ∃ st, init alloc_ok poolSize new = Ok st ∧ consistent st ∧ terminal_ st = false ∧
        poolSize_ st = poolSize.
Proof.
  intros Hp. destruct (init_lists poolSize Hp) as (st & l & Hi & Hinv & Hct & Ht & Hps & _).
  exists st. split; [done|]. split; [by eexists|done].
Qed.

(** *** Calls *)

Inductive op := OCreate (callback : Prog) | OPut (id : Z) | OTarsRun (now : Z) | ORound (now : Z).

Definition step (o : op) (s : t Prog * W) : outcome (Z * (t Prog * W)) :=
  let '(st, w) := s in
  match o with
  | OCreate p => '(id, st) ← createCoroutine alloc_ok p st; Ok (id, (st, w))
  | OPut id => Ok (0, (put id st, w))
  | OTarsRun now => s ← tars_run resume alloc_ok now st w; Ok (0, s)
  | ORound now => '(stop, st, w) ← run_round resume alloc_ok now st w;
                  Ok (if stop : bool then 1 else 0, (st, w))
  end.

Definition op_ok (o : op) (s : t Prog * W) : Prop :=
  match o with OPut id => known s.1 id | _ => True end.

Lemma put_consistent id st : consistent st → known st id → consistent (put id st).
Proof.
  intros Hc Hk. unfold put. destruct (terminal_ st); [done|]. apply consistent_queues; [done|].
  intros id' Hid. rewrite !elem_of_app, list_elem_of_singleton in Hid.
  destruct Hid as [[?| ->]|?]; [|done|]; apply consistent_known; rewrite ?elem_of_app; tauto.
Qed.

Lemma step_spec o s :
  consistent s.1 → op_ok o s → ∃ r s', step o s = Ok (r, s') ∧ consistent s'.1.
Proof.
  destruct s as [st w]. intros Hc Hok. destruct o as [p|id|now|now]; cbn [step].
  - destruct (createCoroutine_spec p st Hc) as (id & st' & -> & ? & _). by exists id, (st', w).
  - exists 0, (put id st, w). split; [done|]. by apply put_consistent.
  - unfold tars_run. destruct (terminal_ st); [by exists 0, (st, w)|].
    destruct (round_spec now 100 st w Hc) as (st' & w' & -> & Hc' & _). by exists 0, (st', w').
  - unfold run_round. destruct (round_spec now 1 st w Hc) as (st' & w' & Hr & Hc' & _).
    apply bind_Ok in Hr as (st1 & -> & Hr). apply bind_Ok in Hr as (st2 & Hr2 & Hr).
    apply bind_Ok in Hr as (st3 & Hr3 & Hr). apply bind_Ok in Hr as ([st4 w4] & Hr4 & Hr).
    cbn [mbind outcome_bind]. rewrite Hr2. cbn [mbind outcome_bind]. rewrite Hr3.
    cbn [mbind outcome_bind]. rewrite Hr4. cbn [mbind outcome_bind]. rewrite Hr.
    cbn [mbind outcome_bind]. by eexists _, (st', w').
Qed.

Lemma run_ops_consistent ops : ∀ s,
  consistent s.1 → admissible op_ok step ops s →
  ∃ obs s', run_ops step ops s = Ok (obs, s') ∧ consistent s'.1.
Proof.
  induction ops as [|o ops IH]; intros s Hc Hadm; [by exists [], s|].
  destruct Hadm as [Hok Hadm]. cbn [run_ops].
  destruct (step_spec o s Hc Hok) as (r & s1 & Hs & Hc1). rewrite Hs in Hadm |- *.
  cbn [mbind outcome_bind]. destruct (IH s1 Hc1 Hadm) as (obs & s2 & -> & Hc2).
  cbn [mbind outcome_bind]. by eexists _, s2.
Qed.

(** C15: while every stack is granted that the scheduler asks for ([alloc_total]),
    whatever the coroutines do when they run, as long as that returns, over any
    sequence of creations, wake-ups of existing ids and scheduling rounds, with a
    pool of more than 0 and less than 2^32 - 1 coroutines: no assertion fails, no null
    link or stray index is followed, every coroutine is on exactly the list of
    its status, [allCoro_] finds it under its id, and [usedSize_] and
    [currentSize_] count the coroutines in use and all coroutines.  (When a stack is
    refused, a later creation can abort: [failed_allocation_aborts_next].) *)
Theorem scheduler_consistent poolSize ops w (Hp : 0 < poolSize < 2 ^ 32 - 1) :
  ∃ st0, init alloc_ok poolSize new = Ok st0 ∧
    (admissible op_ok step ops (st0, w) →
     ∃ obs st w', run_ops step ops (st0, w) = Ok (obs, (st, w')) ∧ consistent st).
Proof.
  destruct (init_spec poolSize Hp) as (st0 & Hinit & Hc & _). exists st0. split; [done|].
  intros Hadm. destruct (run_ops_consistent ops (st0, w) Hc Hadm) as (obs & [st w'] & Hr & Hc').
  by exists obs, st, w'.
Qed.

End runs.

(** ** Waking up and running out of memory *)

Section waking.
Context {Prog : Type}.
Implicit Types (st : t Prog) (L : CORO_STATUS → list nat).

Lemma inv_coro_at st L n i :
  inv st L → objs st !! n = Some i → coro_at (uid_ i) st = Ok n.
Proof.
  intros Hinv Hi. destruct (inv_obj _ _ Hinv n i Hi) as (Hall & ? & _). unfold coro_at.
  rewrite bool_decide_true by lia. cbn [defined mbind outcome_bind]. by rewrite Hall.
Qed.

(** The wake-up of one coroutine, once the queue has been taken. *)
Lemma wake_one st L n i :
  inv st L → objs st !! n = Some i → terminal_ st = false → activeCoroQueue_ st = [] →
  wakeup (put (uid_ i) st) = moveToActive n st.
Proof.
  intros Hinv Hi Ht Hq. unfold put. rewrite Ht, Hq. unfold wakeup.
  cbn [terminal_ set_queues]. rewrite Ht.
  cbn [wake_all activeCoroQueue_ needActiveCoroId_ timeoutCoroId_ set_queues app].
  assert (∀ act, coro_at (uid_ i) (set_queues act (needActiveCoroId_ st) (timeoutCoroId_ st)
     (set_queues [uid_ i] (needActiveCoroId_ st) (timeoutCoroId_ st) st)) = Ok n) as ->.
  { intros act. exact (inv_coro_at st L n i Hinv Hi). }
  cbn [mbind outcome_bind].
  assert (set_queues [] (needActiveCoroId_ st) (timeoutCoroId_ st)
     (set_queues [uid_ i] (needActiveCoroId_ st) (timeoutCoroId_ st) st) = st) as ->.
  { destruct st; cbn in *. by subst. }
  by destruct (moveToActive n st).
Qed.

Lemma moveTo_queues n s act need time st :
  moveTo n s (set_queues act need time st) = set_queues act need time <$> moveTo n s st.
Proof.
  unfold moveTo, set_status, info. cbn [links set_queues].
  destruct (coroutineDel _ _) as [m1| | | |]; [|done..].
  cbn [mbind outcome_bind objs set_links set_queues].
  destruct (objs st !! n) as [i|]; [|done].
  cbn [deref mbind outcome_bind links set_obj set_links set_queues].
  by destruct (coroutineAddTail _ _ _).
Qed.

(** A [put] from another thread followed by the scheduler's [wakeup] moves a
    suspended coroutine to the end of the active list, from where it runs before
    any available one; for a coroutine that is not suspended (running, waiting
    for its first run, or ended) the wake-up is dropped without any effect. *)
Theorem put_wakes st L n i (Hinv : inv st L) (Hi : objs st !! n = Some i)
    (Ht : terminal_ st = false) (Hq : activeCoroQueue_ st = []) :
  ∃ st', wakeup (put (uid_ i) st) = Ok st' ∧
    match status_ i with
    | CORO_INACTIVE | CORO_TIMEOUT =>
        objs st' = <[n := mk_info (uid_ i) CORO_ACTIVE (callback_ i)]> (objs st) ∧
        inv st' (moved L n (status_ i) CORO_ACTIVE)
    | _ => st' = st
    end.
Proof.
  rewrite (wake_one st L n i) by done. unfold moveToActive, info. rewrite Hi.
  cbn [deref mbind outcome_bind].
  destruct (inv_obj _ _ Hinv n i Hi) as (_ & _ & _ & Hcb).
  destruct (status_ i) eqn:Hs; try by eexists.
  all: destruct (moveTo_spec st L n i CORO_ACTIVE Hinv Hi) as (m & Hm & Hinv');
    [by rewrite Hs|left; by apply Hcb|].
  all: eexists; split; [exact Hm|]; split; [done|by rewrite <- Hs].
Qed.

(** C28: no wake-up is lost between a coroutine's decision to wait and its
    [yield]: whether another thread's [put] comes before the running coroutine
    has yielded or after, the next [wakeup] finds it suspended and moves it to
    the end of the active list, when the scheduler has not been told to stop and no
    other wake-up waits in [activeCoroQueue_]. *)
Theorem wakeup_not_lost st L n i (Hinv : inv st L) (Hi : objs st !! n = Some i)
    (Hr : status_ i = CORO_ACTIVE ∨ status_ i = CORO_AVAIL)
    (Ht : terminal_ st = false) (Hq : activeCoroQueue_ st = []) :
  ∃ st', (st1 ← yield false n (put (uid_ i) st); wakeup st1) = Ok st' ∧
    (st1 ← yield false n st; wakeup (put (uid_ i) st1)) = Ok st' ∧
    objs st' !! n = Some (mk_info (uid_ i) CORO_ACTIVE (callback_ i)) ∧
    inv st' (moved (moved L n (status_ i) CORO_INACTIVE) n CORO_INACTIVE CORO_ACTIVE).
Proof.
  destruct (inv_obj _ _ Hinv n i Hi) as (_ & _ & _ & Hcb).
  assert (is_Some (callback_ i)) as Hc by (apply Hcb; by destruct Hr as [-> | ->]).
  set (i1 := mk_info (uid_ i) CORO_INACTIVE (callback_ i)).
  destruct (moveTo_spec st L n i CORO_INACTIVE Hinv Hi) as (m & Hm & Hinv1);
    [by destruct Hr as [-> | ->]|by left|].
  fold i1 in Hm, Hinv1. set (st1 := set_links m (set_obj n i1 st)) in *.
  assert (yield false n st = Ok st1) as Hy.
  { unfold yield, moveToInactive, info. rewrite Hi. cbn [deref mbind outcome_bind]. by destruct Hr as [-> | ->]. }
  assert (yield false n (put (uid_ i) st) = Ok (put (uid_ i) st1)) as Hy'.
  { unfold put. cbn [terminal_ st1 set_links set_obj]. rewrite Ht.
    unfold yield, moveToInactive, info. cbn [objs set_queues]. rewrite Hi.
    cbn [deref mbind outcome_bind]. rewrite moveTo_queues, Hm. by destruct Hr as [-> | ->]. }
  rewrite Hy, Hy'. cbn [mbind outcome_bind].
  assert (objs st1 !! n = Some i1) as Hi1 by (by apply lookup_insert_eq).
  assert (wakeup (put (uid_ i) st1) = moveToActive n st1) as ->
    by exact (wake_one st1 _ n i1 Hinv1 Hi1 Ht Hq).
  destruct (moveTo_spec st1 _ n i1 CORO_ACTIVE Hinv1 Hi1) as (m2 & Hm2 & Hinv2); [done|by left|].
  eexists. unfold moveToActive, info. rewrite Hi1. cbn [deref mbind outcome_bind status_ i1].
  split; [exact Hm2|]. split; [exact Hm2|]. split; [by apply lookup_insert_eq|done].
Qed.

(** [createCoroutine] with an empty free list and room for one more. *)
Lemma create_last alloc_ok p st :
  coroutineHeadEmpty (Head CORO_FREE) (links st) = true → currentSize_ st = poolSize_ st - 1 →
  createCoroutine alloc_ok p st =
    '(ret, st) ← ('(succ, st) ← increase_loop alloc_ok 1 0 st;
                  if succ =? 0 then Ok (-1, st)
                  else Ok (0, set_sizes (u32 (currentSize_ st + succ)) (usedSize_ st) st));
    if negb (ret =? 0) then Ok (0, st) else take_free p st.
Proof.
  intros Hemp Hcur. unfold createCoroutine, increaseCoroPoolSize.
  rewrite Hemp, orb_true_r, Hcur. by replace (poolSize_ st - (poolSize_ st - 1)) with 1 by lia.
Qed.

(** A failed stack allocation uses up a coroutine id for good: with one place
    left in the pool, the creation that fails returns 0 and leaves every list as
    it was, and the next one runs into [assert(uniqId_ <= poolSize_)]. *)
Theorem failed_allocation_aborts_next alloc_ok p p' st L (Hinv : inv st L) (Hct : counted st L)
    (Hfree : L CORO_FREE = []) (Hroom : total L = poolSize_ st - 1)
    (Hfail : alloc_ok (fresh st) = false) :
  ∃ st', createCoroutine alloc_ok p st = Ok (0, st') ∧ links st' = links st ∧
    objs st' = objs st ∧ createCoroutine alloc_ok p' st' = Assert.
Proof.
  destruct Hct as [Hused Hcur]. pose proof (inv_pool _ _ Hinv). pose proof (used_nonneg L).
  destruct (inv_uniq _ _ Hinv) as [Hu _].
  pose proof (circ_empty _ _ _ (inv_circ _ _ Hinv CORO_FREE)) as Hemp. rewrite Hfree in Hemp.
  rewrite create_last by (done || lia). cbn [increase_loop]. unfold new_object at 1.
  rewrite next_id_spec by (cbn; lia). cbn [mbind outcome_bind]. rewrite Hfail.
  eexists. split; [done|]. split; [done|]. split; [done|].
  rewrite create_last by (cbn; done || lia). cbn [increase_loop]. unfold new_object, generateId.
  cbn [uniqId_ poolSize_ set_uniqId]. rewrite u32_small by lia. cbv zeta.
  rewrite (proj2 (Z.ltb_ge _ 1)) by lia. by rewrite (proj2 (Z.leb_gt _ _)) by lia.
Qed.

(** *** The stacks at the end *)

Lemma destroy_loop_spec rlim_max stack (region : nat → Z * Z) st : ∀ k i,
  (i + k)%nat = length (allCoro_ st) →
  (∀ n, Some n ∈ allCoro_ st → Stacks.deallocate rlim_max (stack n) = Ok (region n)) →
  destroy_loop rlim_max stack k i st = Ok (region <$> omap id (drop i (allCoro_ st))).
Proof.
  induction k as [|k IH]; intros i Hi Hd; cbn [destroy_loop].
  { rewrite drop_ge by lia. done. }
  destruct (lookup_lt_is_Some_2 (allCoro_ st) i) as [c Hc]; [lia|].
  rewrite Hc, (drop_S _ c) by done. cbn [deref mbind outcome_bind].
  destruct c as [n|]; cbn [omap list_omap id]; [|apply IH; [lia|done]].
  rewrite Hd by (by eapply list_elem_of_lookup_2). cbn [mbind outcome_bind].
  by rewrite IH by (lia || done).
Qed.

(** The entries of [allCoro_], without the empty one at 0, are the coroutines. *)
Lemma inv_entries st L :
  inv st L → NoDup (omap id (drop 1 (allCoro_ st))) ∧
  ∀ n, n ∈ omap id (drop 1 (allCoro_ st)) ↔ is_Some (objs st !! n).
Proof.
  intros Hinv. assert (∀ i n, drop 1 (allCoro_ st) !! i = Some (Some n) ↔
    ∃ info, objs st !! n = Some info ∧ uid_ info = Z.of_nat (S i)) as Hlook.
  { intros i n. rewrite lookup_drop. split; [apply (inv_all _ _ Hinv)|].
    intros (info & Hi & Hu). destruct (inv_obj _ _ Hinv n info Hi) as (Ha & _).
    by rewrite Hu, Nat2Z.id in Ha. }
  split.
  - assert (∀ l : list (option nat),
      (∀ i j n, l !! i = Some (Some n) → l !! j = Some (Some n) → i = j) → NoDup (omap id l)) as Hnd.
    { induction l as [|[m|] l IH]; intros Hinj; [constructor| |].
      - cbn. constructor.
        + intros (x & Hx & [= ->])%list_elem_of_omap.
          apply list_elem_of_lookup in Hx as [i Hi]. by specialize (Hinj O (S i) m eq_refl Hi).
        + apply IH. intros i j n Hi Hj. by specialize (Hinj (S i) (S j) n Hi Hj) as [= ->].
      - cbn. apply IH. intros i j n Hi Hj. by specialize (Hinj (S i) (S j) n Hi Hj) as [= ->]. }
    apply Hnd. intros i j n (a & Ha & Hua)%Hlook (b & Hb & Hub)%Hlook.
    assert (a = b) as -> by congruence. lia.
  - intros n. rewrite list_elem_of_omap. split.
    + intros (x & Hx & [= ->]). apply list_elem_of_lookup in Hx as [i (a & Ha & _)%Hlook]. by exists a.
    + intros [a Ha]. destruct (inv_obj _ _ Hinv n a Ha) as (_ & Hu & _).
      exists (Some n). split; [|done]. apply list_elem_of_lookup.
      exists (Z.to_nat (uid_ a) - 1)%nat. apply Hlook. exists a. split; [done|lia].
Qed.

(** [destroy] gives the stack of every coroutine back to the system, each
    exactly once, whatever the coroutines are doing. *)
Theorem destroy_frees_each_stack rlim_max stack region st L (Hinv : inv st L)
    (Hd : ∀ n i, objs st !! n = Some i → Stacks.deallocate rlim_max (stack n) = Ok (region n)) :
  ∃ coros, destroy rlim_max stack st = Ok (region <$> coros) ∧ NoDup coros ∧
    ∀ n, n ∈ coros ↔ is_Some (objs st !! n).
Proof.
  destruct (inv_entries st L Hinv) as [Hnd Hin]. pose proof (inv_pool _ _ Hinv).
  pose proof (inv_len _ _ Hinv). exists (omap id (drop 1 (allCoro_ st))). split; [|done].
  unfold destroy. rewrite bool_decide_false by (intros He; rewrite He in *; simpl in *; lia).
  apply destroy_loop_spec; [lia|]. intros n Hn. apply list_elem_of_lookup in Hn as [i Hi].
  destruct (inv_all _ _ Hinv i n Hi) as (a & Ha & _). by apply (Hd n a).
Qed.

(** When no stack is taken back, [destroy] aborts at the first coroutine. *)
Lemma destroy_loop_aborts rlim_max stack st : ∀ k i n,
  (i + k)%nat = length (allCoro_ st) →
  (∀ n, Stacks.deallocate rlim_max (stack n) = Assert) →
  n ∈ omap id (drop i (allCoro_ st)) → destroy_loop rlim_max stack k i st = Assert.
Proof.
  induction k as [|k IH]; intros i n Hi Hd Hn; cbn [destroy_loop].
  { rewrite drop_ge in Hn by lia. by apply not_elem_of_nil in Hn. }
  destruct (lookup_lt_is_Some_2 (allCoro_ st) i) as [c Hc]; [lia|].
  rewrite (drop_S _ c) in Hn by done. rewrite Hc. cbn [deref mbind outcome_bind].
  destruct c as [m|]; [by rewrite Hd|]. apply (IH _ n); [lia|done|done].
Qed.

Lemma destroy_aborts rlim_max stack st L n :
  inv st L → (∀ n, Stacks.deallocate rlim_max (stack n) = Assert) →
  is_Some (objs st !! n) → destroy rlim_max stack st = Assert.
Proof.
  intros Hinv Hd Hn. pose proof (inv_pool _ _ Hinv). pose proof (inv_len _ _ Hinv).
  unfold destroy. rewrite bool_decide_false by (intros He; rewrite He in *; simpl in *; lia).
  apply (destroy_loop_aborts _ _ _ _ _ n); [lia|done|]. by apply (inv_entries st L Hinv).
Qed.

Lemma terminate_inv st L : inv st L → inv (terminate st) L.
Proof. intros []. by constructor. Qed.

End waking.

(** ** Concrete runs *)

(** A program waits as many times as the number says, then ends; 7 creates
    another one before it sleeps. *)
Definition demo (st : t nat) (p : nat) (w : unit)
    : outcome (list nat * option (pause * nat) * unit) :=
  Ok (match p with
      | O => ([], None)
      | 7%nat => ([1%nat], Some (Sleep 5 10, O))
      | S p => ([], Some (Yield false, p))
      end, w).

Definition granted (n : nat) : bool := true.

Definition demo_run (poolSize : Z) (ops : list op) : outcome (list Z * t nat) :=
  st ← init granted poolSize new;
  '(obs, (st, _)) ← run_ops (step demo granted) ops (st, ()); Ok (obs, st).

(** What the examples look at: the object 0 and the counters. *)
Definition demo_view (st : t nat) : option (CoroutineInfo nat) * bool * list Z * nat * (Z * Z * Z) :=
  (objs st !! 0%nat, terminal_ st, activeCoroQueue_ st, fresh st,
   (poolSize_ st, currentSize_ st, usedSize_ st)).

Example demo_runs :
  prod_map id demo_view <$>
    demo_run 3 [OCreate 7%nat; OTarsRun 0; OTarsRun 14; OPut 2; OTarsRun 15] =
  Ok ([1; 0; 0; 0; 0], (Some (mk_info 1 CORO_FREE (Some 0%nat)), false, [], 3%nat, (3, 3, 0))).
Proof. vm_compute. reflexivity. Qed.

Lemma demo_total st p w : ∃ r, demo st p w = Ok r.
Proof. by eexists. Qed.

Lemma demo_consistent poolSize ops :
  0 < poolSize < 2 ^ 32 - 1 →
  (∀ st, init granted poolSize new = Ok st → admissible op_ok (step demo granted) ops (st, ())) →
  ∃ obs st, demo_run poolSize ops = Ok (obs, st) ∧ consistent st.
Proof.
  intros Hp Hadm. destruct (init_spec (Prog := nat) granted (λ _, eq_refl) poolSize Hp) as (st & Hi & Hc & _).
  unfold demo_run. rewrite Hi. cbn [mbind outcome_bind].
  destruct (run_ops_consistent demo granted (λ _, eq_refl) demo_total ops (st, ()) Hc)
    as (obs & [st' w] & -> & Hc'); [by apply Hadm|]. by exists obs, st'.
Qed.

Lemma scheduler_consistent_witness :
  0 < 3 < 2 ^ 32 - 1 ∧
  ∃ st0, init granted 3 new = Ok st0 ∧
  ∃ obs st w, run_ops (step demo granted) [OCreate 7%nat; OTarsRun 0; OTarsRun 14; ORound 15] (st0, ())
                = Ok (obs, (st, w)) ∧ consistent st.
Proof.
  assert (Hp : 0 < 3 < 2 ^ 32 - 1) by lia. split; [done|].
  destruct (scheduler_consistent demo granted (λ _, eq_refl) demo_total 3
    [OCreate 7%nat; OTarsRun 0; OTarsRun 14; ORound 15] () Hp) as (st0 & Hi & H).
  exists st0. split; [done|]. apply H. cbn [admissible op_ok]. split; [done|].
  repeat (case_match; [|done..]; case_match; split; [done|]).
  case_match; [|done..]. by case_match.
Defined.

Lemma put_wakes_witness :
  ∃ (st : t nat) L i st', inv st L ∧ objs st !! 0%nat = Some i ∧ status_ i = CORO_INACTIVE ∧
    wakeup (put (uid_ i) st) = Ok st' ∧
    objs st' = <[0%nat := mk_info (uid_ i) CORO_ACTIVE (callback_ i)]> (objs st).
Proof.
  destruct (demo_consistent 3 [OCreate 1%nat; OTarsRun 0]) as (obs & st & Hr & L & Hinv & _).
  { lia. }
  { intros st _. cbn [admissible op_ok]. split; [done|]. case_match; [|done..]. case_match.
    split; [done|]. by repeat case_match. }
  assert (demo_view ∘ snd <$> demo_run 3 [OCreate 1%nat; OTarsRun 0] =
    Ok (Some (mk_info 1 CORO_INACTIVE (Some 0%nat)), false, [], 3%nat, (3, 3, 1))) as Hv
    by (vm_compute; reflexivity).
  rewrite Hr in Hv. injection Hv as Hi Ht Hq _ _ _ _.
  destruct (put_wakes st L 0 _ Hinv Hi Ht Hq) as (st' & Hw & Ho & _).
  exists st, L, (mk_info 1 CORO_INACTIVE (Some 0%nat)), st'.
  exact (conj Hinv (conj Hi (conj eq_refl (conj Hw Ho)))).
Defined.

(** The stacks of 321 pages one after the other. *)
Definition demo_stack (n : nat) : Stacks.stack_context :=
  Stacks.mk (321 * 4096) (321 * 4096 * Z.of_nat (S (S n))).

Definition demo_region (n : nat) : Z * Z := (321 * 4096 * Z.of_nat (S n), 321 * 4096).

Lemma demo_deallocate n :
  Stacks.deallocate Stacks.RLIM_INFINITY (demo_stack n) = Ok (demo_region n).
Proof.
  unfold Stacks.deallocate. cbn [Stacks.sp Stacks.size demo_stack].
  rewrite (proj2 (Z.eqb_neq _ 0)) by lia.
  change (Stacks.minimum_stacksize <=? 321 * 4096) with true.
  change (Stacks.assert_limit Stacks.RLIM_INFINITY (321 * 4096)) with (Ok ()).
  cbn [negb assert_ mbind outcome_bind]. unfold demo_region. do 2 f_equal. lia.
Qed.

Lemma destroy_frees_each_stack_witness :
  ∃ (st : t nat) L coros, inv st L ∧
    destroy Stacks.RLIM_INFINITY demo_stack st = Ok (demo_region <$> coros) ∧ NoDup coros.
Proof.
  destruct (demo_consistent 3 [OCreate 1%nat; OTarsRun 0]) as (obs & st & _ & L & Hinv & _).
  { lia. }
  { intros st _. cbn [admissible op_ok]. split; [done|]. case_match; [|done..]. case_match.
    split; [done|]. by repeat case_match. }
  destruct (destroy_frees_each_stack Stacks.RLIM_INFINITY demo_stack demo_region st L Hinv)
    as (coros & Hd & Hnd & _); [intros n i _; apply demo_deallocate|].
  exists st, L, coros. exact (conj Hinv (conj Hd Hnd)).
Defined.

Lemma wakeup_not_lost_witness :
  ∃ (st : t nat) L i st', inv st L ∧ objs st !! 0%nat = Some i ∧ status_ i = CORO_AVAIL ∧
    (st1 ← yield false 0 (put (uid_ i) st); wakeup st1) = Ok st' ∧
    objs st' !! 0%nat = Some (mk_info (uid_ i) CORO_ACTIVE (callback_ i)).
Proof.
  destruct (demo_consistent 3 [OCreate 1%nat]) as (obs & st & Hr & L & Hinv & _).
  { lia. }
  { intros st _. cbn [admissible op_ok]. split; [done|]. by repeat case_match. }
  assert (demo_view ∘ snd <$> demo_run 3 [OCreate 1%nat] =
    Ok (Some (mk_info 1 CORO_AVAIL (Some 1%nat)), false, [], 3%nat, (3, 3, 1))) as Hv
    by (vm_compute; reflexivity).
  rewrite Hr in Hv. injection Hv as Hi Ht Hq _ _ _ _.
  destruct (wakeup_not_lost st L 0 _ Hinv Hi (or_intror eq_refl) Ht Hq)
    as (st' & Hw & _ & Ho & _).
  exists st, L, (mk_info 1 CORO_AVAIL (Some 1%nat)), st'.
  exact (conj Hinv (conj Hi (conj eq_refl (conj Hw Ho)))).
Defined.

(** 100 of 101 coroutines exist and are in use; there is no stack for the last. *)
Lemma failed_allocation_aborts_next_witness :
  ∃ (st : t nat) L st', inv st L ∧ poolSize_ st = 101 ∧
    createCoroutine (λ n, (n <? 100)%nat) 0%nat st = Ok (0, st') ∧
    createCoroutine (λ n, (n <? 100)%nat) 0%nat st' = Assert.
Proof.
  destruct (demo_consistent 101 (replicate 100 (OCreate 1%nat))) as (obs & st & Hr & L & Hinv & Hct).
  { lia. }
  { intros st _. generalize 100%nat as k. intros k. revert st.
    induction k as [|k IH]; intros st; [done|]. cbn [replicate admissible op_ok].
    split; [done|]. case_match; [|done..]. case_match.
    match goal with s : _ * () |- _ => destruct s as [? []] end. apply IH. }
  assert ((λ r, let st := r.2 in (fresh st, poolSize_ st, currentSize_ st, usedSize_ st))
    <$> demo_run 101 (replicate 100 (OCreate 1%nat)) = Ok (100%nat, 101, 100, 100)) as Hv
    by (vm_compute; reflexivity).
  rewrite Hr in Hv. injection Hv as Hf Hp Hc Hu.
  pose proof (counted_used _ _ Hct) as Hus. pose proof (counted_current _ _ Hct) as Hcu.
  assert (total L = poolSize_ st - 1) as Htot by lia.
  assert (L CORO_FREE = []) as Hfree.
  { destruct (L CORO_FREE) eqn:Hl; [done|].
    assert (total L = used L) as Htu by lia. unfold total in Htu. rewrite Hl in Htu.
    simpl in Htu. lia. }
  destruct (failed_allocation_aborts_next (λ n, (n <? 100)%nat) 0%nat 0%nat st L Hinv Hct Hfree Htot)
    as (st' & H1 & _ & _ & H2); [by rewrite Hf|].
  exists st, L, st'. exact (conj Hinv (conj Hp (conj H1 H2))).
Defined.

End Scheduler.
