(* ===== verification/RoundRobin.v ===== *)
(** * RoundRobin: what CoroutineScheduler promises to the handler threads

    The handlers' coroutines yield or end; they neither sleep nor wait to be
    woken up.  For such coroutines the scheduler is a queue: every pass of
    [tars_run] appends the coroutines that have yielded to the ready ones, in the
    order in which they did, and gives a turn to each of the first hundred; what
    they create goes to the end of the queue, as long as there is room. *)

From S2P Require Import Prelude CoroList Stacks Scheduler.

Module RoundRobin.
Import CoroList.

(** ** The specification *)

Record t (Prog : Type) := mk {
  capacity : Z;
  ready : list Prog;
  yielded : list Prog
}.
Arguments mk {Prog}.
Arguments capacity {Prog}.
Arguments ready {Prog}.
Arguments yielded {Prog}.

Section spec.
Context {Prog W : Type}.
(** What a coroutine does until it yields, to go on with [Some p], or ends. *)
Context (work : Prog → W → outcome (list Prog * option Prog * W)).
Implicit Types (r : t Prog) (w : W).

(** The same for [Scheduler]: the coroutines give up control by [yield()]. *)
Definition yielding (p : Prog) w : outcome (list Prog * option (Scheduler.pause * Prog) * W) :=
  '(created, next, w) ← work p w;
  Ok (created, match next with Some q => Some (Scheduler.Yield true, q) | None => None end, w).

Definition create (p : Prog) r : bool * t Prog :=
  if zlen (ready r) + zlen (yielded r) <? capacity r
  then (true, mk (capacity r) (ready r ++ [p]) (yielded r)) else (false, r).

Fixpoint create_all (ps : list Prog) r : t Prog :=
  match ps with [] => r | p :: ps => create_all ps (create p r).2 end.

(** The turn of [p], the first of the ready coroutines. *)
Definition turn (p : Prog) r w : outcome (t Prog * W) :=
  '(created, next, w) ← work p w;
  let r := create_all created r in
  Ok (mk (capacity r) (tail (ready r)) (yielded r ++ option_list next), w).

Fixpoint turns (k : nat) r w : outcome (t Prog * W) :=
  match k, ready r with
  | S k, p :: _ => '(r, w) ← turn p r w; turns k r w
  | _, _ => Ok (r, w)
  end.

Definition wake r : t Prog := mk (capacity r) (ready r ++ yielded r) [].

Definition pass r w : outcome (t Prog * W) := turns 100 (wake r) w.

Inductive op := OCreate (p : Prog) | OPass (now : Z).

Definition step (o : op) (s : t Prog * W) : outcome (bool * (t Prog * W)) :=
  let '(r, w) := s in
  match o with
  | OCreate p => let '(b, r) := create p r in Ok (b, (r, w))
  | OPass _ => s ← pass r w; Ok (true, s)
  end.

End spec.

(** ** The scheduler as a queue *)

Section implementation.
Context {Prog W : Type}.
Context (work : Prog → W → outcome (list Prog * option Prog * W)).
Context (resume : Scheduler.t Prog → Prog → W
                  → outcome (list Prog * option (Scheduler.pause * Prog) * W)).
Context (alloc_ok : nat → bool).
Hypothesis alloc_total : ∀ n, alloc_ok n = true.
Hypothesis resume_work : ∀ st p w,
  Scheduler.activeCoroQueue_ st = [] →
  resume st p w = yielding work p w.
Implicit Types (st : Scheduler.t Prog) (r : t Prog) (L : CORO_STATUS → list nat).

(** An attribute of the coroutines [l]. *)
Definition attr {A} st (f : Scheduler.CoroutineInfo Prog → A) (l : list nat) : list (option A) :=
  (λ n, f <$> Scheduler.objs st !! n) <$> l.

(** [r] is the queue of [st], whose lists are [L]; the ids of the coroutines that
    have yielded are not looked at. *)
Record shape st L r : Prop := {
  sh_inv : Scheduler.inv st L;
  sh_counted : Scheduler.counted st L;
  sh_capacity : Scheduler.poolSize_ st = capacity r;
  sh_running : Scheduler.terminal_ st = false;
  sh_active : L CORO_ACTIVE = [];
  sh_timeout : L CORO_TIMEOUT = [];
  sh_ready : attr st Scheduler.callback_ (L CORO_AVAIL) = (Some ∘ Some) <$> ready r;
  sh_yielded : attr st Scheduler.callback_ (L CORO_INACTIVE) = (Some ∘ Some) <$> yielded r;
  sh_queue : Scheduler.activeCoroQueue_ st = [];
  sh_times : Scheduler.timeoutCoroId_ st = []
}.

Definition need st L : Prop :=
  attr st Scheduler.uid_ (L CORO_INACTIVE) = Some <$> Scheduler.needActiveCoroId_ st.

Definition models st r : Prop := ∃ L, shape st L r ∧ need st L.

Lemma attr_length {A} st (f : _ → A) l : length (attr st f l) = length l.
Proof. apply length_fmap. Qed.

Lemma attr_app {A} st (f : _ → A) l1 l2 : attr st f (l1 ++ l2) = attr st f l1 ++ attr st f l2.
Proof. apply fmap_app. Qed.

Lemma attr_one {A} st (f : _ → A) n : attr st f [n] = [f <$> Scheduler.objs st !! n].
Proof. done. Qed.

Lemma attr_ext {A} st st' (f : _ → A) l :
  (∀ n, n ∈ l → f <$> Scheduler.objs st' !! n = f <$> Scheduler.objs st !! n) →
  attr st' f l = attr st f l.
Proof. intros Heq. apply Forall_fmap_ext_1, Forall_forall. exact Heq. Qed.

Lemma attr_grows {A} st st' (f : _ → A) L s :
  Scheduler.inv st L → Scheduler.grows st st' → s ≠ CORO_FREE → attr st' f (L s) = attr st f (L s).
Proof.
  intros Hinv Hg Hs. apply attr_ext. intros n Hn.
  apply (Scheduler.inv_status _ _ Hinv) in Hn as (i & Hi & Hsi).
  by rewrite Hi, (Scheduler.grows_obj _ _ Hg n i Hi) by by rewrite Hsi.
Qed.

(** Attributes other than the status survive a move. *)
Lemma attr_moved {A} st st' (f : _ → A) n i s l :
  Scheduler.objs st !! n = Some i →
  Scheduler.objs st' =
    <[n := Scheduler.mk_info (Scheduler.uid_ i) s (Scheduler.callback_ i)]> (Scheduler.objs st) →
  f (Scheduler.mk_info (Scheduler.uid_ i) s (Scheduler.callback_ i)) = f i →
  attr st' f l = attr st f l.
Proof.
  intros Hi Ho Hf. apply attr_ext. intros m _. rewrite Ho. destruct (decide (m = n)) as [->|].
  - rewrite lookup_insert_eq, Hi. cbn. by rewrite Hf.
  - by rewrite lookup_insert_ne.
Qed.

Lemma shape_used st L r :
  shape st L r → Scheduler.used L = zlen (ready r) + zlen (yielded r).
Proof.
  intros Hsh. unfold Scheduler.used. rewrite (sh_active _ _ _ Hsh), (sh_timeout _ _ _ Hsh).
  pose proof (f_equal length (sh_ready _ _ _ Hsh)) as H1.
  pose proof (f_equal length (sh_yielded _ _ _ Hsh)) as H2.
  rewrite attr_length, length_fmap in H1, H2. rewrite H1, H2. cbn [length]. lia.
Qed.

(** *** Creation *)

Lemma create_shape p st L r :
  shape st L r → need st L →
  ∃ id st' L' ext, Scheduler.createCoroutine alloc_ok p st = Ok (id, st') ∧
    bool_decide (id ≠ 0) = (create p r).1 ∧ shape st' L' (create p r).2 ∧ need st' L' ∧
    Scheduler.grows st st' ∧ L' CORO_AVAIL = L CORO_AVAIL ++ ext.
Proof.
  intros Hsh Hneed. pose proof (shape_used st L r Hsh) as Hused.
  pose proof (sh_inv _ _ _ Hsh) as Hinv. pose proof (sh_counted _ _ _ Hsh) as Hct.
  destruct (Scheduler.create_lists alloc_ok alloc_total p st L Hinv Hct)
    as (id & st' & Hc & Hg & [(-> & -> & Hfull)|(Hid & Hroom & n & L' & Hinv' & Hct' & Ha & Hother & Ho)]);
    rewrite (sh_capacity _ _ _ Hsh), Hused in *; unfold create.
  - exists 0, st, L, []. rewrite app_nil_r, (proj2 (Z.ltb_ge _ _)) by lia. done.
  - exists id, st', L', [n]. rewrite (proj2 (Z.ltb_lt _ _)) by lia.
    split; [done|]. split; [by rewrite bool_decide_true by lia|].
    pose proof (Scheduler.grows_queues _ _ Hg) as (Hq1 & Hq2 & Hq3).
    assert (∀ A (f : _ → A), attr st' f (L' CORO_INACTIVE) = attr st f (L CORO_INACTIVE)) as Hin
      by (intros; rewrite Hother by done; by apply attr_grows).
    split; [split|split; [|done]].
    + done.
    + done.
    + rewrite (Scheduler.grows_pool _ _ Hg). apply Hsh.
    + rewrite (Scheduler.grows_terminal _ _ Hg). apply Hsh.
    + rewrite Hother by done. apply Hsh.
    + rewrite Hother by done. apply Hsh.
    + rewrite Ha, attr_app, (attr_grows st) by done. cbn [ready snd]. rewrite (sh_ready _ _ _ Hsh), fmap_app.
      f_equal. cbn. by rewrite Ho.
    + rewrite Hin. apply Hsh.
    + rewrite Hq1. apply Hsh.
    + rewrite Hq3. apply Hsh.
    + unfold need. by rewrite Hin, Hq2.
Qed.

Lemma create_all_shape ps : ∀ st L r,
  shape st L r → need st L →
  ∃ st' L' ext, Scheduler.create_all alloc_ok ps st = Ok st' ∧ shape st' L' (create_all ps r) ∧
    need st' L' ∧ Scheduler.grows st st' ∧ L' CORO_AVAIL = L CORO_AVAIL ++ ext.
Proof.
  induction ps as [|p ps IH]; intros st L r Hsh Hneed; cbn [Scheduler.create_all create_all].
  { exists st, L, []. by rewrite app_nil_r. }
  destruct (create_shape p st L r Hsh Hneed) as (id & st1 & L1 & ext1 & -> & _ & Hsh1 & Hn1 & Hg1 & Ha1).
  cbn [mbind outcome_bind].
  destruct (IH st1 L1 _ Hsh1 Hn1) as (st2 & L2 & ext2 & -> & Hsh2 & Hn2 & Hg2 & Ha2).
  exists st2, L2, (ext1 ++ ext2). split; [done|]. split; [done|]. split; [done|].
  split; [by eapply Scheduler.grows_trans|]. by rewrite Ha2, Ha1, app_assoc.
Qed.

(** *** A turn *)

Lemma create_all_ready ps : ∀ r p l,
  ready r = p :: l → ∃ l', ready (create_all ps r) = p :: l' ∧ yielded (create_all ps r) = yielded r.
Proof.
  induction ps as [|q ps IH]; intros r p l Hr; cbn [create_all]; [by exists l|].
  unfold create. destruct (_ <? _); [|by eapply IH].
  cbn [snd]. apply (IH (mk _ _ _) p (l ++ [q])). cbn. by rewrite Hr.
Qed.

Lemma shape_current st L r c : shape st L r → shape (Scheduler.set_current c st) L r.
Proof.
  intros [Hinv [Hu Hcu]]. split; try done.
  apply (Scheduler.inv_same st); try done. exact (Scheduler.inv_queues _ _ Hinv).
Qed.

(** The first of the ready coroutines leaves their list. *)
Lemma moved_first L n l s :
  L CORO_AVAIL = n :: l → n ∉ l → s ≠ CORO_AVAIL →
  Scheduler.moved L n CORO_AVAIL s CORO_AVAIL = l.
Proof.
  intros Ha Hn Hs. unfold Scheduler.moved. rewrite decide_False, decide_True by done.
  rewrite Ha. rewrite filter_cons, decide_False by naive_solver.
  apply filter_all. by intros m Hm ->.
Qed.

Lemma moved_other L n s0 s s' :
  s' ≠ s0 → s' ≠ s → Scheduler.moved L n s0 s s' = L s'.
Proof. intros. unfold Scheduler.moved. by rewrite !decide_False. Qed.

Lemma moved_target L n s0 s : Scheduler.moved L n s0 s s = L s ++ [n].
Proof. unfold Scheduler.moved. by rewrite decide_True. Qed.

Lemma finish_shape st L n l p ps ys c :
  shape st L (mk c (p :: ps) ys) → need st L → L CORO_AVAIL = n :: l →
  ∃ st' L', Scheduler.finish n st = Ok st' ∧ shape st' L' (mk c ps ys) ∧ need st' L'.
Proof.
  intros Hsh Hneed Ha. pose proof (sh_inv _ _ _ Hsh) as Hinv.
  destruct (proj1 (Scheduler.inv_status _ _ Hinv n CORO_AVAIL)) as (i & Hi & Hs); [rewrite Ha; left|].
  pose proof (Scheduler.inv_nodup _ _ CORO_AVAIL Hinv) as Hnd. rewrite Ha in Hnd.
  apply NoDup_cons in Hnd as [Hn _].
  destruct (Scheduler.finish_lists st L n i Hinv (sh_counted _ _ _ Hsh) Hi)
    as (st' & Hf & [] & Hinv' & Hct' & Ho & Hq1 & Hq2 & Hq3); [by rewrite Hs|].
  rewrite Hs in Hinv', Hct'.
  exists st', (Scheduler.moved L n CORO_AVAIL CORO_FREE). split; [done|].
  assert (∀ A (f : Scheduler.CoroutineInfo Prog → A) l', f (Scheduler.mk_info (Scheduler.uid_ i) CORO_FREE (Scheduler.callback_ i)) = f i →
    attr st' f l' = attr st f l') as Hattr by (intros; by eapply attr_moved).
  pose proof (sh_ready _ _ _ Hsh) as Hr. rewrite Ha in Hr. cbn in Hr. injection Hr as _ Hr.
  split; [split|]; cbn [capacity ready yielded]; try done;
    unfold need; rewrite ?moved_other, ?Hq1, ?Hq2, ?Hq3, ?Hattr by done; try apply Hsh; try done.
  - by etrans; [|apply Hsh].
  - etrans; [done|apply Hsh].
  - rewrite (moved_first _ _ l) by done. done.
Qed.

(** A coroutine in use moves between two lists. *)
Lemma move_used st L n i s :
  Scheduler.inv st L → Scheduler.counted st L → Scheduler.objs st !! n = Some i →
  Scheduler.status_ i ≠ s → Scheduler.status_ i ≠ CORO_FREE → s ≠ CORO_FREE →
  ∃ m, let i' := Scheduler.mk_info (Scheduler.uid_ i) s (Scheduler.callback_ i) in
       let st' := Scheduler.set_links m (Scheduler.set_obj n i' st) in
    Scheduler.moveTo n s st = Ok st' ∧
    Scheduler.inv st' (Scheduler.moved L n (Scheduler.status_ i) s) ∧
    Scheduler.counted st' (Scheduler.moved L n (Scheduler.status_ i) s).
Proof.
  intros Hinv [Hu Hc] Hi H1 H2 H3.
  destruct (Scheduler.inv_obj _ _ Hinv n i Hi) as (_ & _ & _ & Hcb).
  destruct (Scheduler.moveTo_spec st L n i s Hinv Hi H1) as (m & Hm & Hinv'); [left; by apply Hcb|].
  exists m. split; [done|]. split; [done|].
  assert (n ∈ L (Scheduler.status_ i)) as Hn by (apply (Scheduler.inv_status _ _ Hinv); eauto).
  destruct (Scheduler.moved_counts st L n _ s Hinv Hn H1) as [Htot Hus].
  split; cbn; rewrite ?Htot, ?Hus; [|done]. rewrite !Scheduler.same_eq, !decide_False by done. lia.
Qed.

(** The object of the first ready coroutine, which is on no other list. *)
Lemma first_ready st L n l p ps c ys :
  shape st L (mk c (p :: ps) ys) → L CORO_AVAIL = n :: l →
  ∃ id, Scheduler.objs st !! n = Some (Scheduler.mk_info id CORO_AVAIL (Some p)) ∧
    attr st Scheduler.callback_ l = (Some ∘ Some) <$> ps ∧ n ∉ l ∧ n ∉ L CORO_INACTIVE.
Proof.
  intros Hsh Ha. pose proof (sh_inv _ _ _ Hsh) as Hinv.
  destruct (proj1 (Scheduler.inv_status _ _ Hinv n CORO_AVAIL)) as ([id s cb] & Hi & Hs);
    [rewrite Ha; left|]. cbn in Hs. subst s.
  pose proof (sh_ready _ _ _ Hsh) as Hr. rewrite Ha in Hr. cbn in Hr. rewrite Hi in Hr.
  injection Hr as -> Hr. exists id. split; [done|]. split; [done|].
  pose proof (Scheduler.inv_nodup _ _ CORO_AVAIL Hinv) as Hnd. rewrite Ha in Hnd.
  apply NoDup_cons in Hnd as [Hn _]. split; [done|].
  intros (i & Hi' & Hs)%(Scheduler.inv_status _ _ Hinv). rewrite Hi in Hi'. by simplify_eq.
Qed.

Lemma yield_shape st L n l p ps ys c q :
  shape st L (mk c (p :: ps) ys) → need st L → L CORO_AVAIL = n :: l →
  ∃ st' L', (st ← Scheduler.registerFunc q n st; Scheduler.yield true n st) = Ok st' ∧
    shape st' L' (mk c ps (ys ++ [q])) ∧ need st' L'.
Proof.
  intros Hsh Hneed Ha. pose proof (sh_inv _ _ _ Hsh) as Hinv.
  destruct (first_ready _ _ _ _ _ _ _ _ Hsh Ha) as (id & Hi & Hr & Hnl & Hni).
  unfold Scheduler.registerFunc, Scheduler.info. rewrite Hi. cbn [deref mbind outcome_bind].
  cbn [Scheduler.uid_ Scheduler.status_]. set (i1 := Scheduler.mk_info id CORO_AVAIL (Some q)).
  set (st1 := Scheduler.set_obj n i1 st).
  assert (Scheduler.objs st1 !! n = Some i1) as Hi1 by (by apply lookup_insert_eq).
  assert (Scheduler.inv st1 L) as Hinv1 by exact (Scheduler.inv_callback st L n _ q Hinv Hi).
  set (st2 := Scheduler.set_queues (Scheduler.activeCoroQueue_ st1)
    (Scheduler.needActiveCoroId_ st1 ++ [id]) (Scheduler.timeoutCoroId_ st1) st1).
  assert (Scheduler.inv st2 L) as Hinv2.
  { apply (Scheduler.inv_same st1); try done. intros id' Hid'. cbn in Hid'.
    rewrite !elem_of_app, list_elem_of_singleton in Hid'.
    assert (id' = id ∨ Scheduler.known st1 id') as [->|]; [|split|done].
    - destruct Hid' as [?|[[?| ->]|?]]; [right|right|by left|right];
        apply (Scheduler.inv_queues _ _ Hinv1); rewrite !elem_of_app; tauto.
    - destruct (Scheduler.inv_obj _ _ Hinv1 n i1 Hi1) as (_ & Hu & _). cbn in Hu. lia.
    - exists n. destruct (Scheduler.inv_obj _ _ Hinv1 n i1 Hi1) as (Hu & _). done. }
  destruct (move_used st2 L n i1 CORO_INACTIVE Hinv2) as (m & Hm & Hinv3 & Hct3); try done.
  { destruct (sh_counted _ _ _ Hsh). done. }
  unfold Scheduler.yield, Scheduler.info. rewrite Hi1. cbn [deref mbind outcome_bind].
  unfold Scheduler.putbyself. cbn [Scheduler.terminal_ st1 Scheduler.set_obj].
  rewrite (sh_running _ _ _ Hsh). change (Scheduler.uid_ i1) with id. fold st1. fold st2.
  unfold Scheduler.moveToInactive, Scheduler.info. change (Scheduler.objs st2) with (Scheduler.objs st1).
  rewrite Hi1. cbn [deref mbind outcome_bind i1 Scheduler.status_].
  change (Scheduler.status_ i1) with CORO_AVAIL in *. rewrite Hm.
  set (st3 := Scheduler.set_links m _) in *. set (L' := Scheduler.moved L n CORO_AVAIL CORO_INACTIVE) in *.
  exists st3, L'. split; [done|].
  assert (∀ A (f : Scheduler.CoroutineInfo Prog → A) l', n ∉ l' → attr st3 f l' = attr st f l') as Hattr.
  { intros A f l' Hn. apply attr_ext. intros n' Hn'. cbn. by rewrite !lookup_insert_ne by (by intros ->). }
  assert (Scheduler.objs st3 !! n = Some (Scheduler.mk_info id CORO_INACTIVE (Some q))) as Hi3
    by (by apply lookup_insert_eq).
  split; [split|]; cbn [capacity ready yielded]; try done; try apply Hsh;
    unfold need, L'; rewrite ?moved_target, ?attr_app, ?fmap_app, ?moved_other by done; try apply Hsh.
  - rewrite (moved_first _ _ l), Hattr by done. done.
  - rewrite Hattr by done. f_equal; [apply Hsh|]. by rewrite attr_one, Hi3.
  - cbn [Scheduler.needActiveCoroId_ st3 Scheduler.set_links Scheduler.set_obj st2 Scheduler.set_queues].
    rewrite Hattr, fmap_app by done. f_equal; [apply Hneed|]. by rewrite attr_one, Hi3.
Qed.

(** What is left of the lists when a turn is over. *)
Definition agree (x : Scheduler.t Prog * W) (y : t Prog * W) : Prop := x.2 = y.2 ∧ models x.1 y.1.

Lemma turn_refines st L n l p ps ys c w :
  shape st L (mk c (p :: ps) ys) → need st L → L CORO_AVAIL = n :: l →
  outcome_rel agree (Scheduler.switchCoro resume alloc_ok n st w) (turn work p (mk c (p :: ps) ys) w).
Proof.
  intros Hsh Hneed Ha. destruct (first_ready _ _ _ _ _ _ _ _ Hsh Ha) as (id & Hi & _).
  unfold Scheduler.switchCoro, turn, Scheduler.info. cbn [Scheduler.objs Scheduler.set_current].
  rewrite Hi. cbn [deref mbind outcome_bind Scheduler.callback_].
  rewrite resume_work by apply Hsh. unfold yielding.
  destruct (work p w) as [[[created next] w1]| | | |]; cbn [mbind outcome_bind]; try done.
  destruct (create_all_shape created (Scheduler.set_current (Some n) st) L _ (shape_current _ _ _ _ Hsh) Hneed)
    as (st1 & L1 & ext & -> & Hsh1 & Hneed1 & _ & Ha1).
  cbn [mbind outcome_bind]. rewrite Ha in Ha1. cbn [app] in Ha1.
  destruct (create_all_ready created (mk c (p :: ps) ys) p ps eq_refl) as (l' & Hrd & Hyd).
  destruct (create_all created _) as [c1 rd yd] eqn:Hr. cbn [ready yielded capacity tail] in *. subst rd yd.
  destruct next as [q|].
  - destruct (yield_shape st1 L1 n _ p l' ys c1 q Hsh1 Hneed1 Ha1) as (st2 & L2 & Hy & Hsh2 & Hneed2).
    apply bind_Ok in Hy as (st3 & -> & Hy). cbn [mbind outcome_bind]. rewrite Hy.
    split; [done|]. exists L2. split; [by apply shape_current|done].
  - destruct (finish_shape st1 L1 n _ p l' ys c1 Hsh1 Hneed1 Ha1) as (st2 & L2 & -> & Hsh2 & Hneed2).
    split; [done|]. exists L2. cbn [option_list]. rewrite app_nil_r. split; [by apply shape_current|done].
Qed.

Lemma turns_refine k : ∀ st r w,
  models st r →
  outcome_rel agree (Scheduler.run_list resume alloc_ok k CORO_AVAIL st w) (turns work k r w).
Proof.
  induction k as [|k IH]; intros st r w Hm; [by destruct r|]. pose proof Hm as (L & Hsh & Hneed).
  cbn [Scheduler.run_list turns]. pose proof (Scheduler.inv_circ _ _ (sh_inv _ _ _ Hsh) CORO_AVAIL) as Hcirc.
  rewrite (circ_empty _ _ _ Hcirc), (circ_next _ _ _ Hcirc).
  pose proof (f_equal length (sh_ready _ _ _ Hsh)) as Hlen. rewrite attr_length, length_fmap in Hlen.
  destruct r as [c [|p ps] ys]; cbn [ready] in *; destruct (L CORO_AVAIL) as [|n l] eqn:Ha; try done.
  rewrite bool_decide_false by done. cbn [fmap list_fmap app head Scheduler.object mbind outcome_bind].
  pose proof (turn_refines st L n l p ps ys c w Hsh Hneed Ha) as Ht.
  destruct (Scheduler.switchCoro _ _ _ _ _) as [[st1 w1]| | | |], (turn _ _ _ _) as [[r1 w2]| | | |];
    try done.
  destruct Ht as [Hw Hm1]. cbn in Hw, Hm1. subst w2. cbn [mbind outcome_bind]. by apply IH.
Qed.

(** *** A pass *)

(** The first of the coroutines that have yielded becomes ready. *)
Lemma wake_one_shape st L c ps p ys n l id :
  shape st L (mk c ps (p :: ys)) → L CORO_INACTIVE = n :: l →
  Scheduler.uid_ <$> Scheduler.objs st !! n = Some id →
  ∃ st' L', (n ← Scheduler.coro_at id st; Scheduler.moveToAvail n st) = Ok st' ∧
    shape st' L' (mk c (ps ++ [p]) ys) ∧ L' CORO_INACTIVE = l ∧
    (∀ l', attr st' Scheduler.uid_ l' = attr st Scheduler.uid_ l') ∧
    Scheduler.needActiveCoroId_ st' = Scheduler.needActiveCoroId_ st.
Proof.
  intros Hsh Hl Hid. pose proof (sh_inv _ _ _ Hsh) as Hinv.
  destruct (proj1 (Scheduler.inv_status _ _ Hinv n CORO_INACTIVE)) as (i & Hi & Hs); [rewrite Hl; left|].
  rewrite Hi in Hid. injection Hid as <-. rewrite (Scheduler.inv_coro_at st L n i Hinv Hi).
  cbn [mbind outcome_bind]. unfold Scheduler.moveToAvail, Scheduler.info. rewrite Hi.
  cbn [deref mbind outcome_bind].
  destruct (move_used st L n i CORO_AVAIL Hinv (sh_counted _ _ _ Hsh) Hi)
    as (m & Hm & Hinv' & Hct'); try by rewrite ?Hs.
  rewrite Hs in Hinv', Hct'. rewrite Hs, Hm.
  set (st' := Scheduler.set_links m _) in *.
  set (L' := Scheduler.moved L n CORO_INACTIVE CORO_AVAIL) in *.
  exists st', L'. split; [done|].
  assert (∀ A (f : Scheduler.CoroutineInfo Prog → A) l',
    f (Scheduler.mk_info (Scheduler.uid_ i) CORO_AVAIL (Scheduler.callback_ i)) = f i →
    attr st' f l' = attr st f l') as Hattr by (intros; by eapply attr_moved).
  pose proof (Scheduler.inv_nodup _ _ CORO_INACTIVE Hinv) as Hnd. rewrite Hl in Hnd.
  assert (L' CORO_INACTIVE = l) as Hl'.
  { unfold L', Scheduler.moved. rewrite decide_False, decide_True by done. rewrite Hl.
    apply (Scheduler.filter_split [] l n Hnd). }
  pose proof (sh_yielded _ _ _ Hsh) as Hy. rewrite Hl in Hy.
  change (n :: l) with ([n] ++ l) in Hy. rewrite attr_app, attr_one in Hy.
  cbn [app fmap list_fmap yielded] in Hy. injection Hy as Hp Hy.
  split; [split|split; [done|split; [|done]]]; cbn [capacity ready yielded]; try done; try apply Hsh.
  - rewrite Hattr by done. unfold L'. rewrite moved_target, attr_app, fmap_app. f_equal; [apply Hsh|].
    by rewrite attr_one, Hp.
  - rewrite Hattr, Hl' by done. exact Hy.
  - intros l'. by apply Hattr.
Qed.

Lemma wake_all_shape ids : ∀ st L c ps ys,
  shape st L (mk c ps ys) → attr st Scheduler.uid_ (L CORO_INACTIVE) = Some <$> ids →
  ∃ st' L', Scheduler.wake_all Scheduler.moveToAvail ids st = Ok st' ∧
    shape st' L' (mk c (ps ++ ys) []) ∧
    Scheduler.needActiveCoroId_ st' = Scheduler.needActiveCoroId_ st.
Proof.
  induction ids as [|id ids IH]; intros st L c ps ys Hsh Hids.
  - assert (ys = []) as ->.
    { pose proof (sh_yielded _ _ _ Hsh) as Hy. cbn [yielded] in Hy.
      destruct (L CORO_INACTIVE); [|done]. by destruct ys. }
    exists st, L. by rewrite app_nil_r.
  - destruct (L CORO_INACTIVE) as [|n l] eqn:Hl; [done|].
    pose proof (sh_yielded _ _ _ Hsh) as Hy. rewrite Hl in Hy. destruct ys as [|p ys]; [done|].
    cbn in Hids. injection Hids as Hid Hids.
    destruct (wake_one_shape st L c ps p ys n l id Hsh Hl Hid) as (st1 & L1 & Hw & Hsh1 & Hl1 & Ha1 & Hn1).
    cbn [Scheduler.wake_all]. apply bind_Ok in Hw as (n' & -> & Hw). cbn [mbind outcome_bind].
    rewrite Hw. cbn [mbind outcome_bind].
    destruct (IH st1 L1 c (ps ++ [p]) ys Hsh1) as (st2 & L2 & Hw2 & Hsh2 & Hn2).
    { rewrite Hl1, Ha1. exact Hids. }
    exists st2, L2. split; [done|]. rewrite <- app_assoc in Hsh2. split; [done|congruence].
Qed.

Lemma wakeupbyself_models st r :
  models st r → ∃ st', Scheduler.wakeupbyself st = Ok st' ∧ models st' (wake r).
Proof.
  intros (L & Hsh & Hneed). unfold Scheduler.wakeupbyself. rewrite (sh_running _ _ _ Hsh).
  destruct r as [c ps ys].
  destruct (wake_all_shape (Scheduler.needActiveCoroId_ st) st L c ps ys Hsh Hneed)
    as (st1 & L1 & -> & Hsh1 & _).
  cbn [mbind outcome_bind]. eexists. split; [done|]. exists L1. split.
  - destruct Hsh1 as [Hinv1 [??]]. split; try done.
    apply (Scheduler.inv_same st1); try done. intros id Hid. apply (Scheduler.inv_queues _ _ Hinv1).
    cbn in Hid. rewrite !elem_of_app in *. tauto.
  - unfold need. pose proof (sh_yielded _ _ _ Hsh1) as Hy. cbn [yielded fmap list_fmap] in Hy.
    apply (f_equal length) in Hy. rewrite attr_length in Hy.
    by destruct (L1 CORO_INACTIVE).
Qed.

Lemma pass_refines now st r w :
  models st r → outcome_rel agree (Scheduler.tars_run resume alloc_ok now st w) (pass work r w).
Proof.
  intros Hm. pose proof Hm as (L & Hsh & _). unfold Scheduler.tars_run, Scheduler.wakeupbytimeout.
  rewrite (sh_running _ _ _ Hsh), (sh_times _ _ _ Hsh). cbn [Scheduler.timeout_loop mbind outcome_bind].
  assert (Scheduler.set_queues (Scheduler.activeCoroQueue_ st) (Scheduler.needActiveCoroId_ st) [] st = st)
    as -> by (destruct st, Hsh; cbn in *; by subst).
  destruct (wakeupbyself_models st r Hm) as (st1 & -> & Hm1). cbn [mbind outcome_bind].
  pose proof Hm1 as (L1 & Hsh1 & _). unfold Scheduler.wakeup.
  rewrite (sh_running _ _ _ Hsh1), (sh_queue _ _ _ Hsh1). cbn [Scheduler.wake_all mbind outcome_bind].
  assert (Scheduler.set_queues [] (Scheduler.needActiveCoroId_ st1) (Scheduler.timeoutCoroId_ st1) st1 = st1)
    as -> by (destruct st1, Hsh1; cbn in *; by subst).
  assert (∀ k, Scheduler.run_list resume alloc_ok k CORO_ACTIVE st1 w = Ok (st1, w)) as ->.
  { intros [|k]; [done|]. cbn [Scheduler.run_list].
    by rewrite (circ_empty _ _ _ (Scheduler.inv_circ _ _ (sh_inv _ _ _ Hsh1) CORO_ACTIVE)),
      (sh_active _ _ _ Hsh1). }
  cbn [mbind outcome_bind]. by apply turns_refine.
Qed.

(** *** Calls *)

(** The operations of the specification, by the scheduler. *)
Definition sched_step (o : op) (s : Scheduler.t Prog * W) : outcome (bool * (Scheduler.t Prog * W)) :=
  let '(st, w) := s in
  match o with
  | OCreate p => '(id, st) ← Scheduler.createCoroutine alloc_ok p st; Ok (bool_decide (id ≠ 0), (st, w))
  | OPass now => s ← Scheduler.tars_run resume alloc_ok now st w; Ok (true, s)
  end.

Lemma step_refines o s1 s2 :
  agree s1 s2 → outcome_rel (obs_rel agree) (sched_step o s1) (step work o s2).
Proof.
  destruct s1 as [st w], s2 as [r w2]. intros [Hw Hm]. cbn in Hw, Hm. subst w2.
  destruct o as [p|now]; cbn [sched_step step].
  - destruct Hm as (L & Hsh & Hneed).
    destruct (create_shape p st L r Hsh Hneed) as (id & st' & L' & _ & -> & Hb & Hsh' & Hneed' & _).
    destruct (create p r) as [b r']. split; [done|]. split; [done|]. by exists L'.
  - pose proof (pass_refines now st r w Hm) as Hp.
    destruct (Scheduler.tars_run _ _ _ _ _), (pass _ _ _); cbn [mbind outcome_bind]; try done.
Qed.

Lemma init_models poolSize :
  0 < poolSize < 2 ^ 32 - 1 →
  ∃ st0, Scheduler.init alloc_ok poolSize Scheduler.new = Ok st0 ∧ models st0 (mk poolSize [] []).
Proof.
  intros Hp. destruct (Scheduler.init_lists (Prog := Prog) alloc_ok alloc_total poolSize Hp)
    as (st0 & l & Hi & Hinv & Hct & Ht & Hps & Hq & Hn & Htime).
  exists st0. split; [done|]. exists (Scheduler.with_free (λ _, []) l). split; [by split|].
  unfold need. by rewrite Hn.
Qed.

(** C16: for coroutines that yield or end, and while every stack is granted that the
    scheduler asks for ([alloc_total]), the scheduler is the queue of the
    specification: over any sequence of creations and passes of [tars_run] both
    report the same creations as failed (those for which the pool has no room),
    do the same to the rest of the program in the same order, and if a coroutine
    crashes they do so alike.  (When a stack is refused, a creation fails although
    there is room, and the next one aborts: [Scheduler.failed_allocation_aborts_next].) *)
Theorem scheduler_is_round_robin poolSize ops w (Hp : 0 < poolSize < 2 ^ 32 - 1) :
  ∃ st0, Scheduler.init alloc_ok poolSize Scheduler.new = Ok st0 ∧
    outcome_rel (obs_rel agree) (run_ops sched_step ops (st0, w))
                (run_ops (step work) ops (mk poolSize [] [], w)).
Proof.
  destruct (init_models poolSize Hp) as (st0 & Hi & Hm). exists st0. split; [done|].
  apply (run_ops_refines agree (λ _ _, True)); [|done|apply admissible_all].
  intros op s1 s2 Ha _. by apply step_refines.
Qed.

End implementation.

(** ** Two counters *)

(** A coroutine writes its number and yields until it is at 0; 9 creates another. *)
Definition count (p : nat) (w : list nat) : outcome (list nat * option nat * list nat) :=
  Ok (if decide (p = 9%nat) then [2%nat] else [],
      match p with O => None | S p => Some p end, w ++ [p]).

Definition count_resume (st : Scheduler.t nat) (p : nat) (w : list nat) := yielding count p w.

Lemma scheduler_is_round_robin_witness :
  ∃ st0, Scheduler.init Scheduler.granted 2 Scheduler.new = Ok st0 ∧
    outcome_rel (obs_rel agree)
      (run_ops (sched_step count_resume Scheduler.granted)
         [OCreate 9%nat; OCreate 1%nat; OCreate 5%nat; OPass 0; OPass 0; OPass 0] (st0, []))
      (Ok ([true; true; false; true; true; true],
           (mk 2 [] [6%nat], [9; 1; 8; 0; 7]%nat))).
Proof.
  assert (0 < 2 < 2 ^ 32 - 1) as Hp by lia.
  destruct (scheduler_is_round_robin count count_resume Scheduler.granted (λ _, eq_refl)
    (λ _ _ _ _, eq_refl) 2 [OCreate 9%nat; OCreate 1%nat; OCreate 5%nat; OPass 0; OPass 0; OPass 0]
    [] Hp) as (st0 & Hi & H).
  exists st0. split; [exact Hi|]. exact H.
Defined.

End RoundRobin.
