(* ===== verification/NetThread.v ===== *)
(** * NetThread: the server's network thread, NetThread.h, NetThread.cc

    The thread accepts connections, cuts what clients send into requests for
    the handler threads, and writes the responses that those threads queue.
    Connections are shared objects: [conns] holds the ones that are alive and
    [connectionUids_] maps an id to a handle, null included.  Adapters and
    their groups are shared with other components ([Shared]).  The results of
    [accept], [read] and [send] are arguments; [sent] records what was passed
    to [::send] and on which descriptor. *)

From S2P Require Import Prelude ByteQueue Buffer Monitor ThreadDeque Wire.
From S2P Require Import Message Connection Epoller BindAdapter.

Module NetThread.
Import Epoller.

Abbreviation utagSendData := (option SendData.tagSendData).
Abbreviation utagRecvData := BindAdapter.utagRecvData.

(** The objects a network thread shares with the rest of the server. *)
Record Shared := mk_shared {
  adapters : gmap nat BindAdapter.t;
  groups : BindAdapter.groups
}.

Record t (B : Type) := mk {
  epoller_ : Epoller.t;
  shutdownSock_ : Z;
  notifySocket_ : Z;
  listenSocket_ : Z;
  connectionUids_ : gmap Z handle;
  free_ : list Z;
  freeSize_ : Z;
  sendBuffer_ : ThreadDeque.t utagSendData;
  listeners_ : gmap Z handle;
  terminate_ : bool;
  conns : gmap nat (Connection.t B);
  fresh : nat;
  sent : list (Z * bytes);
  shared : Shared
}.
Arguments mk {B}.
Arguments epoller_ {B}.
Arguments shutdownSock_ {B}.
Arguments notifySocket_ {B}.
Arguments listenSocket_ {B}.
Arguments connectionUids_ {B}.
Arguments free_ {B}.
Arguments freeSize_ {B}.
Arguments sendBuffer_ {B}.
Arguments listeners_ {B}.
Arguments terminate_ {B}.
Arguments conns {B}.
Arguments fresh {B}.
Arguments sent {B}.
Arguments shared {B}.

Definition ET_NET : Z := 0.
Definition ET_LISTEN : Z := 1.
Definition ET_CLOSE : Z := 2.
Definition ET_NOTIFY : Z := 3.

(** [H64(x)]. *)
Definition H64 (x : Z) : Z := Z.shiftl x 32.

(** What [::accept] answers: the descriptor and the peer, or -1 and whether
    [errno] is [EAGAIN]. *)
Record accept_result := mk_accept {
  acc_ret : Z;
  acc_ip : bytes;
  acc_port : Z;
  acc_eagain : bool
}.

Section operations.
Context {B : Type} `{ByteQueue B}.
Implicit Types (st : t B) (c : Connection.t B).

Definition set_epoller (e : Epoller.t) st : t B :=
  mk e (shutdownSock_ st) (notifySocket_ st) (listenSocket_ st) (connectionUids_ st) (free_ st)
     (freeSize_ st) (sendBuffer_ st) (listeners_ st) (terminate_ st) (conns st) (fresh st)
     (sent st) (shared st).
Definition set_uids (m : gmap Z handle) st : t B :=
  mk (epoller_ st) (shutdownSock_ st) (notifySocket_ st) (listenSocket_ st) m (free_ st)
     (freeSize_ st) (sendBuffer_ st) (listeners_ st) (terminate_ st) (conns st) (fresh st)
     (sent st) (shared st).
Definition set_free (l : list Z) (n : Z) st : t B :=
  mk (epoller_ st) (shutdownSock_ st) (notifySocket_ st) (listenSocket_ st) (connectionUids_ st) l
     n (sendBuffer_ st) (listeners_ st) (terminate_ st) (conns st) (fresh st)
     (sent st) (shared st).
Definition set_sendBuffer (d : ThreadDeque.t utagSendData) st : t B :=
  mk (epoller_ st) (shutdownSock_ st) (notifySocket_ st) (listenSocket_ st) (connectionUids_ st)
     (free_ st) (freeSize_ st) d (listeners_ st) (terminate_ st) (conns st) (fresh st)
     (sent st) (shared st).
Definition set_listeners (m : gmap Z handle) st : t B :=
  mk (epoller_ st) (shutdownSock_ st) (notifySocket_ st) (listenSocket_ st) (connectionUids_ st)
     (free_ st) (freeSize_ st) (sendBuffer_ st) m (terminate_ st) (conns st) (fresh st)
     (sent st) (shared st).
Definition set_conns (m : gmap nat (Connection.t B)) (n : nat) st : t B :=
  mk (epoller_ st) (shutdownSock_ st) (notifySocket_ st) (listenSocket_ st) (connectionUids_ st)
     (free_ st) (freeSize_ st) (sendBuffer_ st) (listeners_ st) (terminate_ st) m n
     (sent st) (shared st).
Definition set_sent (l : list (Z * bytes)) st : t B :=
  mk (epoller_ st) (shutdownSock_ st) (notifySocket_ st) (listenSocket_ st) (connectionUids_ st)
     (free_ st) (freeSize_ st) (sendBuffer_ st) (listeners_ st) (terminate_ st) (conns st)
     (fresh st) l (shared st).
Definition set_shared (s : Shared) st : t B :=
  mk (epoller_ st) (shutdownSock_ st) (notifySocket_ st) (listenSocket_ st) (connectionUids_ st)
     (free_ st) (freeSize_ st) (sendBuffer_ st) (listeners_ st) (terminate_ st) (conns st)
     (fresh st) (sent st) s.
Definition set_terminate (b : bool) st : t B :=
  mk (epoller_ st) (shutdownSock_ st) (notifySocket_ st) (listenSocket_ st) (connectionUids_ st)
     (free_ st) (freeSize_ st) (sendBuffer_ st) (listeners_ st) b (conns st) (fresh st)
     (sent st) (shared st).

(** The constructor: two sockets of its own; [listenSocket_] stays invalid and
    [freeSize_] has no initial value. *)
Definition new (shutdown notify garbage : Z) (sh : Shared) : t B :=
  mk (Epoller.new true) shutdown notify (-1) ∅ [] garbage ThreadDeque.init ∅ false ∅ 0 [] sh.

Definition createEpoll (number : Z) st : t B :=
  let e := Epoller.create number (epoller_ st) in
  let e := Epoller.add (shutdownSock_ st) (H64 ET_CLOSE) EPOLLIN e in
  let e := Epoller.add (notifySocket_ st) (H64 ET_NOTIFY) EPOLLIN e in
  let e := Epoller.add (listenSocket_ st)
             (Z.lor (H64 ET_LISTEN) (u64 (listenSocket_ st))) EPOLLIN e in
  let e := foldl (λ e l, Epoller.add l.1 (Z.lor (H64 ET_LISTEN) (u64 l.1)) EPOLLIN e) e
             (map_to_list (listeners_ st)) in
  set_free (free_ st ++ seqZ 1 2000) (u64 (freeSize_ st + 2000)) (set_epoller e st).

(** [bind(bind_adapter)] with the descriptor its socket gets. *)
Definition bind (bind_adapter : nat) (fd : Z) st : outcome (Z * t B) :=
  a ← deref (adapters (shared st) !! bind_adapter);
  let a := BindAdapter.set_fd fd a in
  let st := set_shared (mk_shared (<[bind_adapter := a]> (adapters (shared st)))
                                  (groups (shared st))) st in
  Ok (fd, set_listeners (<[fd := Some bind_adapter]> (listeners_ st)) st).

(** [adapter->insertRecvDeque(deque, pushback)]. *)
Definition insertRecvDeque (adapter : handle) (deque : list utagRecvData) st : outcome (t B) :=
  n ← deref adapter;
  a ← deref (adapters (shared st) !! n);
  '(_, a, gs) ← BindAdapter.insertRecvDeque deque true a (groups (shared st));
  Ok (set_shared (mk_shared (<[n := a]> (adapters (shared st))) gs) st).

Definition conn (h : handle) st : outcome (nat * Connection.t B) :=
  n ← deref h;
  c ← deref (conns st !! n);
  Ok (n, c).

Definition put_conn (n : nat) c st : t B := set_conns (<[n := c]> (conns st)) (fresh st) st.

Definition addTConnection (connection : nat) st : outcome (t B) :=
  uid ← deref (head (free_ st));
  '(_, c) ← conn (Some connection) st;
  let c := Connection.init uid c in
  let st := put_conn connection c st in
  let st := set_free (tail (free_ st)) (u64 (freeSize_ st - 1)) st in
  let st := set_uids (<[i32 uid := Some connection]> (connectionUids_ st)) st in
  Ok (set_epoller (Epoller.add (Connection.fd_ c) (Connection.uid_ c) EPOLLIN (epoller_ st)) st).

(** [listeners_[listenfd]] and [connectionUids_[uid]]: a key that is not there
    is inserted with a null pointer. *)
Definition listener (listenfd : Z) st : handle * t B :=
  match listeners_ st !! listenfd with
  | Some a => (a, st)
  | None => (None, set_listeners (<[listenfd := None]> (listeners_ st)) st)
  end.

Definition lookup_uid (uid : Z) st : handle * t B :=
  match connectionUids_ st !! i32 uid with
  | Some h => (h, st)
  | None => (None, set_uids (<[i32 uid := None]> (connectionUids_ st)) st)
  end.

(** [garbage] is the value the new connection's [close_] happens to have. *)
Definition accept (listenfd : Z) (garbage : bool) (r : accept_result) st : outcome (bool * t B) :=
  if 0 <? acc_ret r then
    let '(adapter, st) := listener listenfd st in
    c ← Connection.new garbage adapter listenfd (acc_ret r) (acc_ip r) (acc_port r);
    let connection := fresh st in
    st ← addTConnection connection (set_conns (<[connection := c]> (conns st)) (S connection) st);
    Ok (true, st)
  else Ok (negb (acc_eagain r), st).

(** The [shared_ptr] [h] of a function that returns: the connection is
    destroyed when no entry of [connectionUids_] points to it. *)
Definition release (h : handle) st : outcome (t B) :=
  match h with
  | None => Ok st
  | Some n =>
      if bool_decide (map_Exists (λ _ h', h' = Some n) (connectionUids_ st)) then Ok st
      else
        c ← deref (conns st !! n);
        _ ← Connection.destroy c;
        Ok (set_conns (delete n (conns st)) (fresh st) st)
  end.

Definition close_msg c (closeType : EM_CLOSE_T) : RecvData.tagRecvData :=
  RecvData.mk (Connection.uid_ c) [] (Connection.ip_ c) (Connection.port_ c) 0 false true
              (Connection.fd_ c) None (close_type closeType).

Definition delConnection (h : handle) (closeType : EM_CLOSE_T) st : outcome (t B) :=
  '(n, c) ← conn h st;
  if negb (Connection.listenfd_ c =? -1) then
    let uid := Connection.uid_ c in
    st ← insertRecvDeque (Connection.bindAdapter_ c) [Some (close_msg c closeType)] st;
    let st := set_epoller (Epoller.del (Connection.fd_ c) uid 0 (epoller_ st)) st in
    let st := put_conn n (Connection.close c) st in
    Ok (set_uids (delete (i32 uid) (connectionUids_ st)) st)
  else Ok st.

Definition conRecv (h : handle) (reads : list Connection.read_result) st
    : outcome (Z * list RecvData.tagRecvData * t B) :=
  '(n, c) ← conn h st;
  '(ret, msgs, c) ← Connection.recv reads c;
  Ok (ret, msgs, put_conn n c st).

(** [conSend(connection, buffer, ip, port)]; nothing is passed to [::send] when
    [buffer] is empty. *)
Definition conSend (maxIOVcount : nat) (h : handle) (env : list Connection.send_result)
    (buffer : bytes) st : outcome (Z * t B) :=
  '(n, c) ← conn h st;
  '(ret, c) ← Connection.send_buffer maxIOVcount env buffer false c;
  let st := put_conn n c st in
  Ok (ret, if bool_decide (buffer = []) then st
           else set_sent (sent st ++ [(Connection.fd_ c, buffer)]) st).

(** [conSend(connection)]. *)
Definition conSend_rest (maxIOVcount : nat) (h : handle) (env : list Connection.send_result) st
    : outcome (Z * t B) :=
  '(n, c) ← conn h st;
  '(ret, c) ← Connection.send maxIOVcount env c;
  Ok (ret, put_conn n c st).

Definition processNet (maxIOVcount : nat) (ev : epoll_event)
    (reads : list Connection.read_result) (env : list Connection.send_result) st
    : outcome (t B) :=
  let '(connection, st) := lookup_uid (u32 (data ev)) st in
  if has (events ev) EPOLLERR || has (events ev) EPOLLHUP then
    st ← delConnection connection EM_SERVER_CLOSE st;
    release connection st
  else
    st ← (if has (events ev) EPOLLIN then
            '(ret, recv_deque, st) ← conRecv connection reads st;
            st ← (if ret <? 0 then delConnection connection EM_CLIENT_CLOSE st else Ok st);
            if bool_decide (recv_deque = []) then Ok st
            else
              '(_, c) ← conn connection st;
              insertRecvDeque (Connection.bindAdapter_ c) (Some <$> recv_deque) st
          else Ok st);
    st ← (if has (events ev) EPOLLOUT then
            '(_, st) ← conSend_rest maxIOVcount connection env st; Ok st
          else Ok st);
    release connection st.

(** The body of the loop of [processPipe]. *)
Definition pipe_one (maxIOVcount : nat) (m : utagSendData) (env : list Connection.send_result) st
    : outcome (t B) :=
  send_msg ← deref m;
  if Ascii.eqb (SendData.cmd send_msg) "s" then
    let '(connection, st) := lookup_uid (SendData.uid send_msg) st in
    '(_, st) ← conSend maxIOVcount connection env (SendData.buffer send_msg) st;
    release connection st
  else if Ascii.eqb (SendData.cmd send_msg) "c" then
    let '(connection, st) := lookup_uid (SendData.uid send_msg) st in
    match connection with
    | None => Ok st
    | Some _ =>
        '(n, c) ← conn connection st;
        let '(nothing_left, c) := Connection.set_close c in
        let st := put_conn n c st in
        st ← (if nothing_left : bool then delConnection connection EM_SERVER_CLOSE st else Ok st);
        release connection st
    end
  else Assert.

(** [envs] has, for each message, what the calls of [send] give. *)
Fixpoint pipe_loop (maxIOVcount : nat) (deque : list utagSendData)
    (envs : list (list Connection.send_result)) st : outcome (t B) :=
  match deque with
  | [] => Ok st
  | m :: deque =>
      st ← pipe_one maxIOVcount m (default [] (head envs)) st;
      pipe_loop maxIOVcount deque (tail envs) st
  end.

Definition processPipe (maxIOVcount : nat) (envs : list (list Connection.send_result)) st
    : outcome (t B) :=
  let '(_, send_deque, d) := ThreadDeque.swap [] 0 false id (sendBuffer_ st) in
  pipe_loop maxIOVcount send_deque envs (set_sendBuffer d st).

(** Called by the handler threads. *)
Definition recvNeedToSendFromServer (uid : Z) (msg ip : bytes) (port : Z) st : outcome (t B) :=
  if terminate_ st then Ok st
  else
    '(_, d) ← ThreadDeque.push_back (Some (SendData.mk "s" uid msg ip port)) (sendBuffer_ st);
    let st := set_sendBuffer d st in
    Ok (set_epoller (Epoller.mod_ (notifySocket_ st) (H64 ET_NOTIFY) EPOLLOUT (epoller_ st)) st).

Definition close (uid : Z) st : outcome (t B) :=
  '(_, d) ← ThreadDeque.push_back (Some (SendData.mk "c" uid [] [] 0)) (sendBuffer_ st);
  let st := set_sendBuffer d st in
  Ok (set_epoller (Epoller.mod_ (notifySocket_ st) (H64 ET_NOTIFY) EPOLLOUT (epoller_ st)) st).

Definition terminate st : t B :=
  let st := set_terminate true st in
  let st := set_sendBuffer (ThreadDeque.notifyT (sendBuffer_ st)) st in
  let e := Epoller.mod_ (shutdownSock_ st) (H64 ET_CLOSE) EPOLLOUT (epoller_ st) in
  set_epoller (foldl (λ e l, Epoller.mod_ l.1 (H64 ET_CLOSE) EPOLLOUT e) e
                 (map_to_list (listeners_ st))) st.

(** The loop on a listening socket; when the list is used up, nobody else
    wants to connect and [accept] answers [EAGAIN]. *)
Fixpoint accept_loop (listenfd : Z) (garbage : bool) (rs : list accept_result) st
    : outcome (t B) :=
  match rs with
  | [] => Ok st
  | r :: rs =>
      '(ret, st) ← accept listenfd garbage r st;
      if ret : bool then accept_loop listenfd garbage rs st else Ok st
  end.

(** What the system calls give while one event is handled. *)
Record environment := mk_env {
  env_accept : list accept_result;
  env_garbage : bool;
  env_read : list Connection.read_result;
  env_send : list Connection.send_result;
  env_pipe : list (list Connection.send_result)
}.

(** The body of the loop of [run] over the events. *)
Definition dispatch (maxIOVcount : nat) (ev : epoll_event) (env : environment) st
    : outcome (t B) :=
  let h := u32 (Z.shiftr (data ev) 32) in
  if h =? ET_LISTEN then
    if has (events ev) EPOLLIN
    then accept_loop (i32 (data ev)) (env_garbage env) (env_accept env) st
    else Ok st
  else if h =? ET_CLOSE then Ok st
  else if h =? ET_NOTIFY then processPipe maxIOVcount (env_pipe env) st
  else if h =? ET_NET then processNet maxIOVcount ev (env_read env) (env_send env) st
  else Ok st.

Fixpoint run_events (maxIOVcount : nat) (evs : list (epoll_event * environment)) st
    : outcome (t B) :=
  match evs with
  | [] => Ok st
  | (ev, env) :: evs => st ← dispatch maxIOVcount ev env st; run_events maxIOVcount evs st
  end.

(** [run] with the events of each call of [epoll_wait]; [Spin] when it goes on. *)
Fixpoint run (maxIOVcount : nat) (waits : list (list (epoll_event * environment))) st
    : outcome (t B) :=
  if terminate_ st then Ok st
  else match waits with
       | [] => Spin
       | evs :: waits => st ← run_events maxIOVcount evs st; run maxIOVcount waits st
       end.

End operations.

(** ** The thread's connections and queues *)

Section invariant.
Context {B : Type} `{ByteQueue B}.
Implicit Types (st : t B) (c : Connection.t B).

(** The queue of adapter [a] holds the messages [l]. *)
Definition queue (m : gmap nat BindAdapter.t) (a : nat) (l : list utagRecvData) : Prop :=
  ∃ ad, m !! a = Some ad ∧ BindAdapter.waiting ad l.

(** The queue of adapter [a] has room for [n] more, and every adapter's has. *)
Definition room_at (n : Z) (m : gmap nat BindAdapter.t) (a : nat) : Prop :=
  ∀ l, queue m a l → zlen l + n ≤ 2 ^ 62.
Definition room (n : Z) (m : gmap nat BindAdapter.t) : Prop := ∀ a, room_at n m a.

(** A connection that is in use under [uid]. *)
Record conn_ok (m : gmap nat BindAdapter.t) (uid : Z) c : Prop := {
  conn_uid : Connection.uid_ c = uid;
  conn_listenfd : Connection.listenfd_ c ≠ -1;
  conn_fd : Connection.fd_ c ≠ -1;
  conn_slices : Connection.sendBuffer_ c = [];
  conn_adapter : ∃ a, Connection.bindAdapter_ c = Some a ∧ is_Some (m !! a)
}.

Definition live uid n c st : Prop :=
  connectionUids_ st !! uid = Some (Some n) ∧ conns st !! n = Some c.

(** What work for connection [uid] leaves alone: the other connections, the free
    ids and the listening sockets. *)
Record keeps uid st st' : Prop := {
  keeps_free : free_ st' = free_ st;
  keeps_listeners : listeners_ st' = listeners_ st;
  keeps_live u n c : u ≠ uid → live u n c st → live u n c st'
}.

Lemma keeps_trans uid st1 st2 st3 : keeps uid st1 st2 → keeps uid st2 st3 → keeps uid st1 st3.
Proof. intros [? ? ?] [? ? ?]. split; [congruence|congruence|auto]. Qed.

(** The same connections, free ids and listening sockets. *)
Record same_conns st st' : Prop := {
  same_free : free_ st' = free_ st;
  same_listeners : listeners_ st' = listeners_ st;
  same_uids : connectionUids_ st' = connectionUids_ st;
  same_objects : conns st' = conns st
}.

Lemma same_conns_refl st : same_conns st st.
Proof. done. Qed.

Lemma same_conns_trans st1 st2 st3 : same_conns st1 st2 → same_conns st2 st3 → same_conns st1 st3.
Proof. intros [] []. split; congruence. Qed.

Lemma same_conns_live st st' uid n c : same_conns st st' → live uid n c st → live uid n c st'.
Proof. intros [] []. split; congruence. Qed.

Lemma same_conns_keeps uid st st' : same_conns st st' → keeps uid st st'.
Proof. intros Hs. split; [apply Hs|apply Hs|]. intros u n c _. by apply same_conns_live. Qed.

(** The ids are handed out in order: [free_] is what is left of 1..2000, every
    id in use is below; the live connections are exactly those that
    [connectionUids_] points to, each under its own id. *)
Record ok st : Prop := {
  ok_free : free_ st = seqZ (2001 - zlen (free_ st)) (zlen (free_ st)) ∧ zlen (free_ st) ≤ 2000;
  ok_uid uid n : connectionUids_ st !! uid = Some (Some n) →
    1 ≤ uid < 2001 - zlen (free_ st) ∧ ∃ c, conns st !! n = Some c ∧ Connection.uid_ c = uid;
  ok_conn n c : conns st !! n = Some c →
    connectionUids_ st !! Connection.uid_ c = Some (Some n) ∧ (n < fresh st)%nat ∧
    conn_ok (adapters (shared st)) (Connection.uid_ c) c;
  ok_listener fd h : listeners_ st !! fd = Some h →
    fd ≠ -1 ∧ ∃ a, h = Some a ∧ is_Some (adapters (shared st) !! a);
  ok_queue a ad : adapters (shared st) !! a = Some ad → ∃ l, BindAdapter.waiting ad l;
  ok_send : ∃ l, ThreadDeque.repr (sendBuffer_ st) l
}.

Lemma queue_inj m a l l' : queue m a l → queue m a l' → l = l'.
Proof. intros (ad & Hm & <- & _) (ad' & Hm' & <- & _). congruence. Qed.

(** Messages have been added to the queue of [a]. *)
Record grown (m m' : gmap nat BindAdapter.t) (a : nat) (deque : list utagRecvData) : Prop := {
  grown_queue l : queue m a l → queue m' a (l ++ deque);
  grown_known : (∃ l, queue m a l) ∧ ∃ l, queue m' a l;
  grown_name : BindAdapter.name_ <$> m' !! a = BindAdapter.name_ <$> m !! a;
  grown_other b : b ≠ a → m' !! b = m !! b
}.

Lemma grown_some m m' a deque b : grown m m' a deque → is_Some (m !! b) → is_Some (m' !! b).
Proof.
  intros [_ (_ & l & ad & Ha & _) _ Ho] Hb. destruct (decide (b = a)) as [->|]; [by eexists|].
  by rewrite Ho.
Qed.

Lemma grown_waiting m m' a deque :
  grown m m' a deque → (∀ b ad, m !! b = Some ad → ∃ l, BindAdapter.waiting ad l) →
  ∀ b ad, m' !! b = Some ad → ∃ l, BindAdapter.waiting ad l.
Proof.
  intros [_ (_ & l & ad' & Ha & Hw) _ Ho] Hall b ad Hb.
  destruct (decide (b = a)) as [->|Hne]; [|rewrite Ho in Hb by done; by apply (Hall b)].
  exists l. congruence.
Qed.

Lemma grown_room m m' a deque n :
  grown m m' a deque → room n m → room (n - zlen deque) m'.
Proof.
  intros Hg Hr b l Hq. destruct (decide (b = a)) as [->|Hne].
  - destruct (grown_known _ _ _ _ Hg) as [(l0 & Hq0) _].
    pose proof (queue_inj _ _ _ _ Hq (grown_queue _ _ _ _ Hg _ Hq0)) as ->.
    rewrite length_app. specialize (Hr _ _ Hq0). lia.
  - destruct Hq as (ad & Hb & Hw). rewrite (grown_other _ _ _ _ Hg) in Hb by done.
    specialize (Hr b l). assert (zlen l + n ≤ 2 ^ 62) by (apply Hr; by exists ad). lia.
Qed.

Lemma insert_spec st a deque :
  ok st → is_Some (adapters (shared st) !! a) →
  room_at (zlen deque) (adapters (shared st)) a → zlen deque < 2 ^ 31 - 1 →
  ∃ m' gs, insertRecvDeque (Some a) deque st = Ok (set_shared (mk_shared m' gs) st) ∧
           grown (adapters (shared st)) m' a deque ∧
           BindAdapter.same_groups (groups (shared st)) gs.
Proof.
  intros Hok [ad Ha] Hr Hd. destruct (ok_queue _ Hok _ _ Ha) as [l Hw].
  assert (queue (adapters (shared st)) a l) as Hq by by exists ad. pose proof (Hr l Hq) as Hl.
  destruct (BindAdapter.insertRecvDeque_spec ad (groups (shared st)) l deque Hw)
    as (ad' & gs & Hi & Hw' & Hsame & Hgs); [lia|lia|].
  exists (<[a := ad']> (adapters (shared st))), gs. unfold insertRecvDeque.
  cbn [deref mbind outcome_bind]. rewrite Ha. cbn [deref mbind outcome_bind]. rewrite Hi.
  split; [done|]. split; [|exact Hgs]. split.
  - intros l' Hq'. pose proof (queue_inj _ _ _ _ Hq Hq') as <-. exists ad'.
    by rewrite lookup_insert_eq.
  - split; [by exists l|]. exists (l ++ deque), ad'. by rewrite lookup_insert_eq.
  - rewrite lookup_insert_eq, Ha. cbn. by rewrite Hsame.
  - intros b Hb. by rewrite lookup_insert_ne.
Qed.

(** Adding messages changes nothing else. *)
Lemma ok_grown st m' gs a deque :
  ok st → grown (adapters (shared st)) m' a deque → ok (set_shared (mk_shared m' gs) st).
Proof.
  intros Hok Hg. split; try apply Hok.
  - intros n c Hc. destruct (ok_conn _ Hok n c Hc) as (? & ? & [??? ? (b & ? & ?)]).
    split; [done|]. split; [done|]. split; try done. exists b. split; [done|].
    by apply (grown_some _ _ _ _ _ Hg).
  - intros fd h Hl. destruct (ok_listener _ Hok fd h Hl) as (? & b & ? & ?).
    split; [done|]. exists b. split; [done|]. by apply (grown_some _ _ _ _ _ Hg).
  - apply (grown_waiting _ _ _ _ Hg), Hok.
Qed.

(** ** Closing a connection *)

Lemma conn_live st uid n c : live uid n c st → conn (Some n) st = Ok (n, c).
Proof. intros [_ Hc]. unfold conn. cbn. by rewrite Hc. Qed.

Lemma lookup_live st uid n c :
  ok st → live uid n c st → 1 ≤ uid < 2001 ∧ lookup_uid uid st = (Some n, st).
Proof.
  intros Hok [Hu _]. destruct (ok_uid _ Hok _ _ Hu) as [? _]. split; [lia|].
  unfold lookup_uid. rewrite i32_small by lia. by rewrite Hu.
Qed.

Lemma ok_live st uid n c :
  ok st → live uid n c st →
  conn_ok (adapters (shared st)) uid c ∧ (n < fresh st)%nat.
Proof.
  intros Hok [Hu Hc]. destruct (ok_uid _ Hok _ _ Hu) as (_ & c' & Hc' & <-).
  assert (c' = c) as -> by congruence. by destruct (ok_conn _ Hok _ _ Hc) as (_ & ? & ?).
Qed.

(** A live connection is stored back with the same identity. *)
Lemma keeps_put st uid n c c' : ok st → live uid n c st → keeps uid st (put_conn n c' st).
Proof.
  intros Hok [Hu Hc]. split; [done|done|]. intros u n' c1 Hne [Hu1 Hc1]. split; [done|]. cbn.
  rewrite lookup_insert_ne; [done|]. intros <-. apply Hne.
  destruct (ok_uid _ Hok _ _ Hu) as (_ & ? & ? & <-), (ok_uid _ Hok _ _ Hu1) as (_ & ? & ? & <-). congruence.
Qed.

Lemma ok_put st uid n c c' :
  ok st → live uid n c st → conn_ok (adapters (shared st)) uid c' → ok (put_conn n c' st).
Proof.
  intros Hok Hlive Hc'. destruct (ok_live _ _ _ _ Hok Hlive) as [Hco Hf].
  destruct Hlive as [Hu Hc]. split; try apply Hok.
  - intros uid' n' Hu'. destruct (ok_uid _ Hok _ _ Hu') as (? & c0 & Hc0 & Huid).
    split; [done|]. cbn. destruct (decide (n' = n)) as [->|Hn].
    + rewrite lookup_insert_eq. exists c'. split; [done|]. rewrite (conn_uid _ _ _ Hc').
      assert (c0 = c) as -> by congruence. by rewrite <- Huid, (conn_uid _ _ _ Hco).
    + rewrite lookup_insert_ne by done. by exists c0.
  - intros n' c0. cbn. destruct (decide (n' = n)) as [->|Hn].
    + rewrite lookup_insert_eq. intros [= <-]. by rewrite (conn_uid _ _ _ Hc').
    + rewrite lookup_insert_ne by done. apply Hok.
Qed.

(** What is left of [st] once connection [n] is closed under [uid]. *)
Definition closed uid n st : t B :=
  set_conns (delete n (conns st)) (fresh st) (set_uids (delete uid (connectionUids_ st)) st).

Lemma ok_closed st uid n c : ok st → live uid n c st → ok (closed uid n st).
Proof.
  intros Hok Hlive. destruct (ok_live _ _ _ _ Hok Hlive) as [Hco Hf].
  destruct Hlive as [Hu Hc]. split; try apply Hok; cbn.
  - intros uid' n' Hu'. apply lookup_delete_Some in Hu' as [Hne Hu'].
    destruct (ok_uid _ Hok _ _ Hu') as (? & c0 & Hc0 & Huid). split; [done|].
    exists c0. split; [|done]. rewrite lookup_delete_ne; [done|]. intros <-.
    assert (c0 = c) as -> by congruence. rewrite (conn_uid _ _ _ Hco) in Huid. congruence.
  - intros n' c' Hc'. apply lookup_delete_Some in Hc' as [Hne Hc'].
    destruct (ok_conn _ Hok _ _ Hc') as (Hu' & ? & ?). split; [|done].
    rewrite lookup_delete_ne; [done|]. intros Heq. rewrite <- Heq in Hu'. congruence.
Qed.

(** No entry but that of [uid] points to a live connection. *)
Lemma unreferenced st uid n c :
  ok st → live uid n c st →
  ¬ map_Exists (λ _ h', h' = Some n) (delete uid (connectionUids_ st)).
Proof.
  intros Hok Hlive (uid' & h & Hu' & ->). destruct (ok_live _ _ _ _ Hok Hlive) as [Hco _].
  apply lookup_delete_Some in Hu' as [Hne Hu'].
  destruct (ok_uid _ Hok _ _ Hu') as (_ & c0 & Hc0 & Huid). destruct Hlive as [_ Hc].
  assert (c0 = c) as -> by congruence. rewrite (conn_uid _ _ _ Hco) in Huid. congruence.
Qed.

Lemma release_live st uid n c : live uid n c st → release (Some n) st = Ok st.
Proof.
  intros [Hu _]. unfold release. rewrite bool_decide_true; [done|]. by exists uid, (Some n).
Qed.

(** The state between [delConnection] and the end of its caller: the entry of
    [uid] is gone and the connection [c'] is only kept by the caller. *)
Definition detached uid n c' st : t B :=
  set_uids (delete uid (connectionUids_ st)) (put_conn n c' st).

Lemma release_detached st uid n c c' :
  ok st → live uid n c st → Connection.fd_ c' = -1 →
  release (Some n) (detached uid n c' st) = Ok (closed uid n st).
Proof.
  intros Hok Hlive Hfd. unfold release. cbn [connectionUids_ detached set_uids].
  rewrite bool_decide_false by by apply (unreferenced _ _ _ c).
  cbn [conns detached set_uids put_conn set_conns]. rewrite lookup_insert_eq.
  cbn [deref mbind outcome_bind]. unfold Connection.destroy. rewrite Hfd.
  assert ((if negb (Connection.listenfd_ c' =? -1) then assert_ (-1 =? -1) else Ok tt) = Ok tt)
    as -> by by destruct (negb _).
  cbn [mbind outcome_bind]. unfold closed, set_conns, set_uids. cbn.
  by rewrite delete_insert_eq.
Qed.

Lemma put_detached st uid n c1 c2 :
  put_conn n c2 (detached uid n c1 st) = detached uid n c2 st.
Proof.
  unfold detached, put_conn, set_conns, set_uids. cbn. by rewrite insert_insert_eq.
Qed.

Lemma delConnection_spec st uid n c ct :
  ok st → live uid n c st →
  (∀ a, Connection.bindAdapter_ c = Some a → room_at 1 (adapters (shared st)) a) →
  ∃ a m' gs e, Connection.bindAdapter_ c = Some a ∧
    let st' := set_epoller e (set_shared (mk_shared m' gs) st) in
    delConnection (Some n) ct st = Ok (detached uid n (Connection.set_fd (-1) c) st') ∧
    grown (adapters (shared st)) m' a [Some (close_msg c ct)] ∧
    BindAdapter.same_groups (groups (shared st)) gs.
Proof.
  intros Hok Hlive Hroom. destruct (ok_live _ _ _ _ Hok Hlive) as [[Hu Hl Hfd _ (a & Ha & Hk)] _].
  destruct (lookup_live _ _ _ _ Hok Hlive) as [Hrange _].
  destruct (insert_spec st a [Some (close_msg c ct)] Hok Hk (Hroom a Ha)) as (m' & gs & Hi & Hg & Hgs); [done|].
  eexists a, m', gs, _. split; [done|]. split; [|by split].
  unfold delConnection. rewrite (conn_live _ _ _ _ Hlive). cbn [mbind outcome_bind].
  rewrite (proj2 (Z.eqb_neq _ _) Hl). cbn [negb]. rewrite Ha, Hi. cbn [mbind outcome_bind].
  unfold Connection.close. rewrite (proj2 (Z.eqb_neq _ _) Hl), (proj2 (Z.eqb_neq _ _) Hfd).
  cbn [negb andb]. rewrite Hu, i32_small by lia. done.
Qed.

(** Setting the log of [epoll_ctl] calls. *)
Lemma ok_epoller st e : ok st → ok (set_epoller e st).
Proof. intros Hok. split; apply Hok. Qed.

Lemma live_grown st uid n c e m' gs :
  live uid n c st → live uid n c (set_epoller e (set_shared (mk_shared m' gs) st)).
Proof. done. Qed.

(** What handling one event may do to the state: connections only go away,
    messages are only added, at most [k] of them to each queue, and what is
    queued to be sent stays. *)
Record progress (k : Z) st st' : Prop := {
  progress_free : free_ st' = free_ st;
  progress_terminate : terminate_ st' = terminate_ st;
  progress_send : sendBuffer_ st' = sendBuffer_ st;
  progress_listeners : listeners_ st' = listeners_ st;
  progress_live uid n c' : live uid n c' st' → ∃ c, live uid n c st ∧
    Connection.fd_ c' = Connection.fd_ c ∧ Connection.bindAdapter_ c' = Connection.bindAdapter_ c;
  progress_room n : room n (adapters (shared st)) → room (n - k) (adapters (shared st'))
}.

Lemma progress_refl st : progress 0 st st.
Proof. split; try done; [by eexists|]. intros n. by rewrite Z.sub_0_r. Qed.

Lemma progress_trans k1 k2 st1 st2 st3 :
  progress k1 st1 st2 → progress k2 st2 st3 → progress (k1 + k2) st1 st3.
Proof.
  intros H1 H2. destruct H1 as [?? ?? Hl1 Hr1], H2 as [?? ?? Hl2 Hr2].
  split; [congruence..| |].
  - intros uid n c3 Hc3. destruct (Hl2 _ _ _ Hc3) as (c2 & Hc2 & ? & ?).
    destruct (Hl1 _ _ _ Hc2) as (c1 & ? & ? & ?). exists c1. split; [done|]. split; congruence.
  - intros n Hr. specialize (Hr2 _ (Hr1 _ Hr)). by rewrite Z.sub_add_distr.
Qed.

Lemma room_le n m (a : gmap nat BindAdapter.t) : n ≤ m → room m a → room n a.
Proof. intros Hle Hr b l Hq. specialize (Hr b l Hq). lia. Qed.

(** Closing the connection, from the call to the end of the caller. *)
Lemma close_full st uid n c ct :
  ok st → live uid n c st →
  (∀ a, Connection.bindAdapter_ c = Some a → room_at 1 (adapters (shared st)) a) →
  ∃ a m' gs e, let st' := closed uid n (set_epoller e (set_shared (mk_shared m' gs) st)) in
    Connection.bindAdapter_ c = Some a ∧
    (st ← delConnection (Some n) ct st; release (Some n) st) = Ok st' ∧ ok st' ∧
    grown (adapters (shared st)) m' a [Some (close_msg c ct)] ∧
    BindAdapter.same_groups (groups (shared st)) gs ∧ keeps uid st st'.
Proof.
  intros Hok Hlive Hroom.
  destruct (delConnection_spec st uid n c ct Hok Hlive Hroom) as (a & m' & gs & e & Ha & -> & Hg & Hgs).
  cbn [mbind outcome_bind]. set (st1 := set_epoller e _).
  assert (ok st1) as Hok1 by by apply ok_epoller, (ok_grown _ _ _ _ _ Hok Hg).
  assert (live uid n c st1) as Hlive1 by done.
  rewrite (release_detached st1 uid n c) by done. exists a, m', gs, e. fold st1. split; [done|].
  split; [done|]. split; [by apply (ok_closed _ _ _ c)|]. split; [done|]. split; [done|].
  split; [done|done|]. intros uid' n' c' Hne Hlive'.
  split; cbn; [rewrite lookup_delete_ne by done; apply Hlive'|].
  destruct (ok_live _ _ _ _ Hok Hlive') as [[Hu' _ _ _ _] _].
  destruct (ok_live _ _ _ _ Hok Hlive) as [[Hu _ _ _ _] _].
  rewrite lookup_delete_ne; [apply Hlive'|]. intros <-. destruct Hlive as [_ Hc], Hlive' as [_ Hc'].
  assert (c' = c) as -> by congruence. congruence.
Qed.

Lemma close_spec st uid n c ct :
  ok st → live uid n c st → room 1 (adapters (shared st)) →
  ∃ st', (st ← delConnection (Some n) ct st; release (Some n) st) = Ok st' ∧ ok st' ∧
    connectionUids_ st' = delete uid (connectionUids_ st) ∧ progress 1 st st' ∧
    sent st' = sent st ∧
    (∀ uid' n' c', uid' ≠ uid → live uid' n' c' st → live uid' n' c' st').
Proof.
  intros Hok Hlive Hroom.
  destruct (close_full st uid n c ct Hok Hlive (λ a _, Hroom a))
    as (a & m' & gs & e & Ha & -> & Hok' & Hg & _ & Hk).
  eexists. split; [done|]. split; [done|]. split; [done|]. split; [|split; [done|apply Hk]].
  split; try done.
  - intros uid' n' c' [Hu' Hc']. cbn in Hu', Hc'. apply lookup_delete_Some in Hu' as [_ Hu'].
    apply lookup_delete_Some in Hc' as [_ Hc']. by exists c'.
  - intros k Hr. by apply (grown_room _ _ _ _ _ Hg).
Qed.

(** ** The queue from the handler threads *)

Lemma put_same st uid n c : live uid n c st → put_conn n c st = st.
Proof. intros [_ Hc]. unfold put_conn, set_conns. rewrite insert_id by done. by destruct st. Qed.

Lemma conSend_live maxIOVcount st uid n c env buffer :
  ok st → live uid n c st →
  ∃ ret, conSend maxIOVcount (Some n) env buffer st =
    Ok (ret, if bool_decide (buffer = []) then st
             else set_sent (sent st ++ [(Connection.fd_ c, buffer)]) st).
Proof.
  intros Hok Hlive. destruct (ok_live _ _ _ _ Hok Hlive) as [[_ _ _ Hs _] _].
  destruct (Connection.send_buffer_empty maxIOVcount env buffer c Hs) as [ret Hret].
  exists ret. unfold conSend. rewrite (conn_live _ _ _ _ Hlive). cbn [mbind outcome_bind].
  rewrite Hret. cbn [mbind outcome_bind]. by rewrite (put_same _ _ _ _ Hlive).
Qed.

Lemma conSend_rest_live maxIOVcount st uid n c env :
  ok st → live uid n c st → conSend_rest maxIOVcount (Some n) env st = Ok (0, st).
Proof.
  intros Hok Hlive. destruct (ok_live _ _ _ _ Hok Hlive) as [[_ _ _ Hs _] _].
  unfold conSend_rest. rewrite (conn_live _ _ _ _ Hlive). cbn [mbind outcome_bind].
  rewrite Connection.send_empty by done. cbn [mbind outcome_bind].
  by rewrite (put_same _ _ _ _ Hlive).
Qed.

(** A response to a connection that is open. *)
Lemma pipe_send maxIOVcount st uid n c env msg ip port :
  ok st → live uid n c st →
  pipe_one maxIOVcount (Some (SendData.mk "s" uid msg ip port)) env st =
    Ok (if bool_decide (msg = []) then st
        else set_sent (sent st ++ [(Connection.fd_ c, msg)]) st).
Proof.
  intros Hok Hlive. destruct (lookup_live _ _ _ _ Hok Hlive) as [_ Hlook].
  destruct (conSend_live maxIOVcount st uid n c env msg Hok Hlive) as [ret Hsend].
  unfold pipe_one. cbn [deref mbind outcome_bind SendData.cmd SendData.uid SendData.buffer].
  cbn [Ascii.eqb Bool.eqb]. rewrite Hlook, Hsend. cbn [mbind outcome_bind].
  apply release_live with uid c. by case_bool_decide.
Qed.

Lemma ok_sent st l : ok st → ok (set_sent l st).
Proof. intros Hok. split; apply Hok. Qed.

Lemma ok_null st uid : ok st → connectionUids_ st !! uid = None →
  ok (set_uids (<[uid := None]> (connectionUids_ st)) st).
Proof.
  intros Hok Hnone. split; try apply Hok; cbn.
  - intros uid' n Hu. apply lookup_insert_Some in Hu as [[_ ?]|[_ Hu]]; [done|].
    by apply (ok_uid _ Hok).
  - intros n c Hc. destruct (ok_conn _ Hok _ _ Hc) as (Hu & ? & ?). split; [|done].
    rewrite lookup_insert_ne; [done|]. congruence.
Qed.

Lemma progress_same_conns st st' :
  connectionUids_ st' = connectionUids_ st → conns st' = conns st → free_ st' = free_ st →
  terminate_ st' = terminate_ st → sendBuffer_ st' = sendBuffer_ st →
  listeners_ st' = listeners_ st → shared st' = shared st → progress 0 st st'.
Proof.
  intros Hu Hc ? ? ? ? Hs. split; try done.
  - intros uid n c [Hu' Hc']. rewrite Hu in Hu'. rewrite Hc in Hc'. by exists c.
  - intros k. by rewrite Hs, Z.sub_0_r.
Qed.

(** A request to close: the connection goes if it is there. *)
Lemma pipe_close maxIOVcount st uid env buffer ip port :
  ok st → 0 ≤ uid < 2 ^ 31 → room 1 (adapters (shared st)) →
  ∃ st', pipe_one maxIOVcount (Some (SendData.mk "c" uid buffer ip port)) env st = Ok st' ∧
    ok st' ∧ progress 1 st st' ∧ sent st' = sent st ∧
    (∀ n, connectionUids_ st' !! uid ≠ Some (Some n)) ∧
    (∀ uid' n' c', uid' ≠ uid → live uid' n' c' st → live uid' n' c' st').
Proof.
  intros Hok Huid Hroom. unfold pipe_one.
  cbn [deref mbind outcome_bind SendData.cmd SendData.uid]. cbn [Ascii.eqb Bool.eqb].
  unfold lookup_uid. rewrite i32_small by lia.
  destruct (connectionUids_ st !! uid) as [[n|]|] eqn:Hu.
  - destruct (ok_uid _ Hok _ _ Hu) as (_ & c & Hc & _).
    assert (live uid n c st) as Hlive by done.
    destruct (ok_live _ _ _ _ Hok Hlive) as [[Hcu Hl Hfd Hs Ha] _].
    rewrite (conn_live _ _ _ _ Hlive). cbn [mbind outcome_bind].
    unfold Connection.set_close. rewrite Hs, bool_decide_true by done.
    set (c1 := Connection.mk _ _ _ _ _ _ _ _ _).
    assert (ok (put_conn n c1 st)) as Hok1 by by apply (ok_put st uid n c).
    assert (live uid n c1 (put_conn n c1 st)) as Hlive1
      by (split; [done|cbn; by rewrite lookup_insert_eq]).
    destruct (close_spec (put_conn n c1 st) uid n c1 EM_SERVER_CLOSE Hok1 Hlive1 Hroom)
      as (st' & -> & Hok' & Hu' & [?? ?? Hpl Hpr] & Hsent & Hother).
    exists st'. split; [done|]. split; [done|]. split; [split; try done|].
    + intros uid' n' c' Hl'. destruct (Hpl _ _ _ Hl') as (c0 & [Hu0 Hc0] & Hf0 & Ha0).
      cbn in Hc0. destruct (decide (n' = n)) as [->|Hn].
      * rewrite lookup_insert_eq in Hc0. injection Hc0 as <-. by exists c.
      * rewrite lookup_insert_ne in Hc0 by done. by exists c0.
    + split; [done|]. split; [intros n'; by rewrite Hu', lookup_delete_eq|].
      intros uid' n' c' Hne Hl'. apply Hother; [done|]. destruct Hl' as [Hun' Hc']. split; [done|].
      cbn. rewrite lookup_insert_ne; [done|]. intros <-. assert (c' = c) as -> by congruence.
      assert (live uid' n c st) as Hl2 by done.
      destruct (ok_live _ _ _ _ Hok Hl2) as [[? _ _ _ _] _]. congruence.
  - exists st. split; [done|]. split; [done|]. split; [|split; [done|split; [by rewrite Hu|done]]].
    pose proof (progress_refl st) as [????? Hr]. split; try done.
    intros k Hk. eapply room_le; [|by apply (Hr k)]. lia.
  - eexists. split; [done|]. split; [by apply ok_null|].
    split; [|split; [done|split; [cbn; intros; by rewrite lookup_insert_eq|]]].
    + split; try done; cbn.
      * intros uid' n' c' [Hu' Hc']. cbn in Hu', Hc'.
        apply lookup_insert_Some in Hu' as [[_ ?]|[_ Hu']]; [done|]. by exists c'.
      * intros k Hk. eapply room_le; [|exact Hk]. lia.
    + intros uid' n' c' Hne [Hu' Hc']. split; [|done]. cbn. by rewrite lookup_insert_ne.
Qed.

(** Messages the thread can handle: responses go to open connections that no
    message of the same batch asks to close. *)
Definition pipe_ok (l : list utagSendData) st : Prop :=
  ∀ m, m ∈ l → ∃ s, m = Some s ∧ 0 ≤ SendData.uid s < 2 ^ 31 ∧
    (SendData.cmd s = "s"%char ∧ (∃ n c, live (SendData.uid s) n c st) ∧
       (∀ s', Some s' ∈ l → SendData.cmd s' = "c"%char → SendData.uid s' ≠ SendData.uid s) ∨
     SendData.cmd s = "c"%char).

Lemma progress_le k k' st st' : k ≤ k' → progress k st st' → progress k' st st'.
Proof.
  intros Hle [????? Hr]. split; try done. intros n Hn. eapply room_le; [|by apply Hr]. lia.
Qed.

Lemma pipe_loop_spec maxIOVcount l : ∀ envs st,
  ok st → pipe_ok l st → room (zlen l) (adapters (shared st)) →
  ∃ st', pipe_loop maxIOVcount l envs st = Ok st' ∧ ok st' ∧ progress (zlen l) st st'.
Proof.
  induction l as [|m l IH]; intros envs st Hok Hp Hroom.
  { exists st. split; [done|]. split; [done|apply progress_refl]. }
  cbn [length] in Hroom. destruct (Hp m) as (s & -> & Hu & Hs); [left|].
  assert (∃ st1, pipe_one maxIOVcount (Some s) (default [] (head envs)) st = Ok st1 ∧ ok st1 ∧
    progress 1 st st1 ∧ pipe_ok l st1) as (st1 & Hone & Hok1 & Hpr1 & Hp1).
  { destruct s as [cmd uid buf ip port]. cbn in Hu, Hs. destruct Hs as [(-> & (n & c & Hlive) & Hno)| ->].
    - eexists. split; [by apply (pipe_send _ _ uid n c)|].
      split; [case_bool_decide; [done|by apply ok_sent]|].
      split; [apply (progress_le 0); [lia|]; case_bool_decide; by apply progress_same_conns|].
      intros m' Hm'. destruct (Hp m') as (s' & -> & Hu' & Hs'); [by right|]. exists s'.
      split; [done|]. split; [done|]. destruct Hs' as [(? & (n' & c' & ?) & Hno')|?]; [|by right].
      left. split; [done|]. split; [exists n', c'; by case_bool_decide|].
      intros s'' Hs''. apply Hno'. by right.
    - destruct (pipe_close maxIOVcount st uid (default [] (head envs)) buf ip port Hok Hu)
        as (st1 & -> & Hok1 & Hpr & _ & _ & Hother); [eapply room_le; [|exact Hroom]; lia|].
      exists st1. split; [done|]. split; [done|]. split; [done|].
      intros m' Hm'. destruct (Hp m') as (s' & -> & Hu' & Hs'); [by right|]. exists s'.
      split; [done|]. split; [done|]. destruct Hs' as [(? & (n' & c' & ?) & Hno')|?]; [|by right].
      left. split; [done|]. split.
      + exists n', c'. apply Hother; [|done].
        specialize (Hno' (SendData.mk "c" uid buf ip port)). cbn in Hno'.
        intros Heq. symmetry in Heq. revert Heq. apply Hno'; [left|done].
      + intros s'' Hs''. apply Hno'. by right. }
  cbn [pipe_loop]. rewrite Hone. cbn [mbind outcome_bind].
  destruct (IH (tail envs) st1 Hok1 Hp1) as (st' & Hl & Hok' & Hpr').
  { eapply room_le; [|apply (progress_room _ _ _ Hpr1), Hroom]. lia. }
  exists st'. split; [done|]. split; [done|].
  apply (progress_le (1 + zlen l)); [cbn [length]; lia|]. by eapply progress_trans.
Qed.

Lemma processPipe_spec maxIOVcount envs st l :
  ok st → ThreadDeque.repr (sendBuffer_ st) l → pipe_ok l st →
  room (zlen l) (adapters (shared st)) →
  ∃ st', processPipe maxIOVcount envs st = Ok st' ∧ ok st' ∧
    ThreadDeque.repr (sendBuffer_ st') [] ∧ free_ st' = free_ st.
Proof.
  intros Hok Hr Hp Hroom.
  destruct (ThreadDeque.swap_spec _ l [] Hr) as (d & Hd & Hrd & _); [done|].
  unfold processPipe. rewrite Hd. cbn in Hrd.
  assert (ThreadDeque.repr d []) as Hrd' by by case_bool_decide.
  assert ((if bool_decide (l = []) then [] else l) = l) as -> by by case_bool_decide.
  destruct (pipe_loop_spec maxIOVcount l envs (set_sendBuffer d st)) as (st' & -> & Hok' & Hpr);
    [split; try apply Hok; by exists []|done|done|].
  exists st'. split; [done|]. split; [done|].
  split; [by rewrite (progress_send _ _ _ Hpr)|by rewrite (progress_free _ _ _ Hpr)].
Qed.

(** ** Accepting *)

Lemma accept_spec listenfd garbage r st a :
  ok st → listeners_ st !! listenfd = Some (Some a) → free_ st ≠ [] →
  ∃ b st', accept listenfd garbage r st = Ok (b, st') ∧ ok st' ∧
    listeners_ st' = listeners_ st ∧
    (if 0 <? acc_ret r then b = true ∧ free_ st' = tail (free_ st) ∧
       ∃ uid n c, head (free_ st) = Some uid ∧ (∀ n, connectionUids_ st !! uid ≠ Some (Some n)) ∧
         live uid n c st' ∧ Connection.fd_ c = acc_ret r ∧ Connection.bindAdapter_ c = Some a ∧
         connectionUids_ st' = <[uid := Some n]> (connectionUids_ st) ∧ shared st' = shared st ∧
         (∀ u n c, live u n c st → live u n c st')
     else st' = st).
Proof.
  intros Hok Hlis Hfree. unfold accept. destruct (Z.ltb_spec 0 (acc_ret r)) as [Hret|Hret];
    [|by eexists _, st].
  destruct (ok_listener _ Hok _ _ Hlis) as (Hfd & a' & [= <-] & Ha).
  unfold listener. rewrite Hlis. unfold Connection.new. rewrite (proj2 (Z.eqb_neq _ _)) by lia.
  cbn [negb assert_ mbind outcome_bind]. unfold addTConnection.
  destruct (ok_free _ Hok) as [Hseq Hlen].
  destruct (free_ st) as [|uid rest] eqn:Hf; [done|]. cbn [length] in Hseq, Hlen.
  assert (uid = 2001 - zlen (uid :: rest) ∧ rest = seqZ (2001 - zlen rest) (zlen rest))
    as [Huid Hrest].
  { cbn [length]. rewrite seqZ_cons in Hseq by lia. injection Hseq as -> Heq. split; [lia|].
    rewrite Heq at 1. f_equal; lia. }
  cbn [length] in Huid.
  assert (∀ n, connectionUids_ st !! uid ≠ Some (Some n)) as Hnew.
  { intros n Hn. destruct (ok_uid _ Hok _ _ Hn) as [Hr _]. rewrite Hf in Hr. cbn [length] in Hr. lia. }
  assert (conns st !! fresh st = None) as Hfresh.
  { destruct (conns st !! fresh st) eqn:Hc; [|done].
    destruct (ok_conn _ Hok _ _ Hc) as (_ & ? & _). lia. }
  cbn [free_ set_conns]. rewrite Hf. cbn [head deref mbind outcome_bind]. unfold conn.
  cbn [deref mbind outcome_bind conns set_conns]. rewrite lookup_insert_eq.
  cbn [deref mbind outcome_bind]. rewrite i32_small by lia.
  eexists _, _. split; [done|]. split; [split; try apply Hok; cbn|].
  - rewrite Hf. cbn [tail]. split; [done|lia].
  - intros uid' n' Hu'. rewrite Hf. cbn [tail]. rewrite insert_insert_eq.
    apply lookup_insert_Some in Hu' as [[<- [= <-]]|[Hne Hu']].
    + split; [lia|]. rewrite lookup_insert_eq. by eexists.
    + destruct (ok_uid _ Hok _ _ Hu') as (Hr & c & Hc & ?). rewrite Hf in Hr. cbn [length] in Hr.
      split; [lia|]. exists c. rewrite lookup_insert_ne; [done|]. congruence.
  - intros n' c. rewrite insert_insert_eq. intros [[<- <-]|[Hne Hc]]%lookup_insert_Some.
    + cbn. rewrite lookup_insert_eq. split; [done|]. split; [lia|]. split; cbn; try done; [lia|].
      by exists a.
    + destruct (ok_conn _ Hok _ _ Hc) as (Hu & ? & ?). split; [|split; [lia|done]].
      rewrite lookup_insert_ne; [done|]. intros Heq. apply (Hnew n'). by rewrite Heq.
  - split; [done|]. split; [done|]. split; [cbn; by rewrite Hf|].
    eexists uid, (fresh st), _. split; [done|]. split; [done|]. split; [split; cbn|].
    + by rewrite lookup_insert_eq.
    + by rewrite insert_insert_eq, lookup_insert_eq.
    + split; [done|]. split; [done|]. split; [done|]. split; [done|].
      intros u n' c' [Hu Hc]. split; cbn; rewrite ?insert_insert_eq, lookup_insert_ne; try done.
      * intros ->. by apply (Hnew n').
      * congruence.
Qed.

Lemma accept_full listenfd garbage r st a :
  listeners_ st !! listenfd = Some (Some a) → free_ st = [] → 0 < acc_ret r →
  accept listenfd garbage r st = Undef.
Proof.
  intros Hl Hf Hr. unfold accept. rewrite (proj2 (Z.ltb_lt _ _) Hr). unfold listener. rewrite Hl.
  unfold Connection.new. rewrite (proj2 (Z.eqb_neq _ _)) by lia. cbn [negb assert_ mbind outcome_bind].
  unfold addTConnection. cbn [free_ set_conns]. by rewrite Hf.
Qed.

Lemma accept_loop_spec listenfd garbage rs a : ∀ st,
  ok st → listeners_ st !! listenfd = Some (Some a) → (length rs ≤ length (free_ st))%nat →
  ∃ st', accept_loop listenfd garbage rs st = Ok st' ∧ ok st'.
Proof.
  induction rs as [|r rs IH]; intros st Hok Hlis Hlen; [by exists st|]. cbn [length] in Hlen.
  destruct (accept_spec listenfd garbage r st a Hok Hlis) as (b & st1 & Ha & Hok1 & Hl1 & Hst1).
  { intros Hf. rewrite Hf in Hlen. cbn in Hlen. lia. }
  cbn [accept_loop]. rewrite Ha. cbn [mbind outcome_bind]. destruct b; [|by exists st1].
  apply IH; [done|by rewrite Hl1|]. destruct (0 <? acc_ret r); [|subst; lia].
  destruct Hst1 as (_ & -> & _). destruct (free_ st); cbn in *; lia.
Qed.

(** ** Reading *)

(** [recv] comes back, and the adapter's queue has room for what it brings. *)
Definition returns (reads : list Connection.read_result) c st : Prop :=
  ∃ ret msgs c', Connection.recv reads c = Ok (ret, msgs, c') ∧
    zlen msgs < 2 ^ 31 - 1 ∧ room (zlen msgs + 1) (adapters (shared st)).

(** Events on a live connection: requests are queued, or the connection is
    closed, and [n] is destroyed as soon as no entry points to it. *)
Lemma processNet_spec maxIOVcount ev reads env st uid n c :
  ok st → live uid n c st → u32 (data ev) = uid → returns reads c st →
  ∃ st', processNet maxIOVcount ev reads env st = Ok st' ∧ ok st'.
Proof.
  intros Hok Hlive Hu (ret & msgs & c1 & Hrecv & Hlen & Hroom).
  destruct (lookup_live _ _ _ _ Hok Hlive) as [Hrange Hlook].
  destruct (ok_live _ _ _ _ Hok Hlive) as [Hco _].
  unfold processNet. rewrite Hu, Hlook.
  destruct (has (events ev) EPOLLERR || has (events ev) EPOLLHUP).
  { destruct (close_spec st uid n c EM_SERVER_CLOSE Hok Hlive) as (st' & -> & ? & _);
      [eapply room_le; [|exact Hroom]; lia|by exists st']. }
  destruct (has (events ev) EPOLLIN); cbn [mbind outcome_bind].
  2:{ assert (∃ st', (st ← (if has (events ev) EPOLLOUT then
            '(_, st) ← conSend_rest maxIOVcount (Some n) env st; Ok st else Ok st);
          release (Some n) st) = Ok st' ∧ ok st') as Hrest; [|exact Hrest].
      exists st. destruct (has _ _); [rewrite (conSend_rest_live _ _ uid n c) by done|];
        cbn [mbind outcome_bind]; by rewrite (release_live _ uid n c). }
  unfold conRecv. rewrite (conn_live _ _ _ _ Hlive). cbn [mbind outcome_bind]. rewrite Hrecv.
  cbn [mbind outcome_bind].
  destruct (Connection.recv_fields _ _ _ _ _ Hrecv) as (Hc1 & (reqs & Hreqs) & Hret).
  assert (conn_ok (adapters (shared st)) uid c1) as Hco1 by (rewrite Hc1; by destruct Hco).
  set (st1 := put_conn n c1 st).
  assert (ok st1) as Hok1 by by apply (ok_put st uid n c).
  assert (live uid n c1 st1) as Hlive1 by (split; [apply Hlive|cbn; by rewrite lookup_insert_eq]).
  destruct Hret as [[-> ->]|Hret].
  - destruct (delConnection_spec st1 uid n c1 EM_CLIENT_CLOSE Hok1 Hlive1)
      as (a & m' & gs & e & _ & Hdel & Hg & _); [intros a _; exact (Hroom a)|].
    change (-1 <? 0) with true. cbv iota. rewrite Hdel. cbn [mbind outcome_bind].
    rewrite bool_decide_true by done. cbn [mbind outcome_bind].
    set (st2 := set_epoller e _).
    assert (ok st2) as Hok2 by by apply ok_epoller, (ok_grown _ _ _ _ _ Hok1 Hg).
    exists (closed uid n st2).
    split; [|by apply (ok_closed _ _ _ c1)].
    assert (∀ c2, Connection.fd_ c2 = -1 → Connection.sendBuffer_ c2 = [] →
      (st ← (if has (events ev) EPOLLOUT then
         '(_, st) ← conSend_rest maxIOVcount (Some n) env (detached uid n c2 st2); Ok st
       else Ok (detached uid n c2 st2)); release (Some n) st) = Ok (closed uid n st2)) as Hrest.
    { intros c2 Hfd Hs2. destruct (has _ _); cbn [mbind outcome_bind].
      - unfold conSend_rest, conn. cbn [deref mbind outcome_bind conns detached set_uids put_conn set_conns].
        rewrite lookup_insert_eq. cbn [deref mbind outcome_bind].
        rewrite Connection.send_empty by done. cbn [mbind outcome_bind].
        rewrite put_detached. by apply (release_detached _ _ _ c1).
      - by apply (release_detached _ _ _ c1). }
    apply Hrest; [done|]. cbn. by destruct Hco1.
  - rewrite Hret, i32_small by lia. rewrite (proj2 (Z.ltb_ge _ _)) by lia. cbn [mbind outcome_bind].
    destruct Hco1 as [_ _ _ _ (a & Ha & Hka)].
    assert (∃ st2, (if bool_decide (msgs = []) then Ok st1 else
      '(_, c) ← conn (Some n) st1;
      insertRecvDeque (Connection.bindAdapter_ c) (Some <$> msgs) st1) = Ok st2 ∧ ok st2 ∧
      live uid n c1 st2) as (st2 & -> & Hok2 & Hlive2).
    { case_bool_decide; [by exists st1|]. rewrite (conn_live _ _ _ _ Hlive1).
      cbn [mbind outcome_bind]. rewrite Ha.
      destruct (insert_spec st1 a (Some <$> msgs) Hok1 Hka) as (m' & gs & -> & Hg & _).
      - rewrite length_fmap. eapply (room_le _ (zlen msgs + 1)); [lia|exact Hroom].
      - by rewrite length_fmap.
      - eexists. split; [done|]. split; [|done]. by apply (ok_grown _ _ _ _ _ Hok1 Hg). }
    cbn [mbind outcome_bind]. exists st2.
    destruct (has _ _); [rewrite (conSend_rest_live _ _ uid n c1) by done|];
      cbn [mbind outcome_bind]; by rewrite (release_live _ uid n c1).
Qed.

(** ** Runs of the thread *)

Inductive op :=
| Event (ev : epoll_event) (env : environment)
| Respond (uid : Z) (msg ip : bytes) (port : Z)
| AskClose (uid : Z)
| Terminate.

Definition step (maxIOVcount : nat) (o : op) st : outcome (unit * t B) :=
  st ← match o with
       | Event ev env => dispatch maxIOVcount ev env st
       | Respond uid msg ip port => recvNeedToSendFromServer uid msg ip port st
       | AskClose uid => close uid st
       | Terminate => Ok (terminate st)
       end;
  Ok (tt, st).

Lemma ok_sendBuffer st d : ok st → (∃ l, ThreadDeque.repr d l) → ok (set_sendBuffer d st).
Proof. intros Hok Hd. split; try apply Hok. done. Qed.

(** Queueing a message for the thread. *)
Lemma queue_spec st m :
  ok st → zlen (ThreadDeque.deque_ (sendBuffer_ st)) + 1 < 2 ^ 64 →
  ∃ d, ThreadDeque.push_back m (sendBuffer_ st) = Ok (None, d) ∧ ok (set_sendBuffer d st) ∧
       ThreadDeque.repr d (ThreadDeque.deque_ (sendBuffer_ st) ++ [m]).
Proof.
  intros Hok Hlen. destruct (ok_send _ Hok) as [l Hr].
  assert (ThreadDeque.deque_ (sendBuffer_ st) = l) as Hl by apply Hr. rewrite Hl in Hlen |- *.
  destruct (ThreadDeque.push_back_spec _ l m Hr Hlen) as (d & Hd & Hrd & _).
  exists d. split; [done|]. split; [|done]. apply ok_sendBuffer; [done|by eexists].
Qed.

(** What [accept] leaves alone, and the buffer of a new connection. *)
Lemma accept_frame listenfd garbage r st b st' :
  accept listenfd garbage r st = Ok (b, st') →
  terminate_ st' = terminate_ st ∧ sendBuffer_ st' = sendBuffer_ st ∧ sent st' = sent st ∧
  ∀ n c, conns st' !! n = Some c → conns st !! n = Some c ∨ Connection.recvBuffer_ c = bq_init.
Proof.
  unfold accept. destruct (0 <? acc_ret r); [|intros [= _ <-]; auto].
  assert (∀ h, let '(a, s) := listener h st in terminate_ s = terminate_ st ∧
    sendBuffer_ s = sendBuffer_ st ∧ sent s = sent st ∧ conns s = conns st) as Hl
    by (intros h; unfold listener; by destruct (_ !! h)).
  specialize (Hl listenfd). destruct (listener listenfd st) as [a s0]. destruct Hl as (Ht & Hb & Hs & Hc).
  intros (c & Hnew & Ha)%bind_Ok. apply bind_Ok in Ha as (s1 & Hadd & [= <- <-]).
  assert (Connection.recvBuffer_ c = bq_init) as Hrb.
  { unfold Connection.new in Hnew. apply bind_Ok in Hnew as (? & _ & [= <-]). done. }
  unfold addTConnection in Hadd. apply bind_Ok in Hadd as (uid & _ & Hadd).
  apply bind_Ok in Hadd as ([n c1] & Hconn & [= <-]).
  unfold conn in Hconn. cbn [deref mbind outcome_bind conns set_conns] in Hconn.
  rewrite lookup_insert_eq in Hconn. injection Hconn as <- <-. cbn.
  rewrite Ht, Hb, Hs, Hc. do 3 (split; [done|]). intros n' c'.
  rewrite insert_insert_eq. intros [[_ <-]|[_ Hc']]%lookup_insert_Some; [by right|by left].
Qed.

(** Before [createEpoll] a thread has no connections and no ids to give. *)
Lemma fresh_ok st :
  connectionUids_ st = ∅ → conns st = ∅ → free_ st = [] → sendBuffer_ st = ThreadDeque.init →
  (∀ fd h, listeners_ st !! fd = Some h →
     fd ≠ -1 ∧ ∃ a, h = Some a ∧ is_Some (adapters (shared st) !! a)) →
  (∀ b ad, adapters (shared st) !! b = Some ad → ∃ l, BindAdapter.waiting ad l) →
  ok (createEpoll 256 st).
Proof.
  intros Hu Hc Hf Hs Hl Hq. split; cbn [free_ connectionUids_ conns fresh listeners_ shared adapters
    sendBuffer_ createEpoll set_free set_epoller].
  - rewrite Hf. cbn [app]. by rewrite length_seqZ.
  - intros uid n Hn. by rewrite Hu, lookup_empty in Hn.
  - intros n c Hn. by rewrite Hc, lookup_empty in Hn.
  - exact Hl.
  - exact Hq.
  - rewrite Hs. by exists [].
Qed.

(** The state in which a thread that listens for one adapter starts. *)
Lemma start_ok shutdown notify garbage sh a fd :
  is_Some (adapters sh !! a) → fd ≠ -1 →
  (∀ b ad, adapters sh !! b = Some ad → ∃ l, BindAdapter.waiting ad l) →
  ∃ st, bind a fd (new shutdown notify garbage sh) = Ok (fd, st) ∧ ok (createEpoll 256 st).
Proof.
  intros [ad Ha] Hfd Hq. unfold bind, new. cbn [shared adapters]. rewrite Ha.
  cbn [deref mbind outcome_bind]. eexists. split; [done|].
  apply fresh_ok; try done; cbn [listeners_ set_listeners set_shared shared adapters].
  - intros fd' h [[<- <-]|[_ Hl]]%lookup_insert_Some; [|by rewrite lookup_empty in Hl].
    split; [done|]. exists a. by rewrite lookup_insert_eq.
  - intros b ad' [[<- <-]|[_ Hb]]%lookup_insert_Some; [|by apply (Hq b)].
    destruct (Hq _ _ Ha) as [l Hl]. by exists l.
Qed.

(** A thread that listens for nobody, as all but the first do. *)
Lemma idle_ok shutdown notify garbage sh :
  (∀ b ad, adapters sh !! b = Some ad → ∃ l, BindAdapter.waiting ad l) →
  ok (createEpoll 256 (new shutdown notify garbage sh)).
Proof. intros Hq. apply fresh_ok; try done. Qed.

(** ** Requests and responses *)

(** A read that brings requests. *)
Lemma processNet_requests maxIOVcount ev reads env st uid n c msgs c1 a :
  ok st → live uid n c st → u32 (data ev) = uid → events ev = EPOLLIN →
  Connection.recv reads c = Ok (i32 (zlen msgs), msgs, c1) → msgs ≠ [] →
  zlen msgs < 2 ^ 31 - 1 → room_at (zlen msgs) (adapters (shared st)) a →
  Connection.bindAdapter_ c = Some a →
  ∃ m' gs, let st' := set_shared (mk_shared m' gs) (put_conn n c1 st) in
    processNet maxIOVcount ev reads env st = Ok st' ∧ ok st' ∧ live uid n c1 st' ∧
    grown (adapters (shared st)) m' a (Some <$> msgs) ∧
    BindAdapter.same_groups (groups (shared st)) gs.
Proof.
  intros Hok Hlive Hu Hev Hrecv Hne Hlen Hroom Ha.
  destruct (lookup_live _ _ _ _ Hok Hlive) as [Hrange Hlook].
  destruct (ok_live _ _ _ _ Hok Hlive) as [Hco _].
  destruct (Connection.recv_fields _ _ _ _ _ Hrecv) as (Hc1 & _).
  assert (conn_ok (adapters (shared st)) uid c1) as Hco1 by (rewrite Hc1; by destruct Hco).
  set (st1 := put_conn n c1 st).
  assert (ok st1) as Hok1 by by apply (ok_put st uid n c).
  assert (live uid n c1 st1) as Hlive1 by (split; [apply Hlive|cbn; by rewrite lookup_insert_eq]).
  assert (Connection.bindAdapter_ c1 = Some a) as Ha1 by (by rewrite Hc1).
  destruct (conn_adapter _ _ _ Hco1) as (a' & Ha' & Hka). rewrite Ha1 in Ha'. injection Ha' as <-.
  destruct (insert_spec st1 a (Some <$> msgs) Hok1 Hka) as (m' & gs & Hins & Hg & Hgs);
    [by rewrite length_fmap|by rewrite length_fmap|].
  exists m', gs. unfold processNet. rewrite Hu, Hlook, Hev. cbn [orb].
  change (has EPOLLIN EPOLLERR) with false. change (has EPOLLIN EPOLLHUP) with false.
  change (has EPOLLIN EPOLLIN) with true. change (has EPOLLIN EPOLLOUT) with false.
  cbn [orb]. unfold conRecv. rewrite (conn_live _ _ _ _ Hlive). cbn [mbind outcome_bind].
  rewrite Hrecv. cbn [mbind outcome_bind]. rewrite i32_small by lia.
  rewrite (proj2 (Z.ltb_ge _ _)) by lia. cbn [mbind outcome_bind].
  rewrite bool_decide_false by done. fold st1. rewrite (conn_live _ _ _ _ Hlive1).
  cbn [mbind outcome_bind]. rewrite Ha1, Hins. cbn [mbind outcome_bind].
  rewrite (release_live _ uid n c1) by done.
  split; [done|]. split; [by apply (ok_grown _ _ _ _ _ Hok1 Hg)|]. done.
Qed.

(** A read, whether it completes requests or not. *)
Lemma processNet_reads maxIOVcount ev reads env st uid n c msgs c1 a l :
  ok st → live uid n c st → u32 (data ev) = uid → events ev = EPOLLIN →
  Connection.recv reads c = Ok (i32 (zlen msgs), msgs, c1) →
  zlen msgs < 2 ^ 31 - 1 → Connection.bindAdapter_ c = Some a →
  queue (adapters (shared st)) a l → zlen l + zlen msgs ≤ 2 ^ 62 →
  ∃ m' gs, let st' := set_shared (mk_shared m' gs) (put_conn n c1 st) in
    processNet maxIOVcount ev reads env st = Ok st' ∧ ok st' ∧ live uid n c1 st' ∧
    queue m' a (l ++ (Some <$> msgs)) ∧
    BindAdapter.name_ <$> m' !! a = BindAdapter.name_ <$> adapters (shared st) !! a ∧
    BindAdapter.same_groups (groups (shared st)) gs.
Proof.
  intros Hok Hlive Hu Hev Hrecv Hlen Ha Hq Hroom. destruct (decide (msgs = [])) as [->|Hne].
  - destruct (lookup_live _ _ _ _ Hok Hlive) as [Hrange Hlook].
    destruct (Connection.recv_fields _ _ _ _ _ Hrecv) as (Hc1 & _).
    destruct (ok_live _ _ _ _ Hok Hlive) as [Hco _].
    assert (conn_ok (adapters (shared st)) uid c1) as Hco1 by (rewrite Hc1; by destruct Hco).
    assert (ok (put_conn n c1 st)) as Hok1 by by apply (ok_put st uid n c).
    assert (live uid n c1 (put_conn n c1 st)) as Hlive1
      by (split; [apply Hlive|cbn; by rewrite lookup_insert_eq]).
    exists (adapters (shared st)), (groups (shared st)). cbv zeta.
    assert (set_shared (mk_shared (adapters (shared st)) (groups (shared st))) (put_conn n c1 st)
      = put_conn n c1 st) as -> by (destruct st as [? ? ? ? ? ? ? ? ? ? ? ? ? []]; done).
    split; [|do 2 (split; [done|]); split; [by rewrite app_nil_r|split; [done|by intros gi]]].
    unfold processNet. rewrite Hu, Hlook, Hev. cbn [orb].
    change (has EPOLLIN EPOLLERR) with false. change (has EPOLLIN EPOLLHUP) with false.
    change (has EPOLLIN EPOLLIN) with true. change (has EPOLLIN EPOLLOUT) with false.
    cbn [orb]. unfold conRecv. rewrite (conn_live _ _ _ _ Hlive). cbn [mbind outcome_bind].
    rewrite Hrecv. cbn [mbind outcome_bind].
    change (i32 (zlen [])  <? 0) with false. cbn [mbind outcome_bind].
    rewrite bool_decide_true by done. cbn [mbind outcome_bind]. by rewrite (release_live _ uid n c1).
  - destruct (processNet_requests maxIOVcount ev reads env st uid n c msgs c1 a Hok Hlive Hu Hev Hrecv
      Hne Hlen) as (m' & gs & Hp & Hok1 & Hlive1 & Hgr & Hgs); [|done|].
    { intros l' Hl'. by rewrite (queue_inj _ _ _ _ Hl' Hq). }
    exists m', gs. do 3 (split; [done|]). split; [by apply (grown_queue _ _ _ _ Hgr)|].
    split; [apply (grown_name _ _ _ _ Hgr)|done].
Qed.

(** A read that ends the program. *)
Lemma processNet_crashes maxIOVcount ev reads env st uid n c :
  ok st → live uid n c st → u32 (data ev) = uid → events ev = EPOLLIN →
  match Connection.recv reads c with
  | Assert => processNet maxIOVcount ev reads env st = Assert
  | Raise e => processNet maxIOVcount ev reads env st = Raise e
  | Undef => processNet maxIOVcount ev reads env st = Undef
  | Spin => processNet maxIOVcount ev reads env st = Spin
  | Ok _ => True
  end.
Proof.
  intros Hok Hlive Hu Hev. destruct (lookup_live _ _ _ _ Hok Hlive) as [_ Hlook].
  unfold processNet. rewrite Hu, Hlook, Hev. change (has EPOLLIN EPOLLERR || has EPOLLIN EPOLLHUP) with false.
  change (has EPOLLIN EPOLLIN) with true. cbv iota. unfold conRecv. rewrite (conn_live _ _ _ _ Hlive).
  cbn [mbind outcome_bind]. by destruct (Connection.recv reads c).
Qed.

(** A client hangs up: its connection is closed, and the handlers are told. *)
Definition hang_up (events : Z) (reads : list Connection.read_result) : Prop :=
  has events EPOLLERR || has events EPOLLHUP = true ∨ events = EPOLLIN ∧ reads = [Connection.Rd []].

Lemma processNet_hang_up maxIOVcount ev reads env st uid n c a :
  ok st → live uid n c st → u32 (data ev) = uid → hang_up (events ev) reads →
  Connection.bindAdapter_ c = Some a → room_at 1 (adapters (shared st)) a →
  ∃ ct m' gs e, let st' := closed uid n (set_epoller e (set_shared (mk_shared m' gs) st)) in
    processNet maxIOVcount ev reads env st = Ok st' ∧ ok st' ∧
    grown (adapters (shared st)) m' a [Some (close_msg c ct)] ∧
    BindAdapter.same_groups (groups (shared st)) gs ∧ keeps uid st st'.
Proof.
  intros Hok Hlive Hu Hup Ha Hroom.
  assert (∀ ct, ∃ m' gs e, let st' := closed uid n (set_epoller e (set_shared (mk_shared m' gs) st)) in
    (st ← delConnection (Some n) ct st; release (Some n) st) = Ok st' ∧ ok st' ∧
    grown (adapters (shared st)) m' a [Some (close_msg c ct)] ∧
    BindAdapter.same_groups (groups (shared st)) gs ∧ keeps uid st st') as Hclose.
  { intros ct. destruct (close_full st uid n c ct Hok Hlive) as (a' & m' & gs & e & Ha' & Hrest);
      [intros a' ?; by replace a' with a by congruence|].
    exists m', gs, e. by replace a with a' by congruence. }
  destruct (lookup_live _ _ _ _ Hok Hlive) as [Hrange Hlook].
  unfold processNet. rewrite Hu, Hlook. destruct Hup as [Hup|[Hev ->]].
  { rewrite Hup. destruct (Hclose EM_SERVER_CLOSE) as (m' & gs & e & -> & ?). by exists EM_SERVER_CLOSE, m', gs, e. }
  rewrite Hev. change (has EPOLLIN EPOLLERR || has EPOLLIN EPOLLHUP) with false. cbv iota.
  change (has EPOLLIN EPOLLIN) with true. change (has EPOLLIN EPOLLOUT) with false. cbv iota.
  unfold conRecv. rewrite (conn_live _ _ _ _ Hlive). cbn [mbind outcome_bind].
  unfold Connection.recv. cbn [Connection.recv_loop mbind outcome_bind].
  assert (put_conn n (Connection.set_recvBuffer (Connection.recvBuffer_ c) c) st = st) as ->.
  { replace (Connection.set_recvBuffer _ c) with c by by destruct c. by apply (put_same _ uid). }
  change (-1 <? 0) with true. cbv iota.
  destruct (Hclose EM_CLIENT_CLOSE) as (m' & gs & e & Hc & ?). exists EM_CLIENT_CLOSE, m', gs, e.
  split; [|done]. rewrite <- Hc. by destruct (delConnection _ _ _).
Qed.

(** A response through the queue to the thread. *)
Lemma respond_live maxIOVcount envs st uid n c msg ip port :
  ok st → live uid n c st → terminate_ st = false → ThreadDeque.deque_ (sendBuffer_ st) = [] →
  msg ≠ [] →
  ∃ st', (st1 ← recvNeedToSendFromServer uid msg ip port st;
          processPipe maxIOVcount envs st1) = Ok st' ∧
    ok st' ∧ live uid n c st' ∧ sent st' = sent st ++ [(Connection.fd_ c, msg)].
Proof.
  intros Hok Hlive Ht Hs Hmsg. unfold recvNeedToSendFromServer. rewrite Ht.
  set (m := Some (SendData.mk "s" uid msg ip port)).
  destruct (queue_spec st m Hok) as (d & -> & Hokd & Hd); [by rewrite Hs|].
  rewrite Hs in Hd. cbn [mbind outcome_bind]. set (st1 := set_epoller _ _).
  destruct (ThreadDeque.swap_spec _ _ [] Hd) as (d' & Hsw & Hr & _); [done|].
  unfold processPipe. assert (sendBuffer_ st1 = d) as -> by done. rewrite Hsw. cbn [app].
  rewrite (bool_decide_false ([m] = [])) by done. cbn [pipe_loop].
  assert (ok (set_sendBuffer d' st1)) as Hok1.
  { apply ok_sendBuffer; [by apply ok_epoller|by eexists]. }
  unfold m. rewrite (pipe_send maxIOVcount _ uid n c) by done. cbn [mbind outcome_bind].
  rewrite bool_decide_false by done.
  eexists. split; [done|]. split; [by apply ok_sent|]. done.
Qed.

(** A response under an id that nobody has. *)
Lemma respond_unknown maxIOVcount envs st uid msg ip port :
  ok st → 0 ≤ uid < 2 ^ 31 → connectionUids_ st !! uid = None → terminate_ st = false →
  ThreadDeque.deque_ (sendBuffer_ st) = [] →
  ∃ st2, recvNeedToSendFromServer uid msg ip port st = Ok st2 ∧
         processPipe maxIOVcount envs st2 = Undef.
Proof.
  intros Hok Huid Hnone Ht Hs. unfold recvNeedToSendFromServer. rewrite Ht.
  set (m := Some (SendData.mk "s" uid msg ip port)).
  destruct (queue_spec st m Hok) as (d & -> & _ & Hd); [by rewrite Hs|].
  rewrite Hs in Hd. cbn [mbind outcome_bind].
  eexists. split; [done|]. unfold processPipe. cbn [sendBuffer_ set_epoller set_sendBuffer].
  destruct (ThreadDeque.swap_spec _ _ [] Hd) as (d' & -> & _); [done|]. cbn [app].
  rewrite (bool_decide_false ([m] = [])) by done. cbn [pipe_loop]. unfold pipe_one, m.
  cbn [deref mbind outcome_bind SendData.cmd SendData.uid]. cbn [Ascii.eqb Bool.eqb].
  unfold lookup_uid. cbn [connectionUids_ set_epoller set_sendBuffer].
  rewrite i32_small by lia. by rewrite Hnone.
Qed.

(** A batch of responses to open connections; [fds] are their descriptors. *)
Definition response uid (r : bytes * (bytes * Z)) : utagSendData :=
  Some (SendData.mk "s" uid r.1 r.2.1 r.2.2).

Definition open_on (fds : Z → Z) uid st : Prop := ∃ n c, live uid n c st ∧ Connection.fd_ c = fds uid.

(** What is passed to [::send] for them: nothing for an empty response. *)
Definition sends (fds : Z → Z) (l : list (Z * (bytes * (bytes * Z)))) : list (Z * bytes) :=
  (λ x, (fds x.1, x.2.1)) <$> filter (λ x, x.2.1 ≠ []) l.

Lemma pipe_loop_answers maxIOVcount fds l : ∀ envs st,
  ok st → Forall (λ x, open_on fds x.1 st) l →
  pipe_loop maxIOVcount ((λ x, response x.1 x.2) <$> l) envs st =
    Ok (set_sent (sent st ++ sends fds l) st).
Proof.
  unfold sends. induction l as [|[uid r] l IH]; intros envs st Hok Hl.
  { cbn. rewrite app_nil_r. by destruct st. }
  apply Forall_cons in Hl as [(n & c & Hlive & Hfd) Hl]. rewrite !fmap_cons. cbn [pipe_loop fst snd] in *.
  assert (∀ env, pipe_one maxIOVcount (response uid r) env st =
    Ok (if bool_decide (r.1 = []) then st else set_sent (sent st ++ [(fds uid, r.1)]) st)) as Hone.
  { intros env. rewrite <- Hfd. by apply (pipe_send maxIOVcount st uid n c env r.1 r.2.1 r.2.2). }
  rewrite Hone. cbn [mbind outcome_bind].
  case_bool_decide as Hr.
  - rewrite filter_cons_False by (cbn; tauto). by apply IH.
  - rewrite filter_cons_True by done. rewrite IH; [|by apply ok_sent|done].
    cbn [sent set_sent]. unfold set_sent. cbn. by rewrite <- app_assoc.
Qed.

(** A response under an id that no connection has. *)
Lemma pipe_one_unknown maxIOVcount uid r env st :
  0 ≤ uid < 2 ^ 31 → (∀ n, connectionUids_ st !! uid ≠ Some (Some n)) →
  pipe_one maxIOVcount (response uid r) env st = Undef.
Proof.
  intros Huid Hno. unfold pipe_one, response. cbn [deref mbind outcome_bind SendData.cmd SendData.uid].
  cbn [Ascii.eqb Bool.eqb]. unfold lookup_uid. rewrite i32_small by lia.
  destruct (connectionUids_ st !! uid) as [[n|]|] eqn:Hu; [by destruct (Hno n)|done|done].
Qed.

Lemma pipe_loop_app maxIOVcount l1 l2 : ∀ envs st,
  pipe_loop maxIOVcount (l1 ++ l2) envs st =
  (st ← pipe_loop maxIOVcount l1 envs st; pipe_loop maxIOVcount l2 (drop (length l1) envs) st).
Proof.
  induction l1 as [|m l1 IH]; intros envs st; [done|]. cbn [app pipe_loop length].
  destruct (pipe_one _ _ _ _) as [st1| | | |]; cbn [mbind outcome_bind]; try done.
  rewrite IH. replace (drop (S (length l1)) envs) with (drop (length l1) (tail envs)); [done|].
  destruct envs; cbn [tail]; [by rewrite !drop_nil|done].
Qed.

Lemma processPipe_unknown maxIOVcount envs fds st l1 uid r l2 :
  ok st → Forall (λ x, open_on fds x.1 st) l1 → 0 ≤ uid < 2 ^ 31 →
  (∀ n, connectionUids_ st !! uid ≠ Some (Some n)) →
  ThreadDeque.deque_ (sendBuffer_ st) = ((λ x, response x.1 x.2) <$> l1 ++ (uid, r) :: l2) →
  processPipe maxIOVcount envs st = Undef.
Proof.
  intros Hok Hl Huid Hno Hd. destruct (ok_send _ Hok) as [q Hr].
  assert (ThreadDeque.deque_ (sendBuffer_ st) = q) as Hq by apply Hr.
  destruct (ThreadDeque.swap_spec _ _ [] Hr) as (d & Hsw & Hrd & _); [done|].
  unfold processPipe. rewrite Hsw. rewrite <- Hq, Hd, fmap_app. rewrite bool_decide_false by by destruct l1.
  assert (ok (set_sendBuffer d st)) as Hok' by (apply ok_sendBuffer; [done|by eexists]).
  rewrite pipe_loop_app, (pipe_loop_answers maxIOVcount fds) by done. cbn [mbind outcome_bind fmap list_fmap].
  cbn [pipe_loop]. by rewrite pipe_one_unknown.
Qed.

Lemma processPipe_answers maxIOVcount envs fds st l :
  ok st → Forall (λ x, open_on fds x.1 st) l →
  ThreadDeque.deque_ (sendBuffer_ st) = (λ x, response x.1 x.2) <$> l →
  ∃ st', processPipe maxIOVcount envs st = Ok st' ∧ sent st' = sent st ++ sends fds l ∧
    ok st' ∧ ThreadDeque.deque_ (sendBuffer_ st') = [] ∧ terminate_ st' = terminate_ st ∧
    shared st' = shared st ∧ same_conns st st'.
Proof.
  intros Hok Hl Hd. destruct (ok_send _ Hok) as [l0 Hr].
  set (q := (λ x, response x.1 x.2) <$> l) in *.
  assert (l0 = q) as -> by (rewrite <- Hd; symmetry; apply Hr).
  destruct (ThreadDeque.swap_spec _ _ [] Hr) as (d & Hsw & Hrd & _); [done|].
  unfold processPipe. rewrite Hsw.
  assert ((if bool_decide (q = []) then [] else q) = q) as -> by by case_bool_decide.
  assert (ok (set_sendBuffer d st)) as Hok' by (apply ok_sendBuffer; [done|by eexists]).
  unfold q. rewrite (pipe_loop_answers maxIOVcount fds) by done.
  eexists. split; [done|]. split; [done|]. split; [by apply ok_sent|].
  split; [|done]. destruct Hrd as [Hd0 _]. cbn. case_bool_decide; apply Hd0.
Qed.

Lemma processPipe_sends maxIOVcount envs st uid n c rs :
  ok st → live uid n c st → Forall (λ r, r.1 ≠ []) rs →
  ThreadDeque.deque_ (sendBuffer_ st) = response uid <$> rs →
  ∃ st', processPipe maxIOVcount envs st = Ok st' ∧ live uid n c st' ∧
    sent st' = sent st ++ ((λ r, (Connection.fd_ c, r.1)) <$> rs) ∧
    ok st' ∧ ThreadDeque.deque_ (sendBuffer_ st') = [] ∧ terminate_ st' = terminate_ st ∧
    shared st' = shared st ∧ keeps uid st st'.
Proof.
  intros Hok Hlive Hrs Hd.
  destruct (processPipe_answers maxIOVcount envs (λ _, Connection.fd_ c) st (pair uid <$> rs) Hok)
    as (st' & Hp & Hse & Hok' & Hd' & Ht & Hsh & Hk).
  - apply Forall_fmap, Forall_true. intros r. by exists n, c.
  - by rewrite Hd, <- list_fmap_compose.
  - exists st'. split; [done|]. split; [by apply (same_conns_live st)|].
    split; [|do 4 (split; [done|]); by apply same_conns_keeps].
    rewrite Hse. f_equal. unfold sends. rewrite filter_all.
    + by rewrite <- list_fmap_compose.
    + intros x (r & -> & Hr)%list_elem_of_fmap. by apply (proj1 (Forall_forall _ _) Hrs).
Qed.

(** The requests that a read on an open connection completes are appended
    to its adapter's queue in order, each with the id and the descriptor of that
    connection; and a response queued under the id of one of them is passed to
    [::send] on that same descriptor, exactly once. *)
Theorem requests_get_their_responses maxIOVcount ev reads env st uid n c msgs c1 a l
    (Hok : ok st) (Hlive : live uid n c st) (Hu : u32 (data ev) = uid) (Hev : events ev = EPOLLIN)
    (Hrecv : Connection.recv reads c = Ok (i32 (zlen msgs), msgs, c1)) (Hne : msgs ≠ [])
    (Hlen : zlen msgs < 2 ^ 31 - 1) (Hroom : room (zlen msgs) (adapters (shared st)))
    (Ha : Connection.bindAdapter_ c = Some a) (Hq : queue (adapters (shared st)) a l)
    (Ht : terminate_ st = false) (Hs : ThreadDeque.deque_ (sendBuffer_ st) = []) :
  ∃ st1, processNet maxIOVcount ev reads env st = Ok st1 ∧
    queue (adapters (shared st1)) a (l ++ (Some <$> msgs)) ∧
    (∀ m, m ∈ msgs → RecvData.uid m = uid ∧ RecvData.fd m = Connection.fd_ c ∧
       ∀ msg ip port envs, msg ≠ [] →
       ∃ st', (st1 ← recvNeedToSendFromServer (RecvData.uid m) msg ip port st1;
               processPipe maxIOVcount envs st1) = Ok st' ∧
              sent st' = sent st ++ [(RecvData.fd m, msg)] ∧ live uid n c1 st').
Proof.
  destruct (processNet_requests maxIOVcount ev reads env st uid n c msgs c1 a)
    as (m' & gs & Hp & Hok1 & Hlive1 & Hg & _); try done.
  destruct (Connection.recv_fields _ _ _ _ _ Hrecv) as (Hc1 & (reqs & ->) & _).
  destruct (ok_live _ _ _ _ Hok Hlive) as [[Hcu _ _ _ _] _].
  eexists. split; [exact Hp|]. split; [by apply (grown_queue _ _ _ _ Hg)|].
  intros m (req & -> & _)%list_elem_of_fmap. cbn [RecvData.uid RecvData.fd Connection.recv_msg].
  rewrite Hcu. split; [done|]. split; [done|]. intros msg ip port envs Hmsg.
  destruct (respond_live maxIOVcount envs _ uid n c1 msg ip port Hok1 Hlive1 Ht Hs Hmsg)
    as (st' & Hst' & _ & Hl' & Hsent).
  exists st'. split; [exact Hst'|]. split; [|done]. rewrite Hsent, Hc1. done.
Qed.

(** A client that hangs up before its response is ready brings the server
    down: the response is queued under an id that [connectionUids_] no longer
    has, the subscript inserts a null pointer, and [conSend] follows it. *)
Theorem response_after_hangup_crashes maxIOVcount ev reads env st uid n c msg ip port envs
    (Hok : ok st) (Hlive : live uid n c st) (Hu : u32 (data ev) = uid) (Hev : events ev = EPOLLHUP)
    (Hroom : room 1 (adapters (shared st)))
    (Ht : terminate_ st = false) (Hs : ThreadDeque.deque_ (sendBuffer_ st) = []) :
  ∃ st1 st2, processNet maxIOVcount ev reads env st = Ok st1 ∧
    recvNeedToSendFromServer uid msg ip port st1 = Ok st2 ∧
    processPipe maxIOVcount envs st2 = Undef.
Proof.
  destruct (lookup_live _ _ _ _ Hok Hlive) as [Hrange Hlook].
  destruct (close_spec st uid n c EM_SERVER_CLOSE Hok Hlive Hroom)
    as (st1 & Hst1 & Hok1 & Hu1 & Hpr & _ & _).
  exists st1. unfold processNet. rewrite Hu, Hlook, Hev.
  change (has EPOLLHUP EPOLLERR || has EPOLLHUP EPOLLHUP) with true. cbv iota. rewrite Hst1.
  destruct (respond_unknown maxIOVcount envs st1 uid msg ip port Hok1) as (st2 & ? & ?).
  - lia.
  - by rewrite Hu1, lookup_delete_eq.
  - by rewrite (progress_terminate _ _ _ Hpr).
  - by rewrite (progress_send _ _ _ Hpr).
  - by exists st2.
Qed.

(** ** Ids are not returned *)

(** A client connects and hangs up. *)
Definition visit maxIOVcount listenfd garbage (r : accept_result) st : outcome (t B) :=
  '(_, st1) ← accept listenfd garbage r st;
  uid ← deref (head (free_ st));
  processNet maxIOVcount (mk_event uid EPOLLHUP) [] [] st1.

Fixpoint visits maxIOVcount listenfd garbage (rs : list accept_result) st : outcome (t B) :=
  match rs with
  | [] => Ok st
  | r :: rs => st ← visit maxIOVcount listenfd garbage r st;
               visits maxIOVcount listenfd garbage rs st
  end.

Definition nobody st : Prop := ∀ uid n, connectionUids_ st !! uid ≠ Some (Some n).

Lemma visit_spec maxIOVcount listenfd garbage r a st :
  ok st → nobody st → listeners_ st !! listenfd = Some (Some a) → 0 < acc_ret r →
  free_ st ≠ [] → room 1 (adapters (shared st)) →
  ∃ st', visit maxIOVcount listenfd garbage r st = Ok st' ∧ ok st' ∧ nobody st' ∧
    listeners_ st' = listeners_ st ∧ free_ st' = tail (free_ st) ∧
    ∀ k, room k (adapters (shared st)) → room (k - 1) (adapters (shared st')).
Proof.
  intros Hok Hno Hl Hr Hf Hroom.
  destruct (accept_spec listenfd garbage r st a Hok Hl Hf) as (b & st1 & Hacc & Hok1 & Hl1 & Hst1).
  rewrite (proj2 (Z.ltb_lt _ _) Hr) in Hst1.
  destruct Hst1 as (-> & Hf1 & uid & n & c & Hhead & Hnew & Hlive & _ & _ & Hu1 & Hsh & _).
  destruct (lookup_live _ _ _ _ Hok1 Hlive) as [Hrange Hlook]. rewrite <- Hsh in Hroom.
  destruct (close_spec st1 uid n c EM_SERVER_CLOSE Hok1 Hlive Hroom)
    as (st2 & Hst2 & Hok2 & Hu2 & [Hpf _ _ Hpl _ Hpr] & _ & _).
  exists st2. unfold visit. rewrite Hacc, Hhead. cbn [deref mbind outcome_bind].
  unfold processNet. cbn [data events]. rewrite u32_small by lia. rewrite Hlook.
  change (has EPOLLHUP EPOLLERR || has EPOLLHUP EPOLLHUP) with true. cbv iota. rewrite Hst2.
  split; [done|]. split; [done|]. split.
  { intros uid' n' Hu'. rewrite Hu2, Hu1 in Hu'.
    apply lookup_delete_Some in Hu' as [Hne Hu']. rewrite lookup_insert_ne in Hu' by done.
    by apply (Hno uid' n'). }
  split; [congruence|]. split; [congruence|]. intros k Hk. apply Hpr. by rewrite Hsh.
Qed.

(** The ids 1 to 2000 given out to connections are never given back: once as
    many clients as there are ids left have connected and hung up again, one
    after the other, nobody is connected and yet the next client makes
    [addTConnection] take the front of an empty list. *)
Theorem ids_run_out maxIOVcount listenfd garbage rs a st
    (Hok : ok st) (Hno : nobody st) (Hl : listeners_ st !! listenfd = Some (Some a))
    (Hrs : Forall (λ r, 0 < acc_ret r) rs) (Hlen : length rs = length (free_ st))
    (Hroom : room (zlen rs) (adapters (shared st))) :
  ∃ st', visits maxIOVcount listenfd garbage rs st = Ok st' ∧ nobody st' ∧
    ∀ r, 0 < acc_ret r → accept listenfd garbage r st' = Undef.
Proof.
  revert st Hok Hno Hl Hlen Hroom.
  induction Hrs as [|r rs Hr Hrs IH]; intros st Hok Hno Hl Hlen Hroom; cbn [visits length] in *.
  - exists st. split; [done|]. split; [done|]. intros r Hr. apply (accept_full _ _ _ _ a Hl); [|done].
    by destruct (free_ st).
  - destruct (visit_spec maxIOVcount listenfd garbage r a st Hok Hno Hl Hr)
      as (st1 & -> & Hok1 & Hno1 & Hl1 & Hf1 & Hr1).
    { by destruct (free_ st). }
    { eapply room_le; [|exact Hroom]. lia. }
    cbn [mbind outcome_bind]. apply IH; [done|done|by rewrite Hl1| |].
    + rewrite Hf1. destruct (free_ st); cbn in *; lia.
    + eapply room_le; [|exact (Hr1 _ Hroom)]. lia.
Qed.

End invariant.

(** ** Whatever happens to a thread *)

Section safety.
Context {B : Type} `{ByteQueueLaws B}.
Implicit Types (st : t B) (c : Connection.t B) (rb : B).

(** *** The receive buffers hold bytes *)

(** Every operation leaves the receive buffers alone, but for the read. *)
Definition buffers (P : B → Prop) st : Prop := map_Forall (λ _ c, P (Connection.recvBuffer_ c)) (conns st).

Lemma buffers_put P n c st : buffers P st → P (Connection.recvBuffer_ c) → buffers P (put_conn n c st).
Proof. intros Hb Hc. by apply map_Forall_insert_2. Qed.

Lemma buffers_conn P h n c st : buffers P st → conn h st = Ok (n, c) → P (Connection.recvBuffer_ c).
Proof.
  unfold conn. intros Hb (n' & Hn & (c' & Hc & [= <- <-])%bind_Ok)%bind_Ok.
  destruct (conns st !! n') as [c1|] eqn:Hl; [|done]. injection Hc as <-. by apply (Hb n').
Qed.

Lemma buffers_release P h st st' : buffers P st → release h st = Ok st' → buffers P st'.
Proof.
  unfold release. destruct h as [n|]; [|by intros ? [= <-]]. case_bool_decide; [by intros ? [= <-]|].
  intros Hb (c & _ & (u & _ & [= <-])%bind_Ok)%bind_Ok. by apply map_Forall_delete.
Qed.

Lemma insert_conns a l st st' : insertRecvDeque a l st = Ok st' → conns st' = conns st.
Proof.
  unfold insertRecvDeque. intros (n & _ & (ad & _ & ([[? ?] ?] & _ & [= <-])%bind_Ok)%bind_Ok)%bind_Ok. done.
Qed.

Lemma buffers_del P h ct st st' : buffers P st → delConnection h ct st = Ok st' → buffers P st'.
Proof.
  unfold delConnection. intros Hb ([n c] & Hc & Hd)%bind_Ok. destruct (negb _); [|by injection Hd as <-].
  apply bind_Ok in Hd as (st1 & Hi & [= <-]). apply insert_conns in Hi.
  pose proof (buffers_conn _ _ _ _ _ Hb Hc) as HP.
  assert (buffers P (put_conn n (Connection.close c) st1)) as Hput; [|exact Hput].
  apply buffers_put; [unfold buffers; by rewrite Hi|]. unfold Connection.close. by destruct (_ && _).
Qed.

Lemma send_finish_buffer c ret c' : Connection.send_finish c = Ok (ret, c') → Connection.recvBuffer_ c' = Connection.recvBuffer_ c.
Proof.
  unfold Connection.send_finish. destruct (_ <=? _); [intros (l & _ & [= _ <-])%bind_Ok; done|].
  destruct (_ && _); by intros [= _ <-].
Qed.

Lemma send_buffer_buffer m env b e c ret c' :
  Connection.send_buffer m env b e c = Ok (ret, c') → Connection.recvBuffer_ c' = Connection.recvBuffer_ c.
Proof.
  unfold Connection.send_buffer. destruct e.
  - intros (n & _ & Hs)%bind_Ok. destruct (_ =? _); [by injection Hs as _ <-|].
    apply bind_Ok in Hs as (l & _ & Hs). by apply send_finish_buffer in Hs.
  - cbv zeta. destruct (_ =? _); [by intros [= _ <-]|apply send_finish_buffer].
Qed.

Lemma buffers_pipe_one P maxIOVcount m env st st' :
  buffers P st → pipe_one maxIOVcount m env st = Ok st' → buffers P st'.
Proof.
  unfold pipe_one. intros Hb (msg & _ & Hp)%bind_Ok.
  assert (∀ u, let '(h, s) := lookup_uid u st in buffers P s) as Hlook
    by (intros u; unfold lookup_uid; destruct (_ !! i32 u); exact Hb).
  specialize (Hlook (SendData.uid msg)). destruct (Ascii.eqb _ _).
  - destruct (lookup_uid _ _) as [h s]. apply bind_Ok in Hp as ([r s1] & Hc & Hr).
    eapply buffers_release; [|exact Hr]. unfold conSend in Hc. apply bind_Ok in Hc as ([n c] & Hcn & Hc).
    apply bind_Ok in Hc as ([r' c'] & Hse & [= _ <-]).
    pose proof (buffers_conn _ _ _ _ _ Hlook Hcn) as HP.
    assert (buffers P (put_conn n c' s)) as Hput
      by (apply buffers_put; [done|by rewrite (send_buffer_buffer _ _ _ _ _ _ _ Hse)]).
    by case_bool_decide.
  - destruct (Ascii.eqb _ _); [|done]. destruct (lookup_uid _ _) as [[n|] s]; [|by injection Hp as <-].
    apply bind_Ok in Hp as ([n' c] & Hcn & Hp). pose proof (buffers_conn _ _ _ _ _ Hlook Hcn) as HP.
    cbv zeta in Hp. cbn [Connection.set_close] in Hp. apply bind_Ok in Hp as (s1 & Hd & Hr).
    eapply buffers_release; [|exact Hr].
    assert (buffers P (put_conn n' (Connection.set_close c).2 s)) as Hput by (by apply buffers_put).
    case_bool_decide; [by eapply buffers_del|by injection Hd as <-].
Qed.

Lemma buffers_pipe P maxIOVcount l : ∀ envs st st',
  buffers P st → pipe_loop maxIOVcount l envs st = Ok st' → buffers P st'.
Proof.
  induction l as [|m l IH]; intros envs st st' Hb Hp; cbn [pipe_loop] in Hp; [by injection Hp as <-|].
  apply bind_Ok in Hp as (st1 & H1 & Hp). eapply IH; [|exact Hp]. by eapply buffers_pipe_one.
Qed.

Lemma buffers_accept P listenfd garbage rs : ∀ st st',
  P bq_init → buffers P st → accept_loop listenfd garbage rs st = Ok st' → buffers P st'.
Proof.
  induction rs as [|r rs IH]; intros st st' Hi Hb Ha; cbn [accept_loop] in Ha; [by injection Ha as <-|].
  apply bind_Ok in Ha as ([b st1] & H1 & Ha).
  assert (buffers P st1) as Hb1.
  { intros n c Hc. destruct (accept_frame _ _ _ _ _ _ H1) as (_ & _ & _ & Hcs).
    destruct (Hcs n c Hc) as [Hold| ->]; [by apply (Hb n)|done]. }
  destruct b; [by eapply IH|by injection Ha as <-].
Qed.

Lemma buffers_net P maxIOVcount ev reads env st st' uid n c :
  ok st → live uid n c st → u32 (data ev) = uid → buffers P st →
  (∀ ret msgs c', Connection.recv reads c = Ok (ret, msgs, c') → P (Connection.recvBuffer_ c')) →
  processNet maxIOVcount ev reads env st = Ok st' → buffers P st'.
Proof.
  intros Hok Hlive Hu Hb HP. destruct (lookup_live _ _ _ _ Hok Hlive) as [_ Hlook].
  unfold processNet. rewrite Hu, Hlook. destruct (_ || _).
  { intros (st1 & Hd & Hr)%bind_Ok. eapply buffers_release; [|exact Hr]. by eapply buffers_del. }
  intros (st1 & H1 & (st2 & H2 & Hr)%bind_Ok)%bind_Ok. eapply buffers_release; [|exact Hr].
  assert (buffers P st1) as Hb1.
  { destruct (has _ _); [|by injection H1 as <-]. apply bind_Ok in H1 as ([[ret msgs] s1] & Hc & H1).
    unfold conRecv in Hc. rewrite (conn_live _ _ _ _ Hlive) in Hc. cbn [mbind outcome_bind] in Hc.
    apply bind_Ok in Hc as ([[r' m'] c'] & Hre & [= _ _ <-]).
    pose proof (buffers_put P n c' st Hb (HP _ _ _ Hre)) as Hput.
    apply bind_Ok in H1 as (s2 & Hd & H1).
    assert (buffers P s2) as Hb2 by (destruct (_ <? _); [by eapply buffers_del|by injection Hd as <-]).
    case_bool_decide; [by injection H1 as <-|]. apply bind_Ok in H1 as ([n2 c2] & _ & Hi).
    unfold buffers. by rewrite (insert_conns _ _ _ _ Hi). }
  destruct (has (events ev) EPOLLOUT); [|by injection H2 as <-]. apply bind_Ok in H2 as ([r s2] & Hc & [= <-]).
  unfold conSend_rest in Hc. apply bind_Ok in Hc as ([n2 c2] & Hcn & Hc).
  apply bind_Ok in Hc as ([r2 c3] & Hse & [= _ <-]). apply buffers_put; [done|].
  assert (Connection.recvBuffer_ c3 = Connection.recvBuffer_ c2) as ->; [|by eapply buffers_conn].
  unfold Connection.send in Hse. case_bool_decide; [by injection Hse as _ <-|].
  by eapply send_buffer_buffer.
Qed.

(** *** Runs *)

(** The receive buffer holds bytes. *)
Definition holds_bytes rb : Prop := ∃ q, bq_repr rb (Some <$> q).

Definition safe st : Prop := ok st ∧ buffers holds_bytes st.

(** What the client of [c] may send: at no place where a frame begins is there a
    length between -5 and -1, and what arrives fits into the buffer and the queues. *)
Definition readable (reads : list Connection.read_result) c st : Prop :=
  let '(closed, d) := Connection.read_data reads in
  room 1 (adapters (shared st)) ∧
  ∀ q, bq_repr (Connection.recvBuffer_ c) (Some <$> q) →
    zlen (q ++ d) ≤ bq_limit ∧
    (closed = false → ¬ Connection.negative_length (q ++ d) ∧
       ∀ reqs rest, Connection.requests_in (q ++ d) = Ok (reqs, rest) →
         zlen reqs < 2 ^ 31 - 1 ∧ room (zlen reqs + 1) (adapters (shared st))).

Lemma readable_returns reads c st :
  holds_bytes (Connection.recvBuffer_ c) → Connection.listenfd_ c ≠ -1 → readable reads c st →
  returns reads c st ∧
  ∀ ret msgs c', Connection.recv reads c = Ok (ret, msgs, c') → holds_bytes (Connection.recvBuffer_ c').
Proof.
  unfold readable. intros [q Hq] Hl Hr. destruct (Connection.read_data reads) as [closed d] eqn:Hd.
  destruct Hr as [Hroom Hr]. destruct (Hr q Hq) as [Hlim Hneg].
  pose proof (Connection.recv_exact reads c q Hq Hl) as He. unfold Connection.received in He. rewrite Hd in He.
  specialize (He Hlim).
  assert (∀ x y, (let '(ret, msgs, c') := x in let '(ret', reqs, rest) := y in
      ret = ret' ∧ msgs = Connection.recv_msg c <$> reqs ∧
      ∃ rb, c' = Connection.set_recvBuffer rb c ∧ bq_repr rb (Some <$> rest)) →
    Connection.recv reads c = Ok x → zlen y.1.2 < 2 ^ 31 - 1 → room (zlen y.1.2 + 1) (adapters (shared st)) →
    returns reads c st ∧
    ∀ ret msgs c', Connection.recv reads c = Ok (ret, msgs, c') → holds_bytes (Connection.recvBuffer_ c')) as Hgen.
  { intros [[ret msgs] c'] [[ret' reqs] rest] (-> & -> & rb & -> & Hrb) Hrecv Hlen Hro. cbn in Hlen, Hro.
    split; [eexists _, _, _; split; [exact Hrecv|]; by rewrite length_fmap|].
    intros r m c2 Hr2. rewrite Hrecv in Hr2. simplify_eq. by exists rest. }
  destruct closed.
  - destruct (Connection.recv reads c) as [[[ret msgs] c']| | | |] eqn:Hrecv; try done.
    apply (Hgen (ret, msgs, c') (-1, [], q ++ d)); [exact He|done|done|exact Hroom].
  - destruct (Hneg eq_refl) as [Hno Hfit]. destruct (proj1 (Connection.requests_in_Ok _) Hno) as (reqs & rest & Hreqs).
    destruct (Hfit _ _ Hreqs) as [Hlen Hro]. rewrite Hreqs in He. cbn [mbind outcome_bind] in He.
    destruct (Connection.recv reads c) as [[[ret msgs] c']| | | |] eqn:Hrecv; try done.
    apply (Hgen (ret, msgs, c') (i32 (zlen reqs), reqs, rest)); [exact He|done|exact Hlen|exact Hro].
Qed.

(** What the environment is assumed to do: connections are accepted on bound
    sockets and not more of them than there are ids left; epoll reports live
    connections; responses are queued for connections that are still open when they
    are sent. *)
Definition op_ok (o : op) st : Prop :=
  match o with
  | Event ev env =>
      let h := u32 (Z.shiftr (data ev) 32) in
      (h = ET_LISTEN → ∃ a, listeners_ st !! i32 (data ev) = Some (Some a) ∧
                            (length (env_accept env) ≤ length (free_ st))%nat) ∧
      (h = ET_NOTIFY → ∃ l, ThreadDeque.repr (sendBuffer_ st) l ∧ pipe_ok l st ∧
                            room (zlen l) (adapters (shared st))) ∧
      (h = ET_NET → ∃ n c, live (u32 (data ev)) n c st ∧ readable (env_read env) c st)
  | Respond _ _ _ _ | AskClose _ => zlen (ThreadDeque.deque_ (sendBuffer_ st)) + 1 < 2 ^ 64
  | Terminate => True
  end.

Lemma net_step_spec maxIOVcount o st :
  safe st → op_ok o st → ∃ st', step maxIOVcount o st = Ok (tt, st') ∧ safe st'.
Proof.
  intros [Hok Hb] Hop. unfold step. destruct o as [ev env|uid msg ip port|uid|]; cbn [op_ok] in Hop.
  - destruct Hop as (Hlisten & Hnotify & Hnet). unfold dispatch.
    set (h := u32 (Z.shiftr (data ev) 32)) in *.
    destruct (Z.eqb_spec h ET_LISTEN) as [He|_].
    { destruct (has (events ev) EPOLLIN); [|by exists st]. destruct (Hlisten He) as (a & Hl & Hlen).
      destruct (accept_loop_spec (i32 (data ev)) (env_garbage env) (env_accept env) a st Hok Hl Hlen)
        as (st' & Ha & Hok'). rewrite Ha. exists st'. split; [done|]. split; [done|].
      eapply buffers_accept; [|exact Hb|exact Ha]. exists []. apply bq_init_repr. }
    destruct (h =? ET_CLOSE); [by exists st|].
    destruct (Z.eqb_spec h ET_NOTIFY) as [He|_].
    { destruct (Hnotify He) as (l & Hr & Hp & Hroom).
      destruct (processPipe_spec maxIOVcount (env_pipe env) st l Hok Hr Hp Hroom)
        as (st' & Hpi & Hok' & _). rewrite Hpi. exists st'. split; [done|]. split; [done|].
      unfold processPipe in Hpi. destruct (ThreadDeque.swap _ _ _ _ _) as [[? ?] ?].
      eapply buffers_pipe; [|exact Hpi]. exact Hb. }
    destruct (Z.eqb_spec h ET_NET) as [He|_]; [|by exists st].
    destruct (Hnet He) as (n & c & Hlive & Hread).
    destruct (readable_returns (env_read env) c st) as [Hret Hbytes]; [|by eapply ok_live|done|].
    { destruct Hlive as [_ Hc]. by apply (Hb n). }
    destruct (processNet_spec maxIOVcount ev (env_read env) (env_send env) st _ n c Hok Hlive
      eq_refl Hret) as (st' & Hp & Hok'). rewrite Hp. exists st'. split; [done|]. split; [done|].
    exact (buffers_net _ maxIOVcount ev (env_read env) (env_send env) st st' _ n c Hok Hlive eq_refl Hb Hbytes Hp).
  - unfold recvNeedToSendFromServer. destruct (terminate_ st); [by exists st|].
    destruct (queue_spec st (Some (SendData.mk "s" uid msg ip port)) Hok Hop)
      as (d & -> & Hok' & _). eexists. split; [done|]. split; [by apply ok_epoller|exact Hb].
  - unfold close. destruct (queue_spec st (Some (SendData.mk "c" uid [] [] 0)) Hok Hop)
      as (d & -> & Hok' & _). eexists. split; [done|]. split; [by apply ok_epoller|exact Hb].
  - eexists. split; [done|]. split; [|exact Hb]. apply ok_epoller. apply ok_sendBuffer; [split; apply Hok|].
    destruct (ok_send _ Hok) as [l Hr]. by exists l.
Qed.

Lemma net_run_spec maxIOVcount ops : ∀ st,
  safe st → admissible op_ok (step maxIOVcount) ops st →
  ∃ obs st', run_ops (step maxIOVcount) ops st = Ok (obs, st') ∧ safe st'.
Proof.
  induction ops as [|o ops IH]; intros st Hok Hadm; [by exists [], st|].
  destruct Hadm as [Hop Hadm]. cbn [run_ops].
  destruct (net_step_spec maxIOVcount o st Hok Hop) as (st1 & Hs & Hok1).
  rewrite Hs in Hadm |- *. cbn [mbind outcome_bind].
  destruct (IH st1 Hok1 Hadm) as (obs & st2 & -> & Hok2). cbn [mbind outcome_bind]. by eexists _, st2.
Qed.

(** C14: a network thread that listens for an adapter, over any sequence of events
    and of messages from the handler threads: nothing aborts and no null or dangling
    pointer is followed, ids are handed out in order and never twice, every
    connection that is alive is found under its own id and every one that is gone
    has been closed and destroyed, and every receive buffer holds bytes that clients
    have sent.  The conditions ([op_ok]): accepted connections do not exceed the
    ids that are left, epoll reports open connections, responses are for
    connections that are still open, in no stream does a frame begin with a length
    between -5 and -1 ([negative_length]; all else may be sent, in any pieces), and
    what arrives fits: at most 2^62 bytes in a buffer and messages in a queue, and
    less than 2^31 - 1 requests in one read. *)
Theorem network_thread_safe maxIOVcount shutdown notify garbage sh a fd ops
    (Ha : is_Some (adapters sh !! a)) (Hfd : fd ≠ -1)
    (Hq : ∀ b ad, adapters sh !! b = Some ad → ∃ l, BindAdapter.waiting ad l) :
  ∃ st0, bind a fd (new shutdown notify garbage sh) = Ok (fd, st0) ∧
    (admissible op_ok (step maxIOVcount) ops (createEpoll 256 st0) →
     ∃ obs st, run_ops (step maxIOVcount) ops (createEpoll 256 st0) = Ok (obs, st) ∧ safe st).
Proof.
  destruct (start_ok (B := B) shutdown notify garbage sh a fd Ha Hfd Hq) as (st0 & Hb & Hok).
  exists st0. split; [done|]. apply net_run_spec. split; [done|]. intros n c Hc.
  destruct Ha as [ad Had]. unfold bind, new in Hb. cbn [shared adapters] in Hb. rewrite Had in Hb.
  injection Hb as <-. cbn in Hc. by rewrite lookup_empty in Hc.
Qed.

End safety.

(** ** A thread at work *)

Definition one_adapter : Shared := mk_shared {[0%nat := BindAdapter.new]} ∅.

(** The thread listening on descriptor 7, and after one client has connected. *)
Definition listening : t Buffer.t :=
  match bind 0 7 (new 3 4 0 one_adapter) with
  | Ok (_, st) => createEpoll 256 st
  | _ => new 3 4 0 one_adapter
  end.

Definition a_client : accept_result := mk_accept 9 [] 80 false.

Definition connected : t Buffer.t :=
  match accept 7 false a_client listening with Ok (_, st) => st | _ => listening end.

(** The capacity of the queues, by computation. *)
Lemma room_compute n (m : gmap nat BindAdapter.t) :
  map_Forall (λ _ ad, zlen (ThreadDeque.deque_ (BindAdapter.receiveBuffer_ ad)) + n ≤ 2 ^ 62) m →
  room n m.
Proof. intros Hm a l (ad & Ha & <- & _). by apply (Hm a ad). Qed.

Lemma one_adapter_waiting b ad :
  adapters one_adapter !! b = Some ad → ∃ l, BindAdapter.waiting ad l.
Proof. cbn. intros Hb. apply lookup_singleton_Some in Hb as [_ <-]. by exists []. Qed.

Lemma listening_ok : ok listening.
Proof.
  destruct (start_ok (B := Buffer.t) 3 4 0 one_adapter 0 7) as (st & Hb & Hok);
    [by eexists|done|apply one_adapter_waiting|].
  unfold listening. by rewrite Hb.
Qed.

Lemma connected_ok : ok connected ∧ ∃ c, live 1 0 c connected ∧ Connection.fd_ c = 9 ∧
  Connection.bindAdapter_ c = Some 0%nat ∧ Connection.listenfd_ c = 7 ∧
  Connection.recvBuffer_ c = Buffer.init.
Proof.
  split; [|by eexists].
  destruct (accept_spec 7 false a_client listening 0 listening_ok) as (b & st & Ha & Hok & _);
    [done|done|]. unfold connected. by rewrite Ha.
Qed.

Definition hello : bytes := ["1"; ":"; "h"; "i"]%char.

Lemma connected_room n : n ≤ 2 ^ 61 → room n (adapters (shared connected)).
Proof.
  intros Hn. apply room_compute. intros b ad Hb.
  assert (adapters (shared connected) = {[0%nat := BindAdapter.set_fd 7 BindAdapter.new]}) as Heq
    by (vm_compute; reflexivity).
  rewrite Heq in Hb. apply lookup_singleton_Some in Hb as [_ <-]. cbn. lia.
Qed.

Lemma hello_received c :
  conns connected !! 0%nat = Some c →
  ∃ m c', Connection.recv [Connection.Rd (Wire.frame hello)] c = Ok (1, [m], c') ∧
    RecvData.buffer m = hello ∧ RecvData.uid m = 1 ∧ RecvData.fd m = 9.
Proof.
  intros Hc.
  assert (match Connection.recv [Connection.Rd (Wire.frame hello)]
            (default (Connection.mk None 0 0 0 [] 0 false Buffer.init []) (conns connected !! 0%nat)) with
          | Ok (ret, [m], c') => (ret, RecvData.buffer m, RecvData.uid m, RecvData.fd m)
          | _ => (0, [], 0, 0)
          end = (1, hello, 1, 9)) as Hr by (vm_compute; reflexivity).
  rewrite Hc in Hr. change (default _ (Some c)) with c in Hr. revert Hr.
  generalize (Connection.recv [Connection.Rd (Wire.frame hello)] c). intros r Hr.
  destruct r as [[[ret [|m [|m2 ms]]] c']| | | |]; try discriminate.
  injection Hr as -> Hb Hu Hf. by exists m, c'.
Qed.

(** A client connects, sends a request, gets its response and is closed. *)
Definition session : list op :=
  [Event (mk_event (Z.lor (H64 ET_LISTEN) 7) EPOLLIN) (mk_env [a_client] false [] [] []);
   Event (mk_event 1 EPOLLIN) (mk_env [] false [Connection.Rd (Wire.frame hello)] [] []);
   Respond 1 hello [] 80;
   AskClose 2;
   Terminate].

Definition after (n : nat) : t Buffer.t :=
  match run_ops (step 16) (take n session) listening with Ok (_, st) => st | _ => listening end.

Lemma session_ok : admissible op_ok (step 16) session listening.
Proof.
  assert (∀ n o, session !! n = Some o → step 16 o (after n) = Ok (tt, after (S n))) as Hstep.
  { intros n o Hn. do 5 (destruct n as [|n]; [injection Hn as <-; vm_compute; reflexivity|]). done. }
  change listening with (after 0). unfold session. cbn [admissible].
  split.
  { split; [|split; [done|done]]. intros _. exists 0%nat. split; [done|]. by apply Nat.leb_le. }
  rewrite (Hstep 0%nat) by done. split.
  { split; [done|split; [done|]]. intros _.
    destruct connected_ok as (_ & c & Hl & Hfd & Ha & Hli & Hrb).
    assert (after 1 = connected) as -> by (vm_compute; reflexivity).
    exists 0%nat, c. split; [exact Hl|].
    split; [by apply connected_room|]. intros q Hq. rewrite Hrb in Hq. destruct Hq as [_ Hq].
    destruct q as [|b q]; [|discriminate Hq]. split; [vm_compute; discriminate|]. intros _.
    assert (Connection.requests_in (Wire.frame hello) = Ok ([hello], [])) as Hreqs by (vm_compute; reflexivity).
    split; [apply Connection.requests_in_Ok; by eexists _, _|].
    intros reqs rest Hrr. assert (Ok ([hello], []) = Ok (reqs, rest)) as Heq by (rewrite <- Hreqs; exact Hrr).
    injection Heq as <- <-. split; [done|]. by apply connected_room. }
  rewrite (Hstep 1%nat) by done. split; [by_compute|].
  rewrite (Hstep 2%nat) by done. split; [by_compute|].
  rewrite (Hstep 3%nat) by done. split; [done|].
  by rewrite (Hstep 4%nat) by done.
Qed.

Lemma network_thread_safe_witness :
  ∃ obs st, run_ops (step 16) session listening = Ok (obs, st) ∧ safe st.
Proof.
  destruct (network_thread_safe (B := Buffer.t) 16 3 4 0 one_adapter 0 7 session) as (st0 & Hb & Hrun).
  - by eexists.
  - done.
  - apply one_adapter_waiting.
  - assert (createEpoll 256 st0 = listening) as Heq by (unfold listening; by rewrite Hb).
    rewrite Heq in Hrun. apply Hrun, session_ok.
Defined.

Lemma requests_get_their_responses_witness :
  ∃ msgs st1, processNet 16 (mk_event 1 EPOLLIN) [Connection.Rd (Wire.frame hello)] [] connected
    = Ok st1 ∧ queue (adapters (shared st1)) 0 (Some <$> msgs) ∧
  RecvData.buffer <$> msgs = [hello] ∧
  ∃ st', (st1 ← recvNeedToSendFromServer 1 hello [] 80 st1; processPipe 16 [] st1) = Ok st' ∧
         sent st' = [(9, hello)].
Proof.
  destruct connected_ok as (Hok & c & Hl & Hfd & Ha & Hli & Hrb). 
  destruct (hello_received c) as (m & c1 & Hrecv & Hbuf & Hm & Hmf); [apply Hl|].
  destruct (requests_get_their_responses 16 (mk_event 1 EPOLLIN) [Connection.Rd (Wire.frame hello)] []
    connected 1 0 c [m] c1 0 [] Hok Hl eq_refl eq_refl Hrecv) as (st1 & Hp & Hq & Hall).
  - done.
  - done.
  - apply connected_room. cbn. lia.
  - exact Ha.
  - eexists. split; [done|]. done.
  - done.
  - done.
  - exists [m], st1. split; [exact Hp|]. split; [exact Hq|]. split; [cbn; by rewrite Hbuf|].
    destruct (Hall m) as (_ & _ & Hresp); [left|].
    destruct (Hresp hello [] 80 []) as (st' & Hst' & Hsent & _); [done|].
    exists st'. rewrite <- Hm. split; [exact Hst'|]. rewrite Hsent, Hmf. done.
Defined.

Lemma response_after_hangup_crashes_witness :
  ∃ st1 st2, processNet 16 (mk_event 1 EPOLLHUP) [] [] connected = Ok st1 ∧
    recvNeedToSendFromServer 1 hello [] 80 st1 = Ok st2 ∧ processPipe 16 [] st2 = Undef.
Proof.
  destruct connected_ok as (Hok & c & Hl & _).
  apply (response_after_hangup_crashes 16 (mk_event 1 EPOLLHUP) [] [] connected 1 0 c hello [] 80 []
    Hok Hl); [done|done|by apply connected_room|done|done].
Defined.

Lemma ids_run_out_witness :
  ∃ st', visits 16 7 false (replicate 2000 a_client) listening = Ok st' ∧ nobody st' ∧
    accept 7 false a_client st' = Undef.
Proof.
  destruct (ids_run_out 16 7 false (replicate 2000 a_client) 0 listening listening_ok)
    as (st' & Hv & Hno & Hacc).
  - intros uid n Hu. vm_compute in Hu. discriminate.
  - done.
  - by apply Forall_replicate.
  - vm_compute. reflexivity.
  - rewrite length_replicate. apply room_compute. intros b ad Hb.
    assert (adapters (shared listening) = {[0%nat := BindAdapter.set_fd 7 BindAdapter.new]}) as Heq
      by (vm_compute; reflexivity).
    rewrite Heq in Hb. apply lookup_singleton_Some in Hb as [_ <-]. cbn. lia.
  - exists st'. split; [exact Hv|]. split; [exact Hno|]. by apply Hacc.
Defined.

End NetThread.
