(* ===== verification/EpollServer.v ===== *)
(** * EpollServer: EpollServer.h, EpollServer.cc

    The server owns the network threads and the groups of handlers.  Its
    functions are called by the handler threads and by the application; each
    picks a network thread by descriptor.  Adapters and groups are shared by
    all threads ([shared]). *)

From S2P Require Import Prelude ByteQueue Buffer Monitor ThreadDeque Message.
From S2P Require Import Connection Epoller BindAdapter NetThread.

Module EpollServer.

Record t (B : Type) := mk {
  netThreads_ : list (NetThread.t B);
  terminate_ : bool;
  handleStarted_ : bool;
  handleGroups_ : StringMap.t nat;
  monitor_ : Monitor.t;
  nextGroup : nat;
  nextHandle : nat;
  shared : NetThread.Shared
}.
Arguments mk {B}.
Arguments netThreads_ {B}.
Arguments terminate_ {B}.
Arguments handleStarted_ {B}.
Arguments handleGroups_ {B}.
Arguments monitor_ {B}.
Arguments nextGroup {B}.
Arguments nextHandle {B}.
Arguments shared {B}.

Section operations.
Context {B : Type} `{ByteQueue B}.
Implicit Types (s : t B).

Definition set_threads (l : list (NetThread.t B)) (sh : NetThread.Shared) s : t B :=
  mk l (terminate_ s) (handleStarted_ s) (handleGroups_ s) (monitor_ s) (nextGroup s)
     (nextHandle s) sh.

(** The constructor, with the descriptors that the threads' sockets get. *)
Definition new (sockets : list (Z * Z * Z)) (sh : NetThread.Shared) : t B :=
  mk ((λ f, NetThread.new f.1.1 f.1.2 f.2 sh) <$> sockets) false false [] Monitor.init 0 0 sh.

(** [f] on thread [i]: the thread sees the shared objects as they are now. *)
Definition on_thread {A} (i : nat) (f : NetThread.t B → outcome (A * NetThread.t B)) s
    : outcome (A * t B) :=
  th ← deref (netThreads_ s !! i);
  '(r, th) ← f (NetThread.set_shared (shared s) th);
  Ok (r, set_threads (<[i := th]> (netThreads_ s)) (NetThread.shared th) s).

Definition run_thread (i : nat) (f : NetThread.t B → outcome (NetThread.t B)) s : outcome (t B) :=
  '(_, s) ← on_thread i (λ th, th ← f th; Ok (tt, th)) s; Ok s.

(** [fd % netThreads_.size()], where [fd] becomes a [size_t]. *)
Definition getNetThreadByfd (fd : Z) s : outcome nat :=
  _ ← defined (negb (bool_decide (netThreads_ s = [])));
  Ok (Z.to_nat (u64 fd `mod` zlen (netThreads_ s))).

Definition send (uid : Z) (msg ip : bytes) (port fd : Z) s : outcome (t B) :=
  i ← getNetThreadByfd fd s;
  run_thread i (NetThread.recvNeedToSendFromServer uid msg ip port) s.

Definition close (uid fd : Z) s : outcome (t B) :=
  i ← getNetThreadByfd fd s;
  run_thread i (NetThread.close uid) s.

(** [bind(bind_adapter)]: always the first thread. *)
Definition bind (bind_adapter : nat) (fd : Z) s : outcome (Z * t B) :=
  on_thread 0 (NetThread.bind bind_adapter fd) s.

Definition addConnection (connection : nat) (fd : Z) s : outcome (t B) :=
  i ← getNetThreadByfd fd s;
  run_thread i (NetThread.addTConnection connection) s.

Definition createEpoll s : t B :=
  set_threads (NetThread.createEpoll 256 <$> netThreads_ s) (shared s) s.

(** [startHandle]: the handlers that it starts. *)
Definition startHandle s : outcome (list nat * t B) :=
  if handleStarted_ s then Ok ([], s)
  else
    hs ← foldr (λ g r, r ← r; grp ← deref (NetThread.groups (shared s) !! g.2);
                       Ok (HandleGroup.handles grp ++ r)) (Ok []) (handleGroups_ s);
    Ok (hs, mk (netThreads_ s) (terminate_ s) true (handleGroups_ s) (monitor_ s) (nextGroup s)
               (nextHandle s) (shared s)).

Definition terminate s : t B :=
  if terminate_ s then s
  else
    let m := Monitor.unlock (Monitor.notifyAll (Monitor.lock (monitor_ s))) in
    mk (netThreads_ s) true (handleStarted_ s) (handleGroups_ s) m (nextGroup s) (nextHandle s)
       (shared s).

(** [adapter->set_handleGroup(g)]. *)
Definition adapter_group (adapter g : nat) s : outcome (t B) :=
  a ← deref (NetThread.adapters (shared s) !! adapter);
  let a := BindAdapter.set_handleGroup (Some g) a in
  Ok (set_threads (netThreads_ s)
        (NetThread.mk_shared (<[adapter := a]> (NetThread.adapters (shared s)))
                             (NetThread.groups (shared s))) s).

(** A new group with [handleNum] handlers. *)
Definition new_group (group_name : bytes) (handleNum : Z) s : nat * t B :=
  let g := nextGroup s in
  let k := Z.to_nat handleNum in
  let grp := HandleGroup.mk group_name Monitor.init (seq (nextHandle s) k) [] in
  (g, mk (netThreads_ s) (terminate_ s) (handleStarted_ s)
         (StringMap.insert group_name g (handleGroups_ s)) (monitor_ s) (S g) (nextHandle s + k)
         (NetThread.mk_shared (NetThread.adapters (shared s))
                              (<[g := grp]> (NetThread.groups (shared s))))).

Definition set_handleGroup (group_name : bytes) (handleNum : Z) (adapter : nat) s
    : outcome (t B) :=
  '(g, s) ← (match StringMap.find group_name (handleGroups_ s) with
             | Some g => Ok (g, s)
             | None => let '(g, s) := new_group group_name handleNum s in
                       s ← adapter_group adapter g s; Ok (g, s)
             end);
  a ← deref (NetThread.adapters (shared s) !! adapter);
  grp ← deref (NetThread.groups (shared s) !! g);
  let grp := HandleGroup.mk (HandleGroup.name grp) (HandleGroup.monitor grp)
               (HandleGroup.handles grp)
               (StringMap.insert (BindAdapter.name_ a) adapter (HandleGroup.adapters grp)) in
  adapter_group adapter g
    (set_threads (netThreads_ s)
       (NetThread.mk_shared (NetThread.adapters (shared s))
                            (<[g := grp]> (NetThread.groups (shared s)))) s).

End operations.

(** ** The handlers *)

(** Every handler of every group is started. *)
Lemma startHandle_spec {B} s :
  handleStarted_ s = false →
  (∀ kg, kg ∈ handleGroups_ s → is_Some (NetThread.groups (shared s) !! kg.2)) →
  ∃ hs, startHandle (B := B) s = Ok (hs, mk (netThreads_ s) (terminate_ s) true (handleGroups_ s)
          (monitor_ s) (nextGroup s) (nextHandle s) (shared s)) ∧
    ∀ kg grp h, kg ∈ handleGroups_ s → NetThread.groups (shared s) !! kg.2 = Some grp →
      h ∈ HandleGroup.handles grp → h ∈ hs.
Proof.
  intros Hst. unfold startHandle. rewrite Hst. generalize (NetThread.groups (shared s)) as G.
  intros G Hg.
  assert (∃ hs, foldr (λ g r, r ← r; grp ← deref (G !! g.2); Ok (HandleGroup.handles grp ++ r))
      (Ok []) (handleGroups_ s) = Ok hs ∧
    ∀ kg grp h, kg ∈ handleGroups_ s → G !! kg.2 = Some grp → h ∈ HandleGroup.handles grp → h ∈ hs)
    as (hs & Hhs & Hin).
  { induction (handleGroups_ s) as [|kg l IH]; [exists []; set_solver|].
    destruct IH as (hs & Hhs & Hin); [intros; apply Hg; by right|].
    destruct (Hg kg) as [grp Hgrp]; [left|]. cbn [foldr]. rewrite Hhs. cbn [mbind outcome_bind].
    rewrite Hgrp. cbn [deref mbind outcome_bind]. eexists. split; [done|].
    intros kg' grp' h [->|Hkg]%elem_of_cons Hgrp' Hh; apply elem_of_app.
    - left. by replace grp with grp' by congruence.
    - right. by eapply Hin. }
  rewrite Hhs. cbn [mbind outcome_bind]. by exists hs.
Qed.

(** ** Which thread gets a response *)

Section routing.
Context {B : Type} `{ByteQueue B}.
Implicit Types (s : t B) (th : NetThread.t B).

Lemma getNetThreadByfd_spec fd s :
  0 ≤ fd < 2 ^ 31 → netThreads_ s ≠ [] →
  getNetThreadByfd fd s = Ok (Z.to_nat (fd `mod` zlen (netThreads_ s))) ∧
  (Z.to_nat (fd `mod` zlen (netThreads_ s)) < length (netThreads_ s))%nat.
Proof.
  intros Hfd Hne. unfold getNetThreadByfd. rewrite bool_decide_false by done.
  rewrite u64_small by lia. split; [done|].
  assert (0 < zlen (netThreads_ s)) by (destruct (netThreads_ s); [done|cbn; lia]).
  pose proof (Z.mod_pos_bound fd (zlen (netThreads_ s))). lia.
Qed.

Lemma run_thread_Ok i f s th th' :
  netThreads_ s !! i = Some th → f (NetThread.set_shared (shared s) th) = Ok th' →
  run_thread i f s = Ok (set_threads (<[i := th']> (netThreads_ s)) (NetThread.shared th') s).
Proof.
  intros Hi Hf. unfold run_thread, on_thread. rewrite Hi. cbn [deref mbind outcome_bind].
  by rewrite Hf.
Qed.

(** [run_thread] and nothing but one thread. *)
Lemma run_thread_bind i f g s th :
  netThreads_ s !! i = Some th →
  (s1 ← run_thread i f s; run_thread i g s1) = run_thread i (λ th, th ← f th; g th) s.
Proof.
  intros Hi. destruct (f (NetThread.set_shared (shared s) th)) as [th1| | | |] eqn:Hf.
  { rewrite (run_thread_Ok i f s th th1) by done. cbn [mbind outcome_bind].
    unfold run_thread, on_thread. rewrite Hi. cbn [deref mbind outcome_bind netThreads_ set_threads].
    rewrite Hf. cbn [mbind outcome_bind].
    rewrite list_lookup_insert_eq by (by eapply lookup_lt_Some).
    cbn [deref mbind outcome_bind shared set_threads].
    replace (NetThread.set_shared (NetThread.shared th1) th1) with th1 by by destruct th1.
    destruct (g th1) as [th2| | | |]; cbn [mbind outcome_bind]; try done.
    unfold set_threads. cbn. by rewrite list_insert_insert_eq. }
  all: unfold run_thread, on_thread; rewrite Hi; cbn [deref mbind outcome_bind];
    rewrite Hf; done.
Qed.

(** A server with one network thread, which is [th] when it next runs. *)
Definition single s (th : NetThread.t B) : Prop :=
  ∃ th0, netThreads_ s = [th0] ∧ NetThread.set_shared (shared s) th0 = th.

Lemma single_shared s th : single s th → NetThread.shared th = shared s.
Proof. by intros (th0 & _ & <-). Qed.

Lemma single_inj s th th' : single s th → single s th' → th' = th.
Proof. intros (th0 & Hth & <-) (th1 & Hth' & <-). congruence. Qed.

Lemma run_single s th th' f :
  single s th → f th = Ok th' →
  ∃ s', run_thread 0 f s = Ok s' ∧ single s' th' ∧ handleGroups_ s' = handleGroups_ s.
Proof.
  intros (th0 & Hth & Hv) Hf. rewrite (run_thread_Ok 0 f s th0 th'); [|by rewrite Hth|by rewrite Hv].
  eexists. split; [done|]. split; [|done]. exists th'. split; [cbn; by rewrite Hth|by destruct th'].
Qed.

Lemma run_thread_single s th f :
  single s th →
  run_thread 0 f s =
    (th' ← f th; Ok (set_threads (<[0%nat := th']> (netThreads_ s)) (NetThread.shared th') s)).
Proof.
  intros (th0 & Hth & Hv). unfold run_thread, on_thread. rewrite Hth. cbn [lookup list_lookup deref mbind outcome_bind].
  rewrite Hv. by destruct (f th).
Qed.

Lemma send_single s th uid msg ip port fd :
  single s th → NetThread.ok th → NetThread.terminate_ th = false →
  zlen (ThreadDeque.deque_ (NetThread.sendBuffer_ th)) + 1 < 2 ^ 64 →
  ∃ s' th', send uid msg ip port fd s = Ok s' ∧ single s' th' ∧ NetThread.ok th' ∧
    NetThread.terminate_ th' = false ∧ NetThread.sent th' = NetThread.sent th ∧
    NetThread.shared th' = NetThread.shared th ∧
    ThreadDeque.deque_ (NetThread.sendBuffer_ th') =
      ThreadDeque.deque_ (NetThread.sendBuffer_ th) ++ [NetThread.response uid (msg, (ip, port))] ∧
    NetThread.same_conns th th'.
Proof.
  intros Hs Hok Ht Hlen. unfold send, getNetThreadByfd. pose proof Hs as (th0 & Hth & _).
  rewrite bool_decide_false by by rewrite Hth. rewrite Hth. cbn [negb defined mbind outcome_bind length].
  change (Z.of_nat 1) with 1. rewrite Z.mod_1_r. change (Z.to_nat 0) with 0%nat.
  destruct (NetThread.queue_spec th (NetThread.response uid (msg, (ip, port))) Hok Hlen)
    as (d & Hd & Hok' & Hr).
  assert (∃ th', NetThread.recvNeedToSendFromServer uid msg ip port th = Ok th' ∧
    NetThread.ok th' ∧ NetThread.terminate_ th' = false ∧ NetThread.sent th' = NetThread.sent th ∧
    NetThread.shared th' = NetThread.shared th ∧ NetThread.sendBuffer_ th' = d ∧
    NetThread.same_conns th th')
    as (th' & Hf & Hok1 & Ht1 & Hse1 & Hsh1 & Hd1 & Hl1).
  { unfold NetThread.recvNeedToSendFromServer. rewrite Ht. unfold NetThread.response in Hd.
    cbn [fst snd] in Hd. rewrite Hd. cbn [mbind outcome_bind]. eexists. split; [done|].
    split; [by apply NetThread.ok_epoller|]. done. }
  destruct (run_single s th th' _ Hs Hf) as (s' & -> & Hs' & _).
  exists s', th'. do 6 (split; [done|]). split; [|done]. rewrite Hd1. apply Hr.
Qed.

(** Thread [i] with the shared objects as they are now. *)
Definition view i s : option (NetThread.t B) := NetThread.set_shared (shared s) <$> netThreads_ s !! i.

(** All connections are accepted by the first network thread, the only one
    that [bind] gives a listening socket, but the thread of a response is chosen
    by [fd % netThreads_.size()].  A response for a connection of the first
    thread reaches its client when that remainder is 0; otherwise it is queued
    for a thread that does not know the id, and that thread follows a null
    pointer when it comes to it. *)
Theorem responses_need_descriptor_of_first_thread s th thj uid n c msg ip port maxIOVcount envs
    (Hth : view 0 s = Some th) (Hok : NetThread.ok th) (Hlive : NetThread.live uid n c th)
    (Hfd : 0 ≤ Connection.fd_ c < 2 ^ 31) (Hmsg : msg ≠ [])
    (Hj : view (Z.to_nat (Connection.fd_ c `mod` zlen (netThreads_ s))) s = Some thj)
    (Hokj : NetThread.ok thj) (Ht : NetThread.terminate_ thj = false)
    (Hs : ThreadDeque.deque_ (NetThread.sendBuffer_ thj) = []) :
  let j := Z.to_nat (Connection.fd_ c `mod` zlen (netThreads_ s)) in
  ∃ s1, send uid msg ip port (Connection.fd_ c) s = Ok s1 ∧
    (Connection.fd_ c `mod` zlen (netThreads_ s) = 0 →
       ∃ s', run_thread j (NetThread.processPipe maxIOVcount envs) s1 = Ok s' ∧
         NetThread.sent <$> view 0 s' =
           Some (NetThread.sent th ++ [(Connection.fd_ c, msg)])) ∧
    (NetThread.connectionUids_ thj !! uid = None →
       run_thread j (NetThread.processPipe maxIOVcount envs) s1 = Undef).
Proof.
  intros j. unfold view in Hth, Hj.
  apply fmap_Some in Hth as (th0 & Hth0 & Hth). apply fmap_Some in Hj as (tj0 & Htj0 & Hj).
  fold j in Htj0. destruct (getNetThreadByfd_spec (Connection.fd_ c) s Hfd) as [Hget Hlt];
    [by intros Hnil; rewrite Hnil in Hth0|].
  unfold send. rewrite Hget. cbn [mbind outcome_bind]. fold j.
  destruct (NetThread.lookup_live _ _ _ _ Hok Hlive) as [Hrange _].
  assert (∃ t1, NetThread.recvNeedToSendFromServer uid msg ip port thj = Ok t1) as [t1 Ht1].
  { unfold NetThread.recvNeedToSendFromServer. rewrite Ht.
    destruct (NetThread.queue_spec thj (Some (SendData.mk "s" uid msg ip port)) Hokj)
      as (d & -> & _); [by rewrite Hs|]. by eexists. }
  rewrite Hj in Ht1. pose proof (run_thread_Ok j _ s tj0 t1 Htj0 Ht1) as Hrun.
  eexists. split; [exact Hrun|]. set (s1 := set_threads _ _ s).
  assert (∀ f, run_thread j f s1 =
    run_thread j (λ th, th ← NetThread.recvNeedToSendFromServer uid msg ip port th; f th) s) as Hbind.
  { intros f. rewrite <- (run_thread_bind j _ f s tj0 Htj0), Hrun. done. }
  split.
  - intros Hmod. assert (j = 0%nat) as Hj0 by (unfold j; by rewrite Hmod).
    rewrite Hj0 in Htj0. assert (tj0 = th0) as -> by congruence. rewrite <- Hth in Hj. subst thj.
    destruct (NetThread.respond_live maxIOVcount envs th uid n c msg ip port Hokj Hlive Ht Hs Hmsg)
      as (t' & Ht' & _ & _ & Hsent).
    rewrite Hbind, Hj0. rewrite Hth in Ht'.
    rewrite (run_thread_Ok 0 _ s th0 t') by done.
    eexists. split; [done|]. unfold view. cbn [netThreads_ set_threads].
    rewrite list_lookup_insert_eq by (by eapply lookup_lt_Some). cbn. by rewrite Hsent.
  - intros Hnone.
    destruct (NetThread.respond_unknown maxIOVcount envs thj uid msg ip port Hokj) as (t2 & Ht2 & Hp);
      [lia|done|done|done|].
    rewrite Hbind. unfold run_thread, on_thread. rewrite Htj0. cbn [deref mbind outcome_bind].
    rewrite <- Hj, Ht2. cbn [mbind outcome_bind]. by rewrite Hp.
Qed.

End routing.
(** Two threads, and a client of the first on descriptor 9. *)
Definition two_threads : t Buffer.t :=
  mk [NetThread.connected;
      NetThread.createEpoll 256 (NetThread.new 5 6 0 (NetThread.shared NetThread.connected))]
     false false [] Monitor.init 0 0 (NetThread.shared NetThread.connected).

Lemma responses_need_descriptor_of_first_thread_witness :
  ∃ s1, send 1 NetThread.hello [] 80 9 two_threads = Ok s1 ∧
    run_thread 1 (NetThread.processPipe 16 []) s1 = Undef.
Proof.
  destruct NetThread.connected_ok as (Hok & c & Hlive & Hfd & _).
  destruct (responses_need_descriptor_of_first_thread two_threads NetThread.connected
    (NetThread.createEpoll 256 (NetThread.new 5 6 0 (NetThread.shared NetThread.connected)))
    1 0 c NetThread.hello [] 80 16 []) as (s1 & Hsend & _ & Hcrash).
  - vm_compute. reflexivity.
  - exact Hok.
  - exact Hlive.
  - rewrite Hfd. lia.
  - done.
  - rewrite Hfd. vm_compute. reflexivity.
  - apply NetThread.idle_ok. intros b ad Hb. by apply (NetThread.ok_queue _ Hok b).
  - done.
  - done.
  - rewrite Hfd in *. exists s1. split; [exact Hsend|]. by apply Hcrash.
Defined.

End EpollServer.
