(* ===== verification/ServantManager.v ===== *)
(** * ServantManager: ServantHelperManager of ServantManager.h, and TarsNodeF

    The tables from adapters to servants and from names to the functions that
    serve them, and the heartbeats of TarsNodeF.cc and NodeF.h.  A [dispatcFunc]
    is a function from a request to a response, [None] when the [std::function]
    is empty; the number it returns is not used by its callers. *)

From Stdlib Require Import Strings.String.
From S2P Require Import Prelude Monitor ThreadDeque Wire Message BindAdapter.

Module ServantHelperManager.

Definition dispatcFunc := option (bytes → bytes).

Record t := mk {
  servantMap_ : StringMap.t dispatcFunc;
  adapterServant_ : StringMap.t bytes;
  servantAdapter_ : StringMap.t bytes
}.

Definition init : t := mk [] [] [].

Definition addServant (name : bytes) (func : dispatcFunc) (check : bool) (m : t) : outcome t :=
  if check && bool_decide (is_Some (StringMap.find name (servantAdapter_ m)))
  then Raise RuntimeError
  else Ok (mk (StringMap.insert name func (servantMap_ m)) (adapterServant_ m) (servantAdapter_ m)).

Definition set_adapter_servant (adapter servant : bytes) (m : t) : t :=
  mk (servantMap_ m) (StringMap.insert adapter servant (adapterServant_ m))
     (StringMap.insert servant adapter (servantAdapter_ m)).

Definition no_protocol : bytes := String.list_ascii_of_string "(NO TARSX PROTOCOL)".

Definition get_adapter_servant (adapter : bytes) (m : t) : bytes :=
  default no_protocol (StringMap.find adapter (adapterServant_ m)).

Definition get_servant_adapter (servant : bytes) (m : t) : bytes :=
  default [] (StringMap.find servant (servantAdapter_ m)).

(** [servantMap_[name]]: an unknown name is inserted with an empty function. *)
Definition get_funcByName (name : bytes) (m : t) : dispatcFunc * t :=
  match StringMap.find name (servantMap_ m) with
  | Some f => (f, m)
  | None => (None, mk (StringMap.insert name None (servantMap_ m)) (adapterServant_ m)
                      (servantAdapter_ m))
  end.

Lemma get_funcByName_added name func check m m' :
  addServant name func check m = Ok m' → get_funcByName name m' = (func, m').
Proof.
  unfold addServant, get_funcByName. destruct (_ && _); [done|]. intros [= <-]. simpl.
  by rewrite StringMap.find_insert_eq.
Qed.

Lemma get_adapter_servant_set adapter servant m :
  get_adapter_servant adapter (set_adapter_servant adapter servant m) = servant ∧
  get_servant_adapter servant (set_adapter_servant adapter servant m) = adapter.
Proof.
  unfold get_adapter_servant, get_servant_adapter, set_adapter_servant. simpl.
  by rewrite !StringMap.find_insert_eq.
Qed.

End ServantHelperManager.

(** ** Heartbeats *)

Module NodeF.

Record ServerInfo := mk_info {
  application : bytes;
  serverName : bytes;
  adapter : bytes;
  pid : Z
}.

Definition resetDefault : ServerInfo := mk_info [] [] [] 0.

(** [nodeProxy_] is the host and port of the proxy; [calls] are the requests
    passed to [tars_invoke_async("keepAlive", ...)]. *)
Record t := mk {
  nodeProxy_ : option (bytes * Z);
  serverInfo_ : ServerInfo;
  adapterSet_ : list bytes;
  calls : list bytes
}.

Definition init : t := mk None resetDefault [] [].

(** [node.substr(node.find(":") + 1)]: all of [node] when it has no colon. *)
Fixpoint after_colon (node : bytes) : option bytes :=
  match node with
  | [] => None
  | c :: node => if bool_decide (c = Wire.colon) then Some node else after_colon node
  end.

Definition set_nodeInfo (node app server : bytes) (getpid : Z) (n : t) : t :=
  let proxy := if bool_decide (node = []) then nodeProxy_ n
               else Some (Wire.before_colon node,
                          Wire.atoi (default node (after_colon node)) `mod` 2 ^ 16) in
  mk proxy (mk_info app server (adapter (serverInfo_ n)) getpid) (adapterSet_ n) (calls n).

(** [adapterSet_.insert(name)] on a [std::set]. *)
Fixpoint set_insert (name : bytes) (l : list bytes) : list bytes :=
  match l with
  | [] => [name]
  | x :: l => if bool_decide (name = x) then x :: l
              else if StringMap.str_ltb name x then name :: x :: l
              else x :: set_insert name l
  end.

(** [keepAlive_async]: the request that is sent. *)
Definition keepAlive_request (i : ServerInfo) : bytes :=
  application i ++ Wire.colon :: serverName i ++ Wire.colon ::
  Wire.to_string (pid i) ++ Wire.colon :: adapter i.

Definition AdminAdapter : bytes := String.list_ascii_of_string "AdminAdapter".

Definition keepAlive (name : bytes) (n : t) : t :=
  match nodeProxy_ n with
  | None => n
  | Some _ =>
      let s := set_insert name (adapterSet_ n) in
      if bool_decide (name ≠ AdminAdapter)
      then mk (nodeProxy_ n) (serverInfo_ n) s (calls n)
      else
        let i := serverInfo_ n in
        let sent := (λ x, keepAlive_request (mk_info (application i) (serverName i) x (pid i)))
                    <$> s in
        mk (nodeProxy_ n) (serverInfo_ n) [] (calls n ++ sent)
  end.

Lemma elem_of_set_insert name l x : x ∈ set_insert name l ↔ x = name ∨ x ∈ l.
Proof.
  induction l as [|y l IH]; simpl; [set_solver|].
  case_bool_decide as Hy; [subst; set_solver|].
  destruct (StringMap.str_ltb name y); set_solver.
Qed.

(** The beats of the adapters [names] are held back until that of the admin
    adapter, which reports each of them. *)
Lemma keepAlive_batch names n proxy :
  nodeProxy_ n = Some proxy → adapterSet_ n = [] → AdminAdapter ∉ names →
  let n' := foldl (λ n x, keepAlive x n) n names in
  calls n' = calls n ∧
  ∃ l, (∀ x, x ∈ l ↔ x = AdminAdapter ∨ x ∈ names) ∧
    let i := serverInfo_ n in
    calls (keepAlive AdminAdapter n') = calls n ++
      ((λ x, keepAlive_request (mk_info (application i) (serverName i) x (pid i))) <$> l).
Proof.
  intros Hp Hs Hno. assert (∀ names n, nodeProxy_ n = Some proxy → AdminAdapter ∉ names →
    let n' := foldl (λ n x, keepAlive x n) n names in
    calls n' = calls n ∧ nodeProxy_ n' = Some proxy ∧ serverInfo_ n' = serverInfo_ n ∧
    ∀ x, x ∈ adapterSet_ n' ↔ x ∈ adapterSet_ n ∨ x ∈ names) as Hfold.
  { clear. intros names. induction names as [|y names IH]; intros n Hp Hno; simpl.
    { split_and!; try done. intros x. rewrite elem_of_nil. tauto. }
    apply not_elem_of_cons in Hno as [Hy Hno].
    assert (keepAlive y n = mk (nodeProxy_ n) (serverInfo_ n) (set_insert y (adapterSet_ n)) (calls n))
      as -> by (unfold keepAlive; rewrite Hp, bool_decide_true by done; done).
    destruct (IH (mk (nodeProxy_ n) (serverInfo_ n) (set_insert y (adapterSet_ n)) (calls n)))
      as (? & ? & ? & Hx); [done|done|].
    split_and!; try done. intros x. rewrite Hx. cbn. rewrite elem_of_set_insert, elem_of_cons. tauto. }
  destruct (Hfold names n Hp Hno) as (Hc & Hp' & Hi & Hx). split; [done|].
  eexists. split; [|cbv zeta; unfold keepAlive at 1; rewrite Hp', bool_decide_false by tauto;
    cbn [calls]; by rewrite Hc, Hi].
  intros x. rewrite elem_of_set_insert, Hx, Hs, elem_of_nil. tauto.
Qed.

End NodeF.
