(* ===== verification/Servants.v ===== *)
(** * Servants: HelloImp.hpp, ServerImp.hpp, AdminF.h, NodeImp.hpp, RegistryImp.hpp

    What the servants do with a request "id:method:arguments": each has a sorted
    table of method names in which it looks the method up with
    [std::equal_range].  A servant returns a number and assigns to the buffer
    that becomes the response.  The registry's table is that of Registry.cc. *)

From Stdlib Require Import Strings.String.
From stdpp Require Import gmap sets.
From S2P Require Import Prelude Wire BindAdapter.

(** ** Strings *)

Module Str.

Definition npos : Z := 2 ^ 64 - 1.

(** [s.find(":")]. *)
Fixpoint find_colon (s : bytes) : option nat :=
  match s with
  | [] => None
  | c :: s => if bool_decide (c = Wire.colon) then Some 0%nat else S <$> find_colon s
  end.

Definition find (s : bytes) : Z := match find_colon s with Some i => Z.of_nat i | None => npos end.

(** [s.substr(pos, n)]. *)
Definition substr (s : bytes) (pos n : Z) : outcome bytes :=
  if zlen s <? pos then Raise OutOfRange
  else Ok (take (Z.to_nat n) (drop (Z.to_nat pos) s)).

(** [parseRequest] of ServantProxy.h, which HelloImp repeats: the body behind the
    first colon ([pos + 1] is 0 when there is none) and the method, up to the
    next. *)
Definition parseRequest (request : bytes) : outcome (Z * bytes * Z * bytes) :=
  let pos := find request in
  requestBody ← substr request (u64 (pos + 1)) npos;
  let posMethod := find requestBody in
  method ← substr requestBody 0 posMethod;
  Ok (pos, requestBody, posMethod, method).

Definition str (s : string) : bytes := String.list_ascii_of_string s.

(** [req.substr(0, req.find(":")) + ":" + text]. *)
Definition reply (req : bytes) (text : string) : outcome bytes :=
  requestId ← substr req 0 (find req);
  Ok (requestId ++ Wire.colon :: str text).

Definition no_colon (s : bytes) : Prop := Forall (λ c, c ≠ Wire.colon) s.

Lemma find_colon_app s rest : no_colon s → find_colon (s ++ Wire.colon :: rest) = Some (length s).
Proof.
  induction 1 as [|c s Hc Hs IH]; [done|]. cbn [app find_colon].
  by rewrite bool_decide_false, IH.
Qed.

Lemma find_colon_none s : no_colon s → find_colon s = None.
Proof. induction 1 as [|c s Hc Hs IH]; [done|]. cbn. by rewrite bool_decide_false, IH. Qed.

Lemma substr_Ok s pos n :
  pos ≤ zlen s → substr s pos n = Ok (take (Z.to_nat n) (drop (Z.to_nat pos) s)).
Proof. intros. unfold substr. by rewrite (proj2 (Z.ltb_ge _ _)) by lia. Qed.

(** The method of "id:method:arguments", or of "id:method". *)
Lemma parseRequest_spec id method rest :
  no_colon id → no_colon method → rest = [] ∨ (∃ args, rest = Wire.colon :: args) →
  zlen id + zlen method + zlen rest < 2 ^ 62 →
  ∃ posMethod, parseRequest (id ++ Wire.colon :: method ++ rest) =
    Ok (zlen id, method ++ rest, posMethod, method).
Proof.
  intros Hid Hm Hrest Hl. unfold parseRequest. cbv zeta.
  assert (find (id ++ Wire.colon :: method ++ rest) = zlen id) as ->
    by (unfold find; by rewrite find_colon_app).
  rewrite u64_small by lia.
  rewrite (substr_Ok (id ++ _)) by (rewrite length_app; cbn; lia). cbn [mbind outcome_bind].
  assert (drop (Z.to_nat (zlen id + 1)) (id ++ Wire.colon :: method ++ rest) = method ++ rest) as ->.
  { rewrite (cons_middle Wire.colon), app_assoc.
    apply drop_app_length'. rewrite length_app. cbn. lia. }
  rewrite take_ge by (unfold npos; rewrite length_app; lia).
  rewrite substr_Ok by lia. cbn [mbind outcome_bind]. change (Z.to_nat 0) with 0%nat.
  rewrite drop_0. eexists. do 2 f_equal. unfold find. destruct Hrest as [->|(args & ->)].
  - rewrite app_nil_r, find_colon_none by done. apply take_ge. unfold npos. lia.
  - rewrite find_colon_app by done. rewrite Nat2Z.id. apply take_app_length.
Qed.

Lemma reply_spec id rest text :
  no_colon id → reply (id ++ Wire.colon :: rest) text = Ok (id ++ Wire.colon :: str text).
Proof.
  intros Hid. unfold reply, find. rewrite find_colon_app by done. 
  rewrite substr_Ok by lia. cbn [mbind outcome_bind]. change (Z.to_nat 0) with 0%nat.
  by rewrite drop_0, Nat2Z.id, take_app_length.
Qed.

End Str.

(** ** std::equal_range on an array of strings *)

Module Search.

Abbreviation ltb := StringMap.str_ltb.

(** [arr[i]]; positions stay within the array. *)
Definition at_ (arr : list bytes) (i : nat) : bytes := default [] (arr !! i).

(** The searches of libstdc++ from [first] on, over [len] elements. *)
Fixpoint lower_bound (fuel : nat) (arr : list bytes) (first len : nat) (v : bytes) : nat :=
  match fuel with
  | O => first
  | S fuel =>
      if Nat.eqb len 0 then first
      else
        let half := Nat.div2 len in
        if ltb (at_ arr (first + half)) v
        then lower_bound fuel arr (first + half + 1) (len - half - 1) v
        else lower_bound fuel arr first half v
  end.

Fixpoint upper_bound (fuel : nat) (arr : list bytes) (first len : nat) (v : bytes) : nat :=
  match fuel with
  | O => first
  | S fuel =>
      if Nat.eqb len 0 then first
      else
        let half := Nat.div2 len in
        if ltb v (at_ arr (first + half))
        then upper_bound fuel arr first half v
        else upper_bound fuel arr (first + half + 1) (len - half - 1) v
  end.

Fixpoint equal_range_loop (fuel : nat) (arr : list bytes) (first len : nat) (v : bytes) : nat * nat :=
  match fuel with
  | O => (first, first)
  | S fuel =>
      if Nat.eqb len 0 then (first, first)
      else
        let half := Nat.div2 len in
        let middle := (first + half)%nat in
        if ltb (at_ arr middle) v then equal_range_loop fuel arr (middle + 1) (len - half - 1) v
        else if ltb v (at_ arr middle) then equal_range_loop fuel arr first half v
        else (lower_bound half arr first half v,
              upper_bound (len - half - 1) arr (middle + 1) (len - half - 1) v)
  end.

(** As many steps as there are elements are enough. *)
Definition equal_range (arr : list bytes) (v : bytes) : nat * nat :=
  equal_range_loop (length arr) arr 0 (length arr) v.

(** What the servants make of the range: the number of the method. *)
Definition lookup_method (arr : list bytes) (v : bytes) : option nat :=
  let '(l, u) := equal_range arr v in if Nat.eqb l u then None else Some l.

(** The same by looking at one name after the other. *)
Fixpoint index_of (v : bytes) (arr : list bytes) : option nat :=
  match arr with
  | [] => None
  | x :: arr => if bool_decide (x = v) then Some 0%nat else S <$> index_of v arr
  end.

(** *** The order of strings *)

Lemma ltb_irrefl v : ltb v v = false.
Proof. induction v as [|c v IH]; [done|]. cbn. rewrite N.ltb_irrefl, IH. by rewrite andb_false_r. Qed.

Lemma code_inj c d : N_of_ascii c = N_of_ascii d → c = d.
Proof. intros H. by rewrite <- (ascii_N_embedding c), <- (ascii_N_embedding d), H. Qed.

Lemma ltb_cons c d v w :
  ltb (c :: v) (d :: w) ↔ (N_of_ascii c < N_of_ascii d)%N ∨ c = d ∧ ltb v w.
Proof.
  cbn. rewrite orb_True, andb_True. rewrite <- N.ltb_lt, <- Ascii.eqb_eq.
  destruct (_ <? _)%N, (_ =? _)%char; naive_solver.
Qed.

Lemma ltb_trans u : ∀ v w, ltb u v → ltb v w → ltb u w.
Proof.
  induction u as [|a u IH]; intros [|b v] [|c w]; try done.
  rewrite !ltb_cons. intros [H1|[-> H1]] [H2|[-> H2]]; [left; lia|by left|by left|].
  right. split; [done|]. by eapply IH.
Qed.

Lemma ltb_total u : ∀ v, ltb u v ∨ u = v ∨ ltb v u.
Proof.
  induction u as [|a u IH]; intros [|b v]; [by right; left|by left|by right; right|].
  rewrite !ltb_cons. destruct (N.lt_trichotomy (N_of_ascii a) (N_of_ascii b)) as [?|[Heq|?]];
    [by left; left| |by right; right; left].
  apply code_inj in Heq as ->. destruct (IH v) as [?|[->|?]]; naive_solver.
Qed.

Lemma ltb_asym u v : ltb u v → ltb v u = false.
Proof.
  intros H. apply not_true_is_false. intros H'%Is_true_true.
  pose proof (ltb_trans u v u H H') as H2. by rewrite ltb_irrefl in H2.
Qed.

(** *** The searches *)

Section search.
Context (arr : list bytes) (v : bytes).
Implicit Types (first len i : nat).

Definition sorted : Prop :=
  ∀ i j, (i < j < length arr)%nat → ltb (at_ arr i) (at_ arr j).

Definition below (n : nat) : Prop := ∀ i, (i < n)%nat → ltb (at_ arr i) v.
Definition not_below (n : nat) : Prop := ∀ i, (n ≤ i < length arr)%nat → ltb (at_ arr i) v = false.
Definition above (n : nat) : Prop := ∀ i, (n ≤ i < length arr)%nat → ltb v (at_ arr i).
Definition not_above (n : nat) : Prop := ∀ i, (i < n)%nat → ltb v (at_ arr i) = false.

Lemma half_lt len : (0 < len → Nat.div2 len < len)%nat.
Proof. apply Nat.lt_div2. Qed.

Ltac halve len :=
  pose proof (half_lt len ltac:(lia)); set (half := Nat.div2 len) in *.

(** What is true at a middle is true before it, or behind it. *)
Lemma below_middle m : sorted → (m < length arr)%nat → ltb (at_ arr m) v → below (m + 1).
Proof.
  intros Hs Hm Hv i Hi. destruct (decide (i = m)) as [->|?]; [done|].
  eapply ltb_trans; [apply (Hs i m); lia|done].
Qed.

Lemma above_middle m : sorted → ltb v (at_ arr m) → above m.
Proof.
  intros Hs Hv i Hi. destruct (decide (i = m)) as [->|?]; [done|].
  eapply ltb_trans; [done|apply (Hs m i); lia].
Qed.

Lemma not_below_middle m : sorted → ltb (at_ arr m) v = false → not_below m.
Proof.
  intros Hs Hv i Hi. destruct (decide (i = m)) as [->|?]; [done|].
  apply not_true_is_false. intros H%Is_true_true.
  pose proof (ltb_trans _ _ _ (Hs m i ltac:(lia)) H) as H2. by rewrite Hv in H2.
Qed.

Lemma not_above_middle m : sorted → (m < length arr)%nat → ltb v (at_ arr m) = false →
  not_above (m + 1).
Proof.
  intros Hs Hm Hv i Hi. destruct (decide (i = m)) as [->|?]; [done|].
  apply not_true_is_false. intros H%Is_true_true.
  pose proof (ltb_trans _ _ _ H (Hs i m ltac:(lia))) as H2. by rewrite Hv in H2.
Qed.

Lemma lower_bound_spec (Hs : sorted) fuel : ∀ first len,
  (len ≤ fuel)%nat → (first + len ≤ length arr)%nat → below first → not_below (first + len) →
  let r := lower_bound fuel arr first len v in
  (first ≤ r ≤ first + len)%nat ∧ below r ∧ not_below r.
Proof.
  induction fuel as [|fuel IH]; intros first len Hf Hl Hb Hn; cbn [lower_bound].
  { replace (first + len)%nat with first in Hn by lia. split; [lia|done]. }
  destruct (Nat.eqb_spec len 0) as [->|Hlen]; [rewrite Nat.add_0_r in Hn; split; [lia|done]|].
  halve len. destruct (ltb (at_ arr (first + half)) v) eqn:Hm.
  - destruct (IH (first + half + 1)%nat (len - half - 1)%nat) as (? & ? & ?); [lia|lia| | |].
    + apply below_middle; [done|lia|by apply Is_true_true].
    + by replace (first + half + 1 + (len - half - 1))%nat with (first + len)%nat by lia.
    + split; [lia|done].
  - destruct (IH first half) as (? & ? & ?); [lia|lia|done|by apply not_below_middle|].
    split; [lia|done].
Qed.

Lemma upper_bound_spec (Hs : sorted) fuel : ∀ first len,
  (len ≤ fuel)%nat → (first + len ≤ length arr)%nat → not_above first → above (first + len) →
  let r := upper_bound fuel arr first len v in
  (first ≤ r ≤ first + len)%nat ∧ not_above r ∧ above r.
Proof.
  induction fuel as [|fuel IH]; intros first len Hf Hl Hb Hn; cbn [upper_bound].
  { replace (first + len)%nat with first in Hn by lia. split; [lia|done]. }
  destruct (Nat.eqb_spec len 0) as [->|Hlen]; [rewrite Nat.add_0_r in Hn; split; [lia|done]|].
  halve len. destruct (ltb v (at_ arr (first + half))) eqn:Hm.
  - destruct (IH first half) as (? & ? & ?); [lia|lia|done| |split; [lia|done]].
    apply above_middle; [done|by apply Is_true_true].
  - destruct (IH (first + half + 1)%nat (len - half - 1)%nat) as (? & ? & ?); [lia|lia| | |].
    + apply not_above_middle; [done|lia|done].
    + by replace (first + half + 1 + (len - half - 1))%nat with (first + len)%nat by lia.
    + split; [lia|done].
Qed.

Lemma equal_range_spec (Hs : sorted) fuel : ∀ first len,
  (len ≤ fuel)%nat → (first + len ≤ length arr)%nat → below first → above (first + len) →
  let '(l, u) := equal_range_loop fuel arr first len v in
  (l ≤ u ≤ length arr)%nat ∧ below l ∧ not_below l ∧ not_above u ∧ above u.
Proof.
  assert (∀ n, below n → above n → (n ≤ length arr)%nat →
    (n ≤ n ≤ length arr)%nat ∧ below n ∧ not_below n ∧ not_above n ∧ above n) as Hend.
  { intros n Hb Ha Hn. split; [lia|]. split; [done|]. split; [|split; [|done]].
    - intros i Hi. by apply ltb_asym, Ha.
    - intros i Hi. by apply ltb_asym, Hb. }
  induction fuel as [|fuel IH]; intros first len Hf Hl Hb Ha; cbn [equal_range_loop].
  { apply Hend; [done| |lia]. by replace (first + len)%nat with first in Ha by lia. }
  destruct (Nat.eqb_spec len 0) as [->|Hlen]; [rewrite Nat.add_0_r in Ha; apply Hend; [done..|lia]|].
  halve len. destruct (ltb (at_ arr (first + half)) v) eqn:Hm.
  { apply IH; [lia|lia| |].
    - apply below_middle; [done|lia|by apply Is_true_true].
    - by replace (first + half + 1 + (len - half - 1))%nat with (first + len)%nat by lia. }
  destruct (ltb v (at_ arr (first + half))) eqn:Hm'.
  { apply IH; [lia|lia|done|]. apply above_middle; [done|by apply Is_true_true]. }
  destruct (lower_bound_spec Hs half first half) as (? & ? & ?);
    [lia|lia|done|by apply not_below_middle|].
  destruct (upper_bound_spec Hs (len - half - 1) (first + half + 1) (len - half - 1)) as (? & ? & ?);
    [lia|lia|by apply not_above_middle; [|lia|]| |].
  { by replace (first + half + 1 + (len - half - 1))%nat with (first + len)%nat by lia. }
  split; [lia|done].
Qed.

Lemma index_of_Some i : sorted → arr !! i = Some v → index_of v arr = Some i.
Proof.
  intros Hs. assert (∀ j, (j < i)%nat → arr !! j ≠ Some v ∨ arr !! i ≠ Some v) as Hno.
  { intros j Hj. destruct (decide (arr !! i = Some v)) as [Hi|?]; [left|by right].
    intros Hj'. pose proof (lookup_lt_Some _ _ _ Hi). pose proof (Hs j i ltac:(lia)) as Hlt.
    unfold at_ in Hlt. rewrite Hj', Hi in Hlt. cbn in Hlt. by rewrite ltb_irrefl in Hlt. }
  clear Hs. revert i Hno. induction arr as [|x l IH]; intros [|i] Hno Hi; try done; cbn in *.
  - injection Hi as ->. by rewrite bool_decide_true.
  - rewrite bool_decide_false.
    + by rewrite (IH i) by (done || intros j Hj; apply (Hno (S j)); lia).
    + intros ->. destruct (Hno 0%nat); [lia|done..].
Qed.

Lemma index_of_None : (∀ i, arr !! i ≠ Some v) → index_of v arr = None.
Proof.
  induction arr as [|x l IH]; intros Hno; [done|]. cbn. rewrite bool_decide_false.
  - by rewrite IH by (intros i; apply (Hno (S i))).
  - intros ->. by apply (Hno 0%nat).
Qed.

(** The range is empty, or it is the one place of [v]. *)
Lemma lookup_method_index : sorted → lookup_method arr v = index_of v arr.
Proof.
  intros Hs. unfold lookup_method, equal_range.
  pose proof (equal_range_spec Hs (length arr) 0 (length arr) ltac:(lia) ltac:(lia)) as Her.
  destruct (equal_range_loop _ _ _ _ _) as [l u].
  destruct Her as (Hlu & Hb & Hnb & Hna & Ha); [intros i ?; lia|intros i ?; lia|].
  assert (∀ i, (l ≤ i < u)%nat → arr !! i = Some v) as Hin.
  { intros i Hi. destruct (lookup_lt_is_Some_2 arr i) as [x Hx]; [lia|].
    specialize (Hnb i ltac:(lia)). specialize (Hna i ltac:(lia)). unfold at_ in *.
    rewrite Hx in *. cbn in *. destruct (ltb_total x v) as [H|[->|H]]; [|done|];
      apply Is_true_true in H; congruence. }
  destruct (Nat.eqb_spec l u) as [->|Hne].
  - symmetry. apply index_of_None. intros i Hi. pose proof (lookup_lt_Some _ _ _ Hi).
    assert (at_ arr i = v) as Hat by (unfold at_; by rewrite Hi).
    destruct (decide (i < u)%nat).
    + specialize (Hb i ltac:(lia)). rewrite Hat, ltb_irrefl in Hb. done.
    + specialize (Ha i ltac:(lia)). rewrite Hat, ltb_irrefl in Ha. done.
  - symmetry. apply index_of_Some; [done|]. apply Hin. lia.
Qed.

End search.

End Search.

(** ** The servants *)

Module Servants.

Import Str.

(** The number returned and the contents of [buffer]. *)
Definition result : Type := Z * bytes.

(** The method that [equal_range] finds, with the buffer as it was. *)
Definition dispatch (names : list bytes) (request buffer : bytes)
    (cases : nat → outcome result) : outcome result :=
  '(_, _, _, method) ← parseRequest request;
  let '(l, u) := Search.equal_range names method in
  if Nat.eqb l u then Ok (-3, buffer) else cases l.

Definition Hello_all : list bytes := [str "test"; str "testHello"].
Definition ServerF_all : list bytes := [str "keepAlive"; str "reportVersion"].
Definition AdminF_all : list bytes := [str "notify"; str "shutdown"].
Definition Node_all : list bytes := [str "startServer"; str "stopServer"].

(** [test]: the response that is put together is not the one that is assigned. *)
Definition test (req buffer : bytes) : outcome result :=
  response ← reply req "test response"; Ok (0, req).

Definition testHello (req buffer : bytes) : outcome result :=
  response ← reply req "testHello response"; Ok (0, req).

Definition HelloImp (request buffer : bytes) : outcome result :=
  dispatch Hello_all request buffer (λ i,
    match i with
    | 0%nat => test request buffer
    | 1%nat => testHello request buffer
    | _ => Ok (0, buffer)
    end).

Definition keepAlive (req buffer : bytes) : outcome result :=
  response ← reply req "I have received"; Ok (-1, response).

Definition ServerImp (request buffer : bytes) : outcome result :=
  dispatch ServerF_all request buffer (λ i,
    match i with
    | 0%nat => keepAlive request buffer
    | 1%nat => Ok (-3, buffer)
    | _ => Ok (0, buffer)
    end).

(** The second component says whether [shutdown] has called
    [Application::terminate()]. *)
Definition AdminServant (request buffer : bytes) : outcome (result * bool) :=
  '(_, _, _, method) ← parseRequest request;
  let '(l, u) := Search.equal_range AdminF_all method in
  if Nat.eqb l u then Ok ((-3, buffer), false)
  else match l with
       | 0%nat => Ok ((0, buffer), false)
       | 1%nat => Ok ((0, buffer), true)
       | _ => Ok ((0, buffer), false)
       end.

(** The body of the only case of the [switch] is commented out. *)
Definition NodeImp (request buffer : bytes) : outcome result :=
  dispatch Node_all request buffer (λ _, Ok (0, buffer)).

(** *** Lemmas *)

(** A request for [method], with or without arguments. *)
Record well_formed (id method rest : bytes) : Prop := {
  wf_id : no_colon id;
  wf_method : no_colon method;
  wf_rest : rest = [] ∨ ∃ args, rest = Wire.colon :: args;
  wf_length : zlen id + zlen method + zlen rest < 2 ^ 62
}.

Definition request (id method rest : bytes) : bytes := id ++ Wire.colon :: method ++ rest.

Lemma sorted_pair a b : Search.ltb a b → Search.sorted [a; b].
Proof. intros Hab [|[|i]] [|[|j]] Hij; cbn in Hij; try lia. exact Hab. Qed.

Lemma tables_sorted names :
  names ∈ [Hello_all; ServerF_all; AdminF_all; Node_all] → Search.sorted names.
Proof.
  rewrite !elem_of_cons, elem_of_nil.
  intros [->|[->|[->|[->|[]]]]]; apply sorted_pair; vm_compute; done.
Qed.

Lemma dispatch_spec names id method rest buffer cases :
  Search.sorted names → well_formed id method rest →
  dispatch names (request id method rest) buffer cases =
  match Search.index_of method names with Some i => cases i | None => Ok (-3, buffer) end.
Proof.
  intros Hs [Hid Hm Hr Hl]. unfold dispatch, request.
  destruct (parseRequest_spec id method rest Hid Hm Hr Hl) as (? & ->). cbn [mbind outcome_bind].
  rewrite <- (Search.lookup_method_index names method Hs). unfold Search.lookup_method.
  destruct (Search.equal_range names method) as [l u]. by destruct (Nat.eqb l u).
Qed.

Lemma index_of_elem v arr : v ∈ arr ↔ is_Some (Search.index_of v arr).
Proof.
  induction arr as [|x arr IH]; cbn; [split; [by intros ?%elem_of_nil|by intros [??]]|].
  rewrite elem_of_cons, IH. case_bool_decide; [naive_solver|]. rewrite fmap_is_Some. naive_solver.
Qed.

Lemma index_of_lookup v arr : ∀ i, Search.index_of v arr = Some i → arr !! i = Some v.
Proof.
  induction arr as [|x arr IH]; intros i; [done|]. cbn. case_bool_decide; [intros [= <-]; by subst|].
  destruct (Search.index_of v arr) as [j|]; [|done]. intros [= <-]. by apply IH.
Qed.

Lemma well_formed_before id method rest :
  well_formed id method rest → Wire.before_colon (request id method rest) = id.
Proof. intros Hw. apply Wire.before_colon_app, Hw. Qed.

(** ** Properties *)

(** C37: the binary search with which the servants look up a method gives what
    comparing the names one by one would give: in each of the four tables, the
    method between the first two colons of a request leads to its case, and a
    method that is not in the table leaves the buffer and returns -3. *)
Theorem servants_find_methods names id method rest buffer cases
    (Hnames : names ∈ [Hello_all; ServerF_all; AdminF_all; Node_all])
    (Hw : well_formed id method rest) :
  dispatch names (request id method rest) buffer cases =
    match Search.index_of method names with Some i => cases i | None => Ok (-3, buffer) end ∧
  (is_Some (Search.index_of method names) ↔ method ∈ names) ∧
  ∀ i, Search.index_of method names = Some i → names !! i = Some method.
Proof.
  split; [by apply dispatch_spec; [apply tables_sorted|]|]. split; [by rewrite index_of_elem|].
  intros i. apply index_of_lookup.
Qed.

Lemma HelloImp_spec id method rest buffer :
  well_formed id method rest → method ∈ Hello_all →
  HelloImp (request id method rest) buffer = Ok (0, request id method rest).
Proof.
  intros Hw Hm%index_of_elem. unfold HelloImp.
  rewrite dispatch_spec by (done || apply tables_sorted; left). destruct Hm as [i Hi].
  assert (i = 0%nat ∨ i = 1%nat) as Hi'.
  { unfold Hello_all in Hi. cbn in Hi. repeat case_bool_decide; cbn in Hi; naive_solver. }
  rewrite Hi. destruct Hi' as [-> | ->]; unfold test, testHello, request;
    by rewrite reply_spec by apply Hw.
Qed.

(** A response carries the id of its request: the node answers a heartbeat
    with "id:I have received", and the hello servant, which puts together a
    response for either of its methods, sends back the request itself. *)
Theorem servants_keep_request_id id method rest buffer
    (Hw : well_formed id method rest) :
  (method ∈ Hello_all → HelloImp (request id method rest) buffer = Ok (0, request id method rest)) ∧
  (method = str "keepAlive" →
     ServerImp (request id method rest) buffer
       = Ok (-1, id ++ Wire.colon :: str "I have received")) ∧
  Wire.before_colon (request id method rest) = id ∧
  Wire.before_colon (id ++ Wire.colon :: str "I have received") = id.
Proof.
  split; [|split; [|split; [by apply well_formed_before|apply Wire.before_colon_app, Hw]]].
  - by apply HelloImp_spec.
  - intros ->. unfold ServerImp.
    rewrite dispatch_spec by (done || apply tables_sorted; right; left).
    assert (Search.index_of (str "keepAlive") ServerF_all = Some 0%nat) as -> by reflexivity.
    unfold keepAlive, request. by rewrite reply_spec by apply Hw.
Qed.

(** ** Witnesses *)

Lemma three_test : well_formed (str "3") (str "test") (str ":hello").
Proof.
  split; [repeat constructor; discriminate..| |vm_compute; reflexivity].
  right. by exists (str "hello").
Qed.

Lemma servants_find_methods_witness :
  dispatch Hello_all (request (str "3") (str "test") (str ":hello")) [] (λ _, Ok (7, []))
    = Ok (7, []).
Proof.
  destruct (servants_find_methods Hello_all (str "3") (str "test") (str ":hello") [] (λ _, Ok (7, [])))
    as [H _].
  - left.
  - exact three_test.
  - exact H.
Defined.

Lemma servants_keep_request_id_witness :
  HelloImp (request (str "3") (str "test") (str ":hello")) []
    = Ok (0, request (str "3") (str "test") (str ":hello")).
Proof.
  destruct (servants_keep_request_id (str "3") (str "test") (str ":hello") []) as [H _].
  - exact three_test.
  - apply H. left.
Defined.

End Servants.

(** ** The registry *)

Module Registry.

Import Str.

(** [allServants_]: from a name to a set of addresses. *)
Definition t := gmap bytes (gset (bytes * Z)).

(** [allServants_[name]] inserts an empty set for an unknown name; the variable
    that it initializes is a copy. *)
Definition servant_set (name : bytes) (r : t) : gset (bytes * Z) * t :=
  match r !! name with
  | Some s => (s, r)
  | None => (∅, <[name := ∅]> r)
  end.

(** The insertion goes into the copy, which is then dropped. *)
Definition addServantAddress (name ip : bytes) (port : Z) (r : t) : t :=
  let '(servant_set, r) := servant_set name r in
  let servant_set := {[(ip, port)]} ∪ servant_set in
  r.

(** Erasing [end()] is undefined. *)
Definition delServantAddress (name ip : bytes) (port : Z) (r : t) : outcome t :=
  let '(servant_set, r) := servant_set name r in
  _ ← defined (bool_decide ((ip, port) ∈ servant_set));
  let servant_set := servant_set ∖ {[(ip, port)]} in
  Ok r.

(** [std::sregex_token_iterator(..., ws_re, -1)] for the expression ":": the
    pieces between the colons, without an empty one at the end. *)
Fixpoint tokens_from (s piece : bytes) : list bytes :=
  match s with
  | [] => if bool_decide (piece = []) then [] else [piece]
  | c :: s =>
      if bool_decide (c = Wire.colon) then piece :: tokens_from s []
      else tokens_from s (piece ++ [c])
  end.

Definition tokens (s : bytes) : list bytes := if bool_decide (s = []) then [[]] else tokens_from s [].

Definition registerServant (v : list bytes) (r : t) : outcome (Servants.result * t) :=
  name ← deref (v !! 2%nat);
  ip ← deref (v !! 3%nat);
  port ← deref (v !! 4%nat);
  let r := addServantAddress name ip (Wire.atoi port) r in
  id ← deref (v !! 0%nat);
  Ok ((-1, id ++ Wire.colon :: str "registed!"), r).

Definition RegisterImp (request buffer : bytes) (r : t) : outcome (Servants.result * t) :=
  let v := tokens request in
  method ← deref (v !! 1%nat);
  if bool_decide (method = str "registerServant") then registerServant v r
  else if bool_decide (method = str "deleteServant") then Ok ((-1, buffer), r)
  else Ok ((-3, buffer), r).

(** ** Properties *)

Definition registration (id name ip port : bytes) : bytes :=
  id ++ Wire.colon :: str "registerServant" ++ Wire.colon :: name ++ Wire.colon :: ip ++
  Wire.colon :: port.

Lemma tokens_from_app s rest : ∀ piece,
  no_colon s → tokens_from (s ++ Wire.colon :: rest) piece = (piece ++ s) :: tokens_from rest [].
Proof.
  induction s as [|c s IH]; intros piece Hs; cbn [app tokens_from].
  { by rewrite bool_decide_true, app_nil_r. }
  apply Forall_cons in Hs as [Hc Hs]. rewrite bool_decide_false by done.
  rewrite IH by done. by rewrite <- app_assoc.
Qed.

Lemma tokens_from_last s : ∀ piece,
  no_colon s → piece ++ s ≠ [] → tokens_from s piece = [piece ++ s].
Proof.
  induction s as [|c s IH]; intros piece Hs Hne; cbn [tokens_from].
  { rewrite app_nil_r in *. by rewrite bool_decide_false. }
  apply Forall_cons in Hs as [Hc Hs]. rewrite bool_decide_false by done.
  rewrite IH; [by rewrite <- app_assoc|done|]. by destruct piece.
Qed.

Lemma tokens_registration id name ip port :
  no_colon id → no_colon name → no_colon ip → no_colon port → port ≠ [] →
  tokens (registration id name ip port) = [id; str "registerServant"; name; ip; port].
Proof.
  intros Hid Hn Hi Hp Hne. unfold tokens, registration.
  rewrite bool_decide_false by (by destruct id).
  rewrite tokens_from_app by done.
  rewrite tokens_from_app by (by repeat constructor).
  rewrite !tokens_from_app by done. by rewrite tokens_from_last.
Qed.

(** No name has an address. *)
Definition no_addresses (r : t) : Prop := ∀ name s, r !! name = Some s → s = ∅.

Lemma servant_set_no_addresses name r :
  no_addresses r → ∃ r', servant_set name r = (∅, r') ∧ no_addresses r'.
Proof.
  intros Hr. unfold servant_set. destruct (r !! name) as [s|] eqn:Hs.
  - exists r. by rewrite (Hr name s Hs).
  - eexists. split; [done|]. intros n s [[_ <-]|[_ Hn]]%lookup_insert_Some; [done|by apply (Hr n)].
Qed.

Fixpoint register_all (l : list (bytes * bytes * bytes * bytes)) (r : t)
    : outcome (list Servants.result * t) :=
  match l with
  | [] => Ok ([], r)
  | (id, name, ip, port) :: l =>
      '(res, r) ← RegisterImp (registration id name ip port) [] r;
      '(results, r) ← register_all l r;
      Ok (res :: results, r)
  end.

Definition plain (a : bytes * bytes * bytes * bytes) : Prop :=
  let '(id, name, ip, port) := a in
  no_colon id ∧ no_colon name ∧ no_colon ip ∧ no_colon port ∧ port ≠ [].

(** Whatever is registered is acknowledged with "id:registed!" and forgotten:
    the address goes into a copy of the set, so that after any number of
    registrations no servant has an address, and deleting one of them erases
    [end()], which is undefined. *)
Theorem registrations_are_lost l r
    (Hl : Forall plain l) (Hr : no_addresses r) :
  ∃ r', register_all l r =
          Ok ((λ a, (-1, a.1.1.1 ++ Wire.colon :: str "registed!")) <$> l, r') ∧
        no_addresses r' ∧
        ∀ name ip port, delServantAddress name ip port r' = Undef.
Proof.
  assert (∀ r, no_addresses r → ∀ name ip port, delServantAddress name ip port r = Undef) as Hdel.
  { intros r0 Hr0 name ip port. destruct (servant_set_no_addresses name r0 Hr0) as (r' & Hs & _).
    unfold delServantAddress. rewrite Hs. by rewrite bool_decide_false by set_solver. }
  revert r Hr. induction Hl as [|[[[id name] ip] port] l (Hid & Hn & Hi & Hp & Hne) _ IH];
    intros r Hr; [by exists r; eauto|].
  cbn [register_all]. unfold RegisterImp. rewrite tokens_registration by done.
  change (_ !! 1%nat) with (Some (str "registerServant")). cbn [deref mbind outcome_bind].
  rewrite bool_decide_true by done. unfold registerServant, addServantAddress. cbn.
  destruct (servant_set_no_addresses name r Hr) as (r1 & -> & Hr1). cbn.
  destruct (IH r1 Hr1) as (r2 & -> & Hr2). by exists r2.
Qed.

Lemma registrations_are_lost_witness :
  ∃ r', register_all [(str "3", str "Hello", str "127.0.0.1", str "9877")] ∅
          = Ok ([(-1, str "3:registed!")], r') ∧
        delServantAddress (str "Hello") (str "127.0.0.1") 9877 r' = Undef.
Proof.
  destruct (registrations_are_lost [(str "3", str "Hello", str "127.0.0.1", str "9877")] ∅)
    as (r' & H1 & _ & H2).
  - constructor; [|constructor]. split_and!; [repeat constructor; discriminate..|discriminate].
  - intros name s Hs. apply lookup_empty_Some in Hs. done.
  - exists r'. split; [exact H1|apply H2].
Defined.

End Registry.
