(* ===== verification/ServantHandle.v ===== *)
(** * ServantHandle: the handler threads, ServantHandle.h, ServantHandle.cc

    A handler runs a coroutine that takes requests off the queues of its
    group's adapters and makes a coroutine for each; such a coroutine calls the
    servant's function and hands the response to the server.  [round] is one
    pass of the loop of [handleRequest], up to its [yield]; what it gives to
    [createCoroutine] is returned. *)

From S2P Require Import Prelude ByteQueue Buffer Monitor ThreadDeque Wire.
From S2P Require Import Message Connection Epoller BindAdapter NetThread EpollServer.
From S2P Require Import ServantManager.

Module ServantHandle.

Abbreviation dispatcFunc := ServantHelperManager.dispatcFunc.

Record t := mk {
  servants_ : StringMap.t dispatcFunc;
  handleGroup_ : handle
}.

Definition HEART_BEAT_INTERVAL : Z := 10.

(** The number of coroutines that [run] asks for. *)
Definition coroutineNum : Z :=
  let coroutineMemSize := 1073741824 in
  let coroutineStackSize := 1310272 in
  let n := if coroutineStackSize <? coroutineMemSize
           then coroutineMemSize `div` (coroutineStackSize * 4) else 1 in
  if n <? 1 then 1 else n.

Section operations.
Context {B : Type} `{ByteQueue B}.
Implicit Types (s : EpollServer.t B).

(** [handleGroup_.lock()] followed by a dereference. *)
Definition group (h : t) (sh : NetThread.Shared) : outcome (nat * HandleGroup.t) :=
  deref (BindAdapter.lock_group (NetThread.groups sh) (handleGroup_ h)).

(** The loop of [init]. *)
Fixpoint init_loop (l : StringMap.t nat) (servants : StringMap.t dispatcFunc)
    (m : ServantHelperManager.t) : StringMap.t dispatcFunc * ServantHelperManager.t :=
  match l with
  | [] => (servants, m)
  | (name, _) :: l =>
      let '(f, m) := ServantHelperManager.get_funcByName name m in
      init_loop l (StringMap.insert name f servants) m
  end.

Definition init (h : t) (m : ServantHelperManager.t) (sh : NetThread.Shared)
    : outcome (t * ServantHelperManager.t) :=
  match BindAdapter.lock_group (NetThread.groups sh) (handleGroup_ h) with
  | None => Assert
  | Some (_, g) =>
      let '(servants, m) := init_loop (HandleGroup.adapters g) (servants_ h) m in
      Ok (mk servants (handleGroup_ h), m)
  end.

Definition set_adapter (n : nat) (a : BindAdapter.t) (sh : NetThread.Shared) : NetThread.Shared :=
  NetThread.mk_shared (<[n := a]> (NetThread.adapters sh)) (NetThread.groups sh).
Definition set_group (n : nat) (g : HandleGroup.t) (sh : NetThread.Shared) : NetThread.Shared :=
  NetThread.mk_shared (NetThread.adapters sh) (<[n := g]> (NetThread.groups sh)).

(** The loop of [heartbeat]. *)
Fixpoint heartbeat_loop (cur : Z) (l : StringMap.t nat) (sh : NetThread.Shared) (nf : NodeF.t)
    : outcome (NetThread.Shared * NodeF.t) :=
  match l with
  | [] => Ok (sh, nf)
  | (_, n) :: l =>
      a ← deref (NetThread.adapters sh !! n);
      if HEART_BEAT_INTERVAL <? Z.abs (cur - BindAdapter.heartBeatTime_ a)
      then
        let a := BindAdapter.set_heartBeatTime cur a in
        heartbeat_loop cur l (set_adapter n a sh) (NodeF.keepAlive (BindAdapter.name_ a) nf)
      else heartbeat_loop cur l sh nf
  end.

Definition heartbeat (cur : Z) (h : t) (sh : NetThread.Shared) (nf : NodeF.t)
    : outcome (NetThread.Shared * NodeF.t) :=
  '(_, g) ← group h sh;
  heartbeat_loop cur (HandleGroup.adapters g) sh nf.

(** [recv->adapter = adapter]. *)
Definition with_adapter (n : nat) (r : RecvData.tagRecvData) : RecvData.tagRecvData :=
  RecvData.mk (RecvData.uid r) (RecvData.buffer r) (RecvData.ip r) (RecvData.port r)
    (RecvData.recvTimestamp r) (RecvData.overload r) (RecvData.closed r) (RecvData.fd r) (Some n)
    (RecvData.closeType r).

(** The [while] loop on one adapter, with at most [loop] passes: the requests
    for which coroutines are made; [yield] is false at its end. *)
Fixpoint drain (loop : nat) (n : nat) (a : BindAdapter.t)
    : outcome (list RecvData.tagRecvData * BindAdapter.t) :=
  match loop with
  | O => Ok ([], a)
  | S loop =>
      '(recv, a) ← BindAdapter.waitForRecvQueue 0 false id a;
      match recv with
      | None => Ok ([], a)
      | Some r =>
          '(created, a) ← drain loop n a;
          Ok (if RecvData.closed r then created else with_adapter n r :: created, a)
      end
  end.

Fixpoint drain_all (l : StringMap.t nat) (sh : NetThread.Shared)
    : outcome (list RecvData.tagRecvData * NetThread.Shared) :=
  match l with
  | [] => Ok ([], sh)
  | (_, n) :: l =>
      a ← deref (NetThread.adapters sh !! n);
      '(created, a) ← drain 100 n a;
      '(created', sh) ← drain_all l (set_adapter n a sh);
      Ok (created ++ created', sh)
  end.

(** The section at the start of a pass; [others] is what other threads do while
    it waits.  [responses] says whether coroutines wait to be woken up. *)
Definition wait_section (responses : bool) (rc : bool)
    (others : NetThread.Shared → NetThread.Shared) (h : t) (sh : NetThread.Shared)
    : outcome NetThread.Shared :=
  '(n, g) ← group h sh;
  let m := Monitor.lock (HandleGroup.monitor g) in
  if responses then Ok (set_group n (HandleGroup.set_monitor (Monitor.unlock m) g) sh)
  else
    let '(_, m) := Monitor.timedWait 3 rc m in
    let sh := others (set_group n (HandleGroup.set_monitor m g) sh) in
    g ← deref (NetThread.groups sh !! n);
    let m := Monitor.unlock (Monitor.set_notify 0 (HandleGroup.monitor g)) in
    Ok (set_group n (HandleGroup.set_monitor m g) sh).

(** One pass, at whose end the coroutine yields. *)
Definition round (responses rc : bool) (others : NetThread.Shared → NetThread.Shared) (cur : Z)
    (h : t) (sh : NetThread.Shared) (nf : NodeF.t)
    : outcome (list RecvData.tagRecvData * NetThread.Shared * NodeF.t) :=
  sh ← wait_section responses rc others h sh;
  '(sh, nf) ← heartbeat cur h sh nf;
  if responses then Ok ([], sh, nf)
  else
    '(_, g) ← group h sh;
    '(created, sh) ← drain_all (HandleGroup.adapters g) sh;
    Ok (created, sh, nf).

(** [handle]: what the coroutine of a request does. *)
Definition handle (h : t) (recv_data : RecvData.tagRecvData) s : outcome (EpollServer.t B) :=
  n ← deref (RecvData.adapter recv_data);
  a ← deref (NetThread.adapters (EpollServer.shared s) !! n);
  match StringMap.find (BindAdapter.name_ a) (servants_ h) with
  | None => Assert
  | Some None => Raise BadFunctionCall
  | Some (Some func) =>
      EpollServer.send (RecvData.uid recv_data) (func (RecvData.buffer recv_data))
        (RecvData.ip recv_data) (RecvData.port recv_data) (RecvData.fd recv_data) s
  end.

End operations.

(** ** A pass over the queues *)

Section rounds.

Abbreviation utagRecvData := BindAdapter.utagRecvData.
Implicit Types (l : list utagRecvData) (a : BindAdapter.t).

(** The requests among the first [k] messages. *)
Definition requests (n k : nat) (msgs : list RecvData.tagRecvData) : list RecvData.tagRecvData :=
  with_adapter n <$> filter (λ r, RecvData.closed r = false) (take k msgs).

Lemma drain_spec k n : ∀ a msgs,
  BindAdapter.waiting a (Some <$> msgs) →
  ∃ a', drain k n a = Ok (requests n k msgs, a') ∧
    BindAdapter.waiting a' (Some <$> drop k msgs) ∧ BindAdapter.same_but_queue a a'.
Proof.
  induction k as [|k IH]; intros a msgs Hw.
  { exists a. split; [done|]. split; [done|]. by destruct a. }
  destruct (BindAdapter.waitForRecvQueue_spec a _ Hw) as (a1 & Hp & Hw1 & Hs1).
  cbn [drain]. rewrite Hp. cbn [mbind outcome_bind]. destruct msgs as [|r msgs].
  { cbn in Hw1 |- *. exists a1. done. }
  change (default None (head (Some <$> r :: msgs))) with (Some r).
  cbn [fmap list_fmap tail] in Hw1.
  destruct (IH a1 msgs Hw1) as (a2 & -> & Hw2 & Hs2). cbn [mbind outcome_bind].
  exists a2. split; [|split; [done|]].
  - unfold requests. cbn [take]. rewrite filter_cons. destruct (RecvData.closed r) eqn:Hc.
    + by rewrite decide_False by (cbn; congruence).
    + by rewrite decide_True.
  - unfold BindAdapter.same_but_queue in *. rewrite Hs2, Hs1. done.
Qed.

(** The queue of adapter [n] holds the messages [msgs], none of them null. *)
Definition holds (sh : NetThread.Shared) (n : nat) (msgs : list RecvData.tagRecvData) : Prop :=
  NetThread.queue (NetThread.adapters sh) n (Some <$> msgs).

(** The adapters are the same, with their names and intact queues. *)
Definition evolved (sh sh' : NetThread.Shared) : Prop :=
  ∀ n, match NetThread.adapters sh !! n, NetThread.adapters sh' !! n with
       | Some a, Some a' => BindAdapter.name_ a' = BindAdapter.name_ a ∧
                            ((∃ l, BindAdapter.waiting a l) → ∃ l, BindAdapter.waiting a' l)
       | None, None => True
       | _, _ => False
       end.

Lemma evolved_refl sh : evolved sh sh.
Proof. intros n. by destruct (_ !! n). Qed.

Lemma evolved_trans sh1 sh2 sh3 : evolved sh1 sh2 → evolved sh2 sh3 → evolved sh1 sh3.
Proof.
  intros H1 H2 n. specialize (H1 n). specialize (H2 n).
  destruct (NetThread.adapters sh1 !! n), (NetThread.adapters sh2 !! n),
    (NetThread.adapters sh3 !! n); try done.
  destruct H1 as [? Hl1], H2 as [? Hl2]. split; [congruence|]. intros Hl. by apply Hl2, Hl1.
Qed.

Lemma evolved_adapter sh n a a' :
  NetThread.adapters sh !! n = Some a → BindAdapter.name_ a' = BindAdapter.name_ a →
  (∃ l, BindAdapter.waiting a' l) → evolved sh (set_adapter n a' sh).
Proof.
  intros Ha Hname Hw n'. unfold set_adapter. cbn [NetThread.adapters].
  destruct (decide (n' = n)) as [->|Hne].
  - by rewrite lookup_insert_eq, Ha.
  - rewrite lookup_insert_ne by done. by destruct (_ !! n').
Qed.

Lemma ok_evolved {B} `{ByteQueue B} (th : NetThread.t B) sh :
  NetThread.ok th → evolved (NetThread.shared th) sh → NetThread.ok (NetThread.set_shared sh th).
Proof.
  intros Hok He.
  assert (∀ a : nat, is_Some (NetThread.adapters (NetThread.shared th) !! a) →
    is_Some (NetThread.adapters sh !! a)) as Hsome.
  { intros a [ad Ha]. specialize (He a). rewrite Ha in He.
    destruct (NetThread.adapters sh !! a); [by eexists|done]. }
  split; try apply Hok; cbn.
  - intros n c Hc. destruct (NetThread.ok_conn _ Hok _ _ Hc) as (? & ? & [???? (a & ? & ?)]).
    split; [done|]. split; [done|]. split; try done. exists a. auto.
  - intros fd h Hl. destruct (NetThread.ok_listener _ Hok _ _ Hl) as (? & a & ? & ?).
    split; [done|]. exists a. auto.
  - intros a ad Ha. specialize (He a). rewrite Ha in He.
    destruct (NetThread.adapters (NetThread.shared th) !! a) as [a0|] eqn:Ha0; [|done].
    destruct He as [_ Hw]. apply Hw. by apply (NetThread.ok_queue _ Hok a).
Qed.

Lemma drain_all_spec (names : StringMap.t nat) (q : nat → list RecvData.tagRecvData) : ∀ sh,
  NoDup names.*2 → (∀ n, n ∈ names.*2 → holds sh n (q n)) →
  ∃ sh', drain_all names sh = Ok (concat ((λ n, requests n 100 (q n)) <$> names.*2), sh') ∧
    NetThread.groups sh' = NetThread.groups sh ∧
    (∀ n, n ∈ names.*2 → holds sh' n (drop 100 (q n))) ∧
    (∀ n, n ∉ names.*2 → NetThread.adapters sh' !! n = NetThread.adapters sh !! n) ∧
    evolved sh sh'.
Proof.
  induction names as [|[name n] names IH]; intros sh Hnd Hq; cbn [drain_all].
  { exists sh. split; [done|]. split; [done|]. split; [intros n Hn; by apply elem_of_nil in Hn|].
    split; [done|apply evolved_refl]. }
  rewrite fmap_cons in Hnd, Hq. cbn [snd] in Hnd, Hq. apply NoDup_cons in Hnd as [Hn Hnd].
  destruct (Hq n) as (a & Ha & Hw); [left|]. rewrite Ha. cbn [deref mbind outcome_bind].
  destruct (drain_spec 100 n a (q n) Hw) as (a1 & -> & Hw1 & Hs1). cbn [mbind outcome_bind].
  destruct (IH (set_adapter n a1 sh) Hnd) as (sh' & -> & Hg & Hq' & Hother & He).
  { intros n' Hn'. destruct (Hq n') as (a' & Ha' & Hw'); [by right|]. exists a'. split; [|done].
    cbn. rewrite lookup_insert_ne; [done|]. by intros ->. }
  cbn [mbind outcome_bind]. exists sh'. split; [by rewrite fmap_cons|]. split; [done|].
  split; [|split].
  - intros n' [->|Hn']%elem_of_cons; [|by apply Hq']. exists a1. split; [|done].
    rewrite Hother by done. unfold set_adapter. cbn [NetThread.adapters]. by rewrite lookup_insert_eq.
  - intros n' [Hne Hno]%not_elem_of_cons. rewrite Hother by done.
    unfold set_adapter. cbn [NetThread.adapters]. by rewrite lookup_insert_ne.
  - eapply evolved_trans; [|exact He]. eapply evolved_adapter; [done| |by eexists].
    unfold BindAdapter.same_but_queue in Hs1. by rewrite Hs1.
Qed.

(** [heartbeat] leaves groups and queues alone. *)
Lemma heartbeat_loop_spec cur names : ∀ sh nf,
  (∀ n, n ∈ names.*2 → is_Some (NetThread.adapters sh !! n)) →
  ∃ sh' nf', heartbeat_loop cur names sh nf = Ok (sh', nf') ∧
    NetThread.groups sh' = NetThread.groups sh ∧
    (∀ n msgs, holds sh n msgs → holds sh' n msgs) ∧ evolved sh sh'.
Proof.
  induction names as [|[name n] names IH]; intros sh nf Hk; cbn [heartbeat_loop];
    [exists sh, nf; split_and!; [done..|apply evolved_refl]|].
  rewrite fmap_cons in Hk. cbn [snd] in Hk.
  destruct (Hk n) as [a Ha]; [left|]. rewrite Ha. cbn [deref mbind outcome_bind].
  destruct (_ <? _); [|apply IH; intros; apply Hk; by right].
  set (a1 := BindAdapter.set_heartBeatTime cur a).
  destruct (IH (set_adapter n a1 sh) (NodeF.keepAlive (BindAdapter.name_ a1) nf))
    as (sh' & nf' & -> & Hg & Hq & He).
  { intros n' Hn'. unfold set_adapter. cbn [NetThread.adapters]. destruct (decide (n' = n)) as [->|Hne];
      [by rewrite lookup_insert_eq|rewrite lookup_insert_ne by done; apply Hk; by right]. }
  exists sh', nf'. split; [done|]. split; [done|]. split; cycle 1.
  { eapply evolved_trans; [|exact He]. intros n'. unfold set_adapter. cbn [NetThread.adapters].
    destruct (decide (n' = n)) as [->|Hne].
    - by rewrite lookup_insert_eq, Ha.
    - rewrite lookup_insert_ne by done. by destruct (_ !! n'). }
  intros n' msgs (a' & Ha' & Hw'). apply Hq.
  destruct (decide (n' = n)) as [->|Hne].
  - assert (a' = a) as -> by congruence. exists a1. cbn. by rewrite lookup_insert_eq.
  - exists a'. cbn. by rewrite lookup_insert_ne.
Qed.

Lemma group_spec h sh gi g :
  handleGroup_ h = Some gi → NetThread.groups sh !! gi = Some g → group h sh = Ok (gi, g).
Proof. intros Hh Hg. unfold group, BindAdapter.lock_group. rewrite Hh. cbn. by rewrite Hg. Qed.

(** Group [gi] has the adapters [names], and their queues hold [q]. *)
Definition serving (names : StringMap.t nat) (gi : nat) (q : nat → list RecvData.tagRecvData)
    (sh : NetThread.Shared) : Prop :=
  (∃ g, NetThread.groups sh !! gi = Some g ∧ HandleGroup.adapters g = names) ∧
  ∀ n, n ∈ names.*2 → holds sh n (q n).

Lemma serving_monitor names gi q sh g m :
  serving names gi q sh → NetThread.groups sh !! gi = Some g →
  serving names gi q (set_group gi (HandleGroup.set_monitor m g) sh).
Proof.
  intros [(g' & Hg' & Hn) Hq] Hg. assert (g' = g) as -> by congruence. split; [|done].
  exists (HandleGroup.set_monitor m g). cbn. by rewrite lookup_insert_eq.
Qed.

Lemma wait_section_spec names gi q q' responses rc others h sh :
  handleGroup_ h = Some gi → serving names gi q sh →
  (∀ sh0, serving names gi q sh0 → serving names gi q' (others sh0) ∧ evolved sh0 (others sh0)) →
  ∃ sh', wait_section responses rc others h sh = Ok sh' ∧
    serving names gi (if responses then q else q') sh' ∧ evolved sh sh'.
Proof.
  intros Hh Hs Ho. pose proof Hs as [(g & Hg & Hn) _]. unfold wait_section.
  rewrite (group_spec h sh gi g) by done. cbn [mbind outcome_bind]. destruct responses.
  { eexists. split; [done|]. split; [by apply serving_monitor|exact (evolved_refl sh)]. }
  destruct (Monitor.timedWait _ _ _) as [b m] eqn:Hm.
  set (sh1 := others _).
  assert (serving names gi q' sh1 ∧ evolved sh sh1) as [Hs1 He1] by by apply Ho, serving_monitor.
  pose proof Hs1 as [(g1 & Hg1 & _) _]. rewrite Hg1. cbn [deref mbind outcome_bind].
  eexists. split; [done|]. split; [by apply serving_monitor|exact He1].
Qed.

(** What both kinds of pass begin with. *)
Lemma pass_begins names gi q q' responses rc others cur h sh nf :
  handleGroup_ h = Some gi → serving names gi q sh →
  (∀ sh0, serving names gi q sh0 → serving names gi q' (others sh0) ∧ evolved sh0 (others sh0)) →
  ∃ sh1 sh2 nf', wait_section responses rc others h sh = Ok sh1 ∧
    heartbeat cur h sh1 nf = Ok (sh2, nf') ∧
    serving names gi (if responses then q else q') sh2 ∧ evolved sh sh2.
Proof.
  intros Hh Hs Ho. destruct (wait_section_spec names gi q q' responses rc others h sh Hh Hs Ho)
    as (sh1 & Hw & [(g1 & Hg1 & Hn1) Hq1] & He1).
  unfold heartbeat. destruct (heartbeat_loop_spec cur names sh1 nf) as (sh2 & nf' & Hb & Hg2 & Hq2 & He2).
  { intros n Hn. destruct (Hq1 n Hn) as (a & Ha & _). by eexists. }
  exists sh1, sh2, nf'. rewrite (group_spec h sh1 gi g1) by done. cbn [mbind outcome_bind].
  rewrite Hn1. split; [done|]. split; [done|]. split; [|by eapply evolved_trans].
  split; [exists g1; by rewrite Hg2|]. intros n Hn. by apply Hq2, Hq1.
Qed.

Lemma pass_spec names gi q q' rc others cur h sh nf :
  handleGroup_ h = Some gi → serving names gi q sh → NoDup names.*2 →
  (∀ sh0, serving names gi q sh0 → serving names gi q' (others sh0) ∧ evolved sh0 (others sh0)) →
  ∃ sh' nf', round false rc others cur h sh nf =
     Ok (concat ((λ n, requests n 100 (q' n)) <$> names.*2), sh', nf') ∧
     serving names gi (λ n, drop 100 (q' n)) sh' ∧ evolved sh sh'.
Proof.
  intros Hh Hs Hnd Ho. unfold round.
  destruct (pass_begins names gi q q' false rc others cur h sh nf Hh Hs Ho)
    as (sh1 & sh2 & nf' & -> & Hb & [(g2 & Hg2 & Hn2) Hq2] & He2).
  cbn [mbind outcome_bind]. rewrite Hb. cbn [mbind outcome_bind].
  rewrite (group_spec h sh2 gi g2) by done. cbn [mbind outcome_bind]. rewrite Hn2.
  destruct (drain_all_spec names q' sh2 Hnd Hq2) as (sh3 & -> & Hg3 & Hq3 & _ & He3).
  cbn [mbind outcome_bind]. eexists _, _. split; [done|].
  split; [|by eapply evolved_trans]. split; [exists g2; by rewrite Hg3|done].
Qed.

(** In one pass of [handleRequest] a handler makes a coroutine for every
    request among the first hundred messages of each of its adapters' queues, in
    order, the announcements of closed connections being dropped, and leaves the
    rest in the queues; it then yields.  What the network threads add while it
    waits is included.  When coroutines wait to be woken up it takes nothing. *)
Theorem handler_takes_requests names gi q q' rc others cur h sh nf
    (Hh : handleGroup_ h = Some gi) (Hs : serving names gi q sh) (Hnd : NoDup names.*2)
    (Ho : ∀ sh0, serving names gi q sh0 →
            serving names gi q' (others sh0) ∧ evolved sh0 (others sh0)) :
  (∃ sh' nf', round false rc others cur h sh nf =
     Ok (concat ((λ n, requests n 100 (q' n)) <$> names.*2), sh', nf') ∧
     serving names gi (λ n, drop 100 (q' n)) sh') ∧
  (∃ sh' nf', round true rc others cur h sh nf = Ok ([], sh', nf') ∧ serving names gi q sh').
Proof.
  split.
  - destruct (pass_spec names gi q q' rc others cur h sh nf Hh Hs Hnd Ho) as (sh' & nf' & ? & ? & _).
    by exists sh', nf'.
  - unfold round. destruct (pass_begins names gi q q' true rc others cur h sh nf Hh Hs Ho)
      as (sh1 & sh2 & nf' & -> & Hb & Hs2 & _). cbn [mbind outcome_bind].
    rewrite Hb. cbn [mbind outcome_bind]. by eexists _, _.
Qed.

End rounds.

(** ** A server with one network thread answers its clients *)

Section answering.
Context {B : Type} `{ByteQueue B}.
Implicit Types (s : EpollServer.t B) (th : NetThread.t B) (c : Connection.t B).

(** The coroutines of [rs], one after the other. *)
Fixpoint handle_all (h : t) (rs : list RecvData.tagRecvData) s : outcome (EpollServer.t B) :=
  match rs with
  | [] => Ok s
  | r :: rs => s ← handle h r s; handle_all h rs s
  end.

Definition set_shared sh s : EpollServer.t B :=
  EpollServer.set_threads (NetThread.set_shared sh <$> EpollServer.netThreads_ s) sh s.

(** The response to [r]. *)
Definition answer (func : bytes → bytes) (r : RecvData.tagRecvData) : bytes * (bytes * Z) :=
  (func (RecvData.buffer r), (RecvData.ip r, RecvData.port r)).

Lemma handle_all_spec h func a name rs : ∀ s th ad,
  EpollServer.single s th → NetThread.ok th → NetThread.terminate_ th = false →
  NetThread.adapters (EpollServer.shared s) !! a = Some ad → BindAdapter.name_ ad = name →
  StringMap.find name (servants_ h) = Some (Some func) →
  zlen (ThreadDeque.deque_ (NetThread.sendBuffer_ th)) + zlen rs < 2 ^ 64 →
  Forall (λ r, RecvData.adapter r = Some a) rs →
  ∃ s' th', handle_all h rs s = Ok s' ∧ EpollServer.single s' th' ∧ NetThread.ok th' ∧
    NetThread.sent th' = NetThread.sent th ∧ NetThread.terminate_ th' = false ∧
    NetThread.shared th' = NetThread.shared th ∧
    ThreadDeque.deque_ (NetThread.sendBuffer_ th') =
      ThreadDeque.deque_ (NetThread.sendBuffer_ th) ++
        ((λ r, NetThread.response (RecvData.uid r) (answer func r)) <$> rs) ∧
    NetThread.same_conns th th'.
Proof.
  induction rs as [|r rs IH]; intros s th ad Hs Hok Ht Ha Hname Hf Hlen Hrs.
  { exists s, th. rewrite app_nil_r. by do 7 (split; [done|]). }
  apply Forall_cons in Hrs as [Hr Hrs]. cbn [length] in Hlen. cbn [handle_all]. unfold handle.
  rewrite Hr. cbn [deref mbind outcome_bind]. rewrite Ha. cbn [deref mbind outcome_bind].
  rewrite Hname, Hf.
  destruct (EpollServer.send_single s th (RecvData.uid r) (func (RecvData.buffer r)) (RecvData.ip r)
    (RecvData.port r) (RecvData.fd r) Hs Hok Ht)
    as (s1 & th1 & -> & Hs1 & Hok1 & Ht1 & Hse1 & Hsh1 & Hd1 & Hk1); [lia|].
  cbn [mbind outcome_bind].
  destruct (IH s1 th1 ad Hs1 Hok1 Ht1) as (s' & th' & -> & ? & ? & Hse & ? & Hsh & Hd & Hk); try done.
  - by rewrite <- (EpollServer.single_shared _ _ Hs1), Hsh1, (EpollServer.single_shared _ _ Hs).
  - rewrite Hd1, length_app. cbn [length]. lia.
  - exists s', th'. split; [done|]. split; [done|]. split; [done|]. split; [congruence|].
    split; [done|]. split; [congruence|].
    split; [by rewrite Hd, Hd1, fmap_cons, <- app_assoc|by eapply NetThread.same_conns_trans].
Qed.

(** What one pass takes of a short queue of requests. *)
Lemma requests_all n msgs :
  zlen msgs ≤ 100 → Forall (λ r, RecvData.closed r = false) msgs →
  requests n 100 msgs = with_adapter n <$> msgs.
Proof.
  intros Hlen Hc. unfold requests. rewrite take_ge by lia.
  by rewrite filter_all by by apply Forall_forall.
Qed.

(** A pass of the handler takes what waits for its adapter. *)
Lemma requests_reach_handler s th msgs a name gi g h rc cur nf :
  EpollServer.single s th → NetThread.ok th →
  holds (EpollServer.shared s) a msgs →
  BindAdapter.name_ <$> NetThread.adapters (EpollServer.shared s) !! a = Some name →
  handleGroup_ h = Some gi → NetThread.groups (EpollServer.shared s) !! gi = Some g →
  HandleGroup.adapters g = [(name, a)] →
  ∃ sh nf', round false rc id cur h (EpollServer.shared s) nf = Ok (requests a 100 msgs, sh, nf') ∧
    let th2 := NetThread.set_shared sh th in
    EpollServer.single (set_shared sh s) th2 ∧ NetThread.ok th2 ∧
    BindAdapter.name_ <$> NetThread.adapters sh !! a = Some name ∧ holds sh a (drop 100 msgs) ∧
    ∃ g', NetThread.groups sh !! gi = Some g' ∧ HandleGroup.adapters g' = [(name, a)].
Proof.
  intros Hs Hok Hq Hname Hh Hg Hnames.
  assert (serving [(name, a)] gi (λ _, msgs) (EpollServer.shared s)) as Hserv.
  { split; [by exists g|]. intros n' Hn'. change (n' ∈ [a]) in Hn'.
    apply list_elem_of_singleton in Hn' as ->. done. }
  destruct (pass_spec [(name, a)] gi (λ _, msgs) (λ _, msgs) rc id cur h _ nf Hh Hserv)
    as (sh & nf' & Hround & [Hgr Hq'] & He).
  { apply NoDup_singleton. }
  { intros sh0 Hs0. split; [done|apply evolved_refl]. }
  specialize (Hq' a ltac:(left)). cbv beta in Hq'.
  change ([(name, a)].*2) with [a] in Hround. cbn [fmap list_fmap concat] in Hround.
  rewrite app_nil_r in Hround.
  exists sh, nf'. split; [done|]. pose proof (EpollServer.single_shared _ _ Hs) as Hsh.
  destruct Hs as (th0 & Hth & Hv). split; [|split; [|split; [|by split]]].
  - eexists. split; [cbn; by rewrite Hth|]. cbn. by rewrite <- Hv.
  - apply ok_evolved; [done|]. by rewrite Hsh.
  - specialize (He a). destruct (NetThread.adapters (EpollServer.shared s) !! a); [|done].
    destruct (NetThread.adapters sh !! a); [|done]. destruct He as [Hn _]. cbn in *. congruence.
Qed.

(** A server with one network thread in which handler [h] handles the requests to
    adapter [a], the only one of group [gi], whose function is [func]; nothing is
    queued in either direction. *)
Record hosts s th (a : nat) (name : bytes) (gi : nat) (h : t) (func : bytes → bytes) : Prop := {
  ho_single : EpollServer.single s th;
  ho_ok : NetThread.ok th;
  ho_running : NetThread.terminate_ th = false;
  ho_idle : ThreadDeque.deque_ (NetThread.sendBuffer_ th) = [];
  ho_adapter : ∃ ad, NetThread.adapters (EpollServer.shared s) !! a = Some ad ∧
    BindAdapter.name_ ad = name ∧ BindAdapter.waiting ad [];
  ho_handler : handleGroup_ h = Some gi;
  ho_group : ∃ g, NetThread.groups (EpollServer.shared s) !! gi = Some g ∧
    HandleGroup.adapters g = [(name, a)];
  ho_func : StringMap.find name (servants_ h) = Some (Some func)
}.

(** Such a server serves the open connection [c]. *)
Record serves s th (uid : Z) (n : nat) c (a : nat) (name : bytes) (gi : nat) (h : t)
    (func : bytes → bytes) : Prop := {
  sv_hosts : hosts s th a name gi h func;
  sv_live : NetThread.live uid n c th;
  sv_conn : Connection.bindAdapter_ c = Some a
}.

(** The state of the server and the handler say which adapter that is. *)
Lemma hosts_inj s th a name gi h func th' a' name' gi' func' :
  hosts s th a name gi h func → hosts s th' a' name' gi' h func' →
  th' = th ∧ a' = a ∧ name' = name ∧ gi' = gi ∧ func' = func.
Proof.
  intros [Hs _ _ _ _ Hh (g & Hg & Hn) Hf] [Hs' _ _ _ _ Hh' (g' & Hg' & Hn') Hf'].
  assert (gi' = gi) as -> by congruence. assert (g' = g) as -> by congruence.
  rewrite Hn in Hn'. injection Hn' as -> ->. rewrite Hf in Hf'. injection Hf' as ->.
  split; [by eapply EpollServer.single_inj|done].
Qed.

Lemma serves_after_read maxIOVcount ev reads env s th uid n c msgs c1 a name gi h func :
  serves s th uid n c a name gi h func → u32 (Epoller.data ev) = uid →
  Epoller.events ev = Epoller.EPOLLIN →
  Connection.recv reads c = Ok (i32 (zlen msgs), msgs, c1) → msgs ≠ [] → zlen msgs ≤ 100 →
  ∃ s1 m' gs g', let th1 := NetThread.set_shared (NetThread.mk_shared m' gs) (NetThread.put_conn n c1 th) in
    EpollServer.run_thread 0 (NetThread.processNet maxIOVcount ev reads env) s = Ok s1 ∧
    EpollServer.single s1 th1 ∧ NetThread.ok th1 ∧ NetThread.live uid n c1 th1 ∧
    holds (EpollServer.shared s1) a msgs ∧
    BindAdapter.name_ <$> NetThread.adapters (EpollServer.shared s1) !! a = Some name ∧
    NetThread.groups (EpollServer.shared s1) !! gi = Some g' ∧ HandleGroup.adapters g' = [(name, a)].
Proof.
  intros [[Hs Hok Ht Hd (ad & Had & Hname & Hwait) Hh (g & Hg & Hnames) Hfunc] Hlive Hba] Hu Hev Hrecv
    Hne Hlen.
  pose proof (EpollServer.single_shared _ _ Hs) as Hsh. rewrite <- Hsh in Had, Hg.
  assert (NetThread.queue (NetThread.adapters (NetThread.shared th)) a []) as Hq by by exists ad.
  destruct (NetThread.processNet_requests maxIOVcount ev reads env th uid n c msgs c1 a
    Hok Hlive Hu Hev Hrecv Hne) as (m' & gs & Hp & Hok1 & Hlive1 & Hgr & Hgs); [lia| |done|].
  { intros l Hl. rewrite (NetThread.queue_inj _ _ _ _ Hl Hq). cbn. lia. }
  destruct (EpollServer.run_single s th _ _ Hs Hp) as (s1 & Hr1 & Hs1 & _).
  pose proof (EpollServer.single_shared _ _ Hs1) as Hsh1. cbn in Hsh1.
  assert (∃ g', gs !! gi = Some g' ∧ HandleGroup.adapters g' = [(name, a)]) as (g' & Hg' & Hn').
  { specialize (Hgs gi). rewrite Hg in Hgs. cbn in Hgs.
    apply fmap_Some in Hgs as (g' & ? & Hn'). exists g'. split; [done|congruence]. }
  exists s1, m', gs, g'. do 4 (split; [done|]). rewrite <- Hsh1. cbn [NetThread.adapters NetThread.groups].
  split; [apply (NetThread.grown_queue _ _ _ _ Hgr [] Hq)|].
  split; [|done]. rewrite (NetThread.grown_name _ _ _ _ Hgr), Had. cbn. by rewrite Hname.
Qed.

(** A whole exchange, after which the server is ready for the next one. *)
Lemma serves_requests maxIOVcount ev reads env envs s th uid n c msgs c1 a name gi h func rc cur nf :
  serves s th uid n c a name gi h func → u32 (Epoller.data ev) = uid →
  Epoller.events ev = Epoller.EPOLLIN →
  Connection.recv reads c = Ok (i32 (zlen msgs), msgs, c1) → msgs ≠ [] → zlen msgs ≤ 100 →
  (∀ m, m ∈ msgs → func (RecvData.buffer m) ≠ []) →
  ∃ s1 created sh nf' s2 s3 th3,
    EpollServer.run_thread 0 (NetThread.processNet maxIOVcount ev reads env) s = Ok s1 ∧
    created = with_adapter a <$> msgs ∧
    round false rc id cur h (EpollServer.shared s1) nf = Ok (created, sh, nf') ∧
    handle_all h created (set_shared sh s1) = Ok s2 ∧
    EpollServer.run_thread 0 (NetThread.processPipe maxIOVcount envs) s2 = Ok s3 ∧
    serves s3 th3 uid n c1 a name gi h func ∧
    NetThread.sent th3 = NetThread.sent th ++
      ((λ m, (Connection.fd_ c, func (RecvData.buffer m))) <$> msgs) ∧
    NetThread.keeps uid th th3.
Proof.
  intros Hsv Hu Hev Hrecv Hne Hlen Hresp. pose proof (sv_hosts _ _ _ _ _ _ _ _ _ _ Hsv) as Hho.
  destruct (serves_after_read maxIOVcount ev reads env s th uid n c msgs c1 a name gi h func Hsv Hu Hev
    Hrecv Hne Hlen) as (s1 & m' & gs & g' & Hr1 & Hs1 & Hok1 & Hlive1 & Hq1 & Hname1 & Hg' & Hn').
  destruct (Connection.recv_fields _ _ _ _ _ Hrecv) as (Hc1 & (reqs & Hreqs) & _).
  destruct (requests_reach_handler s1 _ msgs a name gi g' h rc cur nf Hs1 Hok1)
    as (sh & nf' & Hround & Hs2 & Hok2 & Hname2 & Hq2 & g2 & Hg2 & Hn2); try done; try apply Hho.
  rewrite drop_ge in Hq2 by lia.
  rewrite requests_all in Hround; [|done|rewrite Hreqs; by apply Forall_fmap, Forall_true].
  apply fmap_Some in Hname2 as (ad2 & Had2 & Hname2).
  set (th2 := NetThread.set_shared sh _) in *. assert (NetThread.live uid n c1 th2) as Hlive2 by done.
  destruct (NetThread.ok_live _ _ _ _ (ho_ok _ _ _ _ _ _ _ Hho) (sv_live _ _ _ _ _ _ _ _ _ _ Hsv))
    as [[Huid _ _ _ _] _].
  assert (NetThread.sendBuffer_ th2 = NetThread.sendBuffer_ th) as Hsb by done.
  pose proof (ho_idle _ _ _ _ _ _ _ Hho) as Hd.
  destruct (handle_all_spec h func a name (with_adapter a <$> msgs) (set_shared sh s1) th2 ad2 Hs2 Hok2)
    as (s2 & th3 & Hall & Hs3 & Hok3 & Hse3 & Ht3 & Hsh3 & Hd3 & Hk3); try done; try apply Hho.
  { rewrite Hsb, Hd, length_fmap. cbn [length]. lia. }
  { by apply Forall_fmap, Forall_true. }
  rewrite Hsb, Hd in Hd3. cbn [app] in Hd3.
  destruct (NetThread.processPipe_sends maxIOVcount envs th3 uid n c1
    (answer func <$> (with_adapter a <$> msgs)) Hok3 (NetThread.same_conns_live _ _ _ _ _ Hk3 Hlive2))
    as (th4 & Hpp & Hlive4 & Hse4 & Hok4 & Hd4 & Ht4 & Hsh4 & Hk4).
  { apply Forall_fmap, Forall_fmap, Forall_forall. intros m Hm. exact (Hresp m Hm). }
  { rewrite Hd3, Hreqs, <- !list_fmap_compose. apply list_fmap_ext. intros i r _. cbn. by rewrite Huid. }
  destruct (EpollServer.run_single s2 th3 th4 _ Hs3 Hpp) as (s3 & Hr3 & Hs4 & _).
  exists s1, (with_adapter a <$> msgs), sh, nf', s2, s3, th4.
  do 5 (split; [done|]). split; [|split].
  - assert (EpollServer.shared s3 = sh) as Hsh by 
      (by rewrite <- (EpollServer.single_shared _ _ Hs4), Hsh4, Hsh3).
    split; [|exact Hlive4|rewrite Hc1; apply Hsv]. split; rewrite ?Hsh; try done; try apply Hho.
    + congruence.
    + exists ad2. split; [done|]. split; [done|]. destruct Hq2 as (ad3 & Ha3 & Hw3).
      by replace ad2 with ad3 by congruence.
    + by exists g2.
  - rewrite Hse4, Hse3, Hc1. f_equal. by rewrite <- !list_fmap_compose.
  - eapply NetThread.keeps_trans; [|exact Hk4]. eapply NetThread.keeps_trans; [|exact (NetThread.same_conns_keeps uid _ _ Hk3)].
    pose proof (NetThread.keeps_put th uid n c c1 (ho_ok _ _ _ _ _ _ _ Hho)
      (sv_live _ _ _ _ _ _ _ _ _ _ Hsv)) as []. by split.
Qed.

(** A client hangs up: the handler's next pass drops the message that says so. *)
Lemma serves_hang_up maxIOVcount ev reads env s th uid n c a name gi h func rc cur nf :
  serves s th uid n c a name gi h func → u32 (Epoller.data ev) = uid →
  NetThread.hang_up (Epoller.events ev) reads →
  ∃ s1 sh nf' th2,
    EpollServer.run_thread 0 (NetThread.processNet maxIOVcount ev reads env) s = Ok s1 ∧
    round false rc id cur h (EpollServer.shared s1) nf = Ok ([], sh, nf') ∧
    hosts (set_shared sh s1) th2 a name gi h func ∧ NetThread.sent th2 = NetThread.sent th ∧
    NetThread.keeps uid th th2.
Proof.
  intros [[Hs Hok Ht Hd (ad & Had & Hname & Hwait) Hh (g & Hg & Hnames) Hfunc] Hlive Hba] Hu Hup.
  pose proof (EpollServer.single_shared _ _ Hs) as Hsh. rewrite <- Hsh in Had, Hg.
  assert (NetThread.queue (NetThread.adapters (NetThread.shared th)) a []) as Hq by by exists ad.
  destruct (NetThread.processNet_hang_up maxIOVcount ev reads env th uid n c a Hok Hlive Hu Hup Hba)
    as (ct & m' & gs & e & Hp & Hok1 & Hgr & Hgs & Hk).
  { intros l Hl. rewrite (NetThread.queue_inj _ _ _ _ Hl Hq). done. }
  destruct (EpollServer.run_single s th _ _ Hs Hp) as (s1 & Hr1 & Hs1 & _).
  pose proof (EpollServer.single_shared _ _ Hs1) as Hsh1. cbn in Hsh1.
  assert (∃ g', gs !! gi = Some g' ∧ HandleGroup.adapters g' = [(name, a)]) as (g' & Hg' & Hn').
  { specialize (Hgs gi). rewrite Hg in Hgs. cbn in Hgs.
    apply fmap_Some in Hgs as (g' & ? & Hn'). exists g'. split; [done|congruence]. }
  destruct (requests_reach_handler s1 _ [NetThread.close_msg c ct] a name gi g' h rc cur nf Hs1 Hok1)
    as (sh & nf' & Hround & Hs2 & Hok2 & Hname2 & (ad2 & Had2 & Hw2) & Hg2); rewrite <- ?Hsh1; try done.
  { exact (NetThread.grown_queue _ _ _ _ Hgr [] Hq). }
  { cbn [NetThread.adapters]. rewrite (NetThread.grown_name _ _ _ _ Hgr), Had. cbn. by rewrite Hname. }
  exists s1, sh, nf'. eexists. split; [done|]. split; [exact Hround|]. split.
  - split; try done. exists ad2. split; [done|]. split; [|done]. rewrite Had2 in Hname2. by injection Hname2.
  - split; [done|]. eapply NetThread.keeps_trans; [exact Hk|]. by split.
Qed.


End answering.

(** ** An echo server *)

Definition echo_name : bytes := ["E"; "c"; "h"; "o"]%char.

Definition echo_adapters : NetThread.Shared :=
  NetThread.mk_shared {[0%nat := BindAdapter.set_name echo_name BindAdapter.new]} ∅.

(** The application's start: the adapter gets its group of one handler, a
    socket, and the thread's epoll; then one client connects. *)
Definition echo_start : outcome (EpollServer.t Buffer.t) :=
  s ← EpollServer.set_handleGroup echo_name 1 0 (EpollServer.new [(3, 4, 0)] echo_adapters);
  '(_, s) ← EpollServer.bind 0 7 s;
  EpollServer.run_thread 0 (λ th, '(_, th) ← NetThread.accept 7 false NetThread.a_client th; Ok th)
    (EpollServer.createEpoll s).

Definition echo_server : EpollServer.t Buffer.t :=
  match echo_start with Ok s => s | _ => EpollServer.new [] echo_adapters end.

Definition echo_handle : t := mk [(echo_name, Some id)] (Some 0%nat).

(** The same thread, step by step. *)
Definition echo_listening : NetThread.t Buffer.t :=
  match EpollServer.set_handleGroup (B := Buffer.t) echo_name 1 0 (EpollServer.new [] echo_adapters) with
  | Ok s => match NetThread.bind 0 7 (NetThread.new 3 4 0 (EpollServer.shared s)) with
            | Ok (_, th) => NetThread.createEpoll 256 th
            | _ => NetThread.connected
            end
  | _ => NetThread.connected
  end.

Definition echo_thread : NetThread.t Buffer.t :=
  match NetThread.accept 7 false NetThread.a_client echo_listening with
  | Ok (_, th) => th
  | _ => NetThread.connected
  end.

Lemma echo_adapters_waiting sh :
  NetThread.adapters sh = {[0%nat := BindAdapter.set_handleGroup (Some 0%nat)
                              (BindAdapter.set_name echo_name BindAdapter.new)]} →
  ∀ b ad, NetThread.adapters sh !! b = Some ad → ∃ l, BindAdapter.waiting ad l.
Proof. intros -> b ad Hb. apply lookup_singleton_Some in Hb as [_ <-]. by exists []. Qed.

Lemma echo_thread_ok : NetThread.ok echo_thread.
Proof.
  assert (∃ sh th, NetThread.bind 0 7 (NetThread.new 3 4 0 sh) = Ok (7, th) ∧
    echo_listening = NetThread.createEpoll 256 th ∧ NetThread.ok (NetThread.createEpoll 256 th))
    as (sh & th & Hb & Heq & Hok).
  { unfold echo_listening.
    destruct (EpollServer.set_handleGroup _ _ _ _) as [s| | | |] eqn:Hs; try (vm_compute in Hs; discriminate).
    assert (NetThread.adapters (EpollServer.shared s) = {[0%nat := BindAdapter.set_handleGroup (Some 0%nat)
      (BindAdapter.set_name echo_name BindAdapter.new)]}) as Had
      by (vm_compute in Hs; injection Hs as <-; vm_compute; reflexivity).
    destruct (NetThread.start_ok (B := Buffer.t) 3 4 0 (EpollServer.shared s) 0 7) as (th & Hb & Hok).
    - rewrite Had. by eexists.
    - done.
    - by apply echo_adapters_waiting.
    - exists (EpollServer.shared s), th. rewrite Hb. done. }
  destruct (NetThread.accept_spec 7 false NetThread.a_client echo_listening 0) as (b & st & Ha & Hok' & _).
  - by rewrite Heq.
  - vm_compute. reflexivity.
  - vm_compute. discriminate.
  - unfold echo_thread. by rewrite Ha.
Qed.

Lemma echo_single : EpollServer.single echo_server echo_thread.
Proof. eexists. split; vm_compute; reflexivity. Qed.

(** A request and the announcement of a closed connection arrive. *)
Definition arrived (closed : bool) : RecvData.tagRecvData :=
  RecvData.mk 1 NetThread.hello [] 80 0 false closed 9 None 0.

Definition arrive (sh : NetThread.Shared) : NetThread.Shared :=
  match NetThread.adapters sh !! 0%nat with
  | Some a => set_adapter 0 (BindAdapter.set_receiveBuffer
                (ThreadDeque.mk Monitor.init [Some (arrived false); Some (arrived true)] 2) a) sh
  | None => sh
  end.

Lemma handler_takes_requests_witness :
  ∃ sh' nf', round false true arrive 100 echo_handle (EpollServer.shared echo_server) NodeF.init
    = Ok ([with_adapter 0 (arrived false)], sh', nf').
Proof.
  destruct (handler_takes_requests [(echo_name, 0%nat)] 0 (λ _, [])
    (λ _, [arrived false; arrived true]) true arrive 100 echo_handle
    (EpollServer.shared echo_server) NodeF.init) as [(sh' & nf' & Hr & _) _].
  - done.
  - split; [eexists; split; vm_compute; reflexivity|]. intros n Hn. change (n ∈ [0%nat]) in Hn.
    apply list_elem_of_singleton in Hn as ->. eexists. split; [vm_compute; reflexivity|]. done.
  - apply NoDup_singleton.
  - intros sh0 [Hg Hq]. destruct (Hq 0%nat) as (a & Ha & _); [left|]. unfold arrive. rewrite Ha.
    split; [|eapply evolved_adapter; [done..|by exists [Some (arrived false); Some (arrived true)]]].
    split; [exact Hg|]. intros n Hn. change (n ∈ [0%nat]) in Hn.
    apply list_elem_of_singleton in Hn as ->. eexists. split; [by apply lookup_insert_eq|]. done.
  - exists sh', nf'. exact Hr.
Defined.

Lemma echo_received :
  ∃ c m c', NetThread.live 1 0 c echo_thread ∧ Connection.fd_ c = 9 ∧
    Connection.bindAdapter_ c = Some 0%nat ∧
    Connection.recv [Connection.Rd (Wire.frame NetThread.hello)] c = Ok (1, [m], c') ∧
    RecvData.buffer m = NetThread.hello.
Proof.
  assert (match NetThread.conns echo_thread !! 0%nat with
          | Some c => match Connection.recv [Connection.Rd (Wire.frame NetThread.hello)] c with
                      | Ok (ret, [m], c') =>
                          (ret, RecvData.buffer m, Connection.fd_ c, Connection.bindAdapter_ c)
                      | _ => (0, [], 0, None)
                      end
          | None => (0, [], 0, None)
          end = (1, NetThread.hello, 9, Some 0%nat)) as Hr by (vm_compute; reflexivity).
  destruct (NetThread.conns echo_thread !! 0%nat) as [c|] eqn:Hc; [|discriminate].
  destruct (Connection.recv _ c) as [[[ret [|m [|m2 ms]]] c']| | | |] eqn:Hrecv; try discriminate.
  injection Hr as -> Hb Hf Ha. exists c, m, c'. split; [split; [vm_compute; reflexivity|exact Hc]|].
  split; [exact Hf|]. split; [exact Ha|]. split; [exact Hrecv|exact Hb].
Qed.

Lemma echo_serves func c :
  NetThread.live 1 0 c echo_thread → Connection.bindAdapter_ c = Some 0%nat →
  serves echo_server echo_thread 1 0 c 0 echo_name 0 (mk [(echo_name, Some func)] (Some 0%nat)) func.
Proof.
  intros Hl Ha. split; [|exact Hl|exact Ha]. split.
  - exact echo_single.
  - exact echo_thread_ok.
  - vm_compute. reflexivity.
  - vm_compute. reflexivity.
  - exists (BindAdapter.set_fd 7 (BindAdapter.set_handleGroup (Some 0%nat)
      (BindAdapter.set_name echo_name BindAdapter.new))).
    split; [vm_compute; reflexivity|]. by split.
  - reflexivity.
  - exists (HandleGroup.mk echo_name Monitor.init [0%nat] [(echo_name, 0%nat)]).
    split; [vm_compute; reflexivity|reflexivity].
  - reflexivity.
Qed.


End ServantHandle.
