(* ===== verification/HandlerRun.v ===== *)
(** * HandlerRun: ServantHandle::run, ServantHandle.cc

    A handler thread: its scheduler runs the coroutine of [handleRequest] and the
    coroutines that it makes, one for each request.  [serve] says what one call of
    [tars_run] does to the requests that wait in these coroutines; the thread
    refines it, for any number of calls. *)

From S2P Require Import Prelude ByteQueue Buffer Monitor ThreadDeque Wire.
From S2P Require Import Message Connection Epoller BindAdapter NetThread EpollServer.
From S2P Require Import ServantManager CoroList Stacks Scheduler RoundRobin ServantHandle.

Module HandlerRun.

(** What the coroutines of a handler are for: one runs [handleRequest], the others
    [handle] a request each. *)
Inductive task :=
| HandleRequest
| HandleRecvData (recv : RecvData.tagRecvData).

(** What happens around a call of [tars_run]: what the other threads do before it,
    the clock in milliseconds, and for [handleRequest] whether its wait is ended
    by a notification and the time in seconds. *)
Record visit (B : Type) := mk_visit {
  others : EpollServer.t B → EpollServer.t B;
  now : Z;
  notified : bool;
  cur : Z
}.
Arguments mk_visit {B}.
Arguments others {B}.
Arguments now {B}.
Arguments notified {B}.
Arguments cur {B}.

Section operations.
Context {B : Type} `{ByteQueue B}.
Context (alloc_ok : nat → bool).

(** The server and the node's registry, which the handlers share. *)
Abbreviation world := (EpollServer.t B * NodeF.t)%type.
Implicit Types (w : world) (v : visit B) (h : ServantHandle.t).

(** One pass of [handleRequest]. *)
Definition take_requests (v : visit B) (responses : bool) h w
    : outcome (list RecvData.tagRecvData * world) :=
  let '(s, nf) := w in
  '(created, sh, nf) ← ServantHandle.round responses (notified v) id (cur v) h (EpollServer.shared s) nf;
  Ok (created, (ServantHandle.set_shared sh s, nf)).

(** [handle], called by [corotineProc], which catches the exceptions. *)
Definition handle_request h (r : RecvData.tagRecvData) w : outcome world :=
  let '(s, nf) := w in
  match ServantHandle.handle h r s with
  | Raise _ => Ok w
  | o => s ← o; Ok (s, nf)
  end.

(** What a coroutine does until it yields or ends. *)
Definition resume (v : visit B) h (st : Scheduler.t task) (p : task) w
    : outcome (list task * option (Scheduler.pause * task) * world) :=
  match p with
  | HandleRequest =>
      let responses := negb (bool_decide (Scheduler.activeCoroQueue_ st = [])) in
      '(created, w) ← take_requests v responses h w;
      Ok ((HandleRecvData <$> created : list task), Some (Scheduler.Yield true, HandleRequest), w)
  | HandleRecvData r => w ← handle_request h r w; Ok ([], None, w)
  end.

(** The start of [run], up to its loop. *)
Definition new_scheduler : outcome (Scheduler.t task) :=
  st ← Scheduler.init alloc_ok ServantHandle.coroutineNum Scheduler.new;
  '(ret, st) ← Scheduler.createCoroutine alloc_ok HandleRequest st;
  Ok st.

Definition begin h (m : ServantHelperManager.t) (sh : NetThread.Shared)
    : outcome (ServantHandle.t * ServantHelperManager.t * Scheduler.t task) :=
  '(h, m) ← ServantHandle.init h m sh;
  st ← new_scheduler;
  Ok (h, m, st).

Definition tars_run v h (st : Scheduler.t task) w : outcome (Scheduler.t task * world) :=
  Scheduler.tars_run (resume v h) alloc_ok (now v) st w.

(** One round of the loop, with what happens before. *)
Definition visit_thread v h (s : Scheduler.t task * world) : outcome (Scheduler.t task * world) :=
  let '(st, (s, nf)) := s in tars_run v h st (others v s, nf).

(** The loop; [Spin] when it goes on. *)
Fixpoint run_loop (visits : list (visit B)) h (s : Scheduler.t task * world)
    : outcome (Scheduler.t task * world) :=
  if EpollServer.terminate_ s.2.1 then Ok s
  else match visits with
       | [] => Spin
       | v :: visits => s ← visit_thread v h s; run_loop visits h s
       end.

(** [run]; [stopHandle] does nothing. *)
Definition run (rlim_max : Z) (stack : nat → Stacks.stack_context) (visits : list (visit B)) h
    (m : ServantHelperManager.t) w
    : outcome (ServantHelperManager.t * Scheduler.t task * world * list (Z * Z)) :=
  '(h, m, st) ← begin h m (EpollServer.shared w.1);
  '(st, w) ← run_loop visits h (st, w);
  let st := Scheduler.terminate st in
  freed ← Scheduler.destroy rlim_max stack st;
  Ok (m, st, w, freed).

(** ** The specification *)

(** The requests [rs], one after the other. *)
Fixpoint handle_each h (rs : list RecvData.tagRecvData) w : outcome world :=
  match rs with [] => Ok w | r :: rs => w ← handle_request h r w; handle_each h rs w end.

(** One call of [tars_run] while the requests [P] wait in coroutines of their own:
    of the hundred turns one is for [handleRequest], if it is reached; the
    requests for which the pool has no room are gone. *)
Definition serve v h (P : list RecvData.tagRecvData) w : outcome (list RecvData.tagRecvData * world) :=
  if decide (length P < 100)%nat then
    w ← handle_each h P w;
    '(created, w) ← take_requests v false h w;
    let kept := take (Z.to_nat (ServantHandle.coroutineNum - 1)) created in
    w ← handle_each h (take (99 - length P) kept) w;
    Ok (drop (99 - length P) kept, w)
  else
    w ← handle_each h (take 100 P) w; Ok (drop 100 P, w).

(** The same with nothing to observe, for sequences of rounds. *)
Definition thread_step h v (s : Scheduler.t task * world) : outcome (unit * (Scheduler.t task * world)) :=
  s ← visit_thread v h s; Ok ((), s).

Definition visit_spec v h (s : list RecvData.tagRecvData * world)
    : outcome (list RecvData.tagRecvData * world) :=
  let '(P, (s, nf)) := s in serve v h P (others v s, nf).

Definition spec_step h v (s : list RecvData.tagRecvData * world)
    : outcome (unit * (list RecvData.tagRecvData * world)) :=
  s ← visit_spec v h s; Ok ((), s).

(** The whole thread: rounds until the server is told to stop; what waits then is
    not handled any more. *)
Fixpoint spec_loop (visits : list (visit B)) h (s : list RecvData.tagRecvData * world)
    : outcome (list RecvData.tagRecvData * world) :=
  if EpollServer.terminate_ s.2.1 then Ok s
  else match visits with
       | [] => Spin
       | v :: visits => s ← visit_spec v h s; spec_loop visits h s
       end.

Definition spec_run (visits : list (visit B)) h (m : ServantHelperManager.t) w
    : outcome (ServantHelperManager.t * world) :=
  '(h, m) ← ServantHandle.init h m (EpollServer.shared w.1);
  '(P, w) ← spec_loop visits h ([], w);
  Ok (m, w).

End operations.

(** ** The thread refines the specification *)

Section refinement.
Context {B : Type} `{ByteQueue B}.
Context (alloc_ok : nat → bool).
Hypothesis alloc_total : ∀ n, alloc_ok n = true.
Abbreviation world := (EpollServer.t B * NodeF.t)%type.
Implicit Types (w : world) (v : visit B) (h : ServantHandle.t) (P : list RecvData.tagRecvData).

(** The coroutines of the thread, none of which is ever put to sleep. *)
Definition work v h (p : task) w : outcome (list task * option task * world) :=
  match p with
  | HandleRequest =>
      '(created, w) ← take_requests v false h w;
      Ok ((HandleRecvData <$> created : list task), Some HandleRequest, w)
  | HandleRecvData r => w ← handle_request h r w; Ok ([], None, w)
  end.

Lemma resume_work v h st p w :
  Scheduler.activeCoroQueue_ st = [] → resume v h st p w = RoundRobin.yielding (work v h) p w.
Proof.
  intros Hq. destruct p as [|r]; cbn [resume work RoundRobin.yielding]; unfold RoundRobin.yielding.
  - rewrite Hq, bool_decide_true by done. cbn [negb work].
    by destruct (take_requests v false h w) as [[created w1]| | | |].
  - cbn [work]. by destruct (handle_request h r w).
Qed.

(** The requests [P] wait, and the coroutine of [handleRequest] with them or for
    its next turn. *)
Definition loaded P (r : RoundRobin.t task) : Prop :=
  r = RoundRobin.mk ServantHandle.coroutineNum (HandleRecvData <$> P) [HandleRequest] ∨
  r = RoundRobin.mk ServantHandle.coroutineNum ((HandleRecvData <$> P) ++ [HandleRequest]) [].

Definition waiting (st : Scheduler.t task) P : Prop :=
  ∃ r, RoundRobin.models st r ∧ loaded P r.

Lemma loaded_wake P r :
  loaded P r →
  RoundRobin.wake r =
    RoundRobin.mk ServantHandle.coroutineNum ((HandleRecvData <$> P) ++ [HandleRequest]) [].
Proof. unfold RoundRobin.wake. by intros [-> | ->]; cbn; rewrite ?app_nil_r. Qed.

Lemma turns_requests v h c rest ys P : ∀ k w,
  RoundRobin.turns (work v h) k (RoundRobin.mk c ((HandleRecvData <$> P) ++ rest) ys) w =
  (w ← handle_each h (take k P) w;
   RoundRobin.turns (work v h) (k - length P)
     (RoundRobin.mk c ((HandleRecvData <$> drop k P) ++ rest) ys) w).
Proof.
  induction P as [|r P IH]; intros [|k] w; try done.
  cbn [RoundRobin.turns RoundRobin.ready fmap list_fmap app take drop handle_each length Nat.sub].
  unfold RoundRobin.turn. cbn [work].
  destruct (handle_request h r w) as [w1| | | |]; cbn [mbind outcome_bind]; try done.
  cbn [RoundRobin.create_all RoundRobin.ready RoundRobin.yielded RoundRobin.capacity tail option_list].
  rewrite app_nil_r. apply IH.
Qed.

Lemma create_all_room {Prog} c ys (ps : list Prog) : ∀ rs,
  RoundRobin.create_all ps (RoundRobin.mk c rs ys) =
  RoundRobin.mk c (rs ++ take (Z.to_nat (c - zlen rs - zlen ys)) ps) ys.
Proof.
  induction ps as [|p ps IH]; intros rs; [by rewrite take_nil, app_nil_r|].
  cbn [RoundRobin.create_all]. unfold RoundRobin.create.
  cbn [RoundRobin.ready RoundRobin.yielded RoundRobin.capacity].
  destruct (Z.ltb_spec (zlen rs + zlen ys) c) as [Hlt|Hge]; cbn [snd]; rewrite IH.
  - rewrite length_app, <- app_assoc. cbn [length]. do 2 f_equal.
    replace (Z.to_nat (c - zlen rs - zlen ys)) with (S (Z.to_nat (c - Z.of_nat (length rs + 1) - zlen ys)))
      by lia. done.
  - by replace (Z.to_nat (c - zlen rs - zlen ys)) with O by lia.
Qed.

Lemma pass_serve v h P r w :
  loaded P r →
  outcome_rel (λ x y, x.2 = y.2 ∧ loaded y.1 x.1) (RoundRobin.pass (work v h) r w) (serve v h P w).
Proof.
  intros Hl. unfold RoundRobin.pass, serve. rewrite (loaded_wake P r Hl), turns_requests.
  destruct (decide _) as [Hlt|Hge].
  - rewrite take_ge, drop_ge by lia. destruct (handle_each h P w) as [w1| | | |]; try done.
    cbn [mbind outcome_bind fmap list_fmap app].
    replace (100 - length P)%nat with (S (99 - length P)) by lia.
    cbn [RoundRobin.turns RoundRobin.ready]. unfold RoundRobin.turn. cbn [work].
    destruct (take_requests v false h w1) as [[created w2]| | | |]; try done.
    cbn [mbind outcome_bind]. rewrite create_all_room.
    cbn [RoundRobin.ready RoundRobin.yielded RoundRobin.capacity option_list app length tail].
    rewrite Z.sub_0_r, <- fmap_take. change (Z.of_nat 1) with 1.
    set (kept := take _ created).
    rewrite <- (app_nil_r (HandleRecvData <$> kept)), turns_requests.
    destruct (handle_each h (take (99 - length P) kept) w2) as [w3| | | |]; try done.
    cbn [mbind outcome_bind]. rewrite app_nil_r.
    assert (∀ k, (k ≤ 99 - length P - length kept)%nat → RoundRobin.turns (work v h) k
      (RoundRobin.mk ServantHandle.coroutineNum
        (HandleRecvData <$> drop (99 - length P) kept) [HandleRequest]) w3 =
      Ok (RoundRobin.mk ServantHandle.coroutineNum
        (HandleRecvData <$> drop (99 - length P) kept) [HandleRequest], w3)) as ->; [|by split; [|left]|lia].
    intros [|k] Hk; [done|]. by rewrite drop_ge by lia.
  - destruct (handle_each h (take 100 P) w) as [w1| | | |]; try done. cbn [mbind outcome_bind].
    replace (100 - length P)%nat with O by lia. by split; [|right].
Qed.

Lemma tars_run_serve v h st P w :
  waiting st P →
  outcome_rel (λ x y, x.2 = y.2 ∧ waiting x.1 y.1) (tars_run alloc_ok v h st w) (serve v h P w).
Proof.
  intros (r & Hm & Hl).
  pose proof (RoundRobin.pass_refines (work v h) (resume v h) alloc_ok alloc_total (resume_work v h)
    (now v) st r w Hm) as H1.
  pose proof (pass_serve v h P r w Hl) as H2. unfold tars_run.
  destruct (Scheduler.tars_run _ _ _ _ _) as [[st1 w1]| | | |], (RoundRobin.pass _ _ _) as [[r1 w2]| | | |],
    (serve v h P w) as [[P1 w3]| | | |]; try done; cbn in *; [|congruence].
  destruct H1 as [Hw1 Hm1], H2 as [Hw2 Hl1]. cbn in *. split; [congruence|]. by exists r1.
Qed.

(** *** One call of [tars_run] that handles what it takes *)

Lemma handle_all_each h rs nf : ∀ (s s' : EpollServer.t B),
  ServantHandle.handle_all h rs s = Ok s' → handle_each h rs (s, nf) = Ok (s', nf).
Proof.
  induction rs as [|r rs IH]; intros s s' Hall; cbn [ServantHandle.handle_all handle_each] in *.
  { by injection Hall as ->. }
  apply bind_Ok in Hall as (s1 & Hr & Hall). unfold handle_request. rewrite Hr.
  cbn [mbind outcome_bind]. by apply IH.
Qed.

Lemma tars_run_round v h st s nf created sh nf' s' :
  waiting st [] →
  ServantHandle.round false (notified v) id (cur v) h (EpollServer.shared s) nf = Ok (created, sh, nf') →
  (length created ≤ 99)%nat →
  ServantHandle.handle_all h created (ServantHandle.set_shared sh s) = Ok s' →
  ∃ st', tars_run alloc_ok v h st (s, nf) = Ok (st', (s', nf')) ∧ waiting st' [].
Proof.
  intros Hw Hr Hlen Hall. pose proof (tars_run_serve v h st [] (s, nf) Hw) as Ht.
  assert (serve v h [] (s, nf) = Ok ([], (s', nf'))) as Hs.
  { unfold serve. rewrite decide_True by (cbn; lia). cbn [handle_each mbind outcome_bind].
    unfold take_requests. rewrite Hr. cbn [mbind outcome_bind length].
    assert (take (Z.to_nat (ServantHandle.coroutineNum - 1)) created = created) as ->.
    { apply take_ge. change (Z.to_nat _) with 203%nat. lia. }
    rewrite take_ge, drop_ge by lia. by rewrite (handle_all_each h created nf' _ s'). }
  rewrite Hs in Ht. destruct (tars_run _ _ _ _ _) as [[st1 w1]| | | |]; try done.
  destruct Ht as [Hw1 Hst]. cbn in Hw1, Hst. subst w1. by exists st1.
Qed.

(** *** No request is lost *)

Lemma drain_length n k : ∀ a created a',
  ServantHandle.drain k n a = Ok (created, a') → (length created ≤ k)%nat.
Proof.
  induction k as [|k IH]; intros a created a' Hd; cbn [ServantHandle.drain] in Hd.
  { injection Hd as <- _. done. }
  apply bind_Ok in Hd as ([recv a1] & _ & Hd). destruct recv as [r|]; [|injection Hd as <- _; cbn; lia].
  apply bind_Ok in Hd as ([created1 a2] & Hd1 & Hd). apply IH in Hd1. injection Hd as <- _.
  destruct (RecvData.closed r); cbn [length]; lia.
Qed.

Lemma drain_all_length l : ∀ sh created sh',
  ServantHandle.drain_all l sh = Ok (created, sh') →
  (length created ≤ 100 * length l)%nat ∧ NetThread.groups sh' = NetThread.groups sh.
Proof.
  induction l as [|[name n] l IH]; intros sh created sh' Hd; cbn [ServantHandle.drain_all] in Hd.
  { by injection Hd as <- <-. }
  apply bind_Ok in Hd as (a & _ & Hd). apply bind_Ok in Hd as ([created1 a1] & Hd1 & Hd).
  apply bind_Ok in Hd as ([created2 sh2] & Hd2 & Hd). apply drain_length in Hd1.
  apply IH in Hd2 as [Hlen Hg]. injection Hd as <- <-. rewrite length_app. cbn [length].
  split; [lia|exact Hg].
Qed.

(** The number of adapters in the group of [h]. *)
Definition adapters_of h w : nat :=
  match ServantHandle.group h (EpollServer.shared w.1) with
  | Ok (_, g) => length (HandleGroup.adapters g)
  | _ => O
  end.

Lemma take_requests_length v h w created w' :
  take_requests v false h w = Ok (created, w') → (length created ≤ 100 * adapters_of h w')%nat.
Proof.
  destruct w as [s nf]. intros Ht. unfold take_requests in Ht.
  apply bind_Ok in Ht as ([[created1 sh'] nf'] & Hr & Ht). injection Ht as -> <-.
  unfold ServantHandle.round in Hr. apply bind_Ok in Hr as (sh1 & _ & Hr).
  apply bind_Ok in Hr as ([sh2 nf2] & _ & Hr). apply bind_Ok in Hr as ([n g] & Hg & Hr).
  apply bind_Ok in Hr as ([created2 sh3] & Hd & Hr). injection Hr as -> -> ->.
  apply drain_all_length in Hd as [Hlen Hgr]. unfold adapters_of.
  cbn [fst ServantHandle.set_shared EpollServer.shared EpollServer.set_threads].
  unfold ServantHandle.group in *. rewrite Hgr, Hg. done.
Qed.

Lemma handle_groups h r (s s' : EpollServer.t B) :
  ServantHandle.handle h r s = Ok s' →
  NetThread.groups (EpollServer.shared s') = NetThread.groups (EpollServer.shared s).
Proof.
  intros Hh. unfold ServantHandle.handle in Hh. apply bind_Ok in Hh as (n & _ & Hh).
  apply bind_Ok in Hh as (a & _ & Hh). destruct (StringMap.find _ _) as [[func|]|]; try done.
  unfold EpollServer.send in Hh. apply bind_Ok in Hh as (i & _ & Hh).
  unfold EpollServer.run_thread in Hh. apply bind_Ok in Hh as ([[] s1] & Ho & Hh).
  injection Hh as ->. unfold EpollServer.on_thread in Ho. apply bind_Ok in Ho as (th & _ & Ho).
  apply bind_Ok in Ho as ([[] th1] & Hf & Ho). injection Ho as <-.
  apply bind_Ok in Hf as (th2 & Hf & Heq). injection Heq as ->.
  cbn [EpollServer.shared EpollServer.set_threads].
  unfold NetThread.recvNeedToSendFromServer in Hf. destruct (NetThread.terminate_ _).
  { by injection Hf as <-. }
  apply bind_Ok in Hf as ([b d] & _ & Hf). by injection Hf as <-.
Qed.

Lemma handle_each_adapters h rs : ∀ (w w' : world),
  handle_each h rs w = Ok w' → adapters_of h w' = adapters_of h w.
Proof.
  induction rs as [|r rs IH]; intros w w' Hh; cbn [handle_each] in Hh; [by injection Hh as ->|].
  apply bind_Ok in Hh as (w1 & Hr & Hh). apply IH in Hh as ->. destruct w as [s nf].
  unfold handle_request in Hr. destruct (ServantHandle.handle h r s) as [s1| | | |] eqn:Hs; try done.
  - injection Hr as <-. apply handle_groups in Hs. unfold adapters_of, ServantHandle.group. cbn [fst].
    by rewrite Hs.
  - by injection Hr as <-.
Qed.

(** What a call of [tars_run] does to the requests, as long as there are no more
    than two adapters: the pool has room for two hundred requests. *)
Lemma serve_conserves v h P w P' w' :
  serve v h P w = Ok (P', w') → (adapters_of h w' ≤ 2)%nat →
  ∃ d1 d2 taken w1 w2, P ++ taken = d1 ++ d2 ++ P' ∧ take 100 P `prefix_of` d1 ++ d2 ∧
    take 99 (P ++ taken) `prefix_of` d1 ++ d2 ∧ handle_each h d1 w = Ok w1 ∧
    (if decide (length P < 100)%nat then take_requests v false h w1 = Ok (taken, w2)
     else taken = [] ∧ w2 = w1) ∧
    handle_each h d2 w2 = Ok w' ∧ ((length P ≤ 200)%nat → (length P' ≤ 200)%nat).
Proof.
  unfold serve. intros Hs Hfew. destruct (decide _) as [Hlt|Hge].
  - apply bind_Ok in Hs as (w1 & H1 & Hs). apply bind_Ok in Hs as ([taken w2] & H2 & Hs).
    apply bind_Ok in Hs as (w3 & H3 & Hs). injection Hs as <- <-.
    pose proof (take_requests_length _ _ _ _ _ H2) as Hlen.
    rewrite (handle_each_adapters _ _ _ _ H3) in Hfew.
    assert (take (Z.to_nat (ServantHandle.coroutineNum - 1)) taken = taken) as Hk.
    { apply take_ge. change (Z.to_nat _) with 203%nat. lia. }
    rewrite Hk in *. exists P, (take (99 - length P) taken), taken, w1, w2.
    split; [by rewrite take_drop|]. split; [rewrite take_ge by lia; by exists (take (99 - length P) taken)|].
    split; [by rewrite firstn_app, take_ge by lia|]. do 3 (split; [done|]). rewrite length_drop. lia.
  - apply bind_Ok in Hs as (w1 & H1 & Hs). injection Hs as <- <-.
    exists (take 100 P), [], [], w1, w1. rewrite !app_nil_r. cbn [app].
    split; [by rewrite take_drop|]. split; [done|].
    split; [exists (drop 99 (take 100 P)); by rewrite <- (take_drop 99 (take 100 P)) at 1; rewrite take_take|].
    do 3 (split; [done|]). rewrite length_drop. lia.
Qed.

(** Where a call can crash: in the first hundred requests that waited, in taking
    requests, or in those that were taken. *)
Definition crash_point v h P w : Prop :=
  (∀ w1, handle_each h (take 100 P) w ≠ Ok w1) ∨
  ∃ w1, handle_each h P w = Ok w1 ∧
    ((∀ x, take_requests v false h w1 ≠ Ok x) ∨
     ∃ taken w2, take_requests v false h w1 = Ok (taken, w2) ∧
       ∀ w3, handle_each h (take (99 - length P) (take 203 taken)) w2 ≠ Ok w3).

Lemma serve_crashes v h P w :
  match serve v h P w with Ok _ => True | _ => crash_point v h P w end.
Proof.
  unfold serve, crash_point. destruct (decide _) as [Hlt|Hge].
  - destruct (handle_each h P w) as [w1| | | |] eqn:H1; cbn [mbind outcome_bind].
    2-5: left; intros w1; rewrite take_ge by lia; congruence.
    destruct (take_requests v false h w1) as [[taken w2]| | | |] eqn:H2; cbn [mbind outcome_bind].
    2-5: right; exists w1; split; [done|]; left; intros x Hx; congruence.
    change (Z.to_nat (ServantHandle.coroutineNum - 1)) with 203%nat.
    destruct (handle_each h (take (99 - length P) _) w2) as [w3| | | |] eqn:H3; cbn [mbind outcome_bind]; [done|..].
    all: right; exists w1; split; [done|]; right; exists taken, w2; split; [done|]; intros w3 Hw; congruence.
  - destruct (handle_each h (take 100 P) w) as [w1| | | |] eqn:H1; cbn [mbind outcome_bind]; [done|..].
    all: left; intros w1; congruence.
Qed.

(** C12: no request is lost and none overtakes another: in a group of at most two
    adapters a call of [tars_run] handles, in order, the requests that waited,
    followed by those that it takes off the queues, and what it does not come to
    waits for the next call.  It comes to the first ninety-nine of all these, and to
    the first hundred of those that waited; it gets to the queues, which it does
    when fewer than a hundred waited, and not otherwise.  When no more than two
    hundred waited, no more than two hundred wait afterwards: the pool of 204
    coroutines is never full.  The call returns unless the handling of one of these
    requests, or taking them, crashes.  Every coroutine is granted its stack. *)
Theorem no_request_is_lost v h st P w (Hw : waiting st P) :
  match tars_run alloc_ok v h st w with
  | Ok (st', w') => (adapters_of h w' ≤ 2)%nat →
      ∃ P' d1 d2 taken w1 w2, waiting st' P' ∧ P ++ taken = d1 ++ d2 ++ P' ∧
        take 100 P `prefix_of` d1 ++ d2 ∧ take 99 (P ++ taken) `prefix_of` d1 ++ d2 ∧
        handle_each h d1 w = Ok w1 ∧
        (if decide (length P < 100)%nat then take_requests v false h w1 = Ok (taken, w2)
         else taken = [] ∧ w2 = w1) ∧
        handle_each h d2 w2 = Ok w' ∧ ((length P ≤ 200)%nat → (length P' ≤ 200)%nat)
  | _ => crash_point v h P w
  end.
Proof.
  pose proof (tars_run_serve v h st P w Hw) as Ht. pose proof (serve_crashes v h P w) as Hc.
  destruct (tars_run _ _ _ _ _) as [[st' w']| | | |];
    destruct (serve v h P w) as [[P' w2]| | | |] eqn:Hs; try done.
  destruct Ht as [Hw2 Hw']. cbn in Hw2, Hw'. subst w2. intros Hfew.
  destruct (serve_conserves v h P w P' w' Hs Hfew) as (d1 & d2 & taken & w1 & w2 & Hc').
  by exists P', d1, d2, taken, w1, w2.
Qed.

(** The start leaves one coroutine. *)
Lemma new_scheduler_waiting : ∃ st, new_scheduler alloc_ok = Ok st ∧ waiting st [].
Proof.
  destruct (RoundRobin.init_models (Prog := task) alloc_ok alloc_total ServantHandle.coroutineNum)
    as (st0 & Hi0 & L & Hsh & Hneed); [by vm_compute|].
  unfold new_scheduler. rewrite Hi0. cbn [mbind outcome_bind].
  destruct (RoundRobin.create_shape alloc_ok alloc_total HandleRequest st0 L _ Hsh Hneed)
    as (id & st & L' & _ & -> & _ & Hsh' & Hneed' & _).
  cbn [mbind outcome_bind]. exists st. split; [done|]. eexists. split; [by exists L'|]. by right.
Qed.

Lemma begin_waiting h m sh h' m' :
  ServantHandle.init h m sh = Ok (h', m') →
  ∃ st, begin alloc_ok h m sh = Ok (h', m', st) ∧ waiting st [].
Proof.
  intros Hi. destruct new_scheduler_waiting as (st & Hst & Hw).
  exists st. unfold begin. rewrite Hi. cbn [mbind outcome_bind]. by rewrite Hst.
Qed.

(** The handler thread with its scheduler does what the specification says,
    over any number of rounds of its loop: each request that was taken off a queue
    is handled once, in the order in which the requests were taken, unless the pool
    had no room for its coroutine; and if a request makes the server crash, the
    thread crashes with it. *)
Theorem handler_thread_refines h m m' h0 visits w
    (Hi : ServantHandle.init h0 m (EpollServer.shared w.1) = Ok (h, m')) :
  ∃ st, begin alloc_ok h0 m (EpollServer.shared w.1) = Ok (h, m', st) ∧
    outcome_rel (obs_rel (λ x y, x.2 = y.2 ∧ waiting x.1 y.1))
      (run_ops (thread_step alloc_ok h) visits (st, w))
      (run_ops (spec_step h) visits ([], w)).
Proof.
  destruct (begin_waiting h0 m (EpollServer.shared w.1) h m' Hi) as (st & Hb & Hw).
  exists st. split; [done|].
  apply (run_ops_refines (λ x y, x.2 = y.2 ∧ waiting x.1 y.1) (λ _ _, True));
    [|done|apply admissible_all].
  intros v [st1 [s nf]] [P [s2 nf2]] [Hs Hw1] _. cbn in Hs, Hw1. injection Hs as -> ->.
  unfold thread_step, spec_step. cbn [visit_thread visit_spec].
  pose proof (tars_run_serve v h st1 P (others v s2, nf2) Hw1) as Ht.
  destruct (tars_run _ _ _ _ _), (serve _ _ _ _); cbn [mbind outcome_bind]; try done.
Qed.

Lemma run_loop_refines h visits : ∀ st P w,
  waiting st P →
  outcome_rel (λ x y, x.2 = y.2 ∧ waiting x.1 y.1)
    (run_loop alloc_ok visits h (st, w)) (spec_loop visits h (P, w)).
Proof.
  induction visits as [|v visits IH]; intros st P [s nf] Hw; cbn [run_loop spec_loop fst snd];
    (destruct (EpollServer.terminate_ s); [by split|]); [done|].
  cbn [visit_thread visit_spec].
  pose proof (tars_run_serve v h st P (others v s, nf) Hw) as Ht.
  destruct (tars_run _ _ _ _ _) as [[st1 w1]| | | |], (serve _ _ _ _) as [[P1 w2]| | | |];
    cbn [mbind outcome_bind] in *; try done.
  destruct Ht as [Heq Hw1]. cbn in Heq, Hw1. subst w2. by apply IH.
Qed.

(** There is always a coroutine, that of [handleRequest]. *)
Lemma waiting_object st P : waiting st P → ∃ n, is_Some (Scheduler.objs st !! n).
Proof.
  intros (r & (L & Hsh & _) & Hl).
  assert (∀ (l : list nat) (ps : list task), ps ≠ [] →
    RoundRobin.attr st Scheduler.callback_ l = (Some ∘ Some) <$> ps →
    ∃ n, is_Some (Scheduler.objs st !! n)) as Hex.
  { intros [|n l] [|p ps] Hne Hat; try done. exists n. injection Hat as Hn _.
    destruct (Scheduler.objs st !! n); [by eexists|done]. }
  destruct Hl as [-> | ->].
  - apply (Hex (L CORO_INACTIVE) [HandleRequest]); [done|apply Hsh].
  - apply (Hex (L CORO_AVAIL) ((HandleRecvData <$> P) ++ [HandleRequest])); [by destruct P|apply Hsh].
Qed.

(** The regions of memory that [allocate] got for the coroutines. *)
Definition region (k size : Z) (base : nat → Z) (n : nat) : Z * Z :=
  (base n, Stacks.mapped_size k size).

(** C11: the handler thread as a whole, from [init] to its end, when every stack is
    granted that is asked for ([allocate] got the memory at [base n] for the one of
    coroutine [n], of at most 2^24 bytes): it goes on for as many rounds as the
    specification, which handles the requests with no scheduler at all; it crashes
    in a round when the specification does; and when the server is told to stop, it
    ends after the round that is under way: it gives the memory of the stack of
    every coroutine back to the system, each exactly once, whatever still waits, and
    returns -- unless there is a limit on stacks below the size that was mapped for
    them: then it aborts in giving them back. *)
Theorem handler_run_refines k rlim_max size base stack visits h m w
    (Hk : 0 ≤ k ≤ 24) (Hbase : ∀ n, 0 < base n)
    (Ha : Stacks.allowed rlim_max size) (Hs : size ≤ 2 ^ 24)
    (Hstack : ∀ n, Stacks.allocate (2 ^ k) rlim_max (Some (base n)) true size Stacks.new
                   = Ok (0, stack n)) :
  outcome_rel (λ '(m', st, w', freed) y, y = (m', w') ∧
      ∃ coros, freed = region k size base <$> coros ∧ NoDup coros ∧
        ∀ n, n ∈ coros ↔ is_Some (Scheduler.objs st !! n))
    (run alloc_ok rlim_max stack visits h m w)
    (y ← spec_run visits h m w;
     if Stacks.takes_back rlim_max (Stacks.mapped_size k size) then Ok y else Assert).
Proof.
  assert (∀ n, Stacks.deallocate rlim_max (stack n) =
    if Stacks.takes_back rlim_max (Stacks.mapped_size k size) then Ok (region k size base n)
    else Assert) as Hdeal.
  { intros n. by apply (Stacks.deallocate_spec k rlim_max Hk (base n) size). }
  unfold run, spec_run. destruct (ServantHandle.init h m _) as [[h1 m1]| | | |] eqn:Hi.
  2-5: unfold begin; rewrite Hi; done.
  destruct (begin_waiting h m _ h1 m1 Hi) as (st & -> & Hw). cbn [mbind outcome_bind].
  pose proof (run_loop_refines h1 visits st [] w Hw) as Hr.
  destruct (run_loop _ _ _ _) as [[st1 w1]| | | |], (spec_loop _ _ _) as [[P1 w2]| | | |];
    cbn [mbind outcome_bind] in *; try done.
  destruct Hr as [Heq Hw1]. cbn in Heq, Hw1. subst w2.
  destruct (waiting_object st1 P1 Hw1) as [n Hn]. destruct Hw1 as (r & (L & Hsh & _) & _).
  pose proof (Scheduler.terminate_inv st1 L (RoundRobin.sh_inv _ _ _ Hsh)) as Hinv.
  destruct (Stacks.takes_back _ _).
  - destruct (Scheduler.destroy_frees_each_stack rlim_max stack (region k size base)
      (Scheduler.terminate st1) L Hinv) as (coros & -> & Hnd & Hin); [by intros ???|].
    cbn [mbind outcome_bind]. split; [done|]. by exists coros.
  - by rewrite (Scheduler.destroy_aborts rlim_max stack (Scheduler.terminate st1) L n Hinv Hdeal Hn).
Qed.

(** With more adapters requests can be lost: of what one pass of [handleRequest]
    takes off the queues only the first 203 get a coroutine; the others, for which
    [createCoroutine] returns 0, are neither handled nor kept. *)
Theorem overload_loses_requests v h st w created w1 w2 (Hw : waiting st [])
    (Ht : take_requests v false h w = Ok (created, w1)) (Hbig : (203 < length created)%nat)
    (Hd : handle_each h (take 99 created) w1 = Ok w2) :
  ∃ st', tars_run alloc_ok v h st w = Ok (st', w2) ∧ waiting st' (take 104 (drop 99 created)).
Proof.
  pose proof (tars_run_serve v h st [] w Hw) as Hs.
  assert (serve v h [] w = Ok (take 104 (drop 99 created), w2)) as Heq.
  { unfold serve. rewrite decide_True by (cbn; lia). cbn [handle_each mbind outcome_bind].
    rewrite Ht. cbn [mbind outcome_bind length].
    change (Z.to_nat (ServantHandle.coroutineNum - 1)) with 203%nat. cbn [Nat.sub].
    rewrite take_take. change (99 `min` 203)%nat with 99%nat. rewrite Hd. cbn [mbind outcome_bind].
    by rewrite skipn_firstn_comm. }
  rewrite Heq in Hs. destruct (tars_run _ _ _ _ _) as [[st' w3]| | | |]; try done.
  destruct Hs as [Hw3 Hst]. cbn in Hw3, Hst. subst w3. by exists st'.
Qed.

End refinement.

(** ** The echo server *)

Definition echo_manager : ServantHelperManager.t :=
  ServantHelperManager.mk [(ServantHandle.echo_name, Some id)] [] [].

(** The network thread reads a request before the pass. *)
Definition echo_visit : visit Buffer.t :=
  mk_visit (λ s, match EpollServer.run_thread 0 (NetThread.processNet 16
                        (Epoller.mk_event 1 Epoller.EPOLLIN)
                        [Connection.Rd (Wire.frame NetThread.hello)] []) s with
                 | Ok s => s
                 | _ => s
                 end) 100000 true 100.

(** What the network thread has to send. *)
Definition to_send (s : EpollServer.t Buffer.t) : list bytes :=
  SendData.buffer <$> omap id
    (concat ((λ th, ThreadDeque.deque_ (NetThread.sendBuffer_ th)) <$> EpollServer.netThreads_ s)).

Lemma echo_spec :
  match run_ops (spec_step ServantHandle.echo_handle)
          [echo_visit; mk_visit id 0 false 100] ([], (ServantHandle.echo_server, NodeF.init)) with
  | Ok (_, (P, (s, _))) => P = [] ∧ to_send s = [NetThread.hello]
  | _ => False
  end.
Proof. vm_compute. split; reflexivity. Qed.

Lemma handler_thread_refines_witness :
  ∃ m' st st' s' nf',
    begin Scheduler.granted (ServantHandle.mk [] (Some 0%nat)) echo_manager
      (EpollServer.shared ServantHandle.echo_server) = Ok (ServantHandle.echo_handle, m', st) ∧
    run_ops (thread_step Scheduler.granted ServantHandle.echo_handle)
      [echo_visit; mk_visit id 0 false 100] (st, (ServantHandle.echo_server, NodeF.init))
      = Ok ([(); ()], (st', (s', nf'))) ∧
    to_send s' = [NetThread.hello].
Proof.
  assert (ServantHandle.init (ServantHandle.mk [] (Some 0%nat)) echo_manager
    (EpollServer.shared ServantHandle.echo_server) = Ok (ServantHandle.echo_handle, echo_manager)) as Hi
    by (vm_compute; reflexivity).
  destruct (handler_thread_refines Scheduler.granted (λ _, eq_refl) ServantHandle.echo_handle
    echo_manager echo_manager (ServantHandle.mk [] (Some 0%nat)) [echo_visit; mk_visit id 0 false 100]
    (ServantHandle.echo_server, NodeF.init) Hi) as (st & Hb & Hr).
  pose proof echo_spec as Hs. exists echo_manager, st.
  destruct (run_ops _ _ (st, _)) as [[obs [st' [s' nf']]]| | | |],
    (run_ops _ _ ([], _)) as [[obs2 [P [s2 nf2]]]| | | |] eqn:H2; try contradiction.
  destruct Hr as [Ho [Hw _]]. cbn in Ho, Hw. subst obs2. injection Hw as <- <-.
  assert (obs = [(); ()]) as ->.
  { apply bind_Ok in H2 as ([o1 s1] & _ & H2). apply bind_Ok in H2 as ([os s3] & H3 & H2).
    apply bind_Ok in H3 as ([o2 s4] & _ & H3). apply bind_Ok in H3 as ([os2 s5] & H4 & H3).
    injection H4 as <- <-. injection H3 as <- <-. injection H2 as <- _. by destruct o1, o2. }
  exists st', s', nf'. split; [exact Hb|]. split; [reflexivity|]. apply Hs.
Defined.

Lemma no_request_is_lost_witness :
  ∃ st st' w' P' d1 d2 taken w1 w2, waiting st [] ∧
    tars_run Scheduler.granted echo_visit ServantHandle.echo_handle st
      (others echo_visit ServantHandle.echo_server, NodeF.init) = Ok (st', w') ∧
    [] ++ taken = d1 ++ d2 ++ P' ∧ take 99 taken `prefix_of` d1 ++ d2 ∧
    take_requests echo_visit false ServantHandle.echo_handle w1 = Ok (taken, w2) ∧
    handle_each ServantHandle.echo_handle d2 w2 = Ok w' ∧ (length P' ≤ 200)%nat.
Proof.
  destruct (new_scheduler_waiting Scheduler.granted (λ _, eq_refl)) as (st & _ & Hw).
  pose proof (tars_run_serve Scheduler.granted (λ _, eq_refl) echo_visit ServantHandle.echo_handle st []
    (others echo_visit ServantHandle.echo_server, NodeF.init) Hw) as Ht.
  assert (match serve echo_visit ServantHandle.echo_handle []
            (others echo_visit ServantHandle.echo_server, NodeF.init) with
          | Ok (_, w') => adapters_of ServantHandle.echo_handle w' = 1%nat
          | _ => False
          end) as Ha by (vm_compute; reflexivity).
  destruct (serve _ _ _ _) as [[P2 w2]| | | |]; try contradiction.
  destruct (tars_run _ _ _ _ _) as [[st' w']| | | |] eqn:Hr; try contradiction.
  destruct Ht as [Hw' _]. cbn in Hw'. subst w2.
  assert ((adapters_of ServantHandle.echo_handle w' ≤ 2)%nat) as Hfew by (rewrite Ha; lia).
  pose proof (no_request_is_lost Scheduler.granted (λ _, eq_refl) echo_visit ServantHandle.echo_handle st []
    (others echo_visit ServantHandle.echo_server, NodeF.init) Hw) as Hl.
  rewrite Hr in Hl. destruct (Hl Hfew) as (P' & d1 & d2 & taken & w1 & w2 & _ & H1 & _ & Hp & _ & H2 & H3 & H4).
  exists st, st', w', P', d1, d2, taken, w1, w2.
  split; [exact Hw|]. split; [exact Hr|]. split; [exact H1|]. split; [exact Hp|]. split; [exact H2|].
  split; [exact H3|]. apply H4. cbn. lia.
Defined.

(** The echo server is told to stop during the second round. *)
Definition last_visit : visit Buffer.t := mk_visit EpollServer.terminate 0 false 100.

Lemma stop_spec :
  ∃ x, spec_run [echo_visit; last_visit; echo_visit] (ServantHandle.mk [] (Some 0%nat))
         echo_manager (ServantHandle.echo_server, NodeF.init) = Ok x ∧
       to_send x.2.1 = [NetThread.hello].
Proof.
  assert (match spec_run [echo_visit; last_visit; echo_visit] (ServantHandle.mk [] (Some 0%nat))
            echo_manager (ServantHandle.echo_server, NodeF.init) with
          | Ok x => to_send x.2.1 = [NetThread.hello]
          | _ => False
          end) as H by (vm_compute; reflexivity).
  destruct (spec_run _ _ _ _) as [x| | | |]; try contradiction. by exists x.
Qed.

(** The stacks of 1310272 bytes, in 321 pages each, with a limit or without. *)
Definition demo_base (n : nat) : Z := 321 * 4096 * Z.of_nat (S n).

Lemma demo_allocate rlim_max n :
  Stacks.allowed rlim_max 1310272 →
  Stacks.allocate (2 ^ 12) rlim_max (Some (demo_base n)) true 1310272 Stacks.new =
    Ok (0, Scheduler.demo_stack n).
Proof.
  intros Ha. rewrite Stacks.allocate_spec by (done || lia).
  change (Stacks.mapped_size 12 1310272) with (321 * 4096).
  unfold Scheduler.demo_stack, demo_base. do 3 f_equal. lia.
Qed.

Lemma handler_run_refines_witness :
  (∃ m' st w' coros,
    run Scheduler.granted Stacks.RLIM_INFINITY Scheduler.demo_stack [echo_visit; last_visit; echo_visit]
      (ServantHandle.mk [] (Some 0%nat)) echo_manager (ServantHandle.echo_server, NodeF.init)
      = Ok (m', st, w', (λ n, (demo_base n, 321 * 4096)) <$> coros) ∧
    to_send w'.1 = [NetThread.hello] ∧ NoDup coros) ∧
  run Scheduler.granted 1310272 Scheduler.demo_stack [echo_visit; last_visit; echo_visit]
    (ServantHandle.mk [] (Some 0%nat)) echo_manager (ServantHandle.echo_server, NodeF.init) = Assert.
Proof.
  destruct stop_spec as ([m2 w2] & Hspec & Hs).
  assert (∀ rlim_max, rlim_max = Stacks.RLIM_INFINITY ∨ 1310272 ≤ rlim_max →
    Stacks.allowed rlim_max 1310272) as Hall by (intros rl Hrl; split; [by vm_compute|exact Hrl]).
  assert (∀ n, 0 < demo_base n) as Hbase by (intros n; unfold demo_base; lia).
  assert (∀ rlim_max (Ha : Stacks.allowed rlim_max 1310272), _) as Hrun
    by exact (λ rlim_max Ha, handler_run_refines Scheduler.granted (λ _, eq_refl)
      12 rlim_max 1310272 demo_base Scheduler.demo_stack [echo_visit; last_visit; echo_visit]
      (ServantHandle.mk [] (Some 0%nat)) echo_manager (ServantHandle.echo_server, NodeF.init)
      ltac:(lia) Hbase Ha ltac:(lia) (λ n, demo_allocate rlim_max n Ha)).
  rewrite Hspec in Hrun. cbn [mbind outcome_bind] in Hrun. split.
  - specialize (Hrun Stacks.RLIM_INFINITY (Hall _ (or_introl eq_refl))).
    change (Stacks.takes_back _ _) with true in Hrun. cbv iota in Hrun.
    destruct (run _ _ _ _ _ _ _) as [[[[m' st] w'] freed]| | | |]; try contradiction.
    destruct Hrun as (Heq & coros & -> & Hnd & _). injection Heq as -> ->.
    exists m', st, w', coros. split; [reflexivity|]. split; [exact Hs|exact Hnd].
  - specialize (Hrun 1310272 (Hall _ (or_intror (Z.le_refl _)))).
    change (Stacks.takes_back _ _) with false in Hrun. cbv iota in Hrun.
    destruct (run _ _ _ _ _ _ _) as [[[[m' st] w'] freed]| | | |]; try contradiction. reflexivity.
Defined.

(** Three adapters in one group, each with a hundred requests in its queue. *)
Definition crowd_adapter : BindAdapter.t :=
  BindAdapter.set_receiveBuffer
    (ThreadDeque.mk Monitor.init (replicate 100 (Some (ServantHandle.arrived false))) 100)
    (BindAdapter.set_name ServantHandle.echo_name BindAdapter.new).

Definition crowd : EpollServer.t Buffer.t :=
  ServantHandle.set_shared
    (NetThread.mk_shared
       {[0%nat := crowd_adapter; 1%nat := crowd_adapter; 2%nat := crowd_adapter]}
       {[0%nat := HandleGroup.mk ServantHandle.echo_name Monitor.init [0%nat]
                    [(["a"%char], 0%nat); (["b"%char], 1%nat); (["c"%char], 2%nat)]]})
    ServantHandle.echo_server.

Lemma overload_loses_requests_witness :
  ∃ st st' w', waiting st [] ∧
    tars_run Scheduler.granted (mk_visit id 0 false 0) ServantHandle.echo_handle st (crowd, NodeF.init)
      = Ok (st', w') ∧
    ∃ P, waiting st' P ∧ length P = 104%nat ∧ length (to_send w'.1) = 99%nat.
Proof.
  destruct (new_scheduler_waiting Scheduler.granted (λ _, eq_refl)) as (st & _ & Hw).
  assert (match take_requests (mk_visit id 0 false 0) false ServantHandle.echo_handle (crowd, NodeF.init) with
          | Ok (created, w1) =>
              length created = 300%nat ∧
              match handle_each ServantHandle.echo_handle (take 99 created) w1 with
              | Ok w2 => length (to_send w2.1) = 99%nat
              | _ => False
              end
          | _ => False
          end) as Ht by (vm_compute; split; reflexivity).
  destruct (take_requests _ _ _ _) as [[created w1]| | | |] eqn:H1; try contradiction.
  destruct Ht as [Hlen Ht]. destruct (handle_each _ _ _) as [w2| | | |] eqn:H2; try contradiction.
  assert ((203 < length created)%nat) as Hbig by lia.
  destruct (overload_loses_requests Scheduler.granted (λ _, eq_refl) (mk_visit id 0 false 0)
    ServantHandle.echo_handle st (crowd, NodeF.init) created w1 w2 Hw H1 Hbig H2) as (st' & Hr & Hst).
  exists st, st', w2. split; [exact Hw|]. split; [exact Hr|].
  exists (take 104 (drop 99 created)). split; [exact Hst|]. split; [|exact Ht].
  rewrite length_take, length_drop. lia.
Defined.

End HandlerRun.
