(* ===== verification/Rpc.v ===== *)
(** * Rpc: a client and a server

    The parts of the other files put together: a thread of the client calls
    [tars_invoke], its network thread sends the request, the server's network
    thread reads it, a handler's scheduler runs the coroutine that takes it off the
    queue and the one that it makes for it, which calls the servant, the
    network thread sends the result back, and the client's network thread wakes
    the caller up.  The connection between the two keeps the order of the bytes
    and loses none. *)

From S2P Require Import Prelude ByteQueue Buffer Monitor ThreadDeque LoopQueue Wire.
From S2P Require Import Message AsyncProcThread Connection Transceiver ObjectProxy BindAdapter.
From S2P Require Import ObjectProxyFactory ThreadData Epoller CommunicatorEpoll ServantProxy NetThread.
From S2P Require Import EpollServer ServantManager Servants CoroList Stacks Scheduler RoundRobin.
From S2P Require Import ServantHandle HandlerRun.

Module Rpc.

(** ** The connection *)

(** What a reader that is given [size] bytes at a time gets. *)
Fixpoint blocks (fuel size : nat) (bs : bytes) : list bytes :=
  match fuel with
  | O => []
  | S fuel =>
      if bool_decide (bs = []) then []
      else take size bs :: blocks fuel size (drop size bs)
  end.

Definition chunks (bs : bytes) : list bytes :=
  blocks (length bs) (Z.to_nat Connection.chunk_size) bs.

Lemma blocks_concat size fuel : ∀ bs,
  (0 < size)%nat → (length bs ≤ fuel)%nat → concat (blocks fuel size bs) = bs.
Proof.
  induction fuel as [|fuel IH]; intros bs Hs Hf; cbn [blocks].
  { by destruct bs; [|cbn in Hf; lia]. }
  case_bool_decide as Hb; [done|]. cbn [concat]. destruct bs as [|b bs]; [done|].
  rewrite IH, take_drop; [done|done|]. rewrite length_drop. cbn in *. lia.
Qed.

Lemma blocks_ok fuel size : ∀ bs,
  Z.of_nat size = Connection.chunk_size → (length bs ≤ fuel)%nat →
  Connection.chunks_ok (blocks fuel size bs).
Proof.
  induction fuel as [|fuel IH]; intros bs Hs Hf; cbn [blocks]; [done|].
  case_bool_decide as Hb; [done|]. unfold Connection.chunk_size in Hs.
  destruct bs as [|b bs]; [done|]. specialize (IH (drop size (b :: bs)) Hs).
  rewrite length_drop in IH. destruct (decide (length (b :: bs) ≤ size)%nat) as [Hle|Hgt].
  - rewrite drop_ge, take_ge by done. assert (blocks fuel size [] = []) as -> by by destruct fuel.
    cbn [Connection.chunks_ok]. unfold Connection.chunk_size. cbn [length] in *. lia.
  - specialize (IH ltac:(cbn in *; lia)). destruct (blocks fuel size _) as [|x l] eqn:Hbl.
    + cbn [Connection.chunks_ok]. unfold Connection.chunk_size.
      rewrite length_take. lia.
    + split; [|done]. unfold Connection.chunk_size. rewrite length_take. lia.
Qed.

Lemma chunks_spec bs : concat (chunks bs) = bs ∧ Connection.chunks_ok (chunks bs).
Proof.
  assert (Z.of_nat (Z.to_nat Connection.chunk_size) = Connection.chunk_size) as Hs
    by (unfold Connection.chunk_size; rewrite Z2Nat.id; lia).
  unfold chunks. split; [apply blocks_concat|by apply blocks_ok].
  - unfold Connection.chunk_size in *. lia.
  - done.
Qed.

(** A read that finds whole frames. *)
Lemma recv_frames {B} `{ByteQueueLaws B} (c : Connection.t B) msgs :
  let bs := concat (Wire.frame <$> msgs) in
  bq_repr (Connection.recvBuffer_ c) [] → Connection.listenfd_ c ≠ -1 →
  Forall (λ m, zlen m < 2 ^ 31) msgs → zlen bs ≤ bq_limit →
  ∃ rb, bq_repr rb [] ∧
    Connection.recv (Connection.Rd <$> chunks bs) c =
      Ok (i32 (zlen msgs), Connection.recv_msg c <$> msgs, Connection.set_recvBuffer rb c).
Proof.
  intros bs Hr Hl Hp Hlim. destruct (chunks_spec bs) as [Hcat Hok].
  apply (Connection.recv_completes c (chunks bs) [] msgs []); try done.
  - rewrite Hcat. cbn. by rewrite app_nil_r.
  - apply Connection.incomplete_nil.
  - by rewrite Hcat.
Qed.

(** ** One call *)

Section calls.
Context {B : Type} `{ByteQueueLaws B}.
Context (log : outcome unit) (address : nat → CommunicatorEpoll.fd_pointer → Z).
Context (alloc_ok : nat → bool).
Hypothesis alloc_total : ∀ n, alloc_ok n = true.

(** The client's side is a [world]; this is the rest: the network threads with what
    they share, the node's registry and the scheduler of the handler. *)
Abbreviation server := (EpollServer.t B * (NodeF.t * Scheduler.t HandlerRun.task))%type.
Abbreviation system := (CommunicatorEpoll.world * server)%type.

(** Where the call goes: object [k] of the client's network thread [e], to which
    the calling thread is entry [seq], is connected to the server's descriptor
    [fd], whose connection has the id [uid]; [h] is the handler. *)
Record route := mk_route {
  k : nat; e : nat; seq : nat; uid : Z; fd : Z; h : ServantHandle.t
}.
Implicit Types (r : route).

(** What the system answers on the way of a call: to [invoke], to the sending of
    the request, to the server's clocks and condition variable and to the writes
    on its other connections. *)
Record answers := mk_answers {
  calling : ServantProxy.answers;
  sending : Z * Transceiver.send_result;
  maxIOVcount : nat;
  flushing : list Connection.send_result;
  now : Z;
  cur : Z;
  woken_up : bool;
  responding : list (list Connection.send_result)
}.
Implicit Types (env : answers).

(** The bytes that object [k] has written. *)
Definition wire (k : nat) (w : CommunicatorEpoll.world) : bytes :=
  match CommunicatorEpoll.objects w !! k with
  | Some x => Transceiver.wire (ObjectProxy.trans_ (Object.proxy x))
  | None => []
  end.

(** What a server has passed to [::send], and what of it on [fd]. *)
Definition sent_by (s : EpollServer.t B) : list (Z * bytes) :=
  concat (NetThread.sent <$> EpollServer.netThreads_ s).
Definition sent_to (fd : Z) (s : EpollServer.t B) : list bytes := (filter (λ x, x.1 = fd) (sent_by s)).*2.
Definition written (fd : Z) (s : EpollServer.t B) : bytes := concat (sent_to fd s).

(** The handler's pass. *)
Definition pass env : HandlerRun.visit B :=
  HandlerRun.mk_visit id (now env) (woken_up env) (cur env).

(** What the other threads do while a call waits, from the event that its
    notification causes to the one that its response causes. *)
Definition exchange r env (x : system) : outcome system :=
  let '(w, (s, (nf, st))) := x in
  w1 ← CommunicatorEpoll.handle log address (e r) (CommunicatorEpoll.NotifyAt (seq r)) 1
         (CommunicatorEpoll.mk_answers [sending env] [] (Transceiver.Room 0) []) w;
  let request := drop (length (wire (k r) w)) (wire (k r) w1) in
  s1 ← EpollServer.run_thread 0
         (NetThread.processNet (maxIOVcount env) (Epoller.mk_event (uid r) Epoller.EPOLLIN)
            (Connection.Rd <$> chunks request) (flushing env)) s;
  '(st, (s2, nf)) ← HandlerRun.tars_run alloc_ok (pass env) (h r) st (s1, nf);
  s3 ← EpollServer.run_thread 0 (NetThread.processPipe (maxIOVcount env) (responding env)) s2;
  let response := drop (length (written (fd r) s)) (written (fd r) s3) in
  w2 ← CommunicatorEpoll.handle log address (e r) (CommunicatorEpoll.TransAt (k r)) Epoller.EPOLLIN
         (CommunicatorEpoll.mk_answers [] [Transceiver.Rdv response] (Transceiver.Room 0) []) w1;
  Ok (w2, (s3, (nf, st))).

(** A function and a request for it. *)
Definition call : Type := bytes * bytes.
Definition payload (c : call) : bytes := c.1 ++ Wire.colon :: c.2.

(** The calls of thread [self], one after the other, and their responses. *)
Fixpoint session (self : nat) r (calls : list (answers * call)) (sp : ServantProxy.t) (x : system)
    : outcome (list bytes * ServantProxy.t * system) :=
  match calls with
  | [] => Ok ([], sp, x)
  | (env, c) :: calls =>
      '(response, sp, x) ← ServantProxy.tars_invoke address self (calling env) (exchange r env)
                             c.1 c.2 sp x;
      '(responses, sp, x) ← session self r calls sp x;
      Ok (response :: responses, sp, x)
  end.

(** Asynchronous calls with a callback, each completed before the next: the network
    threads and the handler do their parts, then the callback thread. *)
Definition async_call (self : nat) r env (c : call) (sp : ServantProxy.t) (x : system)
    : outcome (ServantProxy.t * system) :=
  '(sp, w) ← ServantProxy.tars_invoke_async address self (calling env) c.1 c.2 true sp x.1;
  '(w, server) ← exchange r env (w, x.2);
  w ← CommunicatorEpoll.async_pass (e r) 0 w;
  Ok (sp, (w, server)).

Fixpoint async_session (self : nat) r (calls : list (answers * call)) (sp : ServantProxy.t) (x : system)
    : outcome (ServantProxy.t * system) :=
  match calls with
  | [] => Ok (sp, x)
  | (env, c) :: calls => '(sp, x) ← async_call self r env c sp x; async_session self r calls sp x
  end.

(** *** The server's half *)

Lemma sent_by_single s th : EpollServer.single s th → sent_by s = NetThread.sent th.
Proof. intros (th0 & Hth & <-). unfold sent_by. rewrite Hth. cbn. by rewrite app_nil_r. Qed.

Lemma written_nothing fd s : sent_by s = [] → written fd s = [].
Proof. intros Hs. unfold written, sent_to. by rewrite Hs. Qed.

Lemma sent_to_single fd s th :
  EpollServer.single s th → sent_to fd s = (filter (λ x, x.1 = fd) (NetThread.sent th)).*2.
Proof. intros Hs. unfold sent_to. by rewrite (sent_by_single s th). Qed.

Lemma written_single fd s th :
  EpollServer.single s th →
  written fd s = concat (filter (λ x, x.1 = fd) (NetThread.sent th)).*2.
Proof. intros Hs. unfold written. by rewrite (sent_to_single fd s th Hs). Qed.

(** The server serves the route with the function [func]; nothing is on its way. *)
Definition serving r (x : server) (func : bytes → bytes) : Prop :=
  HandlerRun.waiting x.2.2 [] ∧
  ∃ th n c a name gi, ServantHandle.serves x.1 th (uid r) n c a name gi (h r) func ∧
    bq_repr (Connection.recvBuffer_ c) [] ∧ Connection.fd_ c = fd r.

Lemma serving_uid r x func : serving r x func → u32 (uid r) = uid r.
Proof.
  intros (_ & th & n & c & a & name & gi & [Hs [Hu _] _] & _). apply u32_small.
  pose proof (ServantHandle.ho_ok _ _ _ _ _ _ _ Hs) as Hok.
  destruct (NetThread.ok_uid _ Hok _ _ Hu) as [? _], (NetThread.ok_free _ Hok). lia.
Qed.

(** The server can take [room] more connections on the socket [lfd], which handler
    [hd] will serve with [func]. *)
Definition accepting (hd : ServantHandle.t) (lfd room : Z) (x : server) (func : bytes → bytes) : Prop :=
  HandlerRun.waiting x.2.2 [] ∧
  ∃ th a name gi, ServantHandle.hosts x.1 th a name gi hd func ∧
    NetThread.listeners_ th !! lfd = Some (Some a) ∧ zlen (NetThread.free_ th) = room.

(** What a call over [r] leaves alone: the other connections that the handler
    serves, what has been written to them, and the room for more. *)
Record keeps r (x x' : server) : Prop := {
  keeps_serving r' func : uid r' ≠ uid r → h r' = h r → serving r' x func → serving r' x' func;
  keeps_written fd' : fd' ≠ fd r → written fd' x'.1 = written fd' x.1;
  keeps_accepting lfd room func : accepting (h r) lfd room x func → accepting (h r) lfd room x' func
}.

Lemma keeps_exchange r s s3 y y3 th th3 a name gi func l :
  ServantHandle.hosts s th a name gi (h r) func → ServantHandle.hosts s3 th3 a name gi (h r) func →
  NetThread.keeps (uid r) th th3 → NetThread.sent th3 = NetThread.sent th ++ l →
  (∀ x, x ∈ l → x.1 = fd r) → HandlerRun.waiting y3.2 [] → keeps r (s, y) (s3, y3).
Proof.
  intros Hs Hs3 Hk Hsent Hl Hw. split.
  - intros r' func' Hne Hh (_ & th' & n' & c' & a' & name' & gi' & [Hs' Hlive Ha] & Hb & Hfd).
    rewrite Hh in Hs'. cbn [fst] in Hs'.
    destruct (ServantHandle.hosts_inj _ _ _ _ _ _ _ _ _ _ _ _ Hs Hs') as (-> & -> & -> & -> & ->).
    split; [done|]. exists th3, n', c', a, name, gi. split; [|done].
    split; [by rewrite Hh|by apply (NetThread.keeps_live _ _ _ Hk)|done].
  - intros fd' Hne. cbn [fst]. rewrite (written_single _ s3 th3), (written_single _ s th), Hsent by
      (by eapply ServantHandle.ho_single).
    assert (filter (λ x, x.1 = fd') l = []) as Hnil.
    { apply elem_of_nil_inv. intros x [Hx Hin]%list_elem_of_filter. rewrite (Hl x Hin) in Hx. congruence. }
    by rewrite filter_app, Hnil, app_nil_r.
  - intros lfd room func' (_ & th' & a' & name' & gi' & Hs' & Hlis & Hf). cbn [fst] in Hs'.
    destruct (ServantHandle.hosts_inj _ _ _ _ _ _ _ _ _ _ _ _ Hs Hs') as (-> & -> & -> & -> & ->).
    split; [done|]. exists th3, a, name, gi. destruct Hk as [-> -> _]. done.
Qed.

Lemma server_batch r env s nf st func requests :
  serving r (s, (nf, st)) func → requests ≠ [] → zlen requests ≤ 99 →
  Forall (λ m, zlen m < 2 ^ 31) requests → zlen (concat (Wire.frame <$> requests)) ≤ bq_limit →
  (∀ m, m ∈ requests → func m ≠ []) →
  ∃ s1 nf' st' s2 s3,
    EpollServer.run_thread 0
      (NetThread.processNet (maxIOVcount env) (Epoller.mk_event (uid r) Epoller.EPOLLIN)
         (Connection.Rd <$> chunks (concat (Wire.frame <$> requests))) (flushing env)) s = Ok s1 ∧
    HandlerRun.tars_run alloc_ok (pass env) (h r) st (s1, nf) = Ok (st', (s2, nf')) ∧
    EpollServer.run_thread 0 (NetThread.processPipe (maxIOVcount env) (responding env)) s2 = Ok s3 ∧
    serving r (s3, (nf', st')) func ∧ sent_to (fd r) s3 = sent_to (fd r) s ++ (func <$> requests) ∧
    keeps r (s, (nf, st)) (s3, (nf', st')).
Proof.
  intros Hsv Hne Hlen Hreqs Hlim Hresp. pose proof (serving_uid r _ func Hsv) as Hu.
  destruct Hsv as (Hwait & th & n & c & a & name & gi & Hs & Hbuf & Hfd). cbn [fst snd] in Hwait, Hs.
  pose proof (ServantHandle.sv_hosts _ _ _ _ _ _ _ _ _ _ Hs) as Hho.
  destruct (NetThread.ok_live _ _ _ _ (ServantHandle.ho_ok _ _ _ _ _ _ _ Hho)
    (ServantHandle.sv_live _ _ _ _ _ _ _ _ _ _ Hs)) as [[_ Hl _ _ _] _].
  destruct (recv_frames c requests Hbuf Hl Hreqs Hlim) as (rb & Hrb & Hrecv).
  rewrite <- (length_fmap (Connection.recv_msg c)) in Hrecv.
  destruct (ServantHandle.serves_requests (maxIOVcount env)
    (Epoller.mk_event (uid r) Epoller.EPOLLIN) _ (flushing env) (responding env) s th (uid r) n c
    (Connection.recv_msg c <$> requests) (Connection.set_recvBuffer rb c) a name gi (h r) func (woken_up env)
    (cur env) nf Hs Hu eq_refl Hrecv) as (s1 & created & sh & nf' & s2 & s3 & th3 & H1 & Hcr & H2 & H3 & H4 & H5 & H6 & H7).
  - by destruct requests.
  - rewrite length_fmap. lia.
  - intros m (req & -> & Hreq)%list_elem_of_fmap. by apply Hresp.
  - assert (length created = length requests) as Hlenc by (by rewrite Hcr, !length_fmap).
    destruct (HandlerRun.tars_run_round alloc_ok alloc_total (pass env) (h r) st s1 nf created sh nf' s2
      Hwait H2) as (st' & Ht & Hwait'); [lia|done|].
    exists s1, nf', st', s2, s3. pose proof (ServantHandle.sv_hosts _ _ _ _ _ _ _ _ _ _ H5) as Hho3.
    rewrite <- list_fmap_compose in H6. do 3 (split; [done|]). split; [|split].
    + split; [done|]. exists th3, n, (Connection.set_recvBuffer rb c), a, name, gi. done.
    + rewrite (sent_to_single _ _ _ (ServantHandle.ho_single _ _ _ _ _ _ _ Hho)).
      rewrite (sent_to_single _ _ _ (ServantHandle.ho_single _ _ _ _ _ _ _ Hho3)), H6.
      rewrite filter_app, fmap_app. f_equal. rewrite filter_all.
      * rewrite <- list_fmap_compose. done.
      * by intros x (req & -> & _)%list_elem_of_fmap.
    + eapply keeps_exchange; [exact Hho|exact Hho3|exact H7|exact H6| |done].
      by intros x (req & -> & _)%list_elem_of_fmap.
Qed.

Lemma server_half r env s nf st func request :
  serving r (s, (nf, st)) func → zlen request < 2 ^ 31 → func request ≠ [] →
  ∃ s1 nf' st' s2 s3,
    EpollServer.run_thread 0
      (NetThread.processNet (maxIOVcount env) (Epoller.mk_event (uid r) Epoller.EPOLLIN)
         (Connection.Rd <$> chunks (Wire.frame request)) (flushing env)) s = Ok s1 ∧
    HandlerRun.tars_run alloc_ok (pass env) (h r) st (s1, nf) = Ok (st', (s2, nf')) ∧
    EpollServer.run_thread 0 (NetThread.processPipe (maxIOVcount env) (responding env)) s2 = Ok s3 ∧
    serving r (s3, (nf', st')) func ∧ written (fd r) s3 = written (fd r) s ++ func request ∧
    keeps r (s, (nf, st)) (s3, (nf', st')).
Proof.
  intros Hsv Hreq Hne.
  destruct (server_batch r env s nf st func [request] Hsv) as (s1 & nf' & st' & s2 & s3 & H1 & H2 & H3 & Hsv' & Hwr & Hk).
  - done.
  - cbn. lia.
  - by constructor.
  - cbn [fmap list_fmap concat]. rewrite app_nil_r. pose proof (Wire.length_frame request) as Hf.
    unfold Wire.kHeaderSize in Hf. unfold bq_limit. lia.
  - by intros m ->%list_elem_of_singleton.
  - cbn [fmap list_fmap concat] in H1. rewrite app_nil_r in H1.
    exists s1, nf', st', s2, s3. do 4 (split; [done|]). split; [|done].
    unfold written. rewrite Hwr, concat_app. cbn. by rewrite app_nil_r.
Qed.

(** *** The whole *)

(** A client connects: its connection gets the next id and is served. *)
Definition take_client (lfd : Z) (garbage : bool) (acc : NetThread.accept_result) (s : EpollServer.t B)
    : outcome (EpollServer.t B) :=
  EpollServer.run_thread 0 (λ th, '(_, th) ← NetThread.accept lfd garbage acc th; Ok th) s.

Lemma accept_serves hd lfd room s y func garbage acc :
  accepting hd lfd room (s, y) func → 0 < room → 0 < NetThread.acc_ret acc →
  ∃ s', take_client lfd garbage acc s = Ok s' ∧
    accepting hd lfd (room - 1) (s', y) func ∧
    (∀ k e seq, serving (mk_route k e seq (2001 - room) (NetThread.acc_ret acc) hd) (s', y) func) ∧
    (∀ r func', h r = hd → serving r (s, y) func' → serving r (s', y) func') ∧
    ∀ fd, written fd s' = written fd s.
Proof.
  intros (Hw & th & a & name & gi & Hs & Hl & Hroom) Hpos Hacc. cbn [fst snd] in Hw, Hs.
  pose proof Hs as [Hsi Hok Ht Hd Had Hh Hg Hf].
  destruct (NetThread.accept_spec lfd garbage acc th a Hok Hl) as (b & th' & Ha & Hok' & Hl' & Hcon).
  { intros Hnil. rewrite Hnil in Hroom. cbn in Hroom. lia. }
  rewrite (proj2 (Z.ltb_lt _ _) Hacc) in Hcon.
  destruct Hcon as (_ & Hfree & uid & n & c & Huid & Hnew & Hlive & Hcfd & Hcad & _ & Hsh & Hkeep).
  destruct (NetThread.accept_frame _ _ _ _ _ _ Ha) as (Ht' & Hsb & Hse & Hbuf).
  destruct (EpollServer.run_single s th th' (λ th, '(_, th) ← NetThread.accept lfd garbage acc th; Ok th) Hsi)
    as (s' & Hr & Hsi' & _); [by rewrite Ha|].
  assert (EpollServer.shared s' = EpollServer.shared s) as Hss
    by (by rewrite <- (EpollServer.single_shared _ _ Hsi'), <- (EpollServer.single_shared _ _ Hsi)).
  assert (ServantHandle.hosts s' th' a name gi hd func) as Hs'
    by (split; rewrite ?Ht', ?Hsb, ?Hss; done).
  exists s'. split; [exact Hr|]. split; [|split; [|split]].
  - split; [done|]. exists th', a, name, gi. rewrite Hl', Hfree. split; [done|]. split; [done|].
    destruct (NetThread.free_ th); cbn in *; lia.
  - intros k e seq. split; [done|]. exists th', n, c, a, name, gi.
    assert (2001 - room = uid) as ->.
    { destruct (NetThread.ok_free _ Hok) as [Hseq _]. rewrite Hroom in Hseq.
      rewrite Hseq, seqZ_cons in Huid by lia. by injection Huid. }
    split; [by split|]. split; [|done].
    destruct (Hbuf n c (proj2 Hlive)) as [Hold| ->]; [|apply bq_init_repr].
    destruct (NetThread.ok_live _ _ _ _ Hok' Hlive) as [[Hcu _ _ _ _] _].
    destruct (NetThread.ok_conn _ Hok _ _ Hold) as (Hu & _). rewrite Hcu in Hu. by apply Hnew in Hu.
  - intros r func' Hhd (_ & th0 & n0 & c0 & a0 & name0 & gi0 & [Hs0 Hl0 Ha0] & Hb0 & Hfd0).
    rewrite Hhd in Hs0. cbn [fst] in Hs0.
    destruct (ServantHandle.hosts_inj _ _ _ _ _ _ _ _ _ _ _ _ Hs Hs0) as (-> & -> & -> & -> & ->).
    split; [done|]. exists th', n0, c0, a, name, gi. split; [|done].
    split; [by rewrite Hhd|by apply Hkeep|done].
  - intros fd. by rewrite (written_single _ s' th'), (written_single _ s th), Hse.
Qed.

(** A client leaves: the network thread closes its connection, and the handler's
    next pass drops the message that tells it so. *)
Definition leave (events : Z) (reads : list Connection.read_result) env r (x : server) : outcome server :=
  let '(s, (nf, st)) := x in
  s ← EpollServer.run_thread 0
        (NetThread.processNet (maxIOVcount env) (Epoller.mk_event (uid r) events) reads (flushing env)) s;
  '(st, (s, nf)) ← HandlerRun.tars_run alloc_ok (pass env) (h r) st (s, nf);
  Ok (s, (nf, st)).

Lemma leave_spec events reads env r x func :
  serving r x func → NetThread.hang_up events reads →
  ∃ x', leave events reads env r x = Ok x' ∧ keeps r x x' ∧ ∀ fd', written fd' x'.1 = written fd' x.1.
Proof.
  intros Hsv Hup. pose proof (serving_uid r _ func Hsv) as Hu. destruct x as [s [nf st]].
  destruct Hsv as (Hwait & th & n & c & a & name & gi & Hs & _). cbn [fst snd] in Hwait, Hs.
  destruct (ServantHandle.serves_hang_up (maxIOVcount env) (Epoller.mk_event (uid r) events) reads
    (flushing env) s th (uid r) n c a name gi (h r) func (woken_up env) (cur env) nf Hs Hu Hup)
    as (s1 & sh & nf' & th2 & H1 & H2 & Hho & Hse & Hk).
  destruct (HandlerRun.tars_run_round alloc_ok alloc_total (pass env) (h r) st s1 nf [] sh nf'
    (ServantHandle.set_shared sh s1) Hwait H2) as (st' & Ht & Hwait'); [cbn; lia|done|].
  eexists. unfold leave. rewrite H1. cbn [mbind outcome_bind]. rewrite Ht. split; [done|]. split.
  - eapply (keeps_exchange _ _ _ _ _ th th2); [apply Hs|exact Hho|done|by rewrite Hse, app_nil_r| |done].
    by intros x ?%not_elem_of_nil.
  - intros fd'. cbn [fst]. rewrite (written_single fd' _ th2), (written_single fd' s th), Hse;
      [done|apply Hs|apply Hho].
Qed.

Lemma wire_connected w k e n id bs :
  CommunicatorEpoll.connected w k e n id bs → wire k w = bs.
Proof. intros (x & Hx & _ & _ & _ & Hw). unfold wire. by rewrite Hx. Qed.

Lemma drop_written (a b : bytes) : drop (length a) (a ++ b) = b.
Proof. by rewrite drop_app_length. Qed.

(** The client's thread [self] can make [n] more calls, the first of which gets
    the id after [id]. *)
Definition ready r self sp (w : CommunicatorEpoll.world) (n id : Z) (bs : bytes) : Prop :=
  ServantProxy.usable sp w self (k r) (e r) (seq r) ∧
  CommunicatorEpoll.connected w (k r) (e r) n id bs.

Lemma ready_weaken r self sp w n n' id bs :
  n' ≤ n → ready r self sp w n id bs → ready r self sp w n' id bs.
Proof.
  intros Hn [Hu (x & Hx & He & Hs & Hrest)]. split; [done|]. exists x. split; [done|]. split; [done|].
  split; [by apply (ObjectProxy.steady_weaken n)|done].
Qed.

Lemma exchange_spec r env w x sp p q n id bs msg m body func :
  let request := Wire.request_payload (id + 1) (Request.request m) in
  let response := ObjectProxy.response_to (id + 1) body in
  ServantProxy.caller sp w p q (k r) (e r) (seq r) [msg] →
  CommunicatorEpoll.connected w (k r) (e r) (n + 1) id bs → 0 ≤ n →
  CommunicatorEpoll.notified w (e r) (seq r) q →
  CommunicatorEpoll.callable w (k r) msg m →
  (Request.type m = Request.ASYNC_CALL → CommunicatorEpoll.async_waiting w (e r) []) →
  CommunicatorEpoll.takes m (sending env) →
  serving r x func → func request = response → zlen response ≤ 2 ^ 61 →
  ∃ w' x', exchange r env (w, x) = Ok (w', x') ∧
    ServantProxy.caller sp w' p q (k r) (e r) (seq r) [] ∧
    CommunicatorEpoll.connected w' (k r) (e r) n (id + 1) (bs ++ Wire.frame request) ∧
    CommunicatorEpoll.heap w' !! msg = Some (ObjectProxy.completed response
      (CommunicatorEpoll.request_id m (id + 1))) ∧
    (∀ p', p' ≠ msg → CommunicatorEpoll.heap w' !! p' = CommunicatorEpoll.heap w !! p') ∧
    match Request.type m with
    | Request.SYNC_CALL =>
        CommunicatorEpoll.woken w' = CommunicatorEpoll.woken w ++ [msg] ∧
        ∀ e', CommunicatorEpoll.async_state w' e' = CommunicatorEpoll.async_state w e'
    | _ => CommunicatorEpoll.woken w' = CommunicatorEpoll.woken w ∧
           CommunicatorEpoll.async_waiting w' (e r) [msg]
    end ∧
    CommunicatorEpoll.events w' = CommunicatorEpoll.events w ∧
    CommunicatorEpoll.next w' = CommunicatorEpoll.next w ∧
    CommunicatorEpoll.notified w' (e r) (seq r) q ∧
    serving r x' func ∧ written (fd r) x'.1 = written (fd r) x.1 ++ response ∧ keeps r x x'.
Proof.
  intros request response Hs Hc Hn Hnd Hcall Has Htakes Hsv Hfunc Hresp.
  destruct (CommunicatorEpoll.handle_queue_spec log address (e r) (Z.of_nat (seq r)) q (k r) (e r)
    1000 n [msg] [m] [sending env] w id bs) as
    (w1 & H1 & Hq1 & (_ & He1 & Hev1 & Hwo1 & Ht1 & Hnx1) & (Hall & _ & Hh1) & Hc1);
    [apply Hs|apply NoDup_singleton|constructor; [done|constructor]|constructor; [done|constructor]|
     done|done|].
  specialize (Hall 0%nat msg m eq_refl eq_refl). rewrite Z.add_0_r in Hall.
  cbn [length fmap list_fmap Wire.stream] in Hc1. rewrite app_nil_r in Hc1. fold request in Hc1.
  change (id + Z.of_nat 1) with (id + 1) in Hc1.
  assert (zlen request < 2 ^ 31) as Hreq.
  { destruct Hcall as (_ & _ & _ & Hl). pose proof (Wire.length_request (id + 1) (Request.request m)) as Hf.
    fold request in Hf. rewrite Wire.length_frame in Hf. unfold Wire.kHeaderSize in Hf. lia. }
  destruct x as [s [nf st]]. destruct (server_half r env s nf st func request Hsv Hreq) as
    (s1 & nf' & st' & s2 & s3 & Hr1 & Hr2 & Hr3 & Hsv3 & Hwr & Hk).
  { rewrite Hfunc. unfold response, ObjectProxy.response_to. by destruct (Wire.to_string _). }
  rewrite Hfunc in Hwr.
  destruct (CommunicatorEpoll.handle_response log address (k r) (e r) n (id + 1) (bs ++ Wire.frame request)
    (id + 1) msg (CommunicatorEpoll.request_id m (id + 1)) body
    (CommunicatorEpoll.mk_answers [] [Transceiver.Rdv response] (Transceiver.Room 0) []) w1 Hc1 Hn Hall)
    as (w2 & H2 & Hc2 & Hh2 & Hev2 & Hq2 & Ht2 & Hnx2 & _ & Hend); [|done|done|].
  { intros Hty. exists []. split; [|done]. apply Has in Hty as (a & Ha & Hq). exists a.
    unfold CommunicatorEpoll.async_state. by rewrite He1. }
  cbn [CommunicatorEpoll.request_id Request.set_request Request.type] in Hend. fold response in Hh2.
  pose proof (CommunicatorEpoll.notified_epolls w w1 _ _ _ He1 Hnd) as Hnd1.
  assert (CommunicatorEpoll.notified w2 (e r) (seq r) q) as Hnd2.
  { destruct (Request.type m);
      [destruct Hend as [_ He2]; by apply (CommunicatorEpoll.notified_epolls w1)|
       destruct Hend as (_ & _ & Hnt); by apply Hnt..]. }
  exists w2, (s3, (nf', st')). split.
  { unfold exchange. rewrite (CommunicatorEpoll.handle_notified log address (e r) (seq r) q) by done.
    cbn [CommunicatorEpoll.sends]. rewrite H1. cbn [mbind outcome_bind].
    rewrite (wire_connected _ _ _ _ _ _ Hc), (wire_connected _ _ _ _ _ _ Hc1), drop_written.
    rewrite Hr1. cbn [mbind outcome_bind]. rewrite Hr2. cbn [mbind outcome_bind].
    rewrite Hr3. cbn [mbind outcome_bind]. rewrite Hwr, drop_written, H2. done. }
  split; [|split; [done|]].
  - split; try apply Hs; try done.
    + rewrite Ht2, Ht1. apply Hs.
    + unfold CommunicatorEpoll.queued. rewrite Hq2. exact Hq1.
    + destruct Hc2 as (x & Hx & He & _). by exists x.
    + by eapply CommunicatorEpoll.notified_notifiable.
  - split; [by rewrite Hh2, lookup_insert_eq|]. split; [|split].
    + intros p' Hp'. rewrite Hh2, lookup_insert_ne by done.
      apply Hh1. by intros ?%list_elem_of_singleton.
    + destruct Hcall as (_ & _ & [[Hty _]|Hty] & _); rewrite Hty in Hend |- *.
      * destruct Hend as [-> He2]. split; [by rewrite Hwo1|]. intros e'.
        unfold CommunicatorEpoll.async_state. by rewrite He2, He1.
      * destruct Hend as (-> & Ha & _). split; [done|]. apply (Ha []); [|done].
        apply Has in Hty as (a & Ha' & Hq'). exists a. split; [|done].
        unfold CommunicatorEpoll.async_state. by rewrite He1.
    + by rewrite Hev2, Hev1, Hnx2, Hnx1.
Qed.

(** What the network thread finds when the call has been queued. *)
Definition queued_message env r (c : call) : Request.ReqMessage :=
  ServantProxy.invoked (calling env) (k r)
    (ServantProxy.message_of Request.SYNC_CALL false c.1 c.2).

(** The conditions on a call with the id [i]: it fits into the socket, and the
    servant keeps the id in front of what it answers. *)
Definition fine r (func reply : bytes → bytes) (i : Z) env (c : call) : Prop :=
  ServantProxy.gives_key (calling env) ∧
  zlen (payload c) < 2 ^ 30 ∧ CommunicatorEpoll.takes (queued_message env r c) (sending env) ∧
  func (Wire.request_payload i (payload c)) = ObjectProxy.response_to i (reply (payload c)) ∧
  zlen (ObjectProxy.response_to i (reply (payload c))) ≤ 2 ^ 61.

Lemma tars_invoke_spec self r env c sp w x n id bs func reply :
  ready r self sp w (n + 1) id bs → 0 ≤ n → serving r x func →
  fine r func reply (id + 1) env c →
  let msg := CommunicatorEpoll.next w in
  let response := ObjectProxy.response_to (id + 1) (reply (payload c)) in
  ∃ sp' w' x',
    ServantProxy.tars_invoke address self (calling env) (exchange r env) c.1 c.2 sp (w, x)
      = Ok (response, sp', (w', x')) ∧
    ready r self sp' w' n (id + 1)
      (bs ++ Wire.frame (Wire.request_payload (id + 1) (payload c))) ∧
    CommunicatorEpoll.heap w' = delete msg (CommunicatorEpoll.heap w) ∧
    CommunicatorEpoll.woken w' = CommunicatorEpoll.woken w ++ [msg] ∧
    CommunicatorEpoll.events w' = CommunicatorEpoll.events w ∧
    (∀ e', CommunicatorEpoll.async_state w' e' = CommunicatorEpoll.async_state w e') ∧
    (msg < CommunicatorEpoll.next w')%nat ∧
    serving r x' func ∧ written (fd r) x'.1 = written (fd r) x.1 ++ response ∧ keeps r x x'.
Proof.
  intros [Hs Hc] Hn Hsv (Hkey & Hsz & Htakes & Hfunc & Hlen) msg response.
  unfold ServantProxy.tars_invoke, ServantProxy.new_message. cbv zeta. fold msg.
  set (m0 := ServantProxy.message_of _ _ _ _). set (w0 := CommunicatorEpoll.set_next _ _).
  assert (ServantProxy.usable sp w0 self (k r) (e r) (seq r)) as Hs0
    by by apply (ServantProxy.usable_frame _ w).
  assert (CommunicatorEpoll.heap w0 !! msg = Some m0) as Hm0 by apply lookup_insert_eq.
  destruct (ServantProxy.invoke_usable address self (calling env) msg sp w0 (k r) (e r) (seq r)
    m0 Hs0 Hkey Hm0) as (p & q & sp1 & w1 & -> & Hs1 & Hn1 & Ho1 & Hh1 & Hwo1 & Hnx1 & Hev1 & Has1).
  cbn [mbind outcome_bind]. change (bool_decide _) with true. cbv iota.
  assert (CommunicatorEpoll.heap w1 !! msg = Some (queued_message env r c)) as Hm1
    by (rewrite Hh1; apply lookup_insert_eq).
  destruct (exchange_spec r env w1 x sp1 p q n id bs msg (queued_message env r c)
    (reply (payload c)) func)
    as (w2 & x2 & -> & Hs2 & Hc2 & Hm2 & Hh2 & [Hwo2 Has2] & Hev2 & Hnx2 & _ & Hsv2 & Hwr2 & Hk2); try done.
  { destruct Hc as (y & Hy & Hrest). exists y. by rewrite Ho1. }
  { split; [done|]. split; [done|]. split; [by left|done]. }
  cbn [mbind outcome_bind]. rewrite Hm2. cbn [deref mbind outcome_bind].
  unfold Request.delete_msg. rewrite Hm2. cbn [deref mbind outcome_bind].
  eexists sp1, _, x2. split; [done|]. split; [|split; [|split; [|split; [|split; [|split; [|done]]]]]].
  - split; [|exact Hc2]. left. exists p, q. by apply ServantProxy.caller_heap.
  - apply map_eq. intros p'. cbn [CommunicatorEpoll.set_heap CommunicatorEpoll.heap].
    destruct (decide (p' = msg)) as [->|Hp']; [by rewrite !lookup_delete_eq|].
    rewrite !lookup_delete_ne by done. rewrite Hh2 by done.
    rewrite Hh1, lookup_insert_ne by done. apply lookup_insert_ne. done.
  - cbn. by rewrite Hwo2, Hwo1.
  - cbn. by rewrite Hev2, Hev1.
  - intros e'. transitivity (CommunicatorEpoll.async_state w2 e'); [done|]. by rewrite Has2, Has1.
  - cbn. rewrite Hnx2. cbn in Hnx1. lia.
Qed.

(** The same for an asynchronous call: its callback is run with the response, once,
    and nobody is woken. *)
Lemma async_call_spec self r env c sp w x n id bs func reply :
  ready r self sp w (n + 1) id bs → CommunicatorEpoll.async_waiting w (e r) [] → 0 ≤ n →
  serving r x func → fine r func reply (id + 1) env c →
  let msg := CommunicatorEpoll.next w in
  let response := ObjectProxy.response_to (id + 1) (reply (payload c)) in
  ∃ sp' w' x',
    async_call self r env c sp (w, x) = Ok (sp', (w', x')) ∧
    ready r self sp' w' n (id + 1)
      (bs ++ Wire.frame (Wire.request_payload (id + 1) (payload c))) ∧
    CommunicatorEpoll.async_waiting w' (e r) [] ∧
    CommunicatorEpoll.heap w' = delete msg (CommunicatorEpoll.heap w) ∧
    CommunicatorEpoll.woken w' = CommunicatorEpoll.woken w ∧
    CommunicatorEpoll.events w' = CommunicatorEpoll.events w ++ [AsyncProcThread.Called msg response] ∧
    (msg < CommunicatorEpoll.next w')%nat ∧
    serving r x' func ∧ written (fd r) x'.1 = written (fd r) x.1 ++ response ∧ keeps r x x'.
Proof.
  intros [Hs Hc] Hasync Hn Hsv (Hkey & Hsz & Htakes & Hfunc & Hlen) msg response.
  unfold async_call, ServantProxy.tars_invoke_async, ServantProxy.new_message. cbv zeta. fold msg.
  cbn [fst snd].
  set (m0 := ServantProxy.message_of _ _ _ _). set (w0 := CommunicatorEpoll.set_next _ _).
  assert (ServantProxy.usable sp w0 self (k r) (e r) (seq r)) as Hs0
    by by apply (ServantProxy.usable_frame _ w).
  assert (CommunicatorEpoll.heap w0 !! msg = Some m0) as Hm0 by apply lookup_insert_eq.
  destruct (ServantProxy.invoke_usable address self (calling env) msg sp w0 (k r) (e r) (seq r)
    m0 Hs0 Hkey Hm0) as (p & q & sp1 & w1 & Hi1 & Hs1 & Hn1 & Ho1 & Hh1 & Hwo1 & Hnx1 & Hev1 & Has1).
  fold msg. rewrite Hi1.
  cbn [mbind outcome_bind]. set (m1 := ServantProxy.invoked (calling env) (k r) m0) in *.
  assert (CommunicatorEpoll.heap w1 !! msg = Some m1) as Hm1 by (rewrite Hh1; apply lookup_insert_eq).
  destruct (exchange_spec r env w1 x sp1 p q n id bs msg m1 (reply (payload c)) func)
    as (w2 & x2 & -> & Hs2 & Hc2 & Hm2 & Hh2 & [Hwo2 Ha2] & Hev2 & Hnx2 & Hnd2 & Hsv2 & Hwr2 & Hk2); try done.
  { destruct Hc as (y & Hy & Hrest). exists y. by rewrite Ho1. }
  { split; [done|]. split; [done|]. split; [by right|done]. }
  { intros _. destruct Hasync as (a & Ha & Hq). exists a. by rewrite Has1. }
  cbn [mbind outcome_bind].
  destruct (CommunicatorEpoll.async_pass_spec (e r) w2 msg [] _ Ha2 Hm2)
    as (w3 & -> & Ha3 & Hh3 & Hev3 & Hob3 & Hwo3 & Hq3 & Ht3 & Hnx3 & Hnt3).
  cbn [mbind outcome_bind]. exists sp1, w3, x2.
  split; [done|]. split; [|split; [done|split; [|split; [|split; [|split; [|done]]]]]].
  - split; [left; exists p, q|].
    + eapply ServantProxy.caller_frame; [done..| |].
      * by eapply CommunicatorEpoll.notified_notifiable, Hnt3.
      * unfold CommunicatorEpoll.queued. rewrite Hq3. apply Hs2.
    + destruct Hc2 as (y & Hy & Hrest). exists y. by rewrite Hob3.
  - rewrite Hh3. apply map_eq. intros p'.
    destruct (decide (p' = msg)) as [->|Hp']; [by rewrite !lookup_delete_eq|].
    rewrite !lookup_delete_ne by done. rewrite Hh2 by done.
    rewrite Hh1, lookup_insert_ne by done. apply lookup_insert_ne. done.
  - cbn. by rewrite Hwo3, Hwo2, Hwo1.
  - cbn. rewrite Hev3, Hev2, Hev1. done.
  - cbn. rewrite Hnx3, Hnx2. cbn in Hnx1. lia.
Qed.

(** The responses to calls whose ids begin behind [id]. *)
Fixpoint responses (reply : bytes → bytes) (id : Z) (calls : list call) : list bytes :=
  match calls with
  | [] => []
  | c :: calls => ObjectProxy.response_to (id + 1) (reply (payload c)) ::
                  responses reply (id + 1) calls
  end.

Fixpoint all_fine r (func reply : bytes → bytes) (id : Z) (calls : list (answers * call)) : Prop :=
  match calls with
  | [] => True
  | (env, c) :: calls => fine r func reply (id + 1) env c ∧ all_fine r func reply (id + 1) calls
  end.

Lemma session_spec self r func reply n calls : ∀ sp w x id bs,
  ready r self sp w (n + zlen calls) id bs → 0 ≤ n → serving r x func →
  all_fine r func reply id calls →
  (∀ i, (CommunicatorEpoll.next w ≤ i)%nat → CommunicatorEpoll.heap w !! i = None) →
  ∃ sp' w' x' ps,
    session self r calls sp (w, x) = Ok (responses reply id calls.*2, sp', (w', x')) ∧
    ready r self sp' w' n (id + zlen calls) (bs ++ Wire.stream id (payload <$> calls.*2)) ∧
    serving r x' func ∧
    written (fd r) x'.1 = written (fd r) x.1 ++ concat (responses reply id calls.*2) ∧
    CommunicatorEpoll.heap w' = CommunicatorEpoll.heap w ∧
    CommunicatorEpoll.woken w' = CommunicatorEpoll.woken w ++ ps ∧ length ps = length calls ∧
    (∀ i, (CommunicatorEpoll.next w' ≤ i)%nat → CommunicatorEpoll.heap w' !! i = None) ∧
    CommunicatorEpoll.events w' = CommunicatorEpoll.events w ∧
    ∀ e', CommunicatorEpoll.async_state w' e' = CommunicatorEpoll.async_state w e'.
Proof.
  induction calls as [|[env c] calls IH]; intros sp w x id bs Hr Hn Hsv Hf Hfresh.
  { exists sp, w, x, []. cbn in *. rewrite !app_nil_r, !Z.add_0_r in *. done. }
  destruct Hf as [Hf Hfs]. cbn [length] in Hr.
  replace (n + Z.of_nat (S (length calls))) with (n + zlen calls + 1) in Hr by lia.
  destruct (tars_invoke_spec self r env c sp w x (n + zlen calls) id bs func reply Hr)
    as (sp1 & w1 & x1 & H1 & Hr1 & Hh1 & Hwo1 & Hev1 & Has1 & Hnx1 & Hsv1 & Hwr1 & _); [lia|done..|].
  rewrite delete_id in Hh1 by by apply Hfresh.
  destruct (IH sp1 w1 x1 (id + 1) _ Hr1 Hn Hsv1 Hfs)
    as (sp2 & w2 & x2 & ps & H2 & Hr2 & Hsv2 & Hwr2 & Hh2 & Hwo2 & Hps & Hfr2 & Hev2 & Has2).
  { intros i Hi. rewrite Hh1. apply Hfresh. lia. }
  exists sp2, w2, x2, (CommunicatorEpoll.next w :: ps). cbn [session]. rewrite H1.
  cbn [mbind outcome_bind]. rewrite H2. split; [done|]. split.
  { cbn [length fmap list_fmap Wire.stream snd].
    replace (id + Z.of_nat (S (length calls))) with (id + 1 + zlen calls) by lia.
    by rewrite app_assoc. }
  split; [done|]. split; [by rewrite Hwr2, Hwr1, <- app_assoc|]. split; [congruence|].
  split; [by rewrite Hwo2, Hwo1, <- app_assoc|]. split; [cbn; by rewrite Hps|].
  split; [done|]. split; [congruence|]. intros e'. by rewrite Has2, Has1.
Qed.

(** What the callback thread has done for calls whose messages are at [ps]. *)
Definition callbacks (ps : list nat) (rs : list bytes) : list AsyncProcThread.event :=
  zip_with AsyncProcThread.Called ps rs.

Lemma async_session_spec self r func reply n calls : ∀ sp w x id bs,
  ready r self sp w (n + zlen calls) id bs → CommunicatorEpoll.async_waiting w (e r) [] → 0 ≤ n →
  serving r x func → all_fine r func reply id calls →
  (∀ i, (CommunicatorEpoll.next w ≤ i)%nat → CommunicatorEpoll.heap w !! i = None) →
  ∃ sp' w' x' ps,
    async_session self r calls sp (w, x) = Ok (sp', (w', x')) ∧
    ready r self sp' w' n (id + zlen calls) (bs ++ Wire.stream id (payload <$> calls.*2)) ∧
    CommunicatorEpoll.async_waiting w' (e r) [] ∧ serving r x' func ∧
    written (fd r) x'.1 = written (fd r) x.1 ++ concat (responses reply id calls.*2) ∧
    CommunicatorEpoll.events w' =
      CommunicatorEpoll.events w ++ callbacks ps (responses reply id calls.*2) ∧
    length ps = length calls ∧ NoDup ps ∧
    (∀ p, p ∈ ps → (CommunicatorEpoll.next w ≤ p)%nat) ∧
    CommunicatorEpoll.heap w' = CommunicatorEpoll.heap w ∧
    CommunicatorEpoll.woken w' = CommunicatorEpoll.woken w ∧
    ∀ i, (CommunicatorEpoll.next w' ≤ i)%nat → CommunicatorEpoll.heap w' !! i = None.
Proof.
  induction calls as [|[env c] calls IH]; intros sp w x id bs Hr Ha Hn Hsv Hf Hfresh.
  { exists sp, w, x, []. cbn in *. rewrite !app_nil_r, !Z.add_0_r in *.
    do 7 (split; [done|]). split; [constructor|]. split; [by intros p ?%not_elem_of_nil|done]. }
  destruct Hf as [Hf Hfs]. cbn [length] in Hr.
  replace (n + Z.of_nat (S (length calls))) with (n + zlen calls + 1) in Hr by lia.
  destruct (async_call_spec self r env c sp w x (n + zlen calls) id bs func reply Hr Ha)
    as (sp1 & w1 & x1 & H1 & Hr1 & Ha1 & Hh1 & Hwo1 & Hev1 & Hnx1 & Hsv1 & Hwr1 & _); [lia|done..|].
  rewrite delete_id in Hh1 by by apply Hfresh.
  destruct (IH sp1 w1 x1 (id + 1) _ Hr1 Ha1 Hn Hsv1 Hfs)
    as (sp2 & w2 & x2 & ps & H2 & Hr2 & Ha2 & Hsv2 & Hwr2 & Hev2 & Hps & Hnd & Hlow & Hh2 & Hwo2 & Hfr2).
  { intros i Hi. rewrite Hh1. apply Hfresh. lia. }
  exists sp2, w2, x2, (CommunicatorEpoll.next w :: ps). cbn [async_session]. rewrite H1.
  cbn [mbind outcome_bind]. rewrite H2. split; [done|]. split.
  { cbn [length fmap list_fmap Wire.stream snd].
    replace (id + Z.of_nat (S (length calls))) with (id + 1 + zlen calls) by lia.
    by rewrite app_assoc. }
  split; [done|]. split; [done|]. split; [by rewrite Hwr2, Hwr1, <- app_assoc|].
  split; [by rewrite Hev2, Hev1, <- app_assoc|]. split; [cbn; by rewrite Hps|].
  split; [constructor; [intros Hin%Hlow; lia|done]|].
  split; [intros p [->|Hp%Hlow]%elem_of_cons; lia|]. split; [congruence|]. split; [congruence|done].
Qed.

End calls.

(** ** Properties *)


(** Asynchronous calls complete: when a thread makes calls with callbacks one
    after the other and each is carried through before the next, the callback
    thread runs every callback exactly once, in order, with the servant's response
    to that very call; the messages, all different, are deleted, nobody is woken
    up, and both sides and the callback thread's queue are as before. *)
Theorem async_calls_complete {B : Type} `{ByteQueueLaws B} log address alloc_ok
    (alloc_total : ∀ n, alloc_ok n = true) self r func reply n calls sp w
    (x : EpollServer.t B * (NodeF.t * Scheduler.t HandlerRun.task)) id bs
    (Hr : ready r self sp w (n + zlen calls) id bs)
    (Ha : CommunicatorEpoll.async_waiting w (e r) []) (Hn : 0 ≤ n) (Hsv : serving r x func)
    (Hf : all_fine r func reply id calls)
    (Hfresh : ∀ i, (CommunicatorEpoll.next w ≤ i)%nat → CommunicatorEpoll.heap w !! i = None) :
  ∃ sp' w' x' ps,
    async_session log address alloc_ok self r calls sp (w, x) = Ok (sp', (w', x')) ∧
    ready r self sp' w' n (id + zlen calls) (bs ++ Wire.stream id (payload <$> calls.*2)) ∧
    CommunicatorEpoll.async_waiting w' (e r) [] ∧ serving r x' func ∧
    written (fd r) x'.1 = written (fd r) x.1 ++ concat (responses reply id calls.*2) ∧
    CommunicatorEpoll.events w' =
      CommunicatorEpoll.events w ++ callbacks ps (responses reply id calls.*2) ∧
    length ps = length calls ∧ NoDup ps ∧
    CommunicatorEpoll.heap w' = CommunicatorEpoll.heap w ∧
    CommunicatorEpoll.woken w' = CommunicatorEpoll.woken w.
Proof.
  destruct (async_session_spec log address alloc_ok alloc_total self r func reply n calls sp w x id bs)
    as (sp' & w' & x' & ps & ? & ? & ? & ? & ? & ? & ? & ? & _ & ? & ? & _); [done..|].
  by exists sp', w', x', ps.
Qed.

(** ** Witness: the Hello server *)

(** The function that the example server registers. *)
Definition hello (request : bytes) : bytes :=
  match Servants.HelloImp request [] with Ok (_, buffer) => buffer | _ => [] end.

Definition hello_call : call := (Str.str "test", Str.str "hi").

Definition hello_route : route :=
  mk_route 0 0 0 1 9 (ServantHandle.mk [(ServantHandle.echo_name, Some hello)] (Some 0%nat)).

Definition hello_answers : answers :=
  mk_answers (ServantProxy.mk_answers (Some 1) 0 0 0 6) (5, Transceiver.Room 60) 16 [] 100000 100 true [].

(** The server of ServantHandle.v, with any function. *)
Lemma echo_server_serving k e seq func nf st :
  HandlerRun.waiting st [] →
  serving (mk_route k e seq 1 9 (ServantHandle.mk [(ServantHandle.echo_name, Some func)] (Some 0%nat)))
    (ServantHandle.echo_server, (nf, st)) func.
Proof.
  intros Hw. split; [exact Hw|].
  destruct ServantHandle.echo_received as (c & m & c' & Hl & Hfd & Ha & _).
  pose proof (ServantHandle.echo_serves func c Hl Ha) as Hs.
  assert (Connection.recvBuffer_ <$> NetThread.conns ServantHandle.echo_thread !! 0%nat = Some bq_init)
    as Hb by (vm_compute; reflexivity).
  destruct Hl as [_ Hc]. rewrite Hc in Hb. cbn [fmap option_fmap option_map] in Hb.
  apply (inj Some) in Hb.
  exists ServantHandle.echo_thread, 0%nat, c, 0%nat, ServantHandle.echo_name, 0%nat.
  split; [exact Hs|]. split; [rewrite Hb; apply bq_init_repr|exact Hfd].
Qed.

Lemma hello_ready Q n :
  LoopQueue.repr 1000 Q [] → 0 ≤ n < 2 ^ 32 →
  ready hello_route 0 (ServantProxy.proxy 0) (ServantProxy.two_threads Q Request.fresh) n 0 [].
Proof.
  intros HQ Hn. split; [|by apply (CommunicatorEpoll.started_connected Request.fresh)].
  left. exists 0%nat, 10%nat. apply (ServantProxy.two_threads_caller Q Request.fresh [] 0 HQ). by left.
Qed.

Lemma hello_fine i : fine hello_route hello id i hello_answers hello_call.
Proof.
  pose proof (Wire.length_to_string (i32 i)) as Hlen. split; [split; [by exists 1|done]|].
  split; [done|]. split; [|split].
  - split; [done|]. exists 60%nat. split; [done|]. vm_compute. discriminate.
  - unfold hello. change (Wire.request_payload i (payload hello_call)) with
      (Servants.request (Wire.to_string (i32 i)) (Str.str "test") (Wire.colon :: Str.str "hi")).
    rewrite Servants.HelloImp_spec; [done| |by left]. split.
    + apply Wire.to_string_no_colon.
    + by repeat constructor.
    + right. by eexists.
    + cbn [length]. change (zlen (Str.str "test")) with 4. change (length (Str.str "hi")) with 2%nat. lia.
  - unfold ObjectProxy.response_to. rewrite length_app. cbn [length].
    change (length (id (payload hello_call))) with 7%nat. lia.
Qed.


Lemma async_calls_complete_witness :
  ∃ w st sp' w' x' p q,
    async_session Assert ServantProxy.here Scheduler.granted 0 hello_route
      [(hello_answers, hello_call); (hello_answers, hello_call)] (ServantProxy.proxy 0)
      (w, (ServantHandle.echo_server, (NodeF.init, st))) = Ok (sp', (w', x')) ∧
    CommunicatorEpoll.events w' =
      [AsyncProcThread.Called p (Str.str "1:test:hi"); AsyncProcThread.Called q (Str.str "2:test:hi")].
Proof.
  destruct (LoopQueue.new_spec (T := nat) 1000) as (Q & _ & HQ); [lia|].
  destruct (HandlerRun.new_scheduler_waiting Scheduler.granted (λ _, eq_refl)) as (st & _ & Hw).
  destruct (async_calls_complete Assert ServantProxy.here Scheduler.granted (λ _, eq_refl) 0 hello_route hello id 3
    [(hello_answers, hello_call); (hello_answers, hello_call)] (ServantProxy.proxy 0)
    (ServantProxy.two_threads Q Request.fresh) (ServantHandle.echo_server, (NodeF.init, st)) 0 [])
    as (sp' & w' & x' & ps & H1 & _ & _ & _ & _ & H2 & H3 & _).
  - apply hello_ready; [exact HQ|cbn; lia].
  - apply (CommunicatorEpoll.started_async Request.fresh).
  - lia.
  - apply echo_server_serving. exact Hw.
  - split; [apply hello_fine|]. split; [apply hello_fine|]. exact I.
  - intros i Hi. cbn in Hi |- *. rewrite lookup_insert_ne, lookup_singleton_ne by lia. done.
  - destruct ps as [|p [|q [|]]]; try discriminate H3.
    eexists _, st, sp', w', x', p, q. split; [exact H1|]. rewrite H2. reflexivity.
Defined.

End Rpc.
