(* ===== verification/Pipeline.v ===== *)
(** * Pipeline: calls in flight together

    A thread makes several asynchronous calls before anything else happens.  The
    network thread sends all the requests in one go, the server reads them
    together and makes a coroutine for each, and the responses come back one by
    one, each to be read on its own: they carry no length. *)

From Stdlib Require Import Strings.String.
From S2P Require Import Prelude ByteQueue Buffer LoopQueue Wire Message AsyncProcThread Connection.
From S2P Require Import Transceiver ObjectProxy BindAdapter Epoller CommunicatorEpoll ServantProxy NetThread.
From S2P Require Import EpollServer ServantManager Servants Scheduler ServantHandle HandlerRun Rpc.

Module Pipeline.

(** The messages of a connection, numbered from [id + 1] on. *)
Fixpoint numbered (id : Z) (requests : list bytes) : list bytes :=
  match requests with
  | [] => []
  | r :: requests => Wire.request_payload (id + 1) r :: numbered (id + 1) requests
  end.

Lemma stream_numbered requests : ∀ id, Wire.stream id requests = concat (Wire.frame <$> numbered id requests).
Proof. induction requests as [|r requests IH]; intros id; [done|]. cbn. by rewrite IH. Qed.

(** A request whose response is awaited: its id, its message, and the body of the
    response. *)
Record item := mk_item { uid : Z; msg : nat; content : Request.ReqMessage; body : bytes }.

Definition response (x : item) : bytes := ObjectProxy.response_to (uid x) (body x).
Definition done_msg (x : item) : Request.ReqMessage := ObjectProxy.completed (response x) (content x).

Section pipeline.
Context {B : Type} `{ByteQueueLaws B}.
Context (log : outcome unit) (address : nat → CommunicatorEpoll.fd_pointer → Z).
Context (alloc_ok : nat → bool).
Hypothesis alloc_total : ∀ n, alloc_ok n = true.

Abbreviation server := (EpollServer.t B * (NodeF.t * Scheduler.t HandlerRun.task))%type.
Abbreviation system := (CommunicatorEpoll.world * server)%type.
Implicit Types (r : Rpc.route) (w : CommunicatorEpoll.world).

(** The network thread reads the responses, each with an event of its own. *)
Fixpoint read_all r (responses : list bytes) w : outcome CommunicatorEpoll.world :=
  match responses with
  | [] => Ok w
  | b :: responses =>
      w ← CommunicatorEpoll.handle log address (Rpc.e r) (CommunicatorEpoll.TransAt (Rpc.k r)) Epoller.EPOLLIN
            (CommunicatorEpoll.mk_answers [] [Transceiver.Rdv b] (Transceiver.Room 0) []) w;
      read_all r responses w
  end.

Fixpoint callback_passes (e n : nat) w : outcome CommunicatorEpoll.world :=
  match n with
  | O => Ok w
  | S n => w ← CommunicatorEpoll.async_pass e 0 w; callback_passes e n w
  end.

(** From the calls of thread [self] to the last callback. *)
Definition flight (self : nat) r env (sends : list (Z * Transceiver.send_result))
    (calls : list ServantProxy.call) (sp : ServantProxy.t) (x : system) : outcome (ServantProxy.t * system) :=
  let '(w, (s, (nf, st))) := x in
  '(sp, w) ← ServantProxy.call_all address self (Rpc.calling env) calls sp w;
  w1 ← CommunicatorEpoll.handle log address (Rpc.e r) (CommunicatorEpoll.NotifyAt (Rpc.seq r)) 1
         (CommunicatorEpoll.mk_answers sends [] (Transceiver.Room 0) []) w;
  let requests := drop (length (Rpc.wire (Rpc.k r) w)) (Rpc.wire (Rpc.k r) w1) in
  s1 ← EpollServer.run_thread 0
         (NetThread.processNet (Rpc.maxIOVcount env) (Epoller.mk_event (Rpc.uid r) Epoller.EPOLLIN)
            (Connection.Rd <$> Rpc.chunks requests) (Rpc.flushing env)) s;
  '(st, (s2, nf)) ← HandlerRun.tars_run alloc_ok (Rpc.pass env) (Rpc.h r) st (s1, nf);
  s3 ← EpollServer.run_thread 0 (NetThread.processPipe (Rpc.maxIOVcount env) (Rpc.responding env)) s2;
  let responses := drop (length (Rpc.sent_to (Rpc.fd r) s)) (Rpc.sent_to (Rpc.fd r) s3) in
  w2 ← read_all r responses w1;
  w3 ← callback_passes (Rpc.e r) (length responses) w2;
  Ok (sp, (w3, (s3, (nf, st)))).

(** ** The client's side *)

Lemma read_all_spec r n id bs l : ∀ w ps,
  CommunicatorEpoll.connected w (Rpc.k r) (Rpc.e r) n id bs → 0 ≤ n →
  CommunicatorEpoll.async_waiting w (Rpc.e r) ps → zlen ps + zlen l ≤ 100 →
  NoDup (uid <$> l) → NoDup (msg <$> l) →
  (∀ x, x ∈ l → CommunicatorEpoll.outstanding w (Rpc.k r) (uid x) (msg x) (content x) ∧
     Request.type (content x) = Request.ASYNC_CALL ∧ zlen (response x) ≤ 2 ^ 61) →
  ∃ w', read_all r (response <$> l) w = Ok w' ∧
    CommunicatorEpoll.connected w' (Rpc.k r) (Rpc.e r) n id bs ∧
    CommunicatorEpoll.async_waiting w' (Rpc.e r) (ps ++ (msg <$> l)) ∧
    (∀ x, x ∈ l → CommunicatorEpoll.heap w' !! msg x = Some (done_msg x)) ∧
    (∀ p, p ∉ msg <$> l → CommunicatorEpoll.heap w' !! p = CommunicatorEpoll.heap w !! p) ∧
    CommunicatorEpoll.events w' = CommunicatorEpoll.events w ∧
    CommunicatorEpoll.woken w' = CommunicatorEpoll.woken w ∧
    CommunicatorEpoll.queues w' = CommunicatorEpoll.queues w ∧
    CommunicatorEpoll.tls w' = CommunicatorEpoll.tls w ∧
    ∀ e' seq q, CommunicatorEpoll.notified w e' seq q → CommunicatorEpoll.notified w' e' seq q.
Proof.
  induction l as [|x l IH]; intros w ps Hc Hn Ha Hlen Hu Hp Hl.
  { exists w. cbn. rewrite app_nil_r. do 3 (split; [done|]).
    split; [by intros x ?%not_elem_of_nil|done]. }
  cbn [length] in Hlen. rewrite fmap_cons in Hu. rewrite fmap_cons in Hp.
  apply NoDup_cons in Hu as [Hux Hu]. apply NoDup_cons in Hp as [Hpx Hp].
  destruct (Hl x ltac:(left)) as (Ho & Hty & Hsz).
  destruct (CommunicatorEpoll.handle_response log address (Rpc.k r) (Rpc.e r) n id bs (uid x) (msg x)
    (content x) (body x) (CommunicatorEpoll.mk_answers [] [Transceiver.Rdv (response x)] (Transceiver.Room 0) [])
    w Hc Hn Ho) as (w1 & H1 & Hc1 & Hh1 & Hev1 & Hq1 & Ht1 & _ & Ho1 & Hend);
    [intros _; exists ps; split; [done|lia]|done|done|].
  rewrite Hty in Hend. destruct Hend as (Hwo1 & Ha1 & Hnt1).
  destruct (IH w1 (ps ++ [msg x])) as (w2 & H2 & Hc2 & Ha2 & Hd2 & Hh2 & Hev2 & Hwo2 & Hq2 & Ht2 & Hnt2);
    try done.
  - apply Ha1; [done|lia].
  - rewrite length_app. cbn [length]. lia.
  - intros y Hy. destruct (Hl y ltac:(by right)) as (Hoy & Hrest). split; [|done]. apply Ho1; [| |done].
    + intros Heq. apply Hux. rewrite <- Heq. by apply list_elem_of_fmap_2.
    + intros Heq. apply Hpx. rewrite <- Heq. by apply list_elem_of_fmap_2.
  - exists w2. rewrite !fmap_cons. cbn [read_all]. rewrite H1. cbn [mbind outcome_bind]. split; [done|].
    split; [done|]. split; [by rewrite <- app_assoc in Ha2|]. split; [|split; [|split; [congruence|]]].
    + intros y [->|Hy]%elem_of_cons; [|by apply Hd2]. rewrite Hh2, Hh1 by done. apply lookup_insert_eq.
    + intros p [Hne Hin]%not_elem_of_cons. by rewrite Hh2, Hh1, lookup_insert_ne by done.
    + split; [congruence|]. split; [congruence|]. split; [congruence|]. auto.
Qed.

Lemma callback_passes_spec e l : ∀ w,
  CommunicatorEpoll.async_waiting w e (msg <$> l) → NoDup (msg <$> l) →
  (∀ x, x ∈ l → CommunicatorEpoll.heap w !! msg x = Some (done_msg x)) →
  ∃ w', callback_passes e (length l) w = Ok w' ∧ CommunicatorEpoll.async_waiting w' e [] ∧
    CommunicatorEpoll.events w' =
      CommunicatorEpoll.events w ++ ((λ x, AsyncProcThread.dispatch (msg x) (done_msg x)) <$> l) ∧
    (∀ p, CommunicatorEpoll.heap w' !! p =
       if bool_decide (p ∈ msg <$> l) then None else CommunicatorEpoll.heap w !! p) ∧
    CommunicatorEpoll.objects w' = CommunicatorEpoll.objects w ∧
    CommunicatorEpoll.woken w' = CommunicatorEpoll.woken w ∧
    CommunicatorEpoll.queues w' = CommunicatorEpoll.queues w ∧
    CommunicatorEpoll.tls w' = CommunicatorEpoll.tls w ∧
    ∀ e' seq q, CommunicatorEpoll.notified w e' seq q → CommunicatorEpoll.notified w' e' seq q.
Proof.
  induction l as [|x l IH]; intros w Ha Hnd Hl.
  { exists w. cbn. rewrite app_nil_r. split; [done|]. split; [done|]. split; [done|]. done. }
  rewrite fmap_cons in Ha. rewrite fmap_cons in Hnd. apply NoDup_cons in Hnd as [Hx Hnd].
  destruct (CommunicatorEpoll.async_pass_spec e w (msg x) (msg <$> l) (done_msg x) Ha (Hl x ltac:(left)))
    as (w1 & H1 & Ha1 & Hh1 & Hev1 & Hob1 & Hwo1 & Hq1 & Ht1 & _ & Hnt1).
  destruct (IH w1 Ha1 Hnd) as (w2 & H2 & Ha2 & Hev2 & Hh2 & Hob2 & Hwo2 & Hq2 & Ht2 & Hnt2).
  { intros y Hy. rewrite Hh1, lookup_delete_ne; [apply Hl; by right|]. intros Heq. apply Hx. rewrite Heq.
    by apply list_elem_of_fmap_2. }
  exists w2. cbn [length callback_passes]. rewrite H1. cbn [mbind outcome_bind]. split; [done|].
  split; [done|]. split; [by rewrite Hev2, Hev1, fmap_cons, <- app_assoc|]. split.
  - intros p. rewrite Hh2, Hh1, fmap_cons. destruct (decide (p ∈ msg <$> l)) as [Hin|Hin].
    + rewrite !bool_decide_true by (try (right; done); done). done.
    + rewrite (bool_decide_false (p ∈ msg <$> l)) by done. case_bool_decide as Hc.
      * apply elem_of_cons in Hc as [->|?]; [by rewrite lookup_delete_eq|done].
      * apply not_elem_of_cons in Hc as [? _]. by rewrite lookup_delete_ne.
  - split; [congruence|]. split; [congruence|]. split; [congruence|]. split; [congruence|]. auto.
Qed.

(** The calls leave their messages in the queue, used before or not. *)
Lemma call_all_ready self env calls sp w k e seq :
  ServantProxy.usable sp w self k e seq → ServantProxy.gives_key env → calls ≠ [] → zlen calls ≤ 1000 →
  ∃ p q sp' w' ps, ServantProxy.call_all address self env calls sp w = Ok (sp', w') ∧
    ServantProxy.caller sp' w' p q k e seq ps ∧ CommunicatorEpoll.notified w' e seq q ∧
    ServantProxy.same_but_calls w w' ∧ length ps = length calls ∧ NoDup ps ∧
    (∀ p, p ∈ ps → (CommunicatorEpoll.next w ≤ p)%nat) ∧
    (∀ (i : nat) p c, ps !! i = Some p → calls !! i = Some c →
       CommunicatorEpoll.heap w' !! p = Some (ServantProxy.async_message env k c)) ∧
    ∀ p, (p < CommunicatorEpoll.next w)%nat → CommunicatorEpoll.heap w' !! p = CommunicatorEpoll.heap w !! p.
Proof.
  intros Hs Hkey Hne Hlen. destruct calls as [|[[f request] cb] calls]; [done|]. clear Hne. cbn [length] in Hlen.
  cbn [ServantProxy.call_all].
  destruct (ServantProxy.call_usable address self env (f, request, cb) sp w k e seq Hs Hkey)
    as (p & q & sp1 & w1 & H1 & Hs1 & Hn1 & Hsame1 & Hh1 & Hnx1). cbn [fst snd] in H1. rewrite H1.
  assert (∀ p', (p' < CommunicatorEpoll.next w)%nat →
    CommunicatorEpoll.heap w1 !! p' = CommunicatorEpoll.heap w !! p') as Hold1
    by (intros p' Hp'; rewrite Hh1, lookup_insert_ne by lia; done).
  assert (CommunicatorEpoll.heap w1 !! CommunicatorEpoll.next w =
    Some (ServantProxy.async_message env k (f, request, cb))) as Hm1 by (rewrite Hh1; apply lookup_insert_eq).
  cbn [mbind outcome_bind].
  destruct (decide (calls = [])) as [->|Hcs].
  { exists p, q, sp1, w1, [CommunicatorEpoll.next w]. do 5 (split; [done|]). split; [apply NoDup_singleton|].
    split; [intros p' ->%list_elem_of_singleton; lia|]. split; [|done].
    intros [|i] p' c Hp' Hc; [|done]. by injection Hp' as <-; injection Hc as <-. }
  destruct (ServantProxy.call_all_spec address self env k p q e seq calls sp1 w1 [CommunicatorEpoll.next w] Hs1)
    as (w2 & H2 & Hs2 & Hn2 & (Ho2 & Hev2 & Hwo2 & Has2) & Hh2 & Hold2); [cbn; lia|done|].
  exists p, q, sp1, w2, (CommunicatorEpoll.next w :: List.seq (CommunicatorEpoll.next w1) (length calls)).
  destruct Hsame1 as (? & ? & ? & Has).
  split; [exact H2|]. split; [done|]. split; [done|]. split; [|split; [|split; [|split; [|split]]]].
  - split; [congruence|]. split; [congruence|]. split; [congruence|]. intros e'. by rewrite Has2, Has.
  - cbn [length]. by rewrite length_seq.
  - constructor; [|apply NoDup_seq]. rewrite elem_of_seq. lia.
  - intros p' [->|Hin]%elem_of_cons; [lia|]. apply elem_of_seq in Hin. lia.
  - intros [|i] p' c Hp' Hc; cbn in Hp', Hc.
    + injection Hp' as <-. injection Hc as <-. by rewrite Hold2 by lia.
    + apply lookup_seq in Hp' as [-> _]. by apply Hh2.
  - intros p' Hp'. rewrite Hold2 by lia. by apply Hold1.
Qed.

(** ** What comes back *)

Context (reply : bytes → bytes).

Fixpoint items env (k : nat) (id : Z) (ps : list nat) (calls : list ServantProxy.call) : list item :=
  match ps, calls with
  | p :: ps, c :: calls =>
      mk_item (id + 1) p (CommunicatorEpoll.request_id (ServantProxy.async_message env k c) (id + 1))
        (reply (ServantProxy.payload c)) :: items env k (id + 1) ps calls
  | _, _ => []
  end.

(** What the callback thread does for calls whose messages are at [ps]. *)
Fixpoint finished (id : Z) (ps : list nat) (calls : list ServantProxy.call) : list AsyncProcThread.event :=
  match ps, calls with
  | p :: ps, c :: calls =>
      let response := ObjectProxy.response_to (id + 1) (reply (ServantProxy.payload c)) in
      (if c.2 then AsyncProcThread.Called p response else AsyncProcThread.Printed response)
      :: finished (id + 1) ps calls
  | _, _ => []
  end.

(** The calls fit into the messages, and [func] answers them and keeps their ids. *)
Fixpoint answered (func : bytes → bytes) (id : Z) (calls : list ServantProxy.call) : Prop :=
  match calls with
  | [] => True
  | c :: calls =>
      let response := ObjectProxy.response_to (id + 1) (reply (ServantProxy.payload c)) in
      zlen (ServantProxy.payload c) < 2 ^ 30 ∧
      func (Wire.request_payload (id + 1) (ServantProxy.payload c)) = response ∧ zlen response ≤ 2 ^ 61 ∧
      answered func (id + 1) calls
  end.

Lemma items_msg env k ps : ∀ id calls, length ps = length calls → msg <$> items env k id ps calls = ps.
Proof.
  induction ps as [|p ps IH]; intros id [|c calls] Hl; try done. cbn. by rewrite IH by (cbn in Hl; lia).
Qed.

Lemma items_response env k ps : ∀ id calls, length ps = length calls →
  response <$> items env k id ps calls = Rpc.responses reply id calls.*1.
Proof.
  induction ps as [|p ps IH]; intros id [|c calls] Hl; try done.
  cbn. rewrite IH by (cbn in Hl; lia). done.
Qed.

Lemma items_dispatch env k ps : ∀ id calls, length ps = length calls →
  (λ x, AsyncProcThread.dispatch (msg x) (done_msg x)) <$> items env k id ps calls = finished id ps calls.
Proof.
  induction ps as [|p ps IH]; intros id [|c calls] Hl; try done.
  cbn. rewrite IH by (cbn in Hl; lia). done.
Qed.

Lemma items_above env k ps : ∀ id calls x, x ∈ items env k id ps calls → id < uid x.
Proof.
  induction ps as [|p ps IH]; intros id [|c calls] x Hx; try by apply not_elem_of_nil in Hx.
  cbn [items] in Hx. apply elem_of_cons in Hx as [->|Hx]; [cbn; lia|]. apply IH in Hx. lia.
Qed.

Lemma items_uids env k ps : ∀ id calls, NoDup (uid <$> items env k id ps calls).
Proof.
  induction ps as [|p ps IH]; intros id [|c calls]; try by constructor. cbn [items fmap list_fmap].
  constructor; [|apply IH]. intros (x & Hu & Hx)%list_elem_of_fmap. apply items_above in Hx. cbn in Hu. lia.
Qed.

Lemma items_Forall (P : Z → nat → Request.ReqMessage → Prop) env k ps : ∀ id calls,
  (∀ (i : nat) p c, ps !! i = Some p → calls !! i = Some c →
     let u := id + 1 + Z.of_nat i in
     P u p (CommunicatorEpoll.request_id (ServantProxy.async_message env k c) u)) →
  ∀ x, x ∈ items env k id ps calls →
    P (uid x) (msg x) (content x) ∧ Request.type (content x) = Request.ASYNC_CALL.
Proof.
  induction ps as [|p ps IH]; intros id [|c calls] HP x Hx; try by apply not_elem_of_nil in Hx.
  cbn [items] in Hx. apply elem_of_cons in Hx as [->|Hx].
  - split; [|done]. specialize (HP 0%nat p c eq_refl eq_refl). cbv zeta in HP. by rewrite Z.add_0_r in HP.
  - apply (IH (id + 1) calls); [|done]. intros i p' c' Hp' Hc'. specialize (HP (S i) p' c' Hp' Hc').
    cbv zeta in HP |- *. by replace (id + 1 + 1 + Z.of_nat i) with (id + 1 + Z.of_nat (S i)) by lia.
Qed.

Lemma answered_spec func calls : ∀ id, answered func id calls →
  let requests := numbered id (ServantProxy.payload <$> calls) in
  func <$> requests = Rpc.responses reply id calls.*1 ∧
  Forall (λ c, zlen (ServantProxy.payload c) < 2 ^ 30) calls ∧
  Forall (λ m, zlen m < 2 ^ 31) requests ∧ (∀ m, m ∈ requests → func m ≠ []) ∧
  Forall (λ b, zlen b ≤ 2 ^ 61) (Rpc.responses reply id calls.*1).
Proof.
  induction calls as [|c calls IH]; intros id Ha; cbv zeta.
  { do 3 (split; [done|]). split; [by intros m ?%not_elem_of_nil|done]. }
  destruct Ha as (Hsz & Hf & Hl & Ha). destruct (IH (id + 1) Ha) as (H1 & H2 & H3 & H4 & H5).
  cbn [fmap list_fmap numbered Rpc.responses]. split; [|split; [by constructor|split; [|split]]].
  - rewrite Hf. f_equal. exact H1.
  - constructor; [|done]. pose proof (Wire.length_request (id + 1) (ServantProxy.payload c)) as Hlr.
    rewrite Wire.length_frame in Hlr. unfold Wire.kHeaderSize in Hlr. lia.
  - intros m [->|Hm]%elem_of_cons; [|by apply H4]. rewrite Hf. unfold ObjectProxy.response_to.
    by destruct (Wire.to_string _).
  - by constructor.
Qed.

Lemma stream_length calls : ∀ id,
  Forall (λ c, zlen (ServantProxy.payload c) < 2 ^ 30) calls →
  zlen (Wire.stream id (ServantProxy.payload <$> calls)) ≤ zlen calls * 2 ^ 31.
Proof.
  induction calls as [|c calls IH]; intros id Hall; [done|]. apply Forall_cons in Hall as [Hc Hall].
  specialize (IH (id + 1) Hall). cbn [fmap list_fmap Wire.stream length] in *. rewrite length_app.
  pose proof (Wire.length_request (id + 1) (ServantProxy.payload c)). lia.
Qed.

Lemma sent_wire w w' k e e' n n' id id' bs bs' :
  CommunicatorEpoll.connected w k e n id bs → CommunicatorEpoll.connected w' k e' n' id' (bs ++ bs') →
  drop (length (Rpc.wire k w)) (Rpc.wire k w') = bs'.
Proof.
  intros Hc Hc'. rewrite (Rpc.wire_connected _ _ _ _ _ _ Hc), (Rpc.wire_connected _ _ _ _ _ _ Hc').
  apply drop_app_length.
Qed.

(** The calls, up to the wire. *)
Lemma launch_spec self r env sends calls sp w n id bs func events :
  Rpc.ready r self sp w (n + zlen calls) id bs → 0 ≤ n → ServantProxy.gives_key (Rpc.calling env) →
  calls ≠ [] → zlen calls ≤ 1000 → answered func id calls →
  Forall2 CommunicatorEpoll.takes (ServantProxy.async_message (Rpc.calling env) (Rpc.k r) <$> calls) sends →
  let bs' := Wire.stream id (ServantProxy.payload <$> calls) in
  ∃ p q sp' w1 w2 ps,
    ServantProxy.call_all address self (Rpc.calling env) calls sp w = Ok (sp', w1) ∧
    CommunicatorEpoll.handle log address (Rpc.e r) (CommunicatorEpoll.NotifyAt (Rpc.seq r)) events
      (CommunicatorEpoll.mk_answers sends [] (Transceiver.Room 0) []) w1 = Ok w2 ∧
    drop (length (Rpc.wire (Rpc.k r) w1)) (Rpc.wire (Rpc.k r) w2) = bs' ∧
    ServantProxy.caller sp' w2 p q (Rpc.k r) (Rpc.e r) (Rpc.seq r) [] ∧
    CommunicatorEpoll.notified w2 (Rpc.e r) (Rpc.seq r) q ∧
    CommunicatorEpoll.connected w2 (Rpc.k r) (Rpc.e r) n (id + zlen calls) (bs ++ bs') ∧
    length ps = length calls ∧ NoDup ps ∧ (∀ p, p ∈ ps → (CommunicatorEpoll.next w ≤ p)%nat) ∧
    (∀ x, x ∈ items (Rpc.calling env) (Rpc.k r) id ps calls →
       CommunicatorEpoll.outstanding w2 (Rpc.k r) (uid x) (msg x) (content x) ∧
       Request.type (content x) = Request.ASYNC_CALL) ∧
    (∀ p, (p < CommunicatorEpoll.next w)%nat →
       CommunicatorEpoll.heap w2 !! p = CommunicatorEpoll.heap w !! p) ∧
    CommunicatorEpoll.events w2 = CommunicatorEpoll.events w ∧
    CommunicatorEpoll.woken w2 = CommunicatorEpoll.woken w ∧
    ∀ e', CommunicatorEpoll.async_state w2 e' = CommunicatorEpoll.async_state w e'.
Proof.
  intros [Hs Hc] Hn Hkey Hne Hlen Hans Htakes bs'.
  destruct (answered_spec func calls id Hans) as (_ & Hsz & _).
  destruct (call_all_ready self (Rpc.calling env) calls sp w (Rpc.k r) (Rpc.e r) (Rpc.seq r) Hs Hkey Hne Hlen)
    as (p & q & sp' & w1 & ps & H1 & Hs1 & Hn1 & (Ho1 & Hev1 & Hwo1 & Has1) & Hlps & Hnd & Hlow & Hh1 & Hold1).
  destruct (ServantProxy.sent_together log address (Rpc.calling env) sp' w1 p q (Rpc.k r) (Rpc.e r) (Rpc.seq r)
    n id bs ps calls events (CommunicatorEpoll.mk_answers sends [] (Transceiver.Room 0) []))
    as (w2 & H2 & Hs2 & Hn2 & Hc2 & (Hall & _ & Hh2) & He2 & Hev2 & Hwo2); try done.
  { destruct Hc as (x & Hx & Hrest). exists x. by rewrite Ho1. }
  assert (CommunicatorEpoll.connected w1 (Rpc.k r) (Rpc.e r) (n + zlen calls) id bs) as Hc1.
  { destruct Hc as (x & Hx & Hrest). exists x. by rewrite Ho1. }
  exists p, q, sp', w1, w2, ps. do 2 (split; [done|]). split; [by eapply sent_wire|].
  do 6 (split; [done|]). split; [|split; [|split; [congruence|split; [congruence|]]]].
  - apply (items_Forall (λ u p m, CommunicatorEpoll.outstanding w2 (Rpc.k r) u p m)).
    intros i p' c Hp' Hcc. apply Hall; [done|]. by rewrite list_lookup_fmap, Hcc.
  - intros p' Hp'. rewrite Hh2; [by apply Hold1|]. intros Hin%Hlow. lia.
  - intros e'. rewrite <- Has1. unfold CommunicatorEpoll.async_state. by rewrite He2.
Qed.

Lemma flight_spec self r env sends calls sp w x n id bs func :
  Rpc.ready r self sp w (n + zlen calls) id bs → 0 ≤ n → ServantProxy.gives_key (Rpc.calling env) →
  calls ≠ [] → zlen calls ≤ 99 → answered func id calls →
  Forall2 CommunicatorEpoll.takes (ServantProxy.async_message (Rpc.calling env) (Rpc.k r) <$> calls) sends →
  CommunicatorEpoll.async_waiting w (Rpc.e r) [] → Rpc.serving r x func →
  ∃ sp' w' x' ps, flight self r env sends calls sp (w, x) = Ok (sp', (w', x')) ∧
    Rpc.ready r self sp' w' n (id + zlen calls) (bs ++ Wire.stream id (ServantProxy.payload <$> calls)) ∧
    CommunicatorEpoll.async_waiting w' (Rpc.e r) [] ∧ Rpc.serving r x' func ∧ Rpc.keeps r x x' ∧
    Rpc.sent_to (Rpc.fd r) x'.1 = Rpc.sent_to (Rpc.fd r) x.1 ++ Rpc.responses reply id calls.*1 ∧
    CommunicatorEpoll.events w' = CommunicatorEpoll.events w ++ finished id ps calls ∧
    CommunicatorEpoll.woken w' = CommunicatorEpoll.woken w ∧
    length ps = length calls ∧ NoDup ps ∧ (∀ p, p ∈ ps → (CommunicatorEpoll.next w ≤ p)%nat) ∧
    (∀ p, p ∈ ps → CommunicatorEpoll.heap w' !! p = None) ∧
    ∀ p, (p < CommunicatorEpoll.next w)%nat → CommunicatorEpoll.heap w' !! p = CommunicatorEpoll.heap w !! p.
Proof.
  intros Hr Hn Hkey Hne Hlen Hans Htakes Ha Hsv.
  destruct (launch_spec self r env sends calls sp w n id bs func 1 Hr Hn Hkey Hne ltac:(lia) Hans Htakes)
    as (p & q & sp' & w1 & w2 & ps & H1 & H2 & Hwire & Hs2 & Hn2 & Hc2 & Hlps & Hnd & Hlow & Hout & Hold & Hev2 &
        Hwo2 & Has2).
  destruct (answered_spec func calls id Hans) as (Hresp & Hsz & Hreqs & Hne' & Hlens).
  pose proof (stream_length calls id Hsz) as Hstream. rewrite stream_numbered in Hwire, Hstream.
  set (reqs := numbered id (ServantProxy.payload <$> calls)) in *.
  assert (length reqs = length calls) as Hlr.
  { rewrite <- (length_fmap func), Hresp. by rewrite <- (items_response (Rpc.calling env) (Rpc.k r) ps id calls Hlps),
      length_fmap, <- (length_fmap msg), items_msg. }
  destruct x as [s [nf st]].
  destruct (Rpc.server_batch alloc_ok alloc_total r env s nf st func reqs Hsv)
    as (s1 & nf' & st' & s2 & s3 & Hr1 & Hr2 & Hr3 & Hsv3 & Hsent & Hk); [|lia|done|unfold bq_limit; lia|done|].
  { intros Hnil. rewrite Hnil in Hlr. by destruct calls. }
  set (l := items (Rpc.calling env) (Rpc.k r) id ps calls) in *.
  assert (length l = length calls) as Hll by (unfold l; by rewrite <- (length_fmap msg), items_msg).
  rewrite Hresp, <- (items_response (Rpc.calling env) (Rpc.k r) ps id calls Hlps) in Hsent. fold l in Hsent.
  destruct (read_all_spec r n (id + zlen calls) _ l w2 [] Hc2 Hn) as
    (w3 & H3 & Hc3 & Ha3 & Hd3 & Hh3 & Hev3 & Hwo3 & Hq3 & Ht3 & Hnt3).
  - destruct Ha as (a & Ha & Hq). exists a. by rewrite Has2.
  - cbn [length]. lia.
  - apply items_uids.
  - unfold l. by rewrite items_msg.
  - intros y Hy. destruct (Hout y Hy) as [Ho Hty]. split; [done|]. split; [done|].
    rewrite <- (items_response (Rpc.calling env) (Rpc.k r) ps id calls Hlps) in Hlens.
    apply list_elem_of_lookup in Hy as [i Hi]. apply (Forall_lookup_1 _ _ i (response y) Hlens).
    fold l. by rewrite list_lookup_fmap, Hi.
  - assert (msg <$> l = ps) as Hmsg by by apply items_msg. rewrite Hmsg in Ha3, Hh3. cbn [app] in Ha3.
    destruct (callback_passes_spec (Rpc.e r) l w3) as
      (w4 & H4 & Ha4 & Hev4 & Hh4 & Hob4 & Hwo4 & Hq4 & Ht4 & Hnt4); rewrite ?Hmsg; try done.
    rewrite Hmsg in Hh4. unfold l in Hev4. rewrite items_dispatch in Hev4 by done.
    exists sp', w4, (s3, (nf', st')), ps. split.
    { unfold flight. rewrite H1. cbn [mbind outcome_bind]. rewrite H2. cbn [mbind outcome_bind].
      rewrite Hwire, Hr1. cbn [mbind outcome_bind]. rewrite Hr2. cbn [mbind outcome_bind].
      rewrite Hr3. cbn [mbind outcome_bind]. rewrite Hsent, drop_app_length, length_fmap, H3.
      cbn [mbind outcome_bind]. by rewrite H4. }
    assert (CommunicatorEpoll.connected w4 (Rpc.k r) (Rpc.e r) n (id + zlen calls)
      (bs ++ Wire.stream id (ServantProxy.payload <$> calls))) as Hc4.
    { destruct Hc3 as (y & Hy & Hrest). exists y. by rewrite Hob4. }
    split; [split; [|done]|].
    { left. exists p, q. split; try apply Hs2.
      - rewrite Ht4, Ht3. apply Hs2.
      - unfold CommunicatorEpoll.queued. rewrite Hq4, Hq3. apply Hs2.
      - destruct Hc4 as (y & Hy & He & _). by exists y.
      - eapply CommunicatorEpoll.notified_notifiable. by apply Hnt4, Hnt3. }
    split; [done|]. split; [done|]. split; [done|]. split.
    { cbn [fst]. rewrite Hsent. f_equal. by apply items_response. }
    split; [congruence|]. split; [congruence|]. do 3 (split; [done|]). split.
    + intros p' Hp'. rewrite Hh4. by rewrite bool_decide_true.
    + intros p' Hp'. assert (p' ∉ ps) as Hni by (intros Hin%Hlow; lia).
      rewrite Hh4, bool_decide_false, Hh3 by done. by apply Hold.
Qed.

End pipeline.

(** ** Properties *)

(** Calls in flight together do not disturb each other: when a thread makes up to
    ninety-nine asynchronous calls before the network thread looks, all of them are
    sent together, each reaches the servant in a coroutine of its own, each
    response finds its request by its number, and the callback thread runs every
    callback exactly once, in the order of the calls, with the response to that very
    call (or prints the response, if there is no callback); the messages, all
    different and all new, are deleted and no other message is touched, nobody is
    woken up, and both sides are ready for more. *)
Theorem flight_completes {B : Type} `{ByteQueueLaws B} log address alloc_ok
    (alloc_total : ∀ n, alloc_ok n = true) reply self r env sends calls sp w
    (x : EpollServer.t B * (NodeF.t * Scheduler.t HandlerRun.task)) n id bs func
    (Hr : Rpc.ready r self sp w (n + zlen calls) id bs) (Hn : 0 ≤ n)
    (Hkey : ServantProxy.gives_key (Rpc.calling env)) (Hne : calls ≠ []) (Hlen : zlen calls ≤ 99)
    (Hans : answered reply func id calls)
    (Htakes : Forall2 CommunicatorEpoll.takes
                (ServantProxy.async_message (Rpc.calling env) (Rpc.k r) <$> calls) sends)
    (Ha : CommunicatorEpoll.async_waiting w (Rpc.e r) []) (Hsv : Rpc.serving r x func) :
  ∃ sp' w' x' ps, flight log address alloc_ok self r env sends calls sp (w, x) = Ok (sp', (w', x')) ∧
    Rpc.ready r self sp' w' n (id + zlen calls) (bs ++ Wire.stream id (ServantProxy.payload <$> calls)) ∧
    CommunicatorEpoll.async_waiting w' (Rpc.e r) [] ∧ Rpc.serving r x' func ∧ Rpc.keeps r x x' ∧
    Rpc.sent_to (Rpc.fd r) x'.1 = Rpc.sent_to (Rpc.fd r) x.1 ++ Rpc.responses reply id calls.*1 ∧
    CommunicatorEpoll.events w' = CommunicatorEpoll.events w ++ finished reply id ps calls ∧
    CommunicatorEpoll.woken w' = CommunicatorEpoll.woken w ∧
    length ps = length calls ∧ NoDup ps ∧ (∀ p, p ∈ ps → (CommunicatorEpoll.next w ≤ p)%nat) ∧
    (∀ p, p ∈ ps → CommunicatorEpoll.heap w' !! p = None) ∧
    ∀ p, (p < CommunicatorEpoll.next w)%nat → CommunicatorEpoll.heap w' !! p = CommunicatorEpoll.heap w !! p.
Proof. by apply flight_spec. Qed.

(** ** Witness: the Hello server *)

Definition hello_calls : list ServantProxy.call := [(Rpc.hello_call, true); (Rpc.hello_call, false); (Rpc.hello_call, true)].

Lemma flight_completes_witness :
  ∃ w st sp' w' x' p q,
    flight Assert ServantProxy.here Scheduler.granted 0 Rpc.hello_route Rpc.hello_answers
      (replicate 3 (5, Transceiver.Room 60)) hello_calls (ServantProxy.proxy 0)
      (w, (ServantHandle.echo_server, (NodeF.init, st))) = Ok (sp', (w', x')) ∧
    CommunicatorEpoll.events w' =
      [AsyncProcThread.Called p (Str.str "1:test:hi"); AsyncProcThread.Printed (Str.str "2:test:hi");
       AsyncProcThread.Called q (Str.str "3:test:hi")] ∧ p ≠ q.
Proof.
  destruct (LoopQueue.new_spec (T := nat) 1000) as (Q & _ & HQ); [lia|].
  destruct (HandlerRun.new_scheduler_waiting Scheduler.granted (λ _, eq_refl)) as (st & _ & Hw).
  destruct (flight_completes Assert ServantProxy.here Scheduler.granted (λ _, eq_refl) (λ b, b) 0 Rpc.hello_route
    Rpc.hello_answers (replicate 3 (5, Transceiver.Room 60)) hello_calls (ServantProxy.proxy 0)
    (ServantProxy.two_threads Q Request.fresh) (ServantHandle.echo_server, (NodeF.init, st)) 5 0 [] Rpc.hello)
    as (sp' & w' & x' & ps & H1 & _ & _ & _ & _ & _ & H2 & _ & H3 & H4 & _).
  - apply Rpc.hello_ready; [exact HQ|cbn; lia].
  - lia.
  - split; [by exists 1|reflexivity].
  - discriminate.
  - cbn. lia.
  - assert (∀ i, Rpc.hello (Wire.request_payload i (Rpc.payload Rpc.hello_call)) =
        ObjectProxy.response_to i (Rpc.payload Rpc.hello_call) ∧
      zlen (ObjectProxy.response_to i (Rpc.payload Rpc.hello_call)) ≤ 2 ^ 61) as Hh.
    { intros i. destruct (Rpc.hello_fine i) as (_ & _ & _ & Hf & Hl). exact (conj Hf Hl). }
    repeat (split; [cbn; lia|]; split; [apply Hh|]; split; [apply Hh|]). exact I.
  - repeat (constructor; [split; [discriminate|]; exists 60%nat; split; [reflexivity|]; vm_compute; discriminate|]).
    constructor.
  - apply (CommunicatorEpoll.started_async Request.fresh).
  - apply Rpc.echo_server_serving. exact Hw.
  - destruct ps as [|p [|p' [|q [|]]]]; try discriminate H3.
    eexists _, st, sp', w', x', p, q. split; [exact H1|]. split; [rewrite H2; reflexivity|].
    intros ->. apply NoDup_cons in H4 as [H4 _]. apply H4. right. left.
Defined.

End Pipeline.
