(* ===== verification/AsyncClient.v ===== *)
(** * AsyncClient: asynchronous calls of a client, in any order

    A thread makes asynchronous calls, the network thread sends the requests and
    reads responses, and the callback thread runs callbacks: here these steps
    follow each other in any order, and the responses come in any order.  [net] is
    the abstract client, which refers to a call by its number. *)

From Stdlib Require Import Strings.String.
From S2P Require Import Prelude LoopQueue Wire Message AsyncProcThread Transceiver ObjectProxy Epoller.
From S2P Require Import CommunicatorEpoll ServantProxy Servants Rpc.

Module AsyncClient.

(** ** The steps *)

(** The response to call [i] has the body [body]. *)
Inductive event :=
| Calls (env : ServantProxy.answers) (c : ServantProxy.call)
| Sends (events : Z) (sends : list (Z * Transceiver.send_result))
| Arrives (i : nat) (body : bytes)
| Runs.

Abbreviation client := (ServantProxy.t * CommunicatorEpoll.world)%type.

Section client.
Context (log : outcome unit) (address : nat → CommunicatorEpoll.fd_pointer → Z).

(** Thread [self] calls over object [k] of network thread [e] and uses entry [seq]
    of [notify_]; its calls get the ids after [id]. *)
Context (self k e seq : nat) (id : Z).

Definition id_of (i : nat) : Z := id + 1 + Z.of_nat i.
Definition response (a : nat * bytes) : bytes := ObjectProxy.response_to (id_of a.1) a.2.

(** The network thread reads [b]. *)
Definition receive (b : bytes) (x : client) : outcome client :=
  let '(sp, w) := x in
  w ← CommunicatorEpoll.handle log address e (CommunicatorEpoll.TransAt k) Epoller.EPOLLIN
        (CommunicatorEpoll.mk_answers [] [Transceiver.Rdv b] (Transceiver.Room 0) []) w;
  Ok (sp, w).

Definition step (ev : event) (x : client) : outcome client :=
  let '(sp, w) := x in
  match ev with
  | Calls env c => ServantProxy.tars_invoke_async address self env c.1.1 c.1.2 c.2 sp w
  | Sends events sends =>
      w ← CommunicatorEpoll.handle log address e (CommunicatorEpoll.NotifyAt seq) events
            (CommunicatorEpoll.mk_answers sends [] (Transceiver.Room 0) []) w;
      Ok (sp, w)
  | Arrives i body => receive (response (i, body)) x
  | Runs => w ← CommunicatorEpoll.async_pass e 0 w; Ok (sp, w)
  end.

Fixpoint run (evs : list event) (x : client) : outcome client :=
  match evs with [] => Ok x | ev :: evs => x ← step ev x; run evs x end.

(** ** The specification *)

(** The calls made so far, the number of those that were sent, those whose response
    is awaited, the responses that wait for the callback thread, and those that it
    has dealt with. *)
Record net := mk {
  made : list (ServantProxy.answers * ServantProxy.call);
  sent : nat;
  awaited : gset nat;
  arrived : list (nat * bytes);
  ran : list (nat * bytes)
}.

Definition empty : net := mk [] 0 ∅ [] [].

Definition spec_step (ev : event) (st : net) : net :=
  match ev with
  | Calls env c => mk (made st ++ [(env, c)]) (sent st) (awaited st) (arrived st) (ran st)
  | Sends _ _ =>
      let n := length (made st) in
      mk (made st) n (awaited st ∪ list_to_set (List.seq (sent st) (n - sent st))) (arrived st) (ran st)
  | Arrives i body => mk (made st) (sent st) (awaited st ∖ {[i]}) (arrived st ++ [(i, body)]) (ran st)
  | Runs => mk (made st) (sent st) (awaited st) (tail (arrived st)) (ran st ++ option_list (head (arrived st)))
  end.

Fixpoint spec_run (evs : list event) (st : net) : net :=
  match evs with [] => st | ev :: evs => spec_run evs (spec_step ev st) end.

Definition message (ec : ServantProxy.answers * ServantProxy.call) : Request.ReqMessage :=
  ServantProxy.async_message ec.1 k ec.2.

(** The conditions of a step: room in the queues for a thousand calls and a
    hundred responses, [cap] ids, requests that fit into the socket, and a response
    to a call that waits for one. *)
Definition allowed (cap : Z) (ev : event) (st : net) : Prop :=
  match ev with
  | Calls env c => ServantProxy.gives_key env ∧ zlen (ServantProxy.payload c) < 2 ^ 30 ∧
      (length (made st) < sent st + 1000)%nat ∧ zlen (made st) < cap
  | Sends _ sends => made st ≠ [] ∧
      Forall2 CommunicatorEpoll.takes (message <$> drop (sent st) (made st)) sends
  | Arrives i body => i ∈ awaited st ∧ zlen (arrived st) < 100 ∧ zlen (response (i, body)) ≤ 2 ^ 61
  | Runs => arrived st ≠ []
  end.

Fixpoint all_allowed (cap : Z) (evs : list event) (st : net) : Prop :=
  match evs with
  | [] => True
  | ev :: evs => allowed cap ev st ∧ all_allowed cap evs (spec_step ev st)
  end.

(** What the specification keeps to: a call that was sent is at one place. *)
Record wf (st : net) : Prop := {
  wf_sent : (sent st ≤ length (made st))%nat;
  wf_once : elements (awaited st) ++ (arrived st).*1 ++ (ran st).*1 ≡ₚ List.seq 0 (sent st);
  wf_size : Forall (λ ec, zlen (ServantProxy.payload ec.2) < 2 ^ 30) (made st)
}.

Lemma wf_nodup st : wf st → NoDup (elements (awaited st) ++ (arrived st).*1 ++ (ran st).*1).
Proof. intros Hwf. rewrite (wf_once _ Hwf). apply NoDup_seq. Qed.

Lemma wf_arrived st : wf st → NoDup (arrived st).*1.
Proof. intros Hwf%wf_nodup. by apply NoDup_app in Hwf as (_ & _ & (Hnd & _)%NoDup_app). Qed.

Lemma wf_early st i : wf st → i ∈ (arrived st).*1 → (i < sent st)%nat.
Proof.
  intros Hwf Hi. assert (i ∈ List.seq 0 (sent st)) as Hin; [|apply elem_of_seq in Hin; lia].
  rewrite <- (wf_once _ Hwf), !elem_of_app. by right; left.
Qed.

Lemma wf_awaited st i : wf st → i ∈ awaited st → (i < sent st)%nat ∧ i ∉ (arrived st).*1.
Proof.
  intros Hwf Hi. split.
  - assert (i ∈ List.seq 0 (sent st)) as Hin; [|apply elem_of_seq in Hin; lia].
    rewrite <- (wf_once _ Hwf), elem_of_app, elem_of_elements. by left.
  - apply wf_nodup, NoDup_app in Hwf as (_ & Hno & _). intros Hin. apply (Hno i); [by apply elem_of_elements|].
    apply elem_of_app. by left.
Qed.

Lemma wf_empty : wf empty.
Proof. split; [done|done|apply List.Forall_nil]. Qed.

Lemma wf_step cap ev st : wf st → allowed cap ev st → wf (spec_step ev st).
Proof.
  intros Hwf. pose proof Hwf as [Hs Ho Hsz]. destruct ev as [env c|events sends|i body|]; cbn [allowed spec_step].
  - intros (_ & Hc & _). split; cbn [made sent awaited arrived ran]; [|done|].
    + rewrite length_app. lia.
    + apply Forall_app. by split; [|constructor].
  - intros _. split; cbn [made sent awaited arrived ran]; [done| |done].
    rewrite elements_disj_union, elements_list_to_set; [|apply NoDup_seq|].
    + replace (length (made st)) with (sent st + (length (made st) - sent st))%nat at 2 by lia.
      rewrite seq_app, <- Ho, Nat.add_0_l, <- !app_assoc. apply Permutation_app_head.
      rewrite (Permutation_app_comm (List.seq _ _)). by rewrite <- app_assoc.
    + intros i Hi Hin. apply elem_of_list_to_set, elem_of_seq in Hin. destruct (wf_awaited st i Hwf Hi). lia.
  - intros (Hi & _). split; cbn [made sent awaited arrived ran]; [done| |done].
    rewrite <- Ho. rewrite (union_difference_singleton_L i (awaited st) Hi) at 2.
    rewrite elements_union_singleton by (apply not_elem_of_difference; right; by apply elem_of_singleton).
    rewrite fmap_app, <- app_assoc. cbn [fmap list_fmap app fst].
    rewrite <- (Permutation_middle (arrived st).*1 (ran st).*1 i). symmetry. apply Permutation_middle.
  - intros _. destruct st as [m n aw [|a l] r]; cbn [made sent awaited arrived ran fmap list_fmap tail] in *.
    + split; cbn [made sent awaited arrived ran head option_list]; rewrite ?app_nil_r; done.
    + split; cbn [made sent awaited arrived ran head option_list]; [done| |done].
      rewrite <- Ho, fmap_app. apply Permutation_app_head. rewrite app_assoc. symmetry.
      apply Permutation_cons_append.
Qed.

(** ** The client refines it *)

(** [cap] ids are left at the start, when the bytes [bs] have been written and the
    callback thread has dealt with [evs0]. *)
Context (cap : Z) (bs : bytes) (evs0 : list AsyncProcThread.event).
Implicit Types (sp : ServantProxy.t) (w : CommunicatorEpoll.world) (st : net).

Definition done_message (ec : ServantProxy.answers * ServantProxy.call) (a : nat * bytes) : Request.ReqMessage :=
  ObjectProxy.completed (response a) (CommunicatorEpoll.request_id (message ec) (id_of a.1)).

(** What the callback thread does for the call [ec] whose message is at [p]. *)
Definition finish (p : nat) (ec : ServantProxy.answers * ServantProxy.call) (b : bytes) : AsyncProcThread.event :=
  if ec.2.2 then AsyncProcThread.Called p b else AsyncProcThread.Printed b.

(** The calls of [st] have their messages at [addr]. *)
Definition at_call (addr : list nat) st (i p : nat) ec : Prop := addr !! i = Some p ∧ made st !! i = Some ec.

Definition ends (addr : list nat) st (ev : AsyncProcThread.event) (a : nat * bytes) : Prop :=
  ∃ p ec, at_call addr st a.1 p ec ∧ ev = finish p ec (response a).

Record models_at (addr : list nat) (x : client) st : Prop := {
  m_wf : wf st;
  m_addr : length addr = length (made st);
  m_nodup : NoDup addr;
  m_cap : zlen (made st) ≤ cap;
  m_next : Forall (λ p, (p < CommunicatorEpoll.next x.2)%nat) addr;
  m_caller : if decide (made st = []) then ServantProxy.usable x.1 x.2 self k e seq
             else ∃ p q, ServantProxy.caller x.1 x.2 p q k e seq (drop (sent st) addr) ∧
                         CommunicatorEpoll.notified x.2 e seq q;
  m_connected : CommunicatorEpoll.connected x.2 k e (cap - Z.of_nat (sent st)) (id + Z.of_nat (sent st))
                  (bs ++ Wire.stream id ((λ ec, ServantProxy.payload ec.2) <$> take (sent st) (made st)));
  m_queued i p ec : at_call addr st i p ec → (sent st ≤ i)%nat →
    CommunicatorEpoll.heap x.2 !! p = Some (message ec);
  m_awaited i p ec : at_call addr st i p ec → i ∈ awaited st →
    CommunicatorEpoll.outstanding x.2 k (id_of i) p (CommunicatorEpoll.request_id (message ec) (id_of i));
  m_arrived : ∃ ps, CommunicatorEpoll.async_waiting x.2 e ps ∧
    Forall2 (λ p a, ∃ ec, at_call addr st a.1 p ec ∧
               CommunicatorEpoll.heap x.2 !! p = Some (done_message ec a)) ps (arrived st);
  m_ran : ∃ evs, CommunicatorEpoll.events x.2 = evs0 ++ evs ∧ Forall2 (ends addr st) evs (ran st)
}.

Definition models (x : client) st : Prop := ∃ addr, models_at addr x st.

Lemma dispatch_done p ec a : AsyncProcThread.dispatch p (done_message ec a) = finish p ec (response a).
Proof. done. Qed.

Lemma outstanding_frame w w' u p m :
  CommunicatorEpoll.objects w' = CommunicatorEpoll.objects w →
  CommunicatorEpoll.heap w' !! p = CommunicatorEpoll.heap w !! p →
  CommunicatorEpoll.outstanding w k u p m → CommunicatorEpoll.outstanding w' k u p m.
Proof.
  intros Ho Hh (x & Hx & Hi & Hm & Ht). exists x. split; [by rewrite Ho|]. split; [done|]. split; [|done].
  cbn in Hm |- *. by rewrite Hh.
Qed.

Lemma connected_frame w w' n u b :
  CommunicatorEpoll.objects w' = CommunicatorEpoll.objects w →
  CommunicatorEpoll.connected w k e n u b → CommunicatorEpoll.connected w' k e n u b.
Proof. intros Ho (x & Hx & Hr). exists x. by rewrite Ho. Qed.

Lemma async_frame w w' ps :
  (∀ e, CommunicatorEpoll.async_state w' e = CommunicatorEpoll.async_state w e) →
  CommunicatorEpoll.async_waiting w e ps → CommunicatorEpoll.async_waiting w' e ps.
Proof. intros Ha (a & Hs & Hq). exists a. by rewrite Ha. Qed.

(** A caller after work of the other threads. *)
Lemma caller_rebuild sp w w' p q ps n u b :
  ServantProxy.caller sp w p q k e seq ps → CommunicatorEpoll.tls w' = CommunicatorEpoll.tls w →
  CommunicatorEpoll.queues w' = CommunicatorEpoll.queues w →
  CommunicatorEpoll.connected w' k e n u b → CommunicatorEpoll.notified w' e seq q →
  ServantProxy.caller sp w' p q k e seq ps.
Proof.
  intros Hc Ht Hq (x & Hx & He & _) Hn. split; try apply Hc.
  - rewrite Ht. apply Hc.
  - unfold CommunicatorEpoll.queued. rewrite Hq. apply Hc.
  - by exists x.
  - by eapply CommunicatorEpoll.notified_notifiable.
Qed.

(** *** The steps *)

(** A call, be it the first. *)
Lemma call_made env c sp w st addr :
  models_at addr (sp, w) st → ServantProxy.gives_key env → (length (made st) < sent st + 1000)%nat →
  ∃ p q sp' w', ServantProxy.tars_invoke_async address self env c.1.1 c.1.2 c.2 sp w = Ok (sp', w') ∧
    ServantProxy.caller sp' w' p q k e seq (drop (sent st) (addr ++ [CommunicatorEpoll.next w])) ∧
    CommunicatorEpoll.notified w' e seq q ∧ ServantProxy.same_but_calls w w' ∧
    CommunicatorEpoll.heap w' = <[CommunicatorEpoll.next w := message (env, c)]> (CommunicatorEpoll.heap w) ∧
    (CommunicatorEpoll.next w < CommunicatorEpoll.next w')%nat.
Proof.
  intros Hm Hkey Hroom. pose proof (m_addr _ _ _ Hm) as Hla.
  pose proof (wf_sent _ (m_wf _ _ _ Hm)) as Hsent. rewrite drop_app_le by lia.
  pose proof (m_caller _ _ _ Hm) as Hc. cbn [fst snd] in Hc. destruct (decide (made st = [])) as [Hnil|Hne].
  - rewrite Hnil in Hla. destruct addr; [|done]. rewrite drop_nil.
    apply (ServantProxy.call_usable address self env c sp w k e seq Hc Hkey).
  - destruct Hc as (p & q & Hc & Hn).
    destruct (ServantProxy.call_one address self env c sp w p q k e seq _ Hc)
      as (w' & H1 & Hc' & Hn' & Hsame & Hh & Hnx); [rewrite length_drop; lia|].
    exists p, q, sp, w'. do 5 (split; [done|]). rewrite Hnx. lia.
Qed.

Lemma client_calls_spec env c x st :
  models x st → allowed cap (Calls env c) st →
  ∃ x', step (Calls env c) x = Ok x' ∧ models x' (spec_step (Calls env c) st).
Proof.
  destruct x as [sp w]. intros (addr & Hm) Hal. pose proof Hal as (Hkey & Hsz & Hroom & Hcap).
  destruct (call_made env c sp w st addr Hm Hkey Hroom)
    as (p & q & sp' & w' & H1 & Hc & Hn & (Ho & Hev & _ & Has) & Hh & Hnx).
  destruct Hm as [Hwf Hla Hnd Hcp Hlt _ Hcon Hq Haw Harr Hran]. cbn [fst snd] in *.
  set (p0 := CommunicatorEpoll.next w) in *. set (st' := spec_step (Calls env c) st).
  assert (∀ i p, addr !! i = Some p → p ≠ p0) as Hold.
  { intros i r Hr ->. pose proof (Forall_lookup_1 _ _ _ _ Hlt Hr) as Hp. cbv beta in Hp. lia. }
  assert (∀ i p ec, at_call addr st i p ec →
    CommunicatorEpoll.heap w' !! p = CommunicatorEpoll.heap w !! p) as Hheap.
  { intros i r ec [Hr _]. rewrite Hh, lookup_insert_ne; [done|]. intros <-. by apply (Hold i p0). }
  assert (∀ i p ec, at_call addr st i p ec → at_call (addr ++ [p0]) st' i p ec) as Hmore.
  { intros i r ec [Hr He]. split; by apply lookup_app_l_Some. }
  assert (∀ i p ec, at_call (addr ++ [p0]) st' i p ec → (i < length (made st))%nat → at_call addr st i p ec) as Hless.
  { intros i r ec [Hr He] Hi. change (made st') with (made st ++ [(env, c)]) in He. rewrite lookup_app_l in Hr by lia. by rewrite lookup_app_l in He. }
  exists (sp', w'). split; [exact H1|]. exists (addr ++ [p0]). split; cbn [fst snd].
  - by apply (wf_step cap).
  - change (made st') with (made st ++ [(env, c)]). rewrite !length_app. cbn. lia.
  - apply NoDup_app. split; [done|]. split; [|apply NoDup_singleton].
    intros r (i & Hr)%list_elem_of_lookup ->%list_elem_of_singleton. by apply (Hold i p0).
  - change (made st') with (made st ++ [(env, c)]). rewrite length_app. cbn. lia.
  - apply Forall_app. split; [|by repeat constructor]. eapply Forall_impl; [exact Hlt|]. intros r Hr. cbv beta in *. lia.
  - change (made st') with (made st ++ [(env, c)]). rewrite decide_False by (by destruct (made st)). by exists p, q.
  - change (made st') with (made st ++ [(env, c)]). change (sent st') with (sent st).
    rewrite take_app_le by apply Hwf. by apply (connected_frame w).
  - intros i r ec Hr Hi. change (sent st ≤ i)%nat in Hi. destruct (decide (i < length (made st))%nat) as [Hi'|Hi'].
    + pose proof (Hless i r ec Hr Hi') as Hr'. rewrite (Hheap _ _ _ Hr'). by apply (Hq i).
    + destruct Hr as [Hr He]. change (made st') with (made st ++ [(env, c)]) in He. rewrite lookup_app_r in Hr by lia. rewrite lookup_app_r in He by lia.
      apply list_lookup_singleton_Some in Hr as [_ <-]. apply list_lookup_singleton_Some in He as [_ <-]. rewrite Hh. apply lookup_insert_eq.
  - intros i r ec Hr Hi. change (i ∈ awaited st) in Hi. pose proof (wf_awaited _ i Hwf Hi) as [Hlt' _].
    pose proof (wf_sent _ Hwf). apply Hless in Hr; [|lia]. apply (outstanding_frame w); [done|by apply (Hheap i r ec)|].
    by apply Haw.
  - destruct Harr as (ps & Hps & Hall). exists ps. split; [by apply (async_frame w)|].
    eapply Forall2_impl; [exact Hall|]. intros r a (ec & Hr & Hd). exists ec. split; [by apply Hmore|].
    by rewrite (Hheap _ _ _ Hr).
  - destruct Hran as (evs & Hevs & Hall). exists evs. split; [by rewrite Hev|].
    eapply Forall2_impl; [exact Hall|]. intros ev a (r & ec & Hr & Hd). exists r, ec. split; [by apply Hmore|done].
Qed.

(** A call that was sent has its message elsewhere than those that were not. *)
Lemma not_dropped (addr : list nat) (n i p : nat) :
  NoDup addr → addr !! i = Some p → (i < n)%nat → p ∉ drop n addr.
Proof.
  intros Hnd Hi Hlt (j & Hj)%list_elem_of_lookup. rewrite lookup_drop in Hj.
  pose proof (NoDup_lookup addr i (n + j)%nat p Hnd Hi Hj). lia.
Qed.

Lemma same_call (addr : list nat) (i j p : nat) :
  NoDup addr → addr !! i = Some p → addr !! j = Some p → i = j.
Proof. intros Hnd Hi Hj. by apply (NoDup_lookup addr i j p). Qed.

Lemma Forall2_impl_in {X Y} (P Q : X → Y → Prop) l1 l2 :
  Forall2 P l1 l2 → (∀ x y, y ∈ l2 → P x y → Q x y) → Forall2 Q l1 l2.
Proof.
  induction 1 as [|x y l1 l2 Hxy Hl IH]; intros Hpq; constructor; [by apply Hpq; [left|]|].
  apply IH. intros x' y' Hy'. apply Hpq. by right.
Qed.

Lemma waiting_callable addr w st :
  (∀ i p ec, at_call addr st i p ec → (sent st ≤ i)%nat → CommunicatorEpoll.heap w !! p = Some (message ec)) →
  wf st → length addr = length (made st) →
  Forall2 (CommunicatorEpoll.callable w k) (drop (sent st) addr) (message <$> drop (sent st) (made st)).
Proof.
  intros Hq Hwf Hla. apply Forall2_same_length_lookup. split; [by rewrite length_fmap, !length_drop, Hla|].
  intros i r m Hr Hm. rewrite lookup_drop in Hr. rewrite list_lookup_fmap, lookup_drop in Hm.
  apply fmap_Some in Hm as (ec & Hec & ->). split; [by apply (Hq (sent st + i)%nat); [|lia]|].
  split; [done|]. split; [by right|]. by apply (Forall_lookup_1 _ _ _ _ (wf_size _ Hwf) Hec).
Qed.

Lemma sends_spec events sends x st :
  models x st → allowed cap (Sends events sends) st →
  ∃ x', step (Sends events sends) x = Ok x' ∧ models x' (spec_step (Sends events sends) st).
Proof.
  destruct x as [sp w]. intros (addr & Hm) Hal. pose proof Hal as (Hne & Htakes).
  destruct Hm as [Hwf Hla Hnd Hcp Hlt Hc Hcon Hq Haw Harr Hran]. cbn [fst snd] in *.
  rewrite decide_False in Hc by done. destruct Hc as (p & q & Hc & Hn).
  pose proof (wf_sent _ Hwf) as Hsent. pose proof (waiting_callable addr w st Hq Hwf Hla) as Hcall.
  set (bs1 := bs ++ _) in Hcon.
  assert (zlen (drop (sent st) addr) = zlen (made st) - Z.of_nat (sent st)) as Hzl by (rewrite length_drop; lia).
  destruct (ServantProxy.messages_sent log address sp w p q k e seq (cap - zlen (made st)) (id + Z.of_nat (sent st)) bs1
    (drop (sent st) addr) (message <$> drop (sent st) (made st)) events (CommunicatorEpoll.mk_answers sends [] (Transceiver.Room 0) []) Hc Hn)
    as (w' & H1 & Hc' & Hn' & Hcon' & (Hall & Hold & Hh) & He & Hev & _ & Hnx); [|exact Hcall|exact Htakes| |lia|].
  { rewrite <- (take_drop (sent st) addr) in Hnd. by apply NoDup_app in Hnd as (_ & _ & ?). }
  { rewrite Hzl. replace (cap - zlen (made st) + _) with (cap - Z.of_nat (sent st)) by lia. exact Hcon. }
  set (st' := spec_step (Sends events sends) st).
  assert (∀ i p ec, at_call addr st i p ec → (i < sent st)%nat →
    CommunicatorEpoll.heap w' !! p = CommunicatorEpoll.heap w !! p) as Hheap.
  { intros i r ec [Hr _] Hi. apply Hh. by apply (not_dropped addr (sent st) i). }
  exists (sp, w'). cbn [step]. rewrite H1. split; [done|]. exists addr. split; cbn [fst snd].
  - by apply (wf_step cap).
  - exact Hla.
  - exact Hnd.
  - exact Hcp.
  - by rewrite Hnx.
  - change (made st') with (made st). rewrite decide_False by done. change (sent st') with (length (made st)).
    exists p, q. rewrite drop_ge by lia. done.
  - change (made st') with (made st). change (sent st') with (length (made st)). rewrite take_ge by lia.
    rewrite <- (take_drop (sent st) (made st)) at 3. rewrite fmap_app, Wire.stream_app, app_assoc.
    rewrite length_fmap, length_take, Nat.min_l by done. rewrite <- list_fmap_compose, Hzl in Hcon'.
    by replace (id + Z.of_nat (sent st) + _) with (id + zlen (made st)) in Hcon' by lia.
  - intros i r ec [_ Hi%lookup_lt_Some] Hge. change (length (made st) ≤ i)%nat in Hge. change (made st') with (made st) in Hi. lia.
  - intros i r ec [Hr Hec] Hi. apply elem_of_union in Hi as [Hi|Hi].
    + destruct (wf_awaited _ i Hwf Hi) as [Hlt' _]. apply Hold; [unfold id_of; lia|by apply (not_dropped addr (sent st) i)|].
      by apply Haw.
    + apply elem_of_list_to_set, elem_of_seq in Hi. specialize (Hall (i - sent st)%nat r (message ec)).
      replace (id + Z.of_nat (sent st) + 1 + Z.of_nat (i - sent st)) with (id_of i) in Hall by (unfold id_of; lia).
      apply Hall; rewrite ?list_lookup_fmap, lookup_drop; replace (sent st + (i - sent st))%nat with i by lia; [done|].
      change (made st !! i = Some ec) in Hec. by rewrite Hec.
  - destruct Harr as (ps & Hps & Har). exists ps. split.
    { apply (async_frame w); [|done]. intros e'. unfold CommunicatorEpoll.async_state. by rewrite He. }
    eapply Forall2_impl_in; [exact Har|]. intros r a Ha (ec & Hr & Hd). exists ec. split; [exact Hr|].
    rewrite (Hheap _ _ _ Hr); [done|]. apply (wf_early _ _ Hwf). by apply list_elem_of_fmap_2.
  - by rewrite Hev.
Qed.

(** A call whose response is awaited has been made. *)
Lemma awaited_call addr st i :
  wf st → length addr = length (made st) → i ∈ awaited st → ∃ p ec, at_call addr st i p ec.
Proof.
  intros Hwf Hla Hi. destruct (wf_awaited _ i Hwf Hi) as [Hlt _]. pose proof (wf_sent _ Hwf).
  destruct (lookup_lt_is_Some_2 addr i) as [p Hp]; [lia|].
  destruct (lookup_lt_is_Some_2 (made st) i) as [ec Hec]; [lia|]. by exists p, ec.
Qed.

Lemma arrives_spec i body x st :
  models x st → allowed cap (Arrives i body) st →
  ∃ x', step (Arrives i body) x = Ok x' ∧ models x' (spec_step (Arrives i body) st).
Proof.
  destruct x as [sp w]. intros (addr & Hm) Hal. pose proof Hal as (Hi & Hroom & Hlen).
  destruct Hm as [Hwf Hla Hnd Hcp Hlt Hc Hcon Hq Haw (ps & Hps & Har) Hran]. cbn [fst snd] in *.
  destruct (awaited_call addr st i Hwf Hla Hi) as (p & ec & Hat).
  destruct (wf_awaited _ i Hwf Hi) as [Hlti Hni]. pose proof (wf_sent _ Hwf) as Hsent.
  pose proof (Forall2_length _ _ _ Har) as Hlps.
  rewrite decide_False in Hc by (intros Hnil; rewrite Hnil in Hsent; cbn in Hsent; lia).
  destruct Hc as (r & q & Hc & Hn).
  destruct (CommunicatorEpoll.handle_response log address k e _ _ _ (id_of i) p
    (CommunicatorEpoll.request_id (message ec) (id_of i)) body
    (CommunicatorEpoll.mk_answers [] [Transceiver.Rdv (response (i, body))] (Transceiver.Room 0) []) w Hcon)
    as (w' & H1 & Hcon' & Hh & Hev & Hqs & Ht & Hnx & Hother & _ & Ha' & Hn'); [lia|by apply Haw| |exact Hlen|done|].
  { intros _. exists ps. split; [done|]. lia. }
  specialize (Ha' ps Hps). assert (∀ j p' ec', at_call addr st j p' ec' → j ≠ i → p' ≠ p) as Hdiff.
  { intros j p' ec' [Hj _] Hne ->. apply Hne. destruct Hat as [Hp _]. by apply (same_call addr _ _ p). }
  exists (sp, w'). cbn [step receive]. rewrite H1. split; [done|]. exists addr. split; cbn [fst snd]; try done.
  - by apply (wf_step cap).
  - by rewrite Hnx.
  - change (made (spec_step _ st)) with (made st). change (sent (spec_step _ st)) with (sent st).
    rewrite decide_False by (intros Hnil; rewrite Hnil in Hsent; cbn in Hsent; lia).
    exists r, q. split; [|by apply Hn']. eapply caller_rebuild; [exact Hc|done|done|exact Hcon'|by apply Hn'].
  - intros j p' ec' Hj Hge. change (sent st ≤ j)%nat in Hge. rewrite Hh, lookup_insert_ne; [by apply (Hq j)|].
    intros ->. apply (Hdiff j p' ec' Hj); [lia|done].
  - intros j p' ec' Hj Hin. cbn [awaited spec_step] in Hin. apply elem_of_difference in Hin as [Hin Hne].
    apply not_elem_of_singleton in Hne. apply Hother; [unfold id_of; lia|by apply (Hdiff j p' ec')|by apply Haw].
  - exists (ps ++ [p]). split; [apply Ha'; lia|]. cbn [arrived spec_step]. apply Forall2_app.
    + eapply Forall2_impl_in; [exact Har|]. intros p' a Ha (ec' & Hj & Hd). exists ec'. split; [done|].
      rewrite Hh, lookup_insert_ne; [done|]. intros ->. apply (Hdiff a.1 p' ec' Hj); [|done].
      intros Heq. apply Hni. rewrite <- Heq. by apply list_elem_of_fmap_2.
    + constructor; [|constructor]. exists ec. split; [done|]. rewrite Hh. apply lookup_insert_eq.
  - by rewrite Hev.
Qed.

Lemma runs_spec x st :
  models x st → allowed cap Runs st → ∃ x', step Runs x = Ok x' ∧ models x' (spec_step Runs st).
Proof.
  destruct x as [sp w]. intros (addr & Hm) Hal. pose proof Hal as Hne. cbn [allowed] in Hne.
  destruct Hm as [Hwf Hla Hnd Hcp Hlt Hc Hcon Hq Haw (ps & Hps & Har) (evs & Hevs & Hran)]. cbn [fst snd] in *.
  destruct (arrived st) as [|a l] eqn:Harr; [done|]. destruct ps as [|p ps]; [by inv Har|].
  apply Forall2_cons in Har as [(ec & Hat & Hp) Har].
  assert (a.1 ∈ (arrived st).*1 ∧ a.1 ∉ l.*1) as [Hin Hnl].
  { pose proof (wf_arrived _ Hwf) as Hna. rewrite Harr in Hna |- *. apply NoDup_cons in Hna as [? _]. split; [left|done]. }
  pose proof (wf_early _ _ Hwf Hin) as Hearly. pose proof (wf_sent _ Hwf) as Hsent.
  rewrite decide_False in Hc by (intros Hnil; rewrite Hnil in Hsent; cbn in Hsent; lia).
  destruct Hc as (r & q & Hc & Hn).
  destruct (CommunicatorEpoll.async_pass_spec e w p ps (done_message ec a) Hps Hp)
    as (w' & H1 & Ha' & Hh & Hev & Hob & _ & Hqs & Ht & Hnx & Hn').
  assert (∀ j p' ec', at_call addr st j p' ec' → j ≠ a.1 → p' ≠ p) as Hdiff.
  { intros j p' ec' [Hj _] Hnj ->. apply Hnj. destruct Hat as [Hp' _]. by apply (same_call addr _ _ p). }
  assert (∀ j p' ec', at_call addr st j p' ec' → j ≠ a.1 →
    CommunicatorEpoll.heap w' !! p' = CommunicatorEpoll.heap w !! p') as Hheap.
  { intros j p' ec' Hj Hnj. rewrite Hh, lookup_delete_ne; [done|]. intros <-. by apply (Hdiff j p ec' Hj Hnj). }
  pose proof (connected_frame w w' _ _ _ Hob Hcon) as Hcon'.
  exists (sp, w'). cbn [step]. rewrite H1. split; [done|]. exists addr. split; cbn [fst snd]; try done.
  - apply (wf_step cap); [done|]. cbn [allowed]. by rewrite Harr.
  - by rewrite Hnx.
  - change (made (spec_step _ st)) with (made st). change (sent (spec_step _ st)) with (sent st).
    rewrite decide_False by (intros Hnil; rewrite Hnil in Hsent; cbn in Hsent; lia).
    exists r, q. split; [|by apply Hn']. eapply caller_rebuild; [exact Hc|done|done|exact Hcon'|by apply Hn'].
  - intros j p' ec' Hj Hge. change (sent st ≤ j)%nat in Hge. rewrite (Hheap j p' ec' Hj); [by apply (Hq j)|lia].
  - intros j p' ec' Hj Haj. change (j ∈ awaited st) in Haj. apply (outstanding_frame w); [done| |by apply Haw].
    apply (Hheap j p' ec' Hj). intros ->. by apply (wf_awaited _ a.1 Hwf Haj).
  - exists ps. split; [done|]. cbn [arrived spec_step]. rewrite Harr. cbn [tail].
    eapply Forall2_impl_in; [exact Har|]. intros p' b Hb (ec' & Hj & Hd). exists ec'. split; [done|].
    rewrite (Hheap _ _ _ Hj); [done|]. intros Heq. apply Hnl. rewrite <- Heq. by apply list_elem_of_fmap_2.
  - exists (evs ++ [finish p ec (response a)]). split; [by rewrite Hev, Hevs, dispatch_done, <- app_assoc|].
    cbn [ran spec_step]. rewrite Harr. cbn [head option_list]. apply Forall2_app; [done|].
    constructor; [|constructor]. by exists p, ec.
Qed.

Lemma client_step_refines ev x st :
  models x st → allowed cap ev st → ∃ x', step ev x = Ok x' ∧ models x' (spec_step ev st).
Proof.
  destruct ev; [apply client_calls_spec|apply sends_spec|apply arrives_spec|apply runs_spec].
Qed.

Lemma client_run_refines evs : ∀ x st,
  models x st → all_allowed cap evs st → ∃ x', run evs x = Ok x' ∧ models x' (spec_run evs st).
Proof.
  induction evs as [|ev evs IH]; intros x st Hm Ha; [by exists x|]. destruct Ha as [Hev Ha].
  destruct (client_step_refines ev x st Hm Hev) as (x1 & H1 & Hm1). destruct (IH x1 _ Hm1 Ha) as (x' & Hr & Hm').
  exists x'. cbn [run spec_run]. by rewrite H1.
Qed.

(** A client at its start. *)
Lemma client_start_models sp w :
  ServantProxy.usable sp w self k e seq → CommunicatorEpoll.connected w k e cap id bs → 0 ≤ cap →
  CommunicatorEpoll.async_waiting w e [] → CommunicatorEpoll.events w = evs0 → models (sp, w) empty.
Proof.
  intros Hu Hc Hcap Ha Hev. exists []. split; cbn [fst snd empty made sent awaited arrived ran take fmap list_fmap].
  - apply wf_empty.
  - done.
  - apply NoDup_nil_2.
  - done.
  - apply List.Forall_nil.
  - by rewrite decide_True.
  - cbn [Wire.stream]. by rewrite app_nil_r, Z.sub_0_r, Z.add_0_r.
  - by intros i p ec [? _].
  - by intros i p ec [? _].
  - exists []. by split; [|constructor].
  - exists []. rewrite app_nil_r. by split; [|constructor].
Qed.

End client.

(** ** Properties *)

(** C8: a client may call, send, receive and run callbacks in any order, and the
    responses may come in any order, as long as it keeps to the bounds: it calls
    only while fewer than a thousand of its calls are unsent and while it has ids
    left ([cap]), with a payload below 2^30 bytes; when the network thread sends, the
    socket takes each request whole; a response is for a call that was sent and has
    had none, has at most 2^61 bytes, is read whole, and comes only while fewer than
    a hundred wait for the callback thread.  Then what the callback thread does is,
    for every response that it has come to, to run the callback of the call that the
    response is for (or to print it, when there is no callback), with that response,
    in the order of their arrival and once per call; the calls have messages of
    their own, the requests are on the wire in the order of the calls, and when
    nothing is on its way every call has been dealt with.  (Beyond the bounds calls
    and responses are lost: [ServantProxy.full_queue_loses_call],
    [AsyncProcThread.async_thread_refines].) *)
Theorem callbacks_in_any_order log address self k e seq id cap bs sp w evs
    (Hu : ServantProxy.usable sp w self k e seq) (Hc : CommunicatorEpoll.connected w k e cap id bs)
    (Hcap : 0 ≤ cap) (Ha : CommunicatorEpoll.async_waiting w e [])
    (Hall : all_allowed k id cap evs empty) :
  let st := spec_run evs empty in
  ∃ addr sp' w' done, run log address self k e seq id evs (sp, w) = Ok (sp', w') ∧
    NoDup addr ∧ length addr = length (made st) ∧
    CommunicatorEpoll.events w' = CommunicatorEpoll.events w ++ done ∧
    Forall2 (ends id addr st) done (ran st) ∧ NoDup (ran st).*1 ∧
    CommunicatorEpoll.connected w' k e (cap - Z.of_nat (sent st)) (id + Z.of_nat (sent st))
      (bs ++ Wire.stream id ((λ ec, ServantProxy.payload ec.2) <$> take (sent st) (made st))) ∧
    (sent st = length (made st) → awaited st = ∅ → arrived st = [] →
       (ran st).*1 ≡ₚ List.seq 0 (length (made st))).
Proof.
  intros st. pose proof (client_start_models self k e seq id cap bs _ sp w Hu Hc Hcap Ha eq_refl) as Hm.
  destruct (client_run_refines log address self k e seq id cap bs _ evs (sp, w) empty Hm Hall)
    as ([sp' w'] & Hr & addr & [Hwf Hla Hnd _ _ _ Hcon _ _ _ (done & Hev & Hran)]).
  exists addr, sp', w', done. do 5 (split; [assumption|]). split; [|split; [exact Hcon|]].
  - apply wf_nodup in Hwf. by apply NoDup_app in Hwf as (_ & _ & (_ & _ & ?)%NoDup_app).
  - intros Hs Hw Har. pose proof (wf_once _ Hwf) as Ho. fold st in Ho. rewrite Hw, Har, Hs in Ho. exact Ho.
Qed.

(** ** Witness *)

Definition hello : ServantProxy.call := (Rpc.hello_call, true).
Definition calls_hello : event := Calls (Rpc.calling Rpc.hello_answers) hello.

(** Two calls are sent together and a third one later; the second response comes
    first. *)
Definition mixed : list event :=
  [calls_hello; calls_hello; Sends 1 (replicate 2 (5, Transceiver.Room 60)); Arrives 1 ["b"%char];
   calls_hello; Runs; Sends 1 [(5, Transceiver.Room 60)]; Arrives 2 ["c"%char]; Arrives 0 ["a"%char]; Runs; Runs].

Lemma calls_hello_allowed cap (st : net) :
  (length (made st) < sent st + 1000)%nat → zlen (made st) < cap → allowed 0 0 cap calls_hello st.
Proof.
  intros H1 H2. split; [split; [by exists 1|reflexivity]|]. split; [vm_compute; reflexivity|done].
Qed.

Lemma sends_hello_allowed id cap m n aw ar rn :
  let l := drop n m in
  m ≠ [] → Forall (λ ec, ec = (Rpc.calling Rpc.hello_answers, hello)) l →
  allowed 0 id cap (Sends 1 (replicate (length l) (5, Transceiver.Room 60))) (mk m n aw ar rn).
Proof.
  intros l Hm Hl. split; [done|]. cbn [made sent]. fold l. clearbody l. induction Hl as [|ec l -> Hl IH]; [constructor|].
  cbn [fmap list_fmap length replicate]. constructor; [|done]. split; [discriminate|].
  exists 60%nat. split; [reflexivity|]. vm_compute. discriminate.
Qed.

Lemma arrives_allowed id cap i body st :
  i ∈ awaited st → zlen (arrived st) < 100 → zlen body ≤ 1 → allowed 0 id cap (Arrives i body) st.
Proof.
  intros Hi Hl Hb. split; [done|]. split; [done|]. unfold response, ObjectProxy.response_to.
  cbn [fst snd]. rewrite !length_app. cbn [length]. pose proof (Wire.length_to_string (i32 (id_of id i))). lia.
Qed.

Ltac one_call := apply calls_hello_allowed; [apply Nat.ltb_lt; vm_compute; reflexivity|vm_compute; reflexivity].
Ltac one_response := apply arrives_allowed; [refine (bool_decide_unpack _ _); vm_compute; exact I|vm_compute; reflexivity|vm_compute; discriminate].

Lemma three_calls_allowed : all_allowed 0 0 5 mixed empty.
Proof.
  unfold mixed. cbn [all_allowed]. split; [one_call|]. split; [one_call|].
  split; [apply (sends_hello_allowed 0 5 (replicate 2 (Rpc.calling Rpc.hello_answers, hello)) 0); [done|repeat constructor]|].
  split; [one_response|]. split; [one_call|]. split; [discriminate|].
  split; [apply (sends_hello_allowed 0 5 (replicate 3 (Rpc.calling Rpc.hello_answers, hello)) 2); [done|repeat constructor]|].
  split; [one_response|]. split; [one_response|]. split; [discriminate|]. split; [discriminate|exact I].
Qed.

Lemma callbacks_in_any_order_witness :
  ∃ w p q r sp' w',
    run Assert ServantProxy.here 0 0 0 0 0 mixed (ServantProxy.proxy 0, w) = Ok (sp', w') ∧
    CommunicatorEpoll.events w' =
      [AsyncProcThread.Called p (Str.str "2:b"); AsyncProcThread.Called q (Str.str "3:c");
       AsyncProcThread.Called r (Str.str "1:a")].
Proof.
  destruct (LoopQueue.new_spec (T := nat) 1000) as (Q & _ & HQ); [lia|].
  destruct (Rpc.hello_ready Q 5 HQ) as [Hu Hc]; [lia|].
  destruct (callbacks_in_any_order Assert ServantProxy.here 0 0 0 0 0 5 [] (ServantProxy.proxy 0)
    (ServantProxy.two_threads Q Request.fresh) mixed Hu Hc) as (addr & sp' & w' & done & Hr & _ & _ & Hev & Hran & _).
  - lia.
  - apply (CommunicatorEpoll.started_async Request.fresh).
  - exact three_calls_allowed.
  - assert (ran (spec_run mixed empty) = [(1%nat, ["b"%char]); (2%nat, ["c"%char]); (0%nat, ["a"%char])]) as Hn
      by (vm_compute; reflexivity).
    rewrite Hn in Hran. apply Forall2_cons_inv_r in Hran as (e1 & l1 & H1 & Hran & ->).
    apply Forall2_cons_inv_r in Hran as (e2 & l2 & H2 & Hran & ->).
    apply Forall2_cons_inv_r in Hran as (e3 & l3 & H3 & Hran & ->). apply Forall2_nil_inv_r in Hran as ->.
    destruct H1 as (p & ec1 & [_ He1] & ->), H2 as (q & ec2 & [_ He2] & ->), H3 as (r & ec3 & [_ He3] & ->).
    injection He1 as <-. injection He2 as <-. injection He3 as <-.
    eexists _, p, q, r, sp', w'. split; [exact Hr|]. rewrite Hev. reflexivity.
Defined.

End AsyncClient.
