(* ===== verification/Communicator.v ===== *)
(** * Communicator: Communicator.h, Communicator.cc

    The client's root object: it makes the network threads at its first use and
    the proxies for the addresses it is asked for, and with the first proxy it
    registers the functions of the program, whatever server that proxy leads to. *)

From Stdlib Require Import Strings.String.
From S2P Require Import Prelude ByteQueue Buffer LoopQueue Wire Message AsyncProcThread.
From S2P Require Import Transceiver ObjectProxy BindAdapter ObjectProxyFactory ThreadData Epoller.
From S2P Require Import CommunicatorEpoll ServantProxy Connection EpollServer ServantManager Servants.
From S2P Require Import CoroList Stacks Scheduler RoundRobin ServantHandle HandlerRun Rpc.

Module Communicator.

Abbreviation world := CommunicatorEpoll.world.

(** [started] are the network threads whose [run] has been started, [deleted]
    the objects that have been deleted. *)
Record t := mk {
  communicatorEpoll_ : list handle;
  clientThreadNum_ : Z;
  initialized_ : bool;
  terminating_ : bool;
  registed_ : bool;
  started : list nat;
  deleted : list nat
}.

Definition new : t := mk (replicate 64 None) 1 false false false [] [].

Section operations.
Context (address : nat → CommunicatorEpoll.fd_pointer → Z).
Implicit Types (c : t) (w : world).

(** [communicatorEpoll_[i]], followed. *)
Definition epoll_at (i : nat) c : outcome nat :=
  h ← deref (communicatorEpoll_ c !! i);
  e ← deref h;
  _ ← defined (negb (bool_decide (e ∈ deleted c)));
  Ok e.

(** The loop of [initialize]; [shutdown i] is the descriptor of the socket of
    network thread [i]. *)
Fixpoint init_loop (shutdown : nat → Z) (k i : nat) c w : outcome (t * world) :=
  match k with
  | O => Ok (c, w)
  | S k =>
      let e := length (CommunicatorEpoll.epolls w) in
      ce ← CommunicatorEpoll.new e (shutdown i) (Z.of_nat i);
      _ ← defined (bool_decide (i < length (communicatorEpoll_ c))%nat);
      let c := mk (<[i := Some e]> (communicatorEpoll_ c)) (clientThreadNum_ c) (initialized_ c)
                  (terminating_ c) (registed_ c) (started c ++ [e]) (deleted c) in
      init_loop shutdown k (S i) c
        (CommunicatorEpoll.set_epolls (CommunicatorEpoll.epolls w ++ [ce]) w)
  end.

Definition initialize (shutdown : nat → Z) c w : outcome (t * world) :=
  if initialized_ c then Ok (c, w)
  else
    let c := mk (communicatorEpoll_ c) 1 true (terminating_ c) (registed_ c) (started c) (deleted c) in
    init_loop shutdown (Z.to_nat (clientThreadNum_ c)) 0 c w.

(** The objects for an address, one of each network thread. *)
Fixpoint get_objects (k i : nat) (ip : bytes) (port garbage : Z) c w : outcome (list nat * world) :=
  match k with
  | O => Ok ([], w)
  | S k =>
      e ← epoll_at i c;
      '(o, w) ← CommunicatorEpoll.get_objectProxy e ip port garbage w;
      '(os, w) ← get_objects k (S i) ip port garbage c w;
      Ok (o :: os, w)
  end.

Definition registerServant : bytes := String.list_ascii_of_string "registerServant".
Definition local_address : bytes := String.list_ascii_of_string ":127.0.0.1:9877".

(** The registration of the functions [names]; [env i] is what the system answers
    in call [i], with what happens while it waits.  The responses are printed. *)
Fixpoint register_names {X} (self : nat)
    (env : nat → ServantProxy.answers * (world * X → outcome (world * X)))
    (i : nat) (names : list bytes) (sp : ServantProxy.t) (wx : world * X)
    : outcome (list bytes * ServantProxy.t * (world * X)) :=
  match names with
  | [] => Ok ([], sp, wx)
  | name :: names =>
      '(response, sp, wx) ← ServantProxy.tars_invoke address self (env i).1 (env i).2 registerServant
                              (name ++ local_address) sp wx;
      '(printed, sp, wx) ← register_names self env (S i) names sp wx;
      Ok (response :: printed, sp, wx)
  end.

(** [get_servantProxy] in thread [self] of a program with these [funcNames]; the
    responses are those that are printed. *)
Definition get_servantProxy {X} (funcNames : list bytes) (self : nat) (shutdown : nat → Z)
    (env : nat → ServantProxy.answers * (world * X → outcome (world * X)))
    (ip : bytes) (port garbage : Z) c (wx : world * X)
    : outcome (list bytes * ServantProxy.t * t * (world * X)) :=
  let '(w, x) := wx in
  '(c, w) ← initialize shutdown c w;
  '(os, w) ← get_objects (Z.to_nat (clientThreadNum_ c)) 0 ip port garbage c w;
  let servant_proxy := ServantProxy.new os (clientThreadNum_ c) in
  if negb (registed_ c) then
    '(printed, servant_proxy, wx) ← register_names self env 0 funcNames servant_proxy (w, x);
    let c := mk (communicatorEpoll_ c) (clientThreadNum_ c) (initialized_ c) (terminating_ c) true
                (started c) (deleted c) in
    Ok (printed, servant_proxy, c, wx)
  else Ok ([], servant_proxy, c, (w, x)).

Definition stringToProxy {X} := @get_servantProxy X.

(** The loop of [terminate]. *)
Fixpoint terminate_loop (k i : nat) c w : outcome (t * world) :=
  match k with
  | O => Ok (c, w)
  | S k =>
      e ← epoll_at i c;
      w ← CommunicatorEpoll.terminate e w;
      let c := mk (communicatorEpoll_ c) (clientThreadNum_ c) (initialized_ c) (terminating_ c)
                  (registed_ c) (started c) (e :: deleted c) in
      terminate_loop k (S i) c w
  end.

(** [terminate], which the destructor calls too. *)
Definition terminate c w : outcome (t * world) :=
  let c := mk (communicatorEpoll_ c) (clientThreadNum_ c) (initialized_ c) true (registed_ c)
              (started c) (deleted c) in
  if initialized_ c then terminate_loop (Z.to_nat (clientThreadNum_ c)) 0 c w else Ok (c, w).

(** The next passes of the loop of network thread [e], on the object it was
    started for. *)
Definition thread_passes (log : outcome unit) (e : nat)
    (rounds : list ((world → outcome world) *
                    list (option CommunicatorEpoll.fd_pointer * Z * CommunicatorEpoll.answers)))
    c w : outcome world :=
  if bool_decide (rounds = []) then Ok w
  else
    _ ← defined (negb (bool_decide (e ∈ deleted c)));
    CommunicatorEpoll.run_loop log address e rounds w.

End operations.

(** ** The first proxy *)

Section starting.
Context (address : nat → CommunicatorEpoll.fd_pointer → Z).
Implicit Types (c : t) (w : world).

(** After the initialization the communicator has one network thread, [0]. *)
Definition running (registed : bool) : t :=
  mk (<[0%nat := Some 0%nat]> (replicate 64 None)) 1 true false registed [0%nat] [].

(** A program that has not used a communicator. *)
Record blank (self : nat) w : Prop := {
  bl_epolls : CommunicatorEpoll.epolls w = [];
  bl_objects : CommunicatorEpoll.objects w = [];
  bl_data : ServantProxyThreadData.first_use self (CommunicatorEpoll.tls w);
  bl_heap i : (CommunicatorEpoll.next w ≤ i)%nat → CommunicatorEpoll.heap w !! i = None
}.

(** Object 0 of network thread 0 is the one for the address. *)
Definition known (ip : bytes) (port : Z) w : Prop :=
  ∃ ce, CommunicatorEpoll.epolls w !! 0%nat = Some ce ∧
    StringMap.find (ObjectProxyFactory.tmpObjName ip port)
      (ObjectProxyFactory.objectProxys_ (CommunicatorEpoll.objectProxyFactory_ ce)) = Some 0%nat.

Lemma new_epoll e shutdown n :
  ∃ ce, CommunicatorEpoll.new e shutdown n = Ok ce ∧
    CommunicatorEpoll.notify_ ce = replicate 2048 NotifyInfo.default ∧
    CommunicatorEpoll.objectProxyFactory_ ce = ObjectProxyFactory.new e ∧
    ∃ a, CommunicatorEpoll.asyncThread_ ce = [a] ∧ CommunicatorEpoll.asyncThreadNum_ ce = 1 ∧
      CommunicatorEpoll.asyncSeq_ ce = 0 ∧ LoopQueue.repr 100 (AsyncProcThread.msgQueue_ a) [].
Proof.
  destruct (LoopQueue.new_spec (T := nat) 100) as (q & Hq & Hr); [lia|].
  unfold CommunicatorEpoll.new, AsyncProcThread.new. rewrite Hq. eexists. split; [done|].
  split; [done|]. split; [done|]. by eexists.
Qed.

Lemma first_object self shutdown ip port garbage n w :
  blank self w → 0 ≤ n < 2 ^ 32 →
  ∃ w', (x ← initialize shutdown new w; let '(c, w) := x in
         y ← get_objects (Z.to_nat (clientThreadNum_ c)) 0 ip port garbage c w;
         Ok (c, y)) = Ok (running false, ([0%nat], w')) ∧
    CommunicatorEpoll.connected w' 0 0 n 0 [] ∧ CommunicatorEpoll.notifiable w' 0 0 ∧
    known ip port w' ∧
    CommunicatorEpoll.tls w' = CommunicatorEpoll.tls w ∧
    CommunicatorEpoll.heap w' = CommunicatorEpoll.heap w ∧
    CommunicatorEpoll.woken w' = CommunicatorEpoll.woken w ∧
    CommunicatorEpoll.next w' = CommunicatorEpoll.next w ∧
    CommunicatorEpoll.events w' = CommunicatorEpoll.events w ∧
    CommunicatorEpoll.async_waiting w' 0 [].
Proof.
  intros Hb Hn. destruct (new_epoll 0 (shutdown 0%nat) 0) as (ce & Hce & Hnot & Hfac & a & Ha).
  unfold initialize. cbn [initialized_ new clientThreadNum_]. change (Z.to_nat 1) with 1%nat.
  cbn [init_loop]. rewrite (bl_epolls _ _ Hb). cbn [length]. change (Z.of_nat 0) with 0.
  rewrite Hce. cbn [mbind outcome_bind communicatorEpoll_ new].
  change (defined (bool_decide (0 < length (replicate 64 (None : handle)))%nat))
    with (Ok tt : outcome unit).
  cbn [mbind outcome_bind clientThreadNum_]. change (Z.to_nat 1) with 1%nat. cbn [get_objects].
  change (epoll_at 0 _) with (Ok 0%nat : outcome nat). cbn [mbind outcome_bind].
  unfold CommunicatorEpoll.get_objectProxy.
  cbn [CommunicatorEpoll.set_epolls CommunicatorEpoll.epolls app lookup list_lookup deref mbind
    outcome_bind CommunicatorEpoll.objects].
  rewrite Hfac, (bl_objects _ _ Hb). cbn [ObjectProxyFactory.get_objectProxy].
  unfold ObjectProxyFactory.get_objectProxy. cbn [StringMap.find ObjectProxyFactory.objectProxys_
    ObjectProxyFactory.new ObjectProxyFactory.communicatorEpoll_ length app].
  cbn [mbind outcome_bind]. eexists. split; [done|]. split; [|split; [|split; [|do 5 (split; [done|])]]].
  - eexists. split; [done|]. split; [done|]. split; [by apply ObjectProxy.new_steady|done].
  - eexists _, NotifyInfo.default. split; [done|]. cbn [CommunicatorEpoll.set_factory
      CommunicatorEpoll.notify_]. rewrite Hnot. split; [done|]. done.
  - eexists. split; [done|]. cbn. by rewrite bool_decide_true.
  - destruct Ha as (Ha & Hnum & Hseq & Hq). exists a. split; [|done].
    unfold CommunicatorEpoll.async_state. cbn. by rewrite Ha, Hnum, Hseq.
Qed.

(** The second proxy for an address. *)
Lemma next_proxy {X} funcNames self shutdown env ip port garbage w (x : X) :
  known ip port w →
  ∃ w', get_servantProxy address funcNames self shutdown env ip port garbage (running true) (w, x) =
    Ok ([], ServantProxy.new [0%nat] 1, running true, (w', x)) ∧
    CommunicatorEpoll.objects w' = CommunicatorEpoll.objects w ∧
    CommunicatorEpoll.heap w' = CommunicatorEpoll.heap w.
Proof.
  intros (ce & Hce & Hf). unfold get_servantProxy, initialize. cbn [initialized_ running mbind
    outcome_bind clientThreadNum_]. change (Z.to_nat 1) with 1%nat. cbn [get_objects].
  change (epoll_at 0 _) with (Ok 0%nat : outcome nat). cbn [mbind outcome_bind].
  unfold CommunicatorEpoll.get_objectProxy. rewrite Hce. cbn [deref mbind outcome_bind].
  unfold ObjectProxyFactory.get_objectProxy. rewrite Hf. cbn. eexists. split; [done|]. done.
Qed.

End starting.

Section registration.
Context {B : Type} `{ByteQueueLaws B}.
Context (log : outcome unit) (address : nat → CommunicatorEpoll.fd_pointer → Z).
Context (alloc_ok : nat → bool).

(** The call that registers a function. *)
Definition reg_call (name : bytes) : Rpc.call := (registerServant, name ++ local_address).

Fixpoint reg_calls (envs : nat → Rpc.answers) (i : nat) (names : list bytes)
    : list (Rpc.answers * Rpc.call) :=
  match names with
  | [] => []
  | name :: names => (envs i, reg_call name) :: reg_calls envs (S i) names
  end.

Lemma reg_calls_snd envs names : ∀ i, (reg_calls envs i names).*2 = reg_call <$> names.
Proof. induction names as [|name names IH]; intros i; [done|]. cbn. by rewrite IH. Qed.

Lemma register_session self r envs names : ∀ i sp (x : CommunicatorEpoll.world *
    (EpollServer.t B * (NodeF.t * Scheduler.t HandlerRun.task))),
  register_names address self (λ i, (Rpc.calling (envs i), Rpc.exchange log address alloc_ok r (envs i)))
    i names sp x =
  Rpc.session log address alloc_ok self r (reg_calls envs i names) sp x.
Proof.
  induction names as [|name names IH]; intros i sp x; [done|].
  cbn [register_names reg_calls Rpc.session fst snd].
  destruct (ServantProxy.tars_invoke _ _ _ _ _ _ _ _) as [[[response sp'] x']| | | |]; try done.
  cbn [mbind outcome_bind]. by rewrite IH.
Qed.

(** The route of the first object of a client. *)
Definition first_route (uid fd : Z) (h : ServantHandle.t) : Rpc.route := Rpc.mk_route 0 0 0 uid fd h.

End registration.

(** ** Properties *)

(** The first [get_servantProxy] of a program makes the network thread and the
    object for the address and calls [registerServant] once for each of the
    program's functions, at whatever server the address leads to; it returns when
    that server has answered them all, with the thread ready to call through the
    proxy, and records that the program is registered. *)
Theorem first_proxy_registers {B : Type} `{ByteQueueLaws B} log address alloc_ok
    (alloc_total : ∀ n, alloc_ok n = true) funcNames self shutdown ip port garbage n w
    (x : EpollServer.t B * (NodeF.t * Scheduler.t HandlerRun.task)) uid fd h func reply envs
    (Hb : blank self w) (Hn : 0 ≤ n) (Hids : n + zlen funcNames < 2 ^ 32)
    (Hsv : Rpc.serving (first_route uid fd h) x func)
    (Hf : Rpc.all_fine (first_route uid fd h) func reply 0 (reg_calls envs 0 funcNames)) :
  let r := first_route uid fd h in
  let calls := reg_call <$> funcNames in
  ∃ sp w' x',
    get_servantProxy address funcNames self shutdown
      (λ i, (Rpc.calling (envs i), Rpc.exchange log address alloc_ok r (envs i))) ip port garbage new (w, x)
      = Ok (Rpc.responses reply 0 calls, sp, running true, (w', x')) ∧
    Rpc.ready r self sp w' n (zlen funcNames) (Wire.stream 0 (Rpc.payload <$> calls)) ∧
    Rpc.serving r x' func ∧
    Rpc.written fd x'.1 = Rpc.written fd x.1 ++ concat (Rpc.responses reply 0 calls) ∧
    CommunicatorEpoll.heap w' = CommunicatorEpoll.heap w ∧
    (∀ i, (CommunicatorEpoll.next w' ≤ i)%nat → CommunicatorEpoll.heap w' !! i = None) ∧
    CommunicatorEpoll.events w' = CommunicatorEpoll.events w ∧
    CommunicatorEpoll.async_waiting w' 0 [].
Proof.
  intros r calls.
  destruct (first_object self shutdown ip port garbage (n + zlen funcNames) w Hb)
    as (w1 & Hobj & Hc & Hnot & _ & Ht & Hh & _ & Hnx & Hev & a & Ha & Hq); [lia|].
  assert (length (reg_calls envs 0 funcNames) = length funcNames) as Hlen.
  { by rewrite <- (length_fmap snd), reg_calls_snd, length_fmap. }
  unfold get_servantProxy.
  destruct (initialize shutdown new w) as [[c0 w0]| | | |] eqn:Hi; cbn [mbind outcome_bind] in Hobj |- *;
    try discriminate.
  destruct (get_objects _ _ _ _ _ c0 w0) as [[os w2]| | | |] eqn:Hg; cbn [mbind outcome_bind] in Hobj |- *;
    try discriminate.
  injection Hobj as -> -> ->. cbn [registed_ running negb].
  destruct (Rpc.session_spec log address alloc_ok alloc_total self r func reply n (reg_calls envs 0 funcNames)
    (ServantProxy.new [0%nat] 1) w1 x 0 [])
    as (sp & w' & x' & ps & Hsess & Hr' & Hsv' & Hwr & Hh' & _ & _ & Hfr' & Hev' & Has'); try done.
  { rewrite Hlen. split; [|done]. right. split; [done|]. split; try done.
    - rewrite Ht. apply Hb.
    - destruct Hc as (y & Hy & He & _). by exists y. }
  { intros i Hi'. rewrite Hh. apply Hb. by rewrite <- Hnx. }
  rewrite reg_calls_snd, Hlen in *. fold calls in Hsess, Hr', Hwr.
  exists sp, w', x'. rewrite (register_session log address alloc_ok self r envs funcNames 0).
  change (clientThreadNum_ (running false)) with 1. rewrite Hsess. cbn [mbind outcome_bind].
  split; [done|]. split; [done|]. split; [done|]. split; [done|]. split; [by rewrite Hh', Hh|].
  split; [done|]. split; [by rewrite Hev', Hev|]. exists a. split; [by rewrite Has'|done].
Qed.

(** [terminate] deletes the network thread's object while that thread, which
    was detached, is still in the loop of [run]: its next pass reads a deleted
    object, and so does a second [terminate], as that of the destructor after an
    explicit one. *)
Theorem terminate_deletes_running_thread log address registed w ce
    (Hw : CommunicatorEpoll.epolls w !! 0%nat = Some ce) :
  ∃ c' w', terminate (running registed) w = Ok (c', w') ∧ terminate c' w' = Undef ∧
    started c' = [0%nat] ∧
    (∃ ce', CommunicatorEpoll.epolls w' !! 0%nat = Some ce' ∧ CommunicatorEpoll.terminate_ ce' = true) ∧
    ∀ rounds w'', rounds ≠ [] → thread_passes address log 0 rounds c' w'' = Undef.
Proof.
  unfold terminate. cbn [initialized_ running clientThreadNum_]. change (Z.to_nat 1) with 1%nat.
  cbn [terminate_loop]. change (epoll_at 0 _) with (Ok 0%nat : outcome nat). cbn [mbind outcome_bind].
  unfold CommunicatorEpoll.terminate. rewrite Hw. cbn [deref mbind outcome_bind].
  eexists _, _. split; [done|]. split; [done|]. split; [done|]. split.
  - eexists. split; [apply list_lookup_insert_eq; by eapply lookup_lt_Some|done].
  - intros rounds w'' Hr. unfold thread_passes. by rewrite bool_decide_false.
Qed.

(** ** Witnesses *)

Definition empty_world : world :=
  CommunicatorEpoll.mk_world [] [] ∅ ∅ [] [] ServantProxyThreadData.init 0.

Lemma empty_blank self : blank self empty_world.
Proof. split; try done. apply ServantProxyThreadData.init_first_use. Qed.

(** The registry as the servant of the server of ServantHandle.v; what it stores is
    not needed here. *)
Definition register (request : bytes) : bytes :=
  match Registry.RegisterImp request [] ∅ with Ok ((_, buffer), _) => buffer | _ => [] end.

Definition registry_handle : ServantHandle.t :=
  ServantHandle.mk [(ServantHandle.echo_name, Some register)] (Some 0%nat).

Definition registered (payload : bytes) : bytes := Str.str "registed!".

Definition test_names : list bytes := [Str.str "test"; Str.str "testHello"].

Definition registering : Rpc.answers :=
  Rpc.mk_answers (ServantProxy.mk_answers (Some 1) 0 0 0 6) (5, Transceiver.Room 99) 16 [] 100000 100 true [].

(** The registry answers each registration with its id. *)
Lemma registration_fine i name :
  0 < i < 100 → name ∈ test_names →
  Rpc.fine (first_route 1 9 registry_handle) register registered i registering (reg_call name).
Proof.
  intros Hi Hname. pose proof (Wire.length_to_string (i32 i)) as Hlen.
  assert (name = Str.str "test" ∨ name = Str.str "testHello") as Hn.
  { unfold test_names in Hname. set_solver. }
  split; [split; [by exists 1|done]|]. split; [destruct Hn as [-> | ->]; done|].
  split; [|split].
  - split; [done|]. exists 99%nat. split; [done|]. destruct Hn as [-> | ->]; vm_compute; discriminate.
  - assert (Wire.request_payload i (Rpc.payload (reg_call name)) = Registry.registration
      (Wire.to_string (i32 i)) name (Str.str "127.0.0.1") (Str.str "9877")) as ->.
    { unfold Wire.request_payload, Rpc.payload, reg_call, Registry.registration. cbn [fst snd].
      destruct Hn as [-> | ->]; done. }
    unfold register, Registry.RegisterImp. rewrite Registry.tokens_registration;
      [|apply Wire.to_string_no_colon|destruct Hn as [-> | ->]; by repeat constructor|
       by repeat constructor|by repeat constructor|done].
    done.
  - unfold ObjectProxy.response_to. rewrite length_app. cbn [length].
    change (length (registered (Rpc.payload (reg_call name)))) with 9%nat. lia.
Qed.

Lemma first_proxy_registers_witness :
  let r := first_route 1 9 registry_handle in
  ∃ st sp w' x',
    get_servantProxy ServantProxy.here test_names 0 (λ _, 3)
      (λ i, (Rpc.calling registering, Rpc.exchange Assert ServantProxy.here Scheduler.granted r registering))
      (Str.str "127.0.0.1") 19386 0 new (empty_world, (ServantHandle.echo_server, (NodeF.init, st)))
      = Ok ([Str.str "1:registed!"; Str.str "2:registed!"], sp, running true, (w', x')) ∧
    Rpc.wire 0 w' = Wire.stream 0 [Str.str "registerServant:test:127.0.0.1:9877";
                                   Str.str "registerServant:testHello:127.0.0.1:9877"].
Proof.
  intros r.
  destruct (HandlerRun.new_scheduler_waiting Scheduler.granted (λ _, eq_refl)) as (st & _ & Hw).
  destruct (first_proxy_registers Assert ServantProxy.here Scheduler.granted (λ _, eq_refl) test_names 0 (λ _, 3) (Str.str "127.0.0.1")
    19386 0 5 empty_world (ServantHandle.echo_server, (NodeF.init, st)) 1 9 registry_handle register registered
    (λ _, registering)) as (sp & w' & x' & H1 & [_ H2] & _).
  - apply empty_blank.
  - lia.
  - cbn. lia.
  - apply Rpc.echo_server_serving. exact Hw.
  - split; [apply registration_fine; [lia|left]|].
    split; [apply registration_fine; [lia|right; left]|]. exact I.
  - exists st, sp, w', x'. split; [exact H1|]. exact (Rpc.wire_connected _ _ _ _ _ _ H2).
Defined.

Lemma terminate_deletes_running_thread_witness :
  ∃ w c' w', terminate (running true) w = Ok (c', w') ∧ terminate c' w' = Undef.
Proof.
  assert (∃ ce, CommunicatorEpoll.epolls (CommunicatorEpoll.started Request.fresh) !! 0%nat = Some ce)
    as [ce Hce] by (eexists; reflexivity).
  destruct (terminate_deletes_running_thread Assert ServantProxy.here true
    (CommunicatorEpoll.started Request.fresh) ce Hce) as (c' & w' & H1 & H2 & _).
  exists (CommunicatorEpoll.started Request.fresh), c', w'. split; [exact H1|exact H2].
Defined.

End Communicator.
