(* ===== verification/Application.v ===== *)
(** * Application: Application.h, Application.cc, and the main programs

    The order in which a server is put together: the client through which the
    server registers itself, the admin adapter, the adapters of the
    configuration with their servants, the handlers and the network thread. *)

From Stdlib Require Import Strings.String.
From S2P Require Import Prelude ByteQueue Buffer Monitor ThreadDeque Wire Message Connection.
From S2P Require Import Epoller BindAdapter NetThread EpollServer ServantManager Servants.
From S2P Require Import CoroList Stacks Scheduler RoundRobin HandlerRun.
From S2P Require Import LoopQueue CommunicatorEpoll ServantProxy ServantHandle Rpc Communicator.

Module Application.

Import Str.

(** [ServerConfig]. *)
Record ServerConfig := mk_config {
  application : bytes;
  serverName : bytes;
  node : bytes;
  adapterName : bytes;
  servantName : bytes;
  adapterIp : bytes;
  adapterPort : Z;
  adapterName1 : bytes;
  servantName1 : bytes;
  adapterIp1 : bytes;
  adapterPort1 : Z
}.

(** The server side of what the program's static objects hold. *)
Record t (B : Type) := mk {
  epollServer_ : EpollServer.t B;
  manager : ServantHelperManager.t;
  nodeF : NodeF.t
}.
Arguments mk {B}.
Arguments epollServer_ {B}.
Arguments manager {B}.
Arguments nodeF {B}.

(** A servant as the function of its request: what it leaves in the buffer. *)
Definition servant (imp : bytes → bytes → outcome Servants.result) (request : bytes) : bytes :=
  match imp request [] with Ok (_, buffer) => buffer | _ => [] end.

Definition AdminServant : bytes → bytes :=
  servant (λ request buffer, '(r, _) ← Servants.AdminServant request buffer; Ok r).

Definition AdminObj : bytes := str "AdminObj".
Definition AdminAdapter : bytes := NodeF.AdminAdapter.
Definition localhost : bytes := str "127.0.0.1".

(** The descriptors and numbers that the system gives out during the start. *)
Record answers := mk_answers {
  sockets : Z * Z * Z;
  getpid : Z;
  admin_fd : Z;
  adapter_fd : Z;
  adapter1_fd : Z
}.

(** [Application::initialize] is a function of each program. *)
Abbreviation initializer := (ServerConfig → ServantHelperManager.t → outcome ServantHelperManager.t).

Section operations.
Context {B : Type} `{ByteQueue B}.
Implicit Types (s : EpollServer.t B) (a : t B).

Definition set_server s a : t B := mk s (manager a) (nodeF a).
Definition set_manager (m : ServantHelperManager.t) a : t B := mk (epollServer_ a) m (nodeF a).

(** [std::make_shared<BindAdapter>(...)] followed by its setters. *)
Definition make_adapter (name host : bytes) (port handleNum : Z) : BindAdapter.t :=
  BindAdapter.set_handleNum handleNum
    (BindAdapter.set_handleGroupName name
       (BindAdapter.set_endpoint host port (BindAdapter.set_name name BindAdapter.new))).

Definition new_adapter (b : BindAdapter.t) s : nat * EpollServer.t B :=
  let sh := EpollServer.shared s in
  let n := size (NetThread.adapters sh) in
  (n, EpollServer.set_threads (EpollServer.netThreads_ s)
        (NetThread.mk_shared (<[n := b]> (NetThread.adapters sh)) (NetThread.groups sh)) s).

Definition set_handle (adapter : nat) s : outcome (EpollServer.t B) :=
  b ← deref (NetThread.adapters (EpollServer.shared s) !! adapter);
  EpollServer.set_handleGroup (BindAdapter.handleGroupName_ b) (i32 (BindAdapter.handleNum_ b))
    adapter s.

Definition initializeServer (cfg : ServerConfig) (env : answers) : outcome (t B) :=
  let s := EpollServer.new [sockets env] (NetThread.mk_shared ∅ ∅) in
  let nf := NodeF.set_nodeInfo (node cfg) (application cfg) (servantName cfg) (getpid env) NodeF.init in
  m ← ServantHelperManager.addServant AdminObj (Some AdminServant) false ServantHelperManager.init;
  let m := ServantHelperManager.set_adapter_servant AdminAdapter AdminObj m in
  let '(n, s) := new_adapter (make_adapter AdminAdapter localhost 20002 1) s in
  s ← set_handle n s;
  '(_, s) ← EpollServer.bind n (admin_fd env) s;
  Ok (mk s m nf).

(** One adapter of [bindAdapter], with its servant. *)
Definition add_adapter (name servant host : bytes) (port fd : Z) a : outcome (nat * t B) :=
  let m := ServantHelperManager.set_adapter_servant name servant (manager a) in
  let '(n, s) := new_adapter (make_adapter name host port 1) (epollServer_ a) in
  '(_, s) ← EpollServer.bind n fd s;
  Ok (n, mk s m (nodeF a)).

Definition bindAdapter (cfg : ServerConfig) (env : answers) a : outcome (list nat * t B) :=
  '(n, a) ← add_adapter (adapterName cfg) (servantName cfg) (adapterIp cfg) (adapterPort cfg)
             (adapter_fd env) a;
  if negb (bool_decide (servantName1 cfg = [])) then
    '(n1, a) ← add_adapter (adapterName1 cfg) (servantName1 cfg) (adapterIp1 cfg) (adapterPort1 cfg)
                 (adapter1_fd env) a;
    Ok ([n; n1], a)
  else Ok ([n], a).

Fixpoint set_handles (adapters : list nat) s : outcome (EpollServer.t B) :=
  match adapters with
  | [] => Ok s
  | n :: adapters => s ← set_handle n s; set_handles adapters s
  end.

(** [extra_main] behind [initializeClient]: the handlers that are started. *)
Definition start_server (initialize : initializer) (cfg : ServerConfig) (env : answers)
    : outcome (list nat * t B) :=
  a ← initializeServer cfg env;
  '(adapters, a) ← bindAdapter cfg env a;
  m ← initialize cfg (manager a);
  s ← set_handles adapters (epollServer_ a);
  '(handles, s) ← EpollServer.startHandle s;
  Ok (handles, mk (EpollServer.createEpoll s) m (nodeF a)).

(** [initializeClient]. *)
Definition initializeClient {X} (address : nat → CommunicatorEpoll.fd_pointer → Z)
    (funcNames : list bytes) (self : nat) (shutdown : nat → Z)
    (env : nat → ServantProxy.answers * (Communicator.world * X → outcome (Communicator.world * X)))
    (garbage : Z) (wx : Communicator.world * X) : outcome (Communicator.t * (Communicator.world * X)) :=
  '(_, _, c, wx) ← Communicator.stringToProxy address funcNames self shutdown env localhost 19386
                     garbage Communicator.new wx;
  Ok (c, wx).

Definition extra_main {X} address funcNames self shutdown env garbage (initialize : initializer)
    (cfg : ServerConfig) (senv : answers) (wx : Communicator.world * X)
    : outcome (list nat * t B * Communicator.t * (Communicator.world * X)) :=
  '(c, wx) ← initializeClient address funcNames self shutdown env garbage wx;
  '(handles, a) ← start_server initialize cfg senv;
  Ok (handles, a, c, wx).

(** [terminate], and the end of [waitForQuit] that follows it. *)
Definition terminate a : t B := set_server (EpollServer.terminate (epollServer_ a)) a.

Definition quit a : t B :=
  let s := epollServer_ a in
  if EpollServer.terminate_ s
  then set_server (EpollServer.set_threads (NetThread.terminate <$> EpollServer.netThreads_ s)
                     (EpollServer.shared s) s) a
  else a.

(** [waitForQuit] with what the other threads do during each wait; [Spin] when it
    goes on. *)
Fixpoint waitForQuit (waits : list (t B → t B)) a : outcome (t B) :=
  if EpollServer.terminate_ (epollServer_ a) then Ok (quit a)
  else match waits with
       | [] => Spin
       | others :: waits => waitForQuit waits (others a)
       end.

End operations.

(** ** The programs *)

(** HelloServer.cc, RegistryServer.cc and NodeServer.cc. *)
Definition add_first (imp : bytes → bytes) : initializer :=
  λ cfg m, ServantHelperManager.addServant (adapterName cfg) (Some imp) true m.

Definition hello_initialize : initializer := add_first (servant Servants.HelloImp).
Definition node_initialize : initializer := add_first (servant Servants.ServerImp).

Definition hello_config : ServerConfig :=
  mk_config (str "TestApp") (str "HelloServer") (str "127.0.0.1:19386") (str "HelloAdapter")
    (str "Hello") (str "127.0.0.1") 9877 [] [] [] 0.
Definition registry_config : ServerConfig :=
  mk_config (str "Registry") (str "RegistryServer") [] (str "RegistryAdapter") (str "Registry")
    (str "127.0.0.1") 19386 [] [] [] 0.
Definition node_config : ServerConfig :=
  mk_config (str "tars") (str "tarsnode") [] (str "ServerAdapter") (str "ServerObj") [] 19386
    (str "NodeAdapter") (str "NodeObj") (str "127.0.0.1") 19385.

(** ** A server that has been started *)

Section starting.
Context {B : Type} `{ByteQueueLaws B}.
Implicit Types (s : EpollServer.t B).

(** The network thread before its epoll: it has listeners and nothing else. *)
Definition listening (socks : Z * Z * Z) sh (L : gmap Z handle) : NetThread.t B :=
  NetThread.set_listeners L (NetThread.new socks.1.1 socks.1.2 socks.2 sh).

(** A server with that thread, before its handlers are started; [ng] groups and
    [nh] handlers have been made. *)
Definition assembled (socks : Z * Z * Z) sh (L : gmap Z handle) (HG : StringMap.t nat) (ng nh : nat)
    (A : gmap nat BindAdapter.t) (G : gmap nat HandleGroup.t) : EpollServer.t B :=
  EpollServer.mk [listening socks sh L] false false HG Monitor.init ng nh (NetThread.mk_shared A G).

Lemma bind_assembled socks sh L HG ng nh A G n fd b :
  A !! n = Some b →
  let A' := <[n := BindAdapter.set_fd fd b]> A in
  EpollServer.bind n fd (assembled socks sh L HG ng nh A G) =
  Ok (fd, assembled socks (NetThread.mk_shared A' G) (<[fd := Some n]> L) HG ng nh A' G).
Proof.
  intros Hn A'. unfold EpollServer.bind, EpollServer.on_thread.
  cbn [assembled EpollServer.netThreads_ lookup list_lookup deref mbind outcome_bind EpollServer.shared].
  unfold NetThread.bind. cbn [NetThread.shared NetThread.set_shared NetThread.adapters]. rewrite Hn.
  done.
Qed.

Lemma new_adapter_assembled socks sh L HG ng nh A G b :
  new_adapter b (assembled socks sh L HG ng nh A G) =
  (size A, assembled socks sh L HG ng nh (<[size A := b]> A) G).
Proof. done. Qed.

(** An adapter with a group name that is new. *)
Lemma set_handle_assembled socks sh L HG ng nh A G n b :
  A !! n = Some b → StringMap.find (BindAdapter.handleGroupName_ b) HG = None →
  BindAdapter.handleGroupName_ b = BindAdapter.name_ b → BindAdapter.handleNum_ b = 1 →
  let name := BindAdapter.name_ b in
  set_handle n (assembled socks sh L HG ng nh A G) =
  Ok (assembled socks sh L (StringMap.insert name ng HG) (S ng) (nh + 1)
        (<[n := BindAdapter.set_handleGroup (Some ng) b]> A)
        (<[ng := HandleGroup.mk name Monitor.init [nh] [(name, n)]]> G)).
Proof.
  intros Hn Hf Hname Hnum name. unfold set_handle.
  cbn [assembled EpollServer.shared NetThread.adapters]. rewrite Hn. cbn [deref mbind outcome_bind].
  rewrite Hnum. change (i32 1) with 1. unfold EpollServer.set_handleGroup.
  change (EpollServer.handleGroups_ (assembled socks sh L HG ng nh A G)) with HG. rewrite Hf.
  cbv beta iota delta [EpollServer.new_group]. change (Z.to_nat 1) with 1%nat.
  cbn [assembled EpollServer.shared EpollServer.netThreads_ NetThread.adapters NetThread.groups
    EpollServer.nextGroup EpollServer.nextHandle EpollServer.terminate_ EpollServer.handleStarted_
    EpollServer.handleGroups_ EpollServer.monitor_ List.seq].
  unfold EpollServer.adapter_group. cbn [EpollServer.shared NetThread.adapters]. rewrite Hn.
  cbn [deref mbind outcome_bind EpollServer.shared EpollServer.set_threads NetThread.adapters
    NetThread.groups EpollServer.netThreads_]. rewrite !lookup_insert_eq.
  cbn [deref mbind outcome_bind EpollServer.shared EpollServer.set_threads NetThread.adapters
    NetThread.groups EpollServer.netThreads_].
  rewrite ?lookup_insert_eq. cbn [deref mbind outcome_bind]. by rewrite !insert_insert_eq, Hname.
Qed.

(** *** The start of a server with one adapter *)

Definition admin_adapter (env : answers) : BindAdapter.t :=
  BindAdapter.set_fd (admin_fd env)
    (BindAdapter.set_handleGroup (Some 0%nat) (make_adapter AdminAdapter localhost 20002 1)).

Definition first_adapter (cfg : ServerConfig) (env : answers) : BindAdapter.t :=
  BindAdapter.set_handleGroup (Some 1%nat) (BindAdapter.set_fd (adapter_fd env)
    (make_adapter (adapterName cfg) (adapterIp cfg) (adapterPort cfg) 1)).

Definition group_of (name : bytes) (n : nat) : HandleGroup.t :=
  HandleGroup.mk name Monitor.init [n] [(name, n)].

Definition started_adapters cfg env : gmap nat BindAdapter.t :=
  <[1%nat := first_adapter cfg env]> {[0%nat := admin_adapter env]}.

Definition started_groups cfg : gmap nat HandleGroup.t :=
  <[1%nat := group_of (adapterName cfg) 1]> {[0%nat := group_of AdminAdapter 0]}.

Definition started_thread sh env : NetThread.t B :=
  NetThread.createEpoll 256 (listening (sockets env) sh
    (<[adapter_fd env := Some 1%nat]> {[admin_fd env := Some 0%nat]})).

(** The manager before [initialize]. *)
Definition prepared_manager cfg : ServantHelperManager.t :=
  ServantHelperManager.set_adapter_servant (adapterName cfg) (servantName cfg)
    (ServantHelperManager.mk [(AdminObj, Some AdminServant)] [(AdminAdapter, AdminObj)]
       [(AdminObj, AdminAdapter)]).

Lemma start_server_spec initialize cfg env m :
  servantName1 cfg = [] → adapterName cfg ≠ AdminAdapter →
  initialize cfg (prepared_manager cfg) = Ok m →
  ∃ hs sh HG nf, start_server (B := B) initialize cfg env =
    Ok (hs, mk (EpollServer.mk [started_thread sh env] false true HG Monitor.init 2 2
                  (NetThread.mk_shared (started_adapters cfg env) (started_groups cfg))) m nf) ∧
    0%nat ∈ hs ∧ 1%nat ∈ hs.
Proof.
  intros H1 Hname Hinit. unfold start_server, initializeServer.
  change (ServantHelperManager.addServant AdminObj (Some AdminServant) false ServantHelperManager.init)
    with (Ok (ServantHelperManager.mk [(AdminObj, Some AdminServant)] [] [])).
  cbn [mbind outcome_bind].
  change (EpollServer.new [sockets env] (NetThread.mk_shared ∅ ∅)) with
    (assembled (sockets env) (NetThread.mk_shared ∅ ∅) ∅ [] 0 0 ∅ ∅).
  rewrite new_adapter_assembled, map_size_empty.
  rewrite (set_handle_assembled _ _ _ _ _ _ _ _ 0 _ (lookup_insert_eq _ _ _)) by done.
  cbn [mbind outcome_bind]. rewrite !insert_insert_eq.
  rewrite (bind_assembled _ _ _ _ _ _ _ _ 0 _ _ (lookup_insert_eq _ _ _)).
  cbn [mbind outcome_bind]. rewrite insert_insert_eq.
  change (BindAdapter.set_fd _ _) with (admin_adapter env).
  unfold bindAdapter, add_adapter. cbn [manager epollServer_ nodeF].
  rewrite new_adapter_assembled.
  assert (size (<[0%nat := admin_adapter env]> (∅ : gmap nat BindAdapter.t)) = 1%nat) as ->
    by (rewrite insert_empty; apply map_size_singleton).
  rewrite (bind_assembled _ _ _ _ _ _ _ _ 1 _ _ (lookup_insert_eq _ _ _)).
  cbn [mbind outcome_bind]. rewrite insert_insert_eq, H1.
  rewrite bool_decide_true by done. cbn [negb mbind outcome_bind manager epollServer_ nodeF].
  match goal with |- context [initialize cfg ?x] => change (initialize cfg x) with
    (initialize cfg (prepared_manager cfg)) end.
  rewrite Hinit. cbn [mbind outcome_bind set_handles].
  rewrite (set_handle_assembled _ _ _ _ _ _ _ _ 1 _ (lookup_insert_eq _ _ _))
    by (done || by cbn; rewrite bool_decide_false by done).
  cbn [mbind outcome_bind]. rewrite insert_insert_eq.
  change (BindAdapter.set_handleGroup _ (BindAdapter.set_fd _ _)) with (first_adapter cfg env).
  match goal with |- context [EpollServer.startHandle ?s] =>
    match s with assembled _ ?sh _ _ _ _ _ _ => change s with (assembled (sockets env) sh
      (<[adapter_fd env := Some 1%nat]> {[admin_fd env := Some 0%nat]})
      (StringMap.insert (adapterName cfg) 1%nat [(AdminAdapter, 0%nat)]) 2 2
      (started_adapters cfg env) (started_groups cfg)) end;
    set (s1 := assembled _ _ _ _ _ _ _ _) end.
  assert (∀ kg, kg ∈ EpollServer.handleGroups_ s1 →
    ∃ n, kg.2 = n ∧ (n = 0%nat ∨ n = 1%nat)) as Hkg.
  { intros kg [->|Hk]%StringMap.elem_of_insert; [by exists 1%nat; auto|].
    apply list_elem_of_singleton in Hk as ->. by exists 0%nat; auto. }
  destruct (EpollServer.startHandle_spec s1 eq_refl) as (hs & -> & Hin).
  { intros kg Hk. change (NetThread.groups _) with (started_groups cfg). unfold started_groups.
    destruct (Hkg kg Hk) as (n & -> & [-> | ->]).
    - rewrite lookup_insert_ne, lookup_singleton_eq by done. by eexists.
    - rewrite lookup_insert_eq. by eexists. }
  cbn [mbind outcome_bind]. eexists hs, _, _, _. split; [done|].
  assert ((AdminAdapter, 0%nat) ∈ EpollServer.handleGroups_ s1 ∧
    (adapterName cfg, 1%nat) ∈ EpollServer.handleGroups_ s1) as [Hk0 Hk1].
  { split; apply StringMap.find_elem; cbn [EpollServer.handleGroups_ s1 assembled].
    - rewrite StringMap.find_insert_ne by done. cbn. by rewrite bool_decide_true.
    - apply StringMap.find_insert_eq. }
  split.
  - apply (Hin _ (group_of AdminAdapter 0) _ Hk0); [|left].
    change (NetThread.groups _) with (started_groups cfg). unfold started_groups. cbn [snd].
    by rewrite lookup_insert_ne, lookup_singleton_eq by done.
  - apply (Hin _ (group_of (adapterName cfg) 1) _ Hk1); [|left]. apply lookup_insert_eq.
Qed.

Lemma started_thread_ok sh cfg env :
  admin_fd env ≠ -1 → adapter_fd env ≠ -1 →
  NetThread.ok (NetThread.set_shared (NetThread.mk_shared (started_adapters cfg env)
    (started_groups cfg)) (started_thread sh env)).
Proof.
  intros Hfd0 Hfd1. unfold started_thread.
  change (NetThread.set_shared ?x (NetThread.createEpoll 256 ?y)) with
    (NetThread.createEpoll 256 (NetThread.set_shared x y)).
  apply NetThread.fresh_ok; try done;
    cbn [NetThread.listeners_ NetThread.set_shared listening NetThread.set_listeners NetThread.shared
      NetThread.adapters]; unfold started_adapters.
  - intros fd h [[<- <-]|[_ [<- <-]%lookup_singleton_Some]]%lookup_insert_Some; (split; [done|]).
    + exists 1%nat. by rewrite lookup_insert_eq.
    + exists 0%nat. by rewrite lookup_insert_ne, lookup_singleton_eq by done.
  - intros b ad [[_ <-]|[_ [_ <-]%lookup_singleton_Some]]%lookup_insert_Some; by exists [].
Qed.

(** The functions that the handlers of the two groups find. *)
Lemma add_first_spec imp cfg :
  adapterName cfg ≠ servantName cfg → adapterName cfg ≠ AdminObj → adapterName cfg ≠ AdminAdapter →
  ∃ m, add_first imp cfg (prepared_manager cfg) = Ok m ∧
    ServantHelperManager.get_funcByName (adapterName cfg) m = (Some imp, m) ∧
    ∃ m', ServantHelperManager.get_funcByName AdminAdapter m = (None, m').
Proof.
  intros Hs Ho Ha. unfold add_first, ServantHelperManager.addServant, prepared_manager,
    ServantHelperManager.set_adapter_servant.
  cbn [ServantHelperManager.servantAdapter_ ServantHelperManager.servantMap_ andb].
  assert (StringMap.find (adapterName cfg) (StringMap.insert (servantName cfg) (adapterName cfg)
    [(AdminObj, AdminAdapter)]) = None) as ->.
  { rewrite StringMap.find_insert_ne by done. cbn. by rewrite bool_decide_false. }
  rewrite bool_decide_false by by intros []. eexists. split; [done|]. unfold ServantHelperManager.get_funcByName.
  cbn [ServantHelperManager.servantMap_]. rewrite StringMap.find_insert_eq. split; [done|].
  rewrite StringMap.find_insert_ne by done. cbn [StringMap.find].
  rewrite bool_decide_false by done. by eexists.
Qed.

End starting.

(** ** Properties *)

(** After the start of a program the server can take all its connections. *)
Lemma server_hosts {B : Type} `{ByteQueueLaws B} alloc_ok (alloc_total : ∀ n, alloc_ok n = true)
    imp cfg env nf
    (H1 : servantName1 cfg = []) (Hs : adapterName cfg ≠ servantName cfg)
    (Ho : adapterName cfg ≠ AdminObj) (Ha : adapterName cfg ≠ AdminAdapter)
    (Hfd0 : admin_fd env ≠ -1) (Hfd : adapter_fd env ≠ -1) :
  ∃ hs (a : t B) h m' st, start_server (add_first imp) cfg env = Ok (hs, a) ∧ 1%nat ∈ hs ∧
    HandlerRun.begin alloc_ok (ServantHandle.mk [] (Some 1%nat)) (manager a)
      (EpollServer.shared (epollServer_ a)) = Ok (h, m', st) ∧
    Rpc.accepting h (adapter_fd env) 2000 (epollServer_ a, (nf, st)) imp ∧
    Rpc.sent_by (epollServer_ a) = [].
Proof.
  destruct (add_first_spec imp cfg Hs Ho Ha) as (m & Hm & Hf & _).
  destruct (start_server_spec (B := B) (add_first imp) cfg env m H1 Ha Hm)
    as (hs & sh & HG & nf' & Hstart & _ & Hin).
  set (sh1 := NetThread.mk_shared (started_adapters cfg env) (started_groups cfg)) in *.
  destruct (HandlerRun.new_scheduler_waiting alloc_ok alloc_total) as (st & Hst & Hwait).
  exists hs. eexists. exists (ServantHandle.mk [(adapterName cfg, Some imp)] (Some 1%nat)), m, st.
  split; [exact Hstart|]. split; [exact Hin|]. split; [|split; [|done]].
  - unfold HandlerRun.begin, ServantHandle.init. cbn [manager epollServer_ EpollServer.shared ServantHandle.handleGroup_].
    unfold BindAdapter.lock_group, sh1, started_groups. cbn [NetThread.groups mbind option_bind].
    rewrite lookup_insert_eq. cbn [mbind option_bind HandleGroup.adapters group_of
      ServantHandle.init_loop ServantHandle.servants_]. rewrite Hf. cbn [mbind outcome_bind].
    by rewrite Hst.
  - split; [exact Hwait|].
    exists (NetThread.set_shared sh1 (started_thread sh env)), 1%nat, (adapterName cfg), 1%nat.
    split; [|split; [|done]].
    2:{ apply lookup_insert_eq. }
    split; [by eexists|by apply started_thread_ok|done|done| |done| |].
    + exists (first_adapter cfg env). split; [apply lookup_insert_eq|]. done.
    + exists (group_of (adapterName cfg) 1). split; [apply lookup_insert_eq|]. done.
    + cbn. by rewrite bool_decide_true.
Qed.

(** From the start of a program to its first connection. *)
Lemma server_accepts {B : Type} `{ByteQueueLaws B} alloc_ok (alloc_total : ∀ n, alloc_ok n = true)
    imp cfg env r garbage k e seq nf
    (H1 : servantName1 cfg = []) (Hs : adapterName cfg ≠ servantName cfg)
    (Ho : adapterName cfg ≠ AdminObj) (Ha : adapterName cfg ≠ AdminAdapter)
    (Hfd0 : admin_fd env ≠ -1) (Hfd : adapter_fd env ≠ -1) (Hr : 0 < NetThread.acc_ret r) :
  ∃ hs (a : t B) h m' st s', start_server (add_first imp) cfg env = Ok (hs, a) ∧ 1%nat ∈ hs ∧
    HandlerRun.begin alloc_ok (ServantHandle.mk [] (Some 1%nat)) (manager a)
      (EpollServer.shared (epollServer_ a)) = Ok (h, m', st) ∧
    Rpc.take_client (adapter_fd env) garbage r
      (epollServer_ a) = Ok s' ∧
    Rpc.serving (Rpc.mk_route k e seq 1 (NetThread.acc_ret r) h) (s', (nf, st)) imp ∧
    Rpc.written (NetThread.acc_ret r) s' = [].
Proof.
  destruct (server_hosts (B := B) alloc_ok alloc_total imp cfg env nf) as (hs & a & h & m' & st & Hst & Hin & Hbg & Hacc & Hwr);
    [done..|].
  destruct (Rpc.accept_serves h (adapter_fd env) 2000 (epollServer_ a) (nf, st) imp garbage r Hacc)
    as (s' & Hr' & _ & Hsv & _ & Hwr'); [lia|done|].
  exists hs, a, h, m', st, s'. split; [done|]. split; [done|]. split; [done|]. split; [done|].
  split; [apply Hsv|]. by rewrite Hwr', Rpc.written_nothing.
Qed.

(** A program that registers its servant under the name of its adapter serves:
    after the start, handler 1 has been started, finds the servant's function and
    has a coroutine that waits for requests, and a client whom the network thread then accepts on the adapter's socket has
    a connection that this handler serves, with nothing on its way. *)
Theorem application_serves {B : Type} `{ByteQueueLaws B} alloc_ok (alloc_total : ∀ n, alloc_ok n = true)
    imp cfg env r garbage k e seq nf
    (H1 : servantName1 cfg = []) (Hs : adapterName cfg ≠ servantName cfg)
    (Ho : adapterName cfg ≠ AdminObj) (Ha : adapterName cfg ≠ AdminAdapter)
    (Hfd0 : admin_fd env ≠ -1) (Hfd : adapter_fd env ≠ -1) (Hr : 0 < NetThread.acc_ret r) :
  ∃ hs (a : t B) h m' st s', start_server (add_first imp) cfg env = Ok (hs, a) ∧ 1%nat ∈ hs ∧
    HandlerRun.begin alloc_ok (ServantHandle.mk [] (Some 1%nat)) (manager a)
      (EpollServer.shared (epollServer_ a)) = Ok (h, m', st) ∧
    Rpc.take_client (adapter_fd env) garbage r
      (epollServer_ a) = Ok s' ∧
    Rpc.serving (Rpc.mk_route k e seq 1 (NetThread.acc_ret r) h) (s', (nf, st)) imp ∧
    Rpc.written (NetThread.acc_ret r) s' = [].
Proof. by apply server_accepts. Qed.

(** C39: requests to the admin servant get no answer: its function is registered as
    "AdminObj" while the handler of its adapter looks for "AdminAdapter", finds an
    empty function and throws when a request comes. *)
Theorem admin_requests_throw {B : Type} `{ByteQueueLaws B} imp cfg env
    (H1 : servantName1 cfg = []) (Hs : adapterName cfg ≠ servantName cfg)
    (Ho : adapterName cfg ≠ AdminObj) (Ha : adapterName cfg ≠ AdminAdapter) :
  ∃ hs (a : t B) h m', start_server (add_first imp) cfg env = Ok (hs, a) ∧ 0%nat ∈ hs ∧
    ServantHandle.init (ServantHandle.mk [] (Some 0%nat)) (manager a)
      (EpollServer.shared (epollServer_ a)) = Ok (h, m') ∧
    ∀ request, RecvData.adapter request = Some 0%nat →
      ServantHandle.handle h request (epollServer_ a) = Raise BadFunctionCall.
Proof.
  destruct (add_first_spec imp cfg Hs Ho Ha) as (m & Hm & _ & m' & Hf).
  destruct (start_server_spec (B := B) (add_first imp) cfg env m H1 Ha Hm)
    as (hs & sh & HG & nf & Hstart & Hin & _).
  exists hs. eexists. exists (ServantHandle.mk [(AdminAdapter, None)] (Some 0%nat)), m'.
  split; [exact Hstart|]. split; [exact Hin|]. split.
  - unfold ServantHandle.init. cbn [manager epollServer_ EpollServer.shared ServantHandle.handleGroup_].
    unfold BindAdapter.lock_group, started_groups. cbn [NetThread.groups mbind option_bind].
    rewrite lookup_insert_ne, lookup_singleton_eq by done. cbn [mbind option_bind HandleGroup.adapters
      group_of ServantHandle.init_loop ServantHandle.servants_]. by rewrite Hf.
  - intros request Hreq. unfold ServantHandle.handle. rewrite Hreq. cbn [deref mbind outcome_bind
      epollServer_ EpollServer.shared NetThread.adapters]. unfold started_adapters.
    by rewrite lookup_insert_ne, lookup_singleton_eq by done.
Qed.

(** ** Witnesses *)

Definition system_answers : answers := mk_answers (3, 4, 0) 42 7 8 0.

Definition a_peer : NetThread.accept_result := NetThread.mk_accept 9 localhost 5000 false.

(** HelloServer.cc, started; a client connects and calls "test". *)
(** C32: [terminate] stops the server whenever it comes: [waitForQuit] returns at the
    latest after the wait during which it was called; then every network thread
    leaves its loop the next time it looks, without handling another event, and so
    does every handler thread, with whatever waits in it. *)
Theorem server_stops {B : Type} `{ByteQueue B} before after (a : t B) :
  ∃ a', waitForQuit (before ++ terminate :: after) a = Ok a' ∧
    EpollServer.terminate_ (epollServer_ a') = true ∧
    (∀ i th, EpollServer.netThreads_ (epollServer_ a') !! i = Some th →
       ∀ n waits, NetThread.run n waits th = Ok th) ∧
    (∀ alloc_ok visits h st nf,
       HandlerRun.run_loop alloc_ok visits h (st, (epollServer_ a', nf)) = Ok (st, (epollServer_ a', nf))).
Proof.
  assert (∀ a : t B, EpollServer.terminate_ (epollServer_ a) = true →
    EpollServer.terminate_ (epollServer_ (quit a)) = true ∧
    (∀ i th, EpollServer.netThreads_ (epollServer_ (quit a)) !! i = Some th →
       ∀ n waits, NetThread.run n waits th = Ok th)) as Hquit.
  { intros b Hb. unfold quit. rewrite Hb. cbn. split; [done|]. intros i th Hi n waits.
    apply list_lookup_fmap_Some in Hi as (th0 & -> & _). by destruct waits. }
  assert (∃ a', waitForQuit (before ++ terminate :: after) a = Ok (quit a') ∧
    EpollServer.terminate_ (epollServer_ a') = true) as (a' & Hw & Ht).
  { revert a. induction before as [|f before IH]; intros b; cbn [app waitForQuit];
      destruct (EpollServer.terminate_ (epollServer_ b)) eqn:Hb; try by exists b.
    - exists (terminate b).
      assert (EpollServer.terminate_ (epollServer_ (terminate b)) = true) as Htb.
      { unfold terminate, EpollServer.terminate. by rewrite Hb. }
      split; [|done]. destruct after; cbn [waitForQuit]; by rewrite Htb.
    - apply IH. }
  destruct (Hquit a' Ht) as [Ht' Hths]. exists (quit a'). split; [done|]. split; [done|]. split; [done|].
  intros alloc_ok visits h st nf. destruct visits; cbn; by rewrite Ht'.
Qed.

Lemma application_serves_witness :
  ∃ hs (a : t Buffer.t) h m' st s' w sp' w' x,
    start_server hello_initialize hello_config system_answers = Ok (hs, a) ∧
    HandlerRun.begin Scheduler.granted (ServantHandle.mk [] (Some 1%nat)) (manager a)
      (EpollServer.shared (epollServer_ a)) = Ok (h, m', st) ∧
    Rpc.take_client 8 false a_peer
      (epollServer_ a) = Ok s' ∧
    Rpc.session Assert ServantProxy.here Scheduler.granted 0 (Rpc.mk_route 0 0 0 1 9 h)
      [(Rpc.hello_answers, Rpc.hello_call)] (ServantProxy.proxy 0) (w, (s', (NodeF.init, st)))
      = Ok ([str "1:test:hi"], sp', (w', x)).
Proof.
  destruct (application_serves (B := Buffer.t) Scheduler.granted (λ _, eq_refl) (servant Servants.HelloImp) hello_config system_answers
    a_peer false 0 0 0 NodeF.init) as (hs & a & h & m' & st & s' & Hst & _ & Hi & Ha & Hsv & _);
    [reflexivity|discriminate..|reflexivity|].
  destruct (LoopQueue.new_spec (T := nat) 1000) as (Q & _ & HQ); [lia|].
  destruct (Rpc.session_spec Assert ServantProxy.here Scheduler.granted (λ _, eq_refl) 0 (Rpc.mk_route 0 0 0 1 9 h) Rpc.hello id 3
    [(Rpc.hello_answers, Rpc.hello_call)] (ServantProxy.proxy 0)
    (ServantProxy.two_threads Q Request.fresh) (s', (NodeF.init, st)) 0 [])
    as (sp' & w' & x & ps & H1 & _).
  - destruct (Rpc.hello_ready Q 4 HQ) as [Hu Hc]; [lia|]. split; [exact Hu|exact Hc].
  - lia.
  - exact Hsv.
  - split; [|exact I]. exact (Rpc.hello_fine 1).
  - intros i Hi'. cbn in Hi' |- *. rewrite lookup_insert_ne, lookup_singleton_ne by lia. done.
  - exists hs, a, h, m', st, s'. eexists _, sp', w', x.
    split; [exact Hst|]. split; [exact Hi|]. split; [exact Ha|exact H1].
Defined.

Lemma admin_requests_throw_witness :
  ∃ hs (a : t Buffer.t) h m', start_server hello_initialize hello_config system_answers = Ok (hs, a) ∧
    ServantHandle.init (ServantHandle.mk [] (Some 0%nat)) (manager a)
      (EpollServer.shared (epollServer_ a)) = Ok (h, m') ∧
    ServantHandle.handle h (ServantHandle.with_adapter 0 (ServantHandle.arrived false)) (epollServer_ a)
      = Raise BadFunctionCall.
Proof.
  destruct (admin_requests_throw (B := Buffer.t) (servant Servants.HelloImp) hello_config system_answers)
    as (hs & a & h & m' & Hst & _ & Hi & Hh); [reflexivity|discriminate..|].
  exists hs, a, h, m'. split; [exact Hst|]. split; [exact Hi|]. apply Hh. reflexivity.
Defined.

End Application.
