(* ===== verification/Server.v ===== *)
(** * Server: a server with one network thread and one handler, in any order

    Clients connect, send bytes and hang up, the handler's thread makes its passes
    and the network thread writes out what is queued for it: here these events
    follow each other in any order, with requests of many clients on their way at
    the same time.  [net] is the abstract server, a network of queues; the server
    of the other files refines it, and what the queues promise holds for it. *)

From S2P Require Import Prelude ByteQueue Buffer Monitor ThreadDeque Wire Message Connection Epoller.
From S2P Require Import BindAdapter NetThread EpollServer ServantManager Servants Scheduler RoundRobin ServantHandle.
From S2P Require Import HandlerRun Rpc Application.

Module Server.

(** ** The events *)

Inductive event :=
| Accepts (garbage : bool) (acc : NetThread.accept_result)
| Reads (uid : Z) (blocks requests : list bytes) (env : list Connection.send_result)
| HangsUp (uid events : Z) (reads : list Connection.read_result) (env : list Connection.send_result)
| Serves (now cur : Z) (notified : bool)
| Writes (envs : list (list Connection.send_result)).

Section server.
Context {B : Type} `{ByteQueue B}.
Context (alloc_ok : nat → bool) (maxIOVcount : nat) (h : ServantHandle.t) (lfd : Z).

Abbreviation server := (EpollServer.t B * (NodeF.t * Scheduler.t HandlerRun.task))%type.

(** An event of the network thread that epoll reports for connection [uid]. *)
Definition on_event (uid events : Z) (reads : list Connection.read_result)
    (env : list Connection.send_result) (s : EpollServer.t B) : outcome (EpollServer.t B) :=
  EpollServer.run_thread 0 (NetThread.processNet maxIOVcount (Epoller.mk_event uid events) reads env) s.

(** The [requests] that a read completes are not an input: the specification
    says which they are. *)
Definition step (ev : event) (x : server) : outcome server :=
  let '(s, (nf, st)) := x in
  match ev with
  | Accepts garbage acc => s ← Rpc.take_client lfd garbage acc s; Ok (s, (nf, st))
  | Reads uid blocks _ env =>
      s ← on_event uid Epoller.EPOLLIN (Connection.Rd <$> blocks) env s; Ok (s, (nf, st))
  | HangsUp uid events reads env => s ← on_event uid events reads env s; Ok (s, (nf, st))
  | Serves now cur notified =>
      '(st, (s, nf)) ← HandlerRun.tars_run alloc_ok (HandlerRun.mk_visit id now notified cur) h st (s, nf);
      Ok (s, (nf, st))
  | Writes envs => s ← EpollServer.run_thread 0 (NetThread.processPipe maxIOVcount envs) s; Ok (s, (nf, st))
  end.

Fixpoint run (evs : list event) (x : server) : outcome server :=
  match evs with [] => Ok x | ev :: evs => x ← step ev x; run evs x end.

End server.

(** ** The specification *)

(** What waits for the handler: a request of connection [uid], or the note that its
    client has left. *)
Inductive note :=
| Asks (uid : Z) (request : bytes)
| Left (uid : Z).

(** The descriptors of all clients so far, the [i]-th of which got the id [i]; for
    those that are connected, what has arrived of the next frame; the requests
    in the adapter's queue, those in coroutines of their own, and the responses in
    the network thread's queue and those that were sent, all with the ids of their
    connections. *)
Record net := mk {
  socks : list Z;
  parts : gmap Z bytes;
  queued : list note;
  taken : list (Z * bytes);
  answered : list (Z * bytes);
  sent : list (Z * bytes)
}.

Definition empty : net := mk [] ∅ [] [] [] [].

Definition question (n : note) : option (Z * bytes) :=
  match n with Asks uid request => Some (uid, request) | Left _ => None end.

Section specification.
Context (func : bytes → bytes).

Definition answer (x : Z * bytes) : Z * bytes := (x.1, func x.2).

(** One pass of the handler's scheduler: a hundred turns, one of which goes to
    [handleRequest] if it is reached, which takes up to a hundred notes. *)
Definition pass (st : net) : net :=
  let n := (99 - length (taken st))%nat in
  if decide (length (taken st) < 100)%nat then
    let news := omap question (take 100 (queued st)) in
    mk (socks st) (parts st) (drop 100 (queued st)) (drop n news)
       (answered st ++ (answer <$> taken st ++ take n news)) (sent st)
  else
    mk (socks st) (parts st) (queued st) (drop 100 (taken st))
       (answered st ++ (answer <$> take 100 (taken st))) (sent st).

(** The 2001st client, a frame that begins with a length between -5 and -1 and a
    response to a client that has left crash the server. *)
Definition spec_step (ev : event) (st : net) : outcome net :=
  match ev with
  | Accepts _ acc =>
      if 0 <? NetThread.acc_ret acc then
        if zlen (socks st) <? 2000 then
          Ok (mk (socks st ++ [NetThread.acc_ret acc]) (<[zlen (socks st) + 1 := []]> (parts st))
                 (queued st) (taken st) (answered st) (sent st))
        else Undef
      else Ok st
  | Reads uid blocks _ _ =>
      part ← deref (parts st !! uid);
      '(requests, rest) ← Connection.requests_in (part ++ concat blocks);
      Ok (mk (socks st) (<[uid := rest]> (parts st)) (queued st ++ (Asks uid <$> requests))
             (taken st) (answered st) (sent st))
  | HangsUp uid _ _ _ =>
      Ok (mk (socks st) (delete uid (parts st)) (queued st ++ [Left uid]) (taken st) (answered st) (sent st))
  | Serves _ _ _ => Ok (pass st)
  | Writes _ =>
      if decide (Forall (λ x, is_Some (parts st !! x.1)) (answered st)) then
        Ok (mk (socks st) (parts st) (queued st) (taken st) [] (sent st ++ answered st))
      else Undef
  end.

Fixpoint spec_run (evs : list event) (st : net) : outcome net :=
  match evs with [] => Ok st | ev :: evs => st ← spec_step ev st; spec_run evs st end.

(** What epoll and the kernel can do, and the bounds on the queues: events are for
    open connections, and a read may bring any bytes; [requests] are those that it
    completes, when it does not crash the server. *)
Definition allowed (ev : event) (st : net) : Prop :=
  match ev with
  | Reads uid blocks requests _ =>
      ∃ part, parts st !! uid = Some part ∧ Connection.chunks_ok blocks ∧
        zlen (part ++ concat blocks) ≤ bq_limit ∧
        ∀ reqs left, Connection.requests_in (part ++ concat blocks) = Ok (reqs, left) →
          reqs = requests ∧ zlen reqs < 2 ^ 31 - 1 ∧ zlen (queued st) + zlen reqs ≤ 2 ^ 62
  | HangsUp uid events reads _ =>
      is_Some (parts st !! uid) ∧ NetThread.hang_up events reads ∧ zlen (queued st) + 1 ≤ 2 ^ 62
  | Serves _ _ _ => zlen (answered st) + 100 < 2 ^ 64
  | Accepts _ _ | Writes _ => True
  end.

Fixpoint all_allowed (evs : list event) (st : net) : Prop :=
  match evs with
  | [] => True
  | ev :: evs =>
      allowed ev st ∧ match spec_step ev st with Ok st' => all_allowed evs st' | _ => True end
  end.

Lemma first_failing {X} (P : X → Prop) `{∀ x, Decision (P x)} (l : list X) :
  ¬ Forall P l → ∃ l1 x l2, l = l1 ++ x :: l2 ∧ Forall P l1 ∧ ¬ P x.
Proof.
  induction l as [|x l IH]; intros Hn; [by destruct Hn|].
  destruct (decide (P x)) as [Hx|Hx]; [|by exists [], x, l].
  destruct IH as (l1 & y & l2 & -> & Hl & Hy); [intros Hl; apply Hn; by constructor|].
  exists (x :: l1), y, l2. split; [done|]. split; [by constructor|done].
Qed.

(** The events that crash a server. *)
Definition fatal (ev : event) (st : net) : Prop :=
  match ev with
  | Accepts _ acc => 0 < NetThread.acc_ret acc ∧ 2000 ≤ zlen (socks st)
  | Reads uid blocks _ _ => ∃ part, parts st !! uid = Some part ∧ Connection.negative_length (part ++ concat blocks)
  | Writes _ => ∃ uid response, (uid, response) ∈ answered st ∧ parts st !! uid = None
  | HangsUp _ _ _ _ | Serves _ _ _ => False
  end.

Lemma spec_step_fatal ev st :
  allowed ev st → match spec_step ev st with Ok _ => ¬ fatal ev st | _ => fatal ev st end.
Proof.
  destruct ev as [garbage acc|uid blocks requests env|uid events reads env|now cur notified|envs];
    cbn [allowed spec_step fatal].
  - intros _. destruct (Z.ltb_spec 0 (NetThread.acc_ret acc)), (Z.ltb_spec (zlen (socks st)) 2000); lia.
  - intros (part & Hpart & _). rewrite Hpart. cbn [deref mbind outcome_bind].
    pose proof (Connection.requests_in_Ok (part ++ concat blocks)) as Hok.
    destruct (Connection.cut_negative (S (length (part ++ concat blocks))) (part ++ concat blocks))
      as [(reqs & left & Hr)|[Hneg Hr]]; fold (Connection.requests_in (part ++ concat blocks)) in Hr.
    + rewrite Hr. intros (p & [= <-] & Hp). by apply Hok; [eexists _, _|].
    + destruct Hr as [-> | ->]; by exists part.
  - by intros _ [].
  - by intros _ [].
  - intros _. destruct (decide _) as [Hall|Hsome].
    + intros (uid & r & Hin & Hno). rewrite Forall_forall in Hall. specialize (Hall _ Hin).
      cbn in Hall. rewrite Hno in Hall. by destruct Hall.
    + apply first_failing in Hsome as (l1 & [uid r] & l2 & -> & _ & Hno); [|intros y; apply _].
      exists uid, r. split; [apply elem_of_app; right; left|]. cbn in Hno.
      destruct (parts st !! uid); [by destruct Hno|done].
Qed.

Lemma spec_run_fatal evs : ∀ st, all_allowed evs st →
  (∀ st', spec_run evs st ≠ Ok st') ↔
  ∃ evs1 ev evs2 st1, evs = evs1 ++ ev :: evs2 ∧ spec_run evs1 st = Ok st1 ∧ fatal ev st1.
Proof.
  induction evs as [|ev evs IH]; intros st Hall.
  { split; [by intros Hno; destruct (Hno st)|]. by intros ([|??] & ? & ? & ? & ? & _). }
  destruct Hall as [Hal Hall]. pose proof (spec_step_fatal ev st Hal) as Hf. cbn [spec_run].
  destruct (spec_step ev st) as [st1| | | |] eqn:Hst; cbn [mbind outcome_bind].
  { rewrite (IH st1 Hall). split.
    - intros (evs1 & ev' & evs2 & st2 & -> & Hr & Hf'). exists (ev :: evs1), ev', evs2, st2.
      cbn [spec_run]. by rewrite Hst.
    - intros ([|e evs1] & ev' & evs2 & st2 & Heq & Hr & Hf'); injection Heq as <- ->.
      + by injection Hr as <-.
      + cbn [spec_run] in Hr. rewrite Hst in Hr. by exists evs1, ev', evs2, st2. }
  all: split; [intros _|done]; by exists [], ev, evs, st.
Qed.

(** *** What the queues promise *)

(** The requests that the clients have sent, in the order of their arrival. *)
Definition asked (evs : list event) : list (Z * bytes) :=
  concat ((λ ev, match ev with Reads uid _ requests _ => pair uid <$> requests | _ => [] end) <$> evs).

(** The responses that are still to come, and all of them, in the order in which
    the network thread sends them. *)
Definition waiting (st : net) : list (Z * bytes) :=
  answered st ++ (answer <$> taken st ++ omap question (queued st)).
Definition due (st : net) : list (Z * bytes) := sent st ++ waiting st.

Lemma omap_asks uid (requests : list bytes) : omap question (Asks uid <$> requests) = pair uid <$> requests.
Proof. induction requests as [|r rs IH]; [done|]. cbn. by rewrite <- IH. Qed.

Lemma pass_frame st :
  socks (pass st) = socks st ∧ parts (pass st) = parts st ∧ sent (pass st) = sent st.
Proof. unfold pass. by destruct (decide _). Qed.

Lemma pass_waiting st : waiting (pass st) = waiting st.
Proof.
  unfold pass, waiting. destruct (decide _) as [Hlt|Hge]; cbn [sent answered taken queued].
  - set (news := omap question (take 100 (queued st))). set (n := (99 - _)%nat).
    assert (omap question (queued st) = take n news ++ drop n news ++ omap question (drop 100 (queued st))) as ->.
    { rewrite app_assoc, take_drop. unfold news. by rewrite <- omap_app, take_drop. }
    by rewrite !fmap_app, <- !app_assoc.
  - assert (answer <$> taken st = (answer <$> take 100 (taken st)) ++ (answer <$> drop 100 (taken st))) as Ht.
    { by rewrite <- fmap_app, take_drop. }
    by rewrite !fmap_app, Ht, <- !app_assoc.
Qed.

Lemma pass_due st : due (pass st) = due st.
Proof. unfold due. rewrite pass_waiting. by destruct (pass_frame st) as (_ & _ & ->). Qed.

(** The requests of a read are those that its bytes complete. *)
Definition announced (ev : event) (st : net) : Prop :=
  match ev with
  | Reads uid blocks requests _ =>
      ∀ part reqs left, parts st !! uid = Some part →
        Connection.requests_in (part ++ concat blocks) = Ok (reqs, left) → reqs = requests
  | _ => True
  end.

Lemma allowed_announced ev st : allowed ev st → announced ev st.
Proof.
  destruct ev as [|uid blocks requests env|?|?|?]; try done. intros (part & Hpart & _ & _ & Hreqs) part' reqs left Hp Hr.
  assert (part' = part) as -> by congruence. by apply (Hreqs reqs left).
Qed.

Lemma step_due ev st st' :
  announced ev st → spec_step ev st = Ok st' → due st' = due st ++ (answer <$> asked [ev]).
Proof.
  destruct ev as [garbage acc|uid blocks requests env|uid events reads env|now cur notified|envs];
    cbn [announced spec_step]; unfold asked; cbn [fmap list_fmap concat]; rewrite app_nil_r; intros Hal.
  - destruct (0 <? _); [destruct (_ <? _)|]; intros Hs; try discriminate; by injection Hs as <-.
  - intros (part & Hpart%deref_Ok & Hs)%bind_Ok. apply bind_Ok in Hs as ([reqs left] & Hr & Hs). injection Hs as <-.
    rewrite (Hal part reqs left Hpart Hr). unfold due, waiting. cbn [sent answered taken queued].
    by rewrite omap_app, omap_asks, !fmap_app, <- !app_assoc.
  - intros [= <-]. unfold due, waiting. cbn [sent answered taken queued]. rewrite omap_app. cbn. by rewrite app_nil_r.
  - intros [= <-]. apply pass_due.
  - destruct (decide _); [|done]. intros [= <-]. unfold due, waiting. cbn [sent answered taken queued].
    by rewrite <- app_assoc.
Qed.

Lemma run_due evs : ∀ st st',
  all_allowed evs st → spec_run evs st = Ok st' → due st' = due st ++ (answer <$> asked evs).
Proof.
  induction evs as [|ev evs IH]; intros st st' Hall Hr; cbn [spec_run] in Hr.
  { injection Hr as ->. by rewrite app_nil_r. }
  destruct Hall as [Hal Hall].
  apply bind_Ok in Hr as (st1 & H1 & Hr). rewrite H1 in Hall.
  rewrite (IH _ _ Hall Hr), (step_due _ _ _ (allowed_announced _ _ Hal) H1), <- app_assoc, <- fmap_app.
  unfold asked. rewrite fmap_cons. cbn [concat fmap list_fmap]. by rewrite app_nil_r.
Qed.

(** The descriptors of the clients that have connected. *)
Definition accepted (evs : list event) : list Z :=
  omap (λ ev, match ev with
              | Accepts _ acc => if 0 <? NetThread.acc_ret acc then Some (NetThread.acc_ret acc) else None
              | _ => None
              end) evs.

Lemma run_socks evs : ∀ st st', spec_run evs st = Ok st' → socks st' = socks st ++ accepted evs.
Proof.
  induction evs as [|ev evs IH]; intros st st' Hr; cbn [spec_run] in Hr.
  { injection Hr as ->. by rewrite app_nil_r. }
  apply bind_Ok in Hr as (st1 & H1 & Hr). rewrite (IH _ _ Hr). unfold accepted. cbn [omap list_omap].
  destruct ev; cbn [spec_step] in H1.
  - destruct (0 <? _); [|by injection H1 as ->]. destruct (_ <? 2000); [|done]. injection H1 as <-.
    cbn [socks]. by rewrite <- app_assoc.
  - apply bind_Ok in H1 as (part & _ & H1). apply bind_Ok in H1 as ([reqs left] & _ & H1). by injection H1 as <-.
  - by injection H1 as <-.
  - injection H1 as <-. by destruct (pass_frame st) as (-> & _).
  - destruct (decide _); [|done]. by injection H1 as <-.
Qed.

(** *** Nothing waits for ever *)

Definition pending (st : net) : nat := length (taken st) + length (queued st).

Lemma length_omap_le {X Y} (f : X → option Y) (l : list X) : (length (omap f l) ≤ length l)%nat.
Proof. induction l as [|x l IH]; [done|]. cbn. destruct (f x); cbn; lia. Qed.

Lemma pass_pending st :
  (pending (pass st) ≤ pending st - 99)%nat ∧ (length (answered (pass st)) ≤ length (answered st) + 100)%nat.
Proof.
  unfold pass, pending. destruct (decide _) as [Hlt|Hge]; cbn [taken queued answered].
  - pose proof (length_omap_le question (take 100 (queued st))) as Hlen. rewrite length_take in Hlen.
    rewrite length_app, length_fmap, length_app, length_take, !length_drop. lia.
  - rewrite length_app, length_fmap, length_take, length_drop. lia.
Qed.

(** The passes of the handler [vs], and then the network thread writes. *)
Definition passes (vs : list (Z * Z * bool)) (envs : list (list Connection.send_result)) : list event :=
  ((λ v, Serves v.1.1 v.1.2 v.2) <$> vs) ++ [Writes envs].

Lemma passes_drain vs envs : ∀ st,
  (pending st ≤ 99 * length vs)%nat → zlen (answered st) + 100 * zlen vs < 2 ^ 64 →
  Forall (λ x, is_Some (parts st !! x.1)) (waiting st) →
  all_allowed (passes vs envs) st ∧
  spec_run (passes vs envs) st = Ok (mk (socks st) (parts st) [] [] [] (due st)).
Proof.
  unfold passes. induction vs as [|v vs IH]; intros st Hp Hlen Hw.
  - unfold pending in Hp. cbn [length] in Hp. unfold due, waiting in *.
    assert (taken st = [] ∧ queued st = []) as [Ht Hq]
      by (destruct (taken st), (queued st); cbn in Hp; done || lia).
    rewrite Ht, Hq in *. cbn in Hw |- *. rewrite app_nil_r in *. rewrite decide_True by done. by rewrite Ht, Hq.
  - destruct (pass_pending st) as [Hp' Hl']. destruct (pass_frame st) as (Hso & Hpa & Hse).
    destruct (IH (pass st)) as [Ha Hr]; [cbn [length] in Hp; lia|cbn [length] in Hlen; lia| |].
    { by rewrite pass_waiting, Hpa. }
    rewrite Hso, Hpa, pass_due in Hr. cbn [length] in Hlen. split; [|exact Hr].
    split; [cbn [allowed]; lia|exact Ha].
Qed.

Lemma all_allowed_app evs1 evs2 : ∀ st,
  all_allowed evs1 st → (∀ st', spec_run evs1 st = Ok st' → all_allowed evs2 st') →
  all_allowed (evs1 ++ evs2) st.
Proof.
  induction evs1 as [|ev evs1 IH]; intros st H1 H2; [by apply H2|]. destruct H1 as [Hev H1].
  split; [done|]. cbn [spec_run] in H2. destruct (spec_step ev st) as [st1| | | |]; try done. by apply IH.
Qed.

Lemma spec_run_app evs1 evs2 : ∀ st,
  spec_run (evs1 ++ evs2) st = (st ← spec_run evs1 st; spec_run evs2 st).
Proof.
  induction evs1 as [|ev evs1 IH]; intros st; [done|]. cbn [app spec_run].
  destruct (spec_step ev st); [apply IH|done..].
Qed.

End specification.

(** ** The server refines it *)

Section refinement.
Context {B : Type} `{ByteQueueLaws B}.
Context (alloc_ok : nat → bool) (maxIOVcount : nat) (h : ServantHandle.t) (lfd : Z) (func : bytes → bytes).
Hypothesis alloc_total : ∀ n, alloc_ok n = true.

(** The adapter, its name and its group. *)
Context (a : nat) (name : bytes) (gi : nat).

Abbreviation server := (EpollServer.t B * (NodeF.t * Scheduler.t HandlerRun.task))%type.
Implicit Types (s : EpollServer.t B) (th : NetThread.t B) (c : Connection.t B) (st : net).

(** The descriptor of the client that got the id [uid], and what [::send] is
    called with for the responses [l]. *)
Definition descriptor (fds : list Z) (uid : Z) : Z := default 0 (fds !! Z.to_nat (uid - 1)).

Definition on_wire (fds : list Z) (l : list (Z * bytes)) : list (Z * bytes) :=
  (λ x, (descriptor fds x.1, x.2)) <$> filter (λ x, x.2 ≠ []) l.

(** An id that was given to one of the clients. *)
Definition known (fds : list Z) (uid : Z) : Prop := 1 ≤ uid ≤ zlen fds.

(** What does not change: the thread, the adapter and the handler. *)
Record base s th : Prop := {
  b_single : EpollServer.single s th;
  b_ok : NetThread.ok th;
  b_running : NetThread.terminate_ th = false;
  b_name : BindAdapter.name_ <$> NetThread.adapters (EpollServer.shared s) !! a = Some name;
  b_listener : NetThread.listeners_ th !! lfd = Some (Some a);
  b_handler : ServantHandle.handleGroup_ h = Some gi;
  b_group : ∃ g, NetThread.groups (EpollServer.shared s) !! gi = Some g ∧ HandleGroup.adapters g = [(name, a)];
  b_func : StringMap.find name (ServantHandle.servants_ h) = Some (Some func)
}.

(** The connections: [parts] has those that are open. *)
Definition open_as th (fds : list Z) (parts : gmap Z bytes) : Prop :=
  zlen (NetThread.free_ th) = 2000 - zlen fds ∧
  ∀ uid, match parts !! uid with
         | Some part => ∃ n c, NetThread.live uid n c th ∧ known fds uid ∧
             Connection.fd_ c = descriptor fds uid ∧ Connection.bindAdapter_ c = Some a ∧
             bq_repr (Connection.recvBuffer_ c) (Some <$> part)
         | None => ∀ n, NetThread.connectionUids_ th !! uid ≠ Some (Some n)
         end.

Definition says (fds : list Z) (m : RecvData.tagRecvData) (n : note) : Prop :=
  known fds (RecvData.uid m) ∧
  match n with
  | Asks uid request => RecvData.closed m = false ∧ RecvData.uid m = uid ∧ RecvData.buffer m = request
  | Left uid => RecvData.closed m = true ∧ RecvData.uid m = uid
  end.

Definition asks (fds : list Z) (m : RecvData.tagRecvData) (x : Z * bytes) : Prop :=
  RecvData.adapter m = Some a ∧ known fds (RecvData.uid m) ∧ RecvData.uid m = x.1 ∧ RecvData.buffer m = x.2.

Definition queue_is s (fds : list Z) (q : list note) : Prop :=
  ∃ msgs, ServantHandle.holds (EpollServer.shared s) a msgs ∧ Forall2 (says fds) msgs q.

Definition answers_are th (fds : list Z) (l : list (Z * bytes)) : Prop :=
  Forall (λ x, known fds x.1) l ∧
  ∃ rs, ThreadDeque.deque_ (NetThread.sendBuffer_ th) = ((λ x, NetThread.response x.1 x.2) <$> rs) ∧
    (λ x, (x.1, x.2.1)) <$> rs = l.

Record models_at th (x : server) st : Prop := {
  m_base : base x.1 th;
  m_open : open_as th (socks st) (parts st);
  m_queue : queue_is x.1 (socks st) (queued st);
  m_taken : ∃ P, HandlerRun.waiting x.2.2 P ∧ Forall2 (asks (socks st)) P (taken st);
  m_answered : answers_are th (socks st) (answered st);
  m_sent : NetThread.sent th = on_wire (socks st) (sent st);
  m_known : Forall (λ x, known (socks st) x.1) (sent st)
}.

Definition models (x : server) st : Prop := ∃ th, models_at th x st.

(** *** Serving *)

Lemma handle_batch s th nf rs xs fds l :
  base s th → Forall2 (asks fds) rs xs → answers_are th fds l → zlen l + zlen xs < 2 ^ 64 →
  ∃ s' th', HandlerRun.handle_each h rs (s, nf) = Ok (s', nf) ∧ base s' th' ∧
    answers_are th' fds (l ++ (answer func <$> xs)) ∧
    EpollServer.shared s' = EpollServer.shared s ∧ NetThread.sent th' = NetThread.sent th ∧
    NetThread.same_conns th th'.
Proof.
  intros Hb Hrs [Hl (bs & Hd & Hbs)] Hlen. destruct Hb as [Hs Hok Ht Hname Hlis Hh Hg Hf].
  pose proof Hname as (ad & Had & Hadn)%fmap_Some. pose proof (Forall2_length _ _ _ Hrs) as Hlr.
  destruct (ServantHandle.handle_all_spec h func a name rs s th ad Hs Hok Ht Had)
    as (s' & th' & Hall & Hs' & Hok' & Hse & Ht' & Hsh & Hd' & Hc); [done|done| | |].
  { rewrite Hd, length_fmap, Hlr. rewrite <- Hbs, length_fmap in Hlen. exact Hlen. }
  { eapply Forall2_Forall_l; [exact Hrs|]. apply Forall_true. by intros x m []. }
  assert (EpollServer.shared s' = EpollServer.shared s) as Hss
    by (by rewrite <- (EpollServer.single_shared _ _ Hs'), Hsh, (EpollServer.single_shared _ _ Hs)).
  exists s', th'. split; [by apply HandlerRun.handle_all_each|]. split; [|split; [|done]].
  - split; try done; rewrite ?Hss; try done. by rewrite (NetThread.same_listeners _ _ Hc).
  - split.
    + apply Forall_app. split; [done|]. apply Forall_fmap.
      eapply Forall2_Forall_r; [exact Hrs|]. apply Forall_true. intros m x (_ & Hk & Hu & _). rewrite Hu in Hk. exact Hk.
    + exists (bs ++ ((λ r, (RecvData.uid r, ServantHandle.answer func r)) <$> rs)).
      rewrite Hd', Hd, !fmap_app, <- !list_fmap_compose, Hbs. split; [done|]. f_equal.
      clear -Hrs. induction Hrs as [|m x rs xs (_ & _ & Hu & Hb) _ IH]; [done|].
      rewrite !fmap_cons, IH. f_equal. unfold answer, compose. cbn. by rewrite Hu, Hb.
Qed.

Lemma questions_asked fds msgs q k :
  Forall2 (says fds) msgs q → Forall2 (asks fds) (ServantHandle.requests a k msgs) (omap question (take k q)).
Proof.
  intros Hq. unfold ServantHandle.requests. apply (Forall2_take _ _ _ k) in Hq.
  induction Hq as [|m n msgs' q' [Hk Hm] _ IH]; [done|].
  rewrite filter_cons. destruct n as [uid request|uid]; destruct Hm as [Hc Hm]; rewrite Hc.
  - destruct Hm as [<- <-]. cbn [omap list_omap question]. rewrite decide_True by done.
    rewrite fmap_cons. by constructor.
  - rewrite decide_False by done. exact IH.
Qed.

Lemma take_batch s th nf now cur notified fds q :
  base s th → queue_is s fds q →
  ∃ created s' nf' sh,
    HandlerRun.take_requests (HandlerRun.mk_visit id now notified cur) false h (s, nf) = Ok (created, (s', nf')) ∧
    base s' (NetThread.set_shared sh th) ∧ Forall2 (asks fds) created (omap question (take 100 q)) ∧
    queue_is s' fds (drop 100 q).
Proof.
  intros [Hs Hok Ht Hname Hlis Hh (g & Hg & Hgn) Hf] (msgs & Hq & Hm).
  destruct (ServantHandle.requests_reach_handler s th msgs a name gi g h notified cur nf Hs Hok Hq Hname
    Hh Hg Hgn) as (sh & nf' & Hr & Hs2 & Hok2 & Hname2 & Hq2 & g2 & Hg2 & Hgn2).
  unfold HandlerRun.take_requests. cbn [HandlerRun.notified HandlerRun.cur]. rewrite Hr.
  cbn [mbind outcome_bind]. eexists _, _, _, sh. split; [done|]. split; [|split].
  - split; try done. by exists g2.
  - by apply questions_asked.
  - exists (drop 100 msgs). split; [exact Hq2|]. by apply Forall2_drop.
Qed.

Lemma open_same th th' fds parts :
  NetThread.same_conns th th' → open_as th fds parts → open_as th' fds parts.
Proof.
  intros Hs [Hf Hp]. split; [by rewrite (NetThread.same_free _ _ Hs)|]. intros uid. specialize (Hp uid).
  destruct (parts !! uid) as [part|].
  - destruct Hp as (n & c & Hl & Hp). exists n, c. split; [by apply (NetThread.same_conns_live th)|exact Hp].
  - by rewrite (NetThread.same_uids _ _ Hs).
Qed.

Lemma queue_same s s' fds q :
  EpollServer.shared s' = EpollServer.shared s → queue_is s fds q → queue_is s' fds q.
Proof. unfold queue_is. by intros ->. Qed.

(** What a pass does, before it is known what becomes of the scheduler. *)
Lemma serve_pass s th nf P st now cur notified :
  base s th → open_as th (socks st) (parts st) → queue_is s (socks st) (queued st) →
  Forall2 (asks (socks st)) P (taken st) → answers_are th (socks st) (answered st) →
  zlen (answered st) + 100 < 2 ^ 64 →
  ∃ P' s' nf' th', HandlerRun.serve (HandlerRun.mk_visit id now notified cur) h P (s, nf) = Ok (P', (s', nf')) ∧
    base s' th' ∧ open_as th' (socks st) (parts st) ∧ queue_is s' (socks st) (queued (pass func st)) ∧
    Forall2 (asks (socks st)) P' (taken (pass func st)) ∧
    answers_are th' (socks st) (answered (pass func st)) ∧ NetThread.sent th' = NetThread.sent th.
Proof.
  intros Hb Ho Hq HP Ha Hlen. unfold HandlerRun.serve, pass. rewrite (Forall2_length _ _ _ HP).
  destruct (decide _) as [Hlt|Hge]; cbn [queued taken answered].
  - destruct (handle_batch s th nf P (taken st) (socks st) (answered st) Hb HP Ha)
      as (s1 & th1 & -> & Hb1 & Ha1 & Hsh1 & Hse1 & Hc1); [lia|]. cbn [mbind outcome_bind].
    destruct (take_batch s1 th1 nf now cur notified (socks st) (queued st) Hb1 (queue_same _ _ _ _ Hsh1 Hq))
      as (created & s2 & nf' & sh & -> & Hb2 & Hcr & Hq2). cbn [mbind outcome_bind].
    set (news := omap question (take 100 (queued st))) in *. set (n := (99 - length (taken st))%nat).
    assert (length created ≤ 100)%nat as Hnews.
    { rewrite (Forall2_length _ _ _ Hcr). unfold news. etrans; [apply length_omap_le|].
      rewrite length_take. lia. }
    rewrite (take_ge created) by (change (Z.to_nat _) with 203%nat; lia).
    destruct (handle_batch s2 (NetThread.set_shared sh th1) nf' (take n created) (take n news) (socks st)
      (answered st ++ (answer func <$> taken st)) Hb2) as (s3 & th3 & -> & Hb3 & Ha3 & Hsh3 & Hse3 & Hc3).
    { by apply Forall2_take. }
    { exact Ha1. }
    { rewrite length_app, length_fmap, length_take. lia. }
    cbn [mbind outcome_bind]. exists (drop n created), s3, nf', th3. split; [done|]. split; [done|].
    split; [|split; [|split; [|split]]].
    + apply (open_same _ _ _ _ Hc3). by apply (open_same _ _ _ _ Hc1) in Ho.
    + by apply (queue_same s2).
    + by apply Forall2_drop.
    + by rewrite fmap_app, app_assoc.
    + by rewrite Hse3, <- Hse1.
  - destruct (handle_batch s th nf (take 100 P) (take 100 (taken st)) (socks st) (answered st) Hb)
      as (s1 & th1 & -> & Hb1 & Ha1 & Hsh1 & Hse1 & Hc1); [by apply Forall2_take|done| |].
    { rewrite length_take. lia. }
    cbn [mbind outcome_bind]. exists (drop 100 P), s1, nf, th1. split; [done|]. split; [done|].
    split; [by apply (open_same th)|]. split; [by apply (queue_same s)|]. split; [by apply Forall2_drop|done].
Qed.

Lemma serves_spec x st now cur notified :
  models x st → allowed (Serves now cur notified) st →
  ∃ x', step alloc_ok maxIOVcount h lfd (Serves now cur notified) x = Ok x' ∧ models x' (pass func st).
Proof.
  destruct x as [s [nf sc]]. intros (th & [Hb Ho Hq (P & Hw & HP) Ha Hse Hk]) Hlen. cbn [fst snd] in *.
  destruct (serve_pass s th nf P st now cur notified Hb Ho Hq HP Ha Hlen)
    as (P' & s' & nf' & th' & Hs & Hb' & Ho' & Hq' & HP' & Ha' & Hse').
  pose proof (HandlerRun.tars_run_serve alloc_ok alloc_total (HandlerRun.mk_visit id now notified cur) h sc P
    (s, nf) Hw) as Ht.
  apply (outcome_rel_Ok _ _ _ _ Ht) in Hs as ([sc' w'] & Hr & Hw' & Hwait). cbn in Hw', Hwait. subst w'.
  cbn [step]. rewrite Hr. cbn [mbind outcome_bind]. eexists. split; [done|]. exists th'.
  destruct (pass_frame func st) as (Hso & Hpa & Hst).
  split; rewrite ?Hso, ?Hpa, ?Hst; cbn [fst snd]; try done.
  - by exists P'.
  - by rewrite Hse', Hse.
Qed.

(** *** The network thread *)

Lemma base_net s s' th th' :
  base s th → EpollServer.single s' th' → NetThread.ok th' →
  NetThread.terminate_ th' = NetThread.terminate_ th → NetThread.listeners_ th' = NetThread.listeners_ th →
  BindAdapter.name_ <$> NetThread.adapters (NetThread.shared th') !! a =
    BindAdapter.name_ <$> NetThread.adapters (NetThread.shared th) !! a →
  BindAdapter.same_groups (NetThread.groups (NetThread.shared th)) (NetThread.groups (NetThread.shared th')) →
  base s' th'.
Proof.
  intros [Hs Hok Ht Hname Hlis Hh (g & Hg & Hgn) Hf] Hs' Hok' Ht' Hl' Hn' Hgs.
  rewrite (EpollServer.single_shared _ _ Hs) in Hn', Hgs. rewrite (EpollServer.single_shared _ _ Hs') in Hn', Hgs.
  split; try done; [congruence|by rewrite Hn'|by rewrite Hl'|].
  specialize (Hgs gi). rewrite Hg in Hgs. cbn in Hgs. apply fmap_Some in Hgs as (g' & ? & Hgn').
  exists g'. split; [done|congruence].
Qed.

(** A queue that got some more. *)
Lemma queue_more s s' th fds q msgs q' :
  EpollServer.single s' th → queue_is s fds q →
  (∀ l, NetThread.queue (NetThread.adapters (EpollServer.shared s)) a l →
     NetThread.queue (NetThread.adapters (NetThread.shared th)) a (l ++ (Some <$> msgs))) →
  Forall2 (says fds) msgs q' → queue_is s' fds (q ++ q').
Proof.
  intros Hs' (msgs0 & Hq & Hm) Hmore Hm'. exists (msgs0 ++ msgs). split; [|by apply Forall2_app].
  unfold ServantHandle.holds. rewrite <- (EpollServer.single_shared _ _ Hs'), fmap_app. by apply Hmore.
Qed.

Lemma reads_spec x st uid blocks requests env :
  models x st → allowed (Reads uid blocks requests env) st →
  outcome_rel models (step alloc_ok maxIOVcount h lfd (Reads uid blocks requests env) x)
    (spec_step func (Reads uid blocks requests env) st).
Proof.
  destruct x as [s [nf sc]]. intros (th & [Hb [Hfree Ho] Hq Hta [Hka Han] Hse Hk]).
  intros (part & Hpart & Hcs & Hlim & Hreqs). cbn [fst snd] in *.
  pose proof (Ho uid) as Hlive. rewrite Hpart in Hlive.
  destruct Hlive as (n & c & Hlive & Hku & Hfd & Hba & Hbuf). pose proof Hb as [Hs Hok _ _ _ _ _ _].
  destruct (NetThread.ok_live _ _ _ _ Hok Hlive) as [[Hcu Hcl _ _ _] _].
  destruct (NetThread.lookup_live _ _ _ _ Hok Hlive) as [Hrange _].
  pose proof (Connection.recv_exact (Connection.Rd <$> blocks) c part Hbuf Hcl) as Hex.
  unfold Connection.received in Hex. rewrite (Connection.read_data_chunks _ Hcs) in Hex. specialize (Hex Hlim).
  cbn [step spec_step]. unfold on_event. rewrite Hpart. cbn [deref mbind outcome_bind].
  pose proof (NetThread.processNet_crashes maxIOVcount (Epoller.mk_event uid Epoller.EPOLLIN)
    (Connection.Rd <$> blocks) env th uid n c Hok Hlive (u32_small uid ltac:(lia)) eq_refl) as Hcr.
  destruct (Connection.requests_in _) as [[reqs left]| | | |];
    destruct (Connection.recv _ c) as [[[ret msgs] c1]| | | |] eqn:Hrecv; cbn [mbind outcome_bind] in Hex; try done.
  2-5: by rewrite (EpollServer.run_thread_single s th _ Hs), Hcr.
  destruct Hex as (-> & -> & rb & -> & Hrb). destruct (Hreqs reqs left eq_refl) as (-> & Hnum & Hroom).
  rewrite <- (length_fmap (Connection.recv_msg c)) in Hrecv, Hnum. clear Hcr Hreqs.
  pose proof Hq as (msgs0 & Hq0 & Hm0). unfold ServantHandle.holds in Hq0.
  rewrite <- (EpollServer.single_shared _ _ Hs) in Hq0. pose proof (Forall2_length _ _ _ Hm0) as Hlen0.
  destruct (NetThread.processNet_reads maxIOVcount (Epoller.mk_event uid Epoller.EPOLLIN) _ env th uid n c _ _ a _
    Hok Hlive (u32_small uid ltac:(lia)) eq_refl Hrecv Hnum Hba Hq0) as (m' & gs & Hp & Hok' & Hlive' & Hq' & Hn' & Hgs).
  { rewrite !length_fmap. lia. }
  destruct (EpollServer.run_single s th _ _ Hs Hp) as (s' & Hr & Hs' & _).
  rewrite Hr. cbn [mbind outcome_bind outcome_rel].
  eexists. split; cbn [fst snd socks parts queued taken answered sent].
  - apply (base_net s _ th _ Hb Hs'); try done.
  - split; [exact Hfree|]. intros u. destruct (decide (u = uid)) as [->|Hne].
    + rewrite lookup_insert_eq. by exists n, (Connection.set_recvBuffer rb c).
    + rewrite lookup_insert_ne by done. specialize (Ho u). destruct (parts st !! u) as [part'|]; [|exact Ho].
      destruct Ho as (n' & c' & Hl' & Hrest). exists n', c'. split; [|exact Hrest].
      destruct (NetThread.keeps_put th uid n c (Connection.set_recvBuffer rb c) Hok Hlive) as [_ _ Hkl].
      by apply (Hkl u n' c').
  - eapply queue_more; [exact Hs'|exact Hq| |].
    + intros l Hl. rewrite <- (EpollServer.single_shared _ _ Hs) in Hl.
      rewrite (NetThread.queue_inj _ _ _ _ Hl Hq0). exact Hq'.
    + apply Forall2_fmap_2, Forall_Forall2_diag, Forall_true. intros req. split; [by cbn; rewrite Hcu|done].
  - exact Hta.
  - done.
  - exact Hse.
  - exact Hk.
Qed.

Lemma hangs_up_spec x st uid events reads env :
  models x st → allowed (HangsUp uid events reads env) st →
  outcome_rel models (step alloc_ok maxIOVcount h lfd (HangsUp uid events reads env) x)
    (spec_step func (HangsUp uid events reads env) st).
Proof.
  destruct x as [s [nf sc]]. intros (th & [Hb [Hfree Ho] Hq Hta [Hka Han] Hse Hk]).
  intros ([part Hpart] & Hup & Hroom). cbn [fst snd] in *.
  pose proof (Ho uid) as Hlive. rewrite Hpart in Hlive.
  destruct Hlive as (n & c & Hlive & Hku & Hfd & Hba & Hbuf). pose proof Hb as [Hs Hok _ _ _ _ _ _].
  destruct (NetThread.ok_live _ _ _ _ Hok Hlive) as [[Hcu _ _ _ _] _].
  destruct (NetThread.lookup_live _ _ _ _ Hok Hlive) as [Hrange _].
  pose proof Hq as (msgs0 & Hq0 & Hm0). unfold ServantHandle.holds in Hq0.
  rewrite <- (EpollServer.single_shared _ _ Hs) in Hq0. pose proof (Forall2_length _ _ _ Hm0) as Hlen0.
  destruct (NetThread.processNet_hang_up maxIOVcount (Epoller.mk_event uid events) reads env th uid n c a Hok
    Hlive (u32_small uid ltac:(lia)) Hup Hba) as (ct & m' & gs & e & Hp & Hok' & Hgr & Hgs & Hkeep).
  { intros l Hl. rewrite (NetThread.queue_inj _ _ _ _ Hl Hq0), length_fmap. lia. }
  destruct (EpollServer.run_single s th _ _ Hs Hp) as (s' & Hr & Hs' & _).
  cbn [step spec_step]. unfold on_event. rewrite Hr. cbn [mbind outcome_bind outcome_rel].
  eexists. split; cbn [fst snd socks parts queued taken answered sent].
  - apply (base_net s _ th _ Hb Hs'); try done. apply (NetThread.grown_name _ _ _ _ Hgr).
  - split; [exact Hfree|]. intros u. destruct (decide (u = uid)) as [->|Hne].
    + rewrite lookup_delete_eq. intros n'. cbn. by rewrite lookup_delete_eq.
    + rewrite lookup_delete_ne by done. specialize (Ho u). destruct (parts st !! u) as [part'|].
      * destruct Ho as (n' & c' & Hl' & Hrest). exists n', c'. split; [|exact Hrest].
        by apply (NetThread.keeps_live _ _ _ Hkeep).
      * intros n'. cbn. by rewrite lookup_delete_ne.
  - eapply (queue_more s s' _ (socks st) (queued st) [NetThread.close_msg c ct]); [exact Hs'|done| |].
    + intros l Hl. rewrite <- (EpollServer.single_shared _ _ Hs) in Hl.
      exact (NetThread.grown_queue _ _ _ _ Hgr l Hl).
    + repeat constructor; cbn; rewrite Hcu; apply Hku || done.
  - exact Hta.
  - done.
  - exact Hse.
  - exact Hk.
Qed.

(** A new descriptor changes nothing for the ids that have one. *)
Lemma known_app fds fd uid : known fds uid → known (fds ++ [fd]) uid.
Proof. unfold known. rewrite length_app. cbn [length]. lia. Qed.

Lemma descriptor_app fds fd uid : known fds uid → descriptor (fds ++ [fd]) uid = descriptor fds uid.
Proof. intros [? ?]. unfold descriptor. rewrite lookup_app_l by lia. done. Qed.

Lemma on_wire_app fds fd l : Forall (λ x, known fds x.1) l → on_wire (fds ++ [fd]) l = on_wire fds l.
Proof.
  unfold on_wire. induction 1 as [|x l Hx _ IH]; [done|].
  rewrite filter_cons. destruct (decide _); [|done]. by rewrite !fmap_cons, IH, descriptor_app.
Qed.

(** The relation for one more client, whose id is new. *)
Lemma open_accept th th' st acc uid n c :
  open_as th (socks st) (parts st) → NetThread.ok th → NetThread.ok th' → NetThread.free_ th ≠ [] →
  NetThread.free_ th' = tail (NetThread.free_ th) → head (NetThread.free_ th) = Some uid →
  (∀ n, NetThread.connectionUids_ th !! uid ≠ Some (Some n)) → NetThread.live uid n c th' →
  Connection.fd_ c = NetThread.acc_ret acc → Connection.bindAdapter_ c = Some a →
  NetThread.connectionUids_ th' = <[uid := Some n]> (NetThread.connectionUids_ th) →
  (∀ u n c, NetThread.live u n c th → NetThread.live u n c th') →
  (∀ n c, NetThread.conns th' !! n = Some c →
     NetThread.conns th !! n = Some c ∨ Connection.recvBuffer_ c = bq_init) →
  open_as th' (socks st ++ [NetThread.acc_ret acc]) (<[zlen (socks st) + 1 := []]> (parts st)).
Proof.
  intros [Hfree Ho] Hok Hok' Hnil Hf' Huid Hnew Hlive Hcfd Hcad Hu' Hkeep Hbuf.
  assert (0 < zlen (NetThread.free_ th)) as Hpos by (destruct (NetThread.free_ th); [done|cbn; lia]).
  assert (uid = zlen (socks st) + 1) as ->.
  { destruct (NetThread.ok_free _ Hok) as [Hseq _]. rewrite Hfree in Hseq, Hpos.
    rewrite Hseq, seqZ_cons in Huid by lia. injection Huid. lia. }
  split.
  { rewrite Hf', length_app. cbn [length]. destruct (NetThread.free_ th); cbn in *; lia. }
  intros u. destruct (decide (u = zlen (socks st) + 1)) as [->|Hne].
  - rewrite lookup_insert_eq. exists n, c. split; [done|]. split; [unfold known; rewrite length_app; cbn; lia|].
    split; [|split; [done|]].
    { unfold descriptor. rewrite lookup_app_r by lia.
      by replace (Z.to_nat _ - length (socks st))%nat with 0%nat by lia. }
    destruct (Hbuf n c (proj2 Hlive)) as [Hold| ->]; [|apply bq_init_repr].
    destruct (NetThread.ok_live _ _ _ _ Hok' Hlive) as [[Hcu _ _ _ _] _].
    destruct (NetThread.ok_conn _ Hok _ _ Hold) as (Hu & _). rewrite Hcu in Hu. by apply Hnew in Hu.
  - rewrite lookup_insert_ne by done. specialize (Ho u). destruct (parts st !! u) as [part|].
    + destruct Ho as (n' & c' & Hl0 & Hku & Hfd & Hrest). exists n', c'. split; [by apply Hkeep|].
      split; [by apply known_app|]. split; [by rewrite descriptor_app|done].
    + intros n'. rewrite Hu', lookup_insert_ne by done. apply Ho.
Qed.

(** No client, and no client that could be taken. *)
Lemma accepts_nobody s th garbage acc :
  base s th → NetThread.acc_ret acc ≤ 0 →
  ∃ s', Rpc.take_client lfd garbage acc s = Ok s' ∧ base s' th ∧ EpollServer.shared s' = EpollServer.shared s.
Proof.
  intros Hb Hacc. pose proof Hb as [Hs Hok _ _ _ _ _ _].
  assert (NetThread.accept lfd garbage acc th = Ok (negb (NetThread.acc_eagain acc), th)) as Ha.
  { unfold NetThread.accept. by rewrite (proj2 (Z.ltb_ge _ _)). }
  destruct (EpollServer.run_single s th th (λ th, '(_, th) ← NetThread.accept lfd garbage acc th; Ok th) Hs)
    as (s' & Hr & Hs' & _); [by rewrite Ha|].
  exists s'. split; [exact Hr|]. split; [by apply (base_net s _ th _ Hb Hs')|].
  by rewrite <- (EpollServer.single_shared _ _ Hs'), <- (EpollServer.single_shared _ _ Hs).
Qed.

Lemma accepts_full s th garbage acc :
  base s th → NetThread.free_ th = [] → 0 < NetThread.acc_ret acc → Rpc.take_client lfd garbage acc s = Undef.
Proof.
  intros [(th0 & Hth0 & Hv) _ _ _ Hl _ _ _] Hnil Hacc.
  unfold Rpc.take_client, EpollServer.run_thread, EpollServer.on_thread. rewrite Hth0.
  cbn [lookup list_lookup deref mbind outcome_bind]. rewrite Hv.
  by rewrite (NetThread.accept_full lfd garbage acc th a Hl Hnil Hacc).
Qed.

Lemma accepts_client s th garbage acc st :
  base s th → open_as th (socks st) (parts st) → NetThread.free_ th ≠ [] → 0 < NetThread.acc_ret acc →
  ∃ s' th', Rpc.take_client lfd garbage acc s = Ok s' ∧ base s' th' ∧
    open_as th' (socks st ++ [NetThread.acc_ret acc]) (<[zlen (socks st) + 1 := []]> (parts st)) ∧
    EpollServer.shared s' = EpollServer.shared s ∧ NetThread.sent th' = NetThread.sent th ∧
    NetThread.sendBuffer_ th' = NetThread.sendBuffer_ th.
Proof.
  intros Hb Ho Hnil Hacc. pose proof Hb as [Hs Hok _ _ Hl _ _ _].
  destruct (NetThread.accept_spec lfd garbage acc th a Hok Hl Hnil) as (b & th' & Ha & Hok' & Hl' & Hcon).
  rewrite (proj2 (Z.ltb_lt _ _) Hacc) in Hcon.
  destruct Hcon as (_ & Hf' & uid & n & c & Huid & Hnew & Hlive & Hcfd & Hcad & Hu' & Hsh & Hkeep).
  destruct (NetThread.accept_frame _ _ _ _ _ _ Ha) as (Ht' & Hsb & Hse' & Hbuf).
  destruct (EpollServer.run_single s th th' (λ th, '(_, th) ← NetThread.accept lfd garbage acc th; Ok th) Hs)
    as (s' & Hr & Hs' & _); [by rewrite Ha|].
  exists s', th'. split; [exact Hr|]. split; [|split; [|split; [|done]]].
  - apply (base_net s _ th _ Hb Hs'); rewrite ?Hsh; done.
  - by apply (open_accept th th' st acc uid n c).
  - by rewrite <- (EpollServer.single_shared _ _ Hs'), <- (EpollServer.single_shared _ _ Hs).
Qed.

Lemma accepts_spec x st garbage acc :
  models x st →
  outcome_rel models (step alloc_ok maxIOVcount h lfd (Accepts garbage acc) x)
    (spec_step func (Accepts garbage acc) st).
Proof.
  destruct x as [s [nf sc]]. intros (th & [Hb Ho Hq Hta [Hka Han] Hse Hk]). cbn [fst snd step spec_step] in *.
  destruct (Z.ltb_spec 0 (NetThread.acc_ret acc)) as [Hacc|Hacc].
  2:{ destruct (accepts_nobody s th garbage acc Hb Hacc) as (s' & -> & Hb' & Hss). exists th. split; try done.
      by apply (queue_same s). }
  destruct (Z.ltb_spec (zlen (socks st)) 2000) as [Hroom|Hroom].
  2:{ rewrite (accepts_full s th garbage acc Hb); [done| |done]. destruct Ho as [Hfree _].
      destruct (NetThread.free_ th); [done|cbn in Hfree; lia]. }
  destruct (accepts_client s th garbage acc st Hb Ho) as (s' & th' & -> & Hb' & Ho' & Hss & Hse' & Hsb); [|done|].
  { destruct Ho as [Hfree _]. intros Hnil. rewrite Hnil in Hfree. cbn in Hfree. lia. }
  exists th'. split; cbn [fst snd socks parts queued taken answered sent]; try done.
  - apply (queue_same s); [done|]. destruct Hq as (msgs & Hm & Hsays). exists msgs. split; [done|].
    eapply Forall2_impl; [exact Hsays|]. intros m nt [Hku Hn]. split; [by apply known_app|done].
  - destruct Hta as (P & Hw & HP). exists P. split; [done|]. eapply Forall2_impl; [exact HP|].
    intros m y (Had & Hku & Hm). split; [done|]. split; [by apply known_app|done].
  - split; [eapply Forall_impl; [exact Hka|]; intros y; by apply known_app|]. by rewrite Hsb.
  - by rewrite Hse', Hse, on_wire_app.
  - eapply Forall_impl; [exact Hk|]. intros y. by apply known_app.
Qed.

Lemma sends_on_wire fds rs :
  NetThread.sends (descriptor fds) rs = on_wire fds ((λ x, (x.1, x.2.1)) <$> rs).
Proof.
  unfold NetThread.sends, on_wire.
  rewrite (filter_fmap_comm _ (λ x, x.2.1 ≠ []) (λ x, x.2 ≠ [])) by done. by rewrite <- list_fmap_compose.
Qed.

Lemma writes_spec x st envs :
  models x st →
  outcome_rel models (step alloc_ok maxIOVcount h lfd (Writes envs) x) (spec_step func (Writes envs) st).
Proof.
  destruct x as [s [nf sc]]. intros (th & [Hb Hop Hq Hta [Hka (rs & Hd & Hrs)] Hse Hk]). cbn [fst snd] in *.
  pose proof Hb as [Hs Hok Ht _ _ _ _ _]. pose proof Hs as (th0 & Hth0 & Hv). cbn [step spec_step].
  assert (∀ l, Forall (λ x, is_Some (parts st !! x.1)) l →
    Forall (λ x : Z * (bytes * (bytes * Z)), NetThread.open_on (descriptor (socks st)) x.1 th) l) as Hopen.
  { intros l Hl. eapply Forall_impl; [exact Hl|]. intros y [part Hpart]. destruct Hop as [_ Ho].
    specialize (Ho y.1). rewrite Hpart in Ho. destruct Ho as (n & c & ? & _ & ? & _). by exists n, c. }
  rewrite <- Hrs in Hka |- *. rewrite Forall_fmap in Hka.
  destruct (decide _) as [Hall|Hsome]; rewrite Forall_fmap in *.
  - destruct (NetThread.processPipe_answers maxIOVcount envs (descriptor (socks st)) th rs Hok (Hopen rs Hall) Hd)
      as (th' & Hp & Hse' & Hok' & Hd' & Ht' & Hsh' & Hc).
    destruct (EpollServer.run_single s th th' _ Hs Hp) as (s' & Hr & Hs' & _). rewrite Hr.
    cbn [mbind outcome_bind outcome_rel]. exists th'.
    assert (EpollServer.shared s' = EpollServer.shared s) as Hss
      by (by rewrite <- (EpollServer.single_shared _ _ Hs'), Hsh', (EpollServer.single_shared _ _ Hs)).
    split; cbn [fst snd socks parts queued taken answered sent]; try done.
    + apply (base_net s _ th _ Hb Hs'); rewrite ?Hsh'; try done. apply Hc.
    + by apply (open_same th).
    + by apply (queue_same s).
    + split; [done|]. by exists [].
    + rewrite Hse', Hse, sends_on_wire. unfold on_wire. by rewrite filter_app, fmap_app.
    + apply Forall_app. split; [done|]. by apply Forall_fmap.
  - apply first_failing in Hsome as (l1 & [uid r] & l2 & -> & Hl1 & Hno); [|intros y; apply _].
    unfold EpollServer.run_thread, EpollServer.on_thread. rewrite Hth0.
    cbn [lookup list_lookup deref mbind outcome_bind]. rewrite Hv.
    rewrite (NetThread.processPipe_unknown maxIOVcount envs (descriptor (socks st)) th l1 uid r l2); try done.
    + by apply Hopen.
    + apply Forall_app in Hka as [_ [Hku _]%Forall_cons]. destruct Hku as [? Hle]. cbn in *.
      destruct Hop as [Hfree _]. destruct (NetThread.ok_free _ Hok) as [_ ?]. lia.
    + destruct Hop as [_ Ho]. specialize (Ho uid). cbn in Hno. destruct (parts st !! uid); [by destruct Hno|done].
Qed.

(** *** The whole *)

Lemma server_step_refines ev x st :
  models x st → allowed ev st →
  outcome_rel models (step alloc_ok maxIOVcount h lfd ev x) (spec_step func ev st).
Proof.
  intros Hm Ha. destruct ev.
  - by apply accepts_spec.
  - by apply reads_spec.
  - by apply hangs_up_spec.
  - destruct (serves_spec x st now cur notified Hm Ha) as (x' & -> & Hm'). exact Hm'.
  - by apply writes_spec.
Qed.

Lemma server_run_refines evs : ∀ x st,
  models x st → all_allowed func evs st →
  outcome_rel models (run alloc_ok maxIOVcount h lfd evs x) (spec_run func evs st).
Proof.
  induction evs as [|ev evs IH]; intros x st Hm Ha; [exact Hm|]. destruct Ha as [Hev Ha].
  pose proof (server_step_refines ev x st Hm Hev) as Hs. cbn [run spec_run].
  destruct (step alloc_ok maxIOVcount h lfd ev x) as [x1| | | |], (spec_step func ev st) as [st1| | | |];
    try done. by apply IH.
Qed.

Lemma models_sent x st : models x st → Rpc.sent_by x.1 = on_wire (socks st) (sent st).
Proof.
  intros (th & [Hb _ _ _ _ Hse _]). rewrite (Rpc.sent_by_single _ th); [exact Hse|apply Hb].
Qed.

End refinement.

(** ** A server after its start *)

Lemma server_start_models {B : Type} `{ByteQueueLaws B} h lfd func (x : EpollServer.t B * (NodeF.t * Scheduler.t HandlerRun.task)) :
  Rpc.accepting h lfd 2000 x func → Rpc.sent_by x.1 = [] →
  ∃ a name gi, models h lfd func a name gi x empty.
Proof.
  intros (Hw & th & a & name & gi & Hs & Hl & Hf) Hsent. exists a, name, gi, th.
  destruct Hs as [Hsi Hok Ht Hd (ad & Had & Hname & Hq) Hh Hg Hfunc].
  split; cbn [empty socks parts queued taken answered sent].
  - split; try done. rewrite Had. cbn. by rewrite Hname.
  - split; [done|]. intros uid. rewrite lookup_empty. intros n Hu.
    destruct (NetThread.ok_uid _ Hok _ _ Hu) as [? _]. lia.
  - exists []. split; [by exists ad|constructor].
  - exists []. split; [done|constructor].
  - split; [done|]. by exists [].
  - by rewrite <- (Rpc.sent_by_single _ _ Hsi).
  - done.
Qed.

Lemma server_start_runs {B : Type} `{ByteQueueLaws B} alloc_ok (alloc_total : ∀ n, alloc_ok n = true)
    maxIOVcount imp cfg env nf evs st'
    (H1 : Application.servantName1 cfg = [])
    (Hs : Application.adapterName cfg ≠ Application.servantName cfg)
    (Ho : Application.adapterName cfg ≠ Application.AdminObj)
    (Ha : Application.adapterName cfg ≠ Application.AdminAdapter)
    (Hfd0 : Application.admin_fd env ≠ -1) (Hfd : Application.adapter_fd env ≠ -1) :
  all_allowed imp evs empty → spec_run imp evs empty = Ok st' →
  ∃ hs (a : Application.t B) h m' st x,
    Application.start_server (Application.add_first imp) cfg env = Ok (hs, a) ∧
    HandlerRun.begin alloc_ok (ServantHandle.mk [] (Some 1%nat)) (Application.manager a)
      (EpollServer.shared (Application.epollServer_ a)) = Ok (h, m', st) ∧
    run alloc_ok maxIOVcount h (Application.adapter_fd env) evs (Application.epollServer_ a, (nf, st)) = Ok x ∧
    Rpc.sent_by x.1 = on_wire (accepted evs) (sent st') ∧ due imp st' = answer imp <$> asked evs.
Proof.
  intros Hall Hr. destruct (Application.server_hosts (B := B) alloc_ok alloc_total imp cfg env nf)
    as (hs & a & h & m' & st & Hst & _ & Hbg & Hacc & Hwr); [done..|].
  destruct (server_start_models _ _ _ _ Hacc Hwr) as (ad & name & gi & Hm).
  pose proof (server_run_refines alloc_ok maxIOVcount h (Application.adapter_fd env) imp alloc_total ad name gi evs _ _ Hm Hall)
    as Hrun.
  apply (outcome_rel_Ok _ _ _ _ Hrun) in Hr as Hx. destruct Hx as (x & Hx & Hmx).
  exists hs, a, h, m', st, x. split; [done|]. split; [done|]. split; [done|]. split.
  - rewrite (models_sent _ _ _ _ _ _ _ _ Hmx). by rewrite (run_socks _ _ _ _ Hr).
  - apply (run_due _ _ _ _ Hall Hr).
Qed.

(** ** Properties *)

(** C5: a server does what a network of queues does, whatever the order of the
    events: clients connect, send any bytes in any pieces and hang up, the handler's
    thread makes its passes and the network thread writes, with requests of many
    clients on their way between them; the server crashes exactly when the two
    thousand and first client connects, a client sends a frame that begins with a
    length between -5 and -1, or a response is for a client that has left.  Events
    are for open connections; a client hangs up by an error, or with nothing left to
    read; what has arrived of an unfinished frame, the queues
    and the requests of one read are bounded ([allowed]: 2^62 bytes or requests in a
    queue, 2^64 responses that wait to be sent, less than 2^31 - 1 requests in a
    read), and every stack is granted. *)
Theorem server_refines {B : Type} `{ByteQueueLaws B} alloc_ok (alloc_total : ∀ n, alloc_ok n = true)
    maxIOVcount h lfd func a name gi evs (x : EpollServer.t B * (NodeF.t * Scheduler.t HandlerRun.task)) st
    (Hm : models h lfd func a name gi x st) (Ha : all_allowed func evs st) :
  outcome_rel (models h lfd func a name gi) (run alloc_ok maxIOVcount h lfd evs x) (spec_run func evs st) ∧
  ((∀ x', run alloc_ok maxIOVcount h lfd evs x ≠ Ok x') ↔
   ∃ evs1 ev evs2 st1, evs = evs1 ++ ev :: evs2 ∧ spec_run func evs1 st = Ok st1 ∧ fatal ev st1).
Proof.
  pose proof (server_run_refines alloc_ok maxIOVcount h lfd func alloc_total a name gi evs x st Hm Ha) as Hr.
  split; [exact Hr|]. rewrite <- (spec_run_fatal func evs st Ha).
  destruct (run alloc_ok maxIOVcount h lfd evs x) as [x1| | | |], (spec_run func evs st) as [st1| | | |];
    try done; try (split; done). split; [by intros Hx; destruct (Hx x1)|by intros Hx; destruct (Hx st1)].
Qed.

(** C6: no interleaving makes a server lose, repeat, reorder or misdirect a
    response: after the start of a program with one servant, and after any events
    that do not bring the server down, what it has passed to [::send] is the
    servant's responses to the requests that arrived first, in the order of their
    arrival, each on the descriptor of the client that sent the request; the
    responses to all others wait in the queues.  Every stack is granted. *)
Theorem responses_in_order {B : Type} `{ByteQueueLaws B} alloc_ok (alloc_total : ∀ n, alloc_ok n = true)
    maxIOVcount imp cfg env nf evs st'
    (H1 : Application.servantName1 cfg = [])
    (Hs : Application.adapterName cfg ≠ Application.servantName cfg)
    (Ho : Application.adapterName cfg ≠ Application.AdminObj)
    (Ha : Application.adapterName cfg ≠ Application.AdminAdapter)
    (Hfd0 : Application.admin_fd env ≠ -1) (Hfd : Application.adapter_fd env ≠ -1)
    (Hall : all_allowed imp evs empty) (Hr : spec_run imp evs empty = Ok st') :
  ∃ hs (a : Application.t B) h m' st x,
    Application.start_server (Application.add_first imp) cfg env = Ok (hs, a) ∧
    HandlerRun.begin alloc_ok (ServantHandle.mk [] (Some 1%nat)) (Application.manager a)
      (EpollServer.shared (Application.epollServer_ a)) = Ok (h, m', st) ∧
    run alloc_ok maxIOVcount h (Application.adapter_fd env) evs (Application.epollServer_ a, (nf, st)) = Ok x ∧
    Rpc.sent_by x.1 = on_wire (accepted evs) (sent st') ∧
    sent st' ++ waiting imp st' = answer imp <$> asked evs.
Proof.
  destruct (server_start_runs (B := B) alloc_ok alloc_total maxIOVcount imp cfg env nf evs st')
    as (hs & a & h & m' & st & x & Hst & Hbg & Hrun & Hse & Hd); [done..|].
  exists hs, a, h, m', st, x.
  split; [exact Hst|]. split; [exact Hbg|]. split; [exact Hrun|]. split; [exact Hse|exact Hd].
Qed.

(** C7: every request is answered: whatever has happened, when the clients whose
    responses are still to come are connected, one pass of the handler for every
    99 requests and notes that wait, and one write, bring the responses to all
    requests out.  Every stack is granted. *)
Theorem every_request_answered {B : Type} `{ByteQueueLaws B} alloc_ok (alloc_total : ∀ n, alloc_ok n = true)
    maxIOVcount imp cfg env nf evs st' vs envs
    (H1 : Application.servantName1 cfg = [])
    (Hs : Application.adapterName cfg ≠ Application.servantName cfg)
    (Ho : Application.adapterName cfg ≠ Application.AdminObj)
    (Ha : Application.adapterName cfg ≠ Application.AdminAdapter)
    (Hfd0 : Application.admin_fd env ≠ -1) (Hfd : Application.adapter_fd env ≠ -1)
    (Hall : all_allowed imp evs empty) (Hr : spec_run imp evs empty = Ok st')
    (Hcon : Forall (λ x, is_Some (parts st' !! x.1)) (waiting imp st'))
    (Hvs : (pending st' ≤ 99 * length vs)%nat) (Hroom : zlen (answered st') + 100 * zlen vs < 2 ^ 64) :
  ∃ hs (a : Application.t B) h m' st x,
    Application.start_server (Application.add_first imp) cfg env = Ok (hs, a) ∧
    HandlerRun.begin alloc_ok (ServantHandle.mk [] (Some 1%nat)) (Application.manager a)
      (EpollServer.shared (Application.epollServer_ a)) = Ok (h, m', st) ∧
    run alloc_ok maxIOVcount h (Application.adapter_fd env) (evs ++ passes vs envs)
      (Application.epollServer_ a, (nf, st)) = Ok x ∧
    Rpc.sent_by x.1 = on_wire (accepted evs) (answer imp <$> asked evs).
Proof.
  destruct (passes_drain imp vs envs st' Hvs Hroom Hcon) as [Hpa Hpr].
  destruct (server_start_runs (B := B) alloc_ok alloc_total maxIOVcount imp cfg env nf (evs ++ passes vs envs)
    (mk (socks st') (parts st') [] [] [] (due imp st')))
    as (hs & a & h & m' & st & x & Hst & Hbg & Hrun & Hse & _).
  1-6: assumption.
  - apply all_allowed_app; [done|]. intros st1 Hst1. by rewrite Hr in Hst1; injection Hst1 as <-.
  - rewrite spec_run_app, Hr. exact Hpr.
  - exists hs, a, h, m', st, x. split; [exact Hst|]. split; [exact Hbg|]. split; [exact Hrun|].
    rewrite Hse. cbn [sent].
    rewrite (run_due _ _ _ _ Hall Hr). f_equal. unfold accepted, passes. rewrite !omap_app. cbn.
    rewrite app_nil_r. assert (∀ vs : list (Z * Z * bool), accepted ((λ v, Serves v.1.1 v.1.2 v.2) <$> vs) = [])
      as Hno by (intros l; by induction l). unfold accepted in Hno. by rewrite Hno, app_nil_r.
Qed.

(** ** Witnesses *)

Lemma server_allowed_cons func ev evs st st' :
  allowed ev st → spec_step func ev st = Ok st' → all_allowed func evs st' → all_allowed func (ev :: evs) st.
Proof. intros Ha Hs Hall. cbn [all_allowed]. by rewrite Hs. Qed.

Definition peer (fd : Z) : NetThread.accept_result := NetThread.mk_accept fd [] 80 false.
Definition hey : bytes := ["2"; ":"; "h"; "e"; "y"]%char.

(** Two clients; the request of the first comes in two pieces, between which the
    second's request arrives whole; the handler makes a pass while the first one is
    still incomplete. *)
Definition mixed : list event :=
  [Accepts false (peer 9); Accepts false (peer 10);
   Reads 1 [take 7 (Wire.frame NetThread.hello)] [] []; Reads 2 [Wire.frame hey] [hey] []; Serves 0 0 true;
   Reads 1 [drop 7 (Wire.frame NetThread.hello)] [NetThread.hello] []; Writes []].

(** The first client is gone before its response is ready. *)
Definition hasty : list event :=
  [Accepts false (peer 9); Reads 1 [Wire.frame hey] [hey] [];
   HangsUp 1 Epoller.EPOLLIN [Connection.Rd []] []; Serves 0 0 true; Writes []].

Ltac allowed_read part :=
  exists part; split; [vm_compute; reflexivity|]; split; [vm_compute; split; [reflexivity|discriminate]|];
  split; [vm_compute; discriminate|]; intros reqs left Hr; vm_compute in Hr; injection Hr as <- <-;
  split; [reflexivity|split; vm_compute; [reflexivity|discriminate]].

Lemma mixed_allowed : all_allowed id mixed empty.
Proof.
  unfold mixed.
  eapply server_allowed_cons; [exact I|vm_compute; reflexivity|].
  eapply server_allowed_cons; [exact I|vm_compute; reflexivity|].
  eapply server_allowed_cons; [|vm_compute; reflexivity|].
  { allowed_read (@nil ascii). }
  eapply server_allowed_cons; [|vm_compute; reflexivity|].
  { allowed_read (@nil ascii). }
  eapply server_allowed_cons; [vm_compute; reflexivity|vm_compute; reflexivity|].
  eapply server_allowed_cons; [|vm_compute; reflexivity|].
  { allowed_read (take 7 (Wire.frame NetThread.hello)). }
  eapply server_allowed_cons; [exact I|vm_compute; reflexivity|]. exact I.
Qed.

(** A frame of length -1, in two pieces. *)
Definition broken : list event :=
  [Accepts false (peer 9); Reads 1 [replicate 3 "255"%char] [] []; Reads 1 [replicate 2 "255"%char] [] []].

Lemma broken_allowed : all_allowed id broken empty.
Proof.
  unfold broken.
  eapply server_allowed_cons; [exact I|vm_compute; reflexivity|].
  eapply server_allowed_cons; [|vm_compute; reflexivity|].
  { allowed_read (@nil ascii). }
  split; [|vm_compute; exact I]. exists (replicate 3 "255"%char). split; [vm_compute; reflexivity|].
  split; [vm_compute; split; [reflexivity|discriminate]|]. split; [vm_compute; discriminate|].
  intros reqs left Hr. vm_compute in Hr. discriminate.
Qed.

Lemma hasty_allowed : all_allowed id hasty empty.
Proof.
  unfold hasty.
  eapply server_allowed_cons; [exact I|vm_compute; reflexivity|].
  eapply server_allowed_cons; [|vm_compute; reflexivity|].
  { allowed_read (@nil ascii). }
  eapply server_allowed_cons; [|vm_compute; reflexivity|].
  { split; [eexists; vm_compute; reflexivity|]. split; [right; by split|vm_compute; discriminate]. }
  eapply server_allowed_cons; [vm_compute; reflexivity|vm_compute; reflexivity|].
  split; [exact I|]. vm_compute. exact I.
Qed.

Lemma server_refines_witness :
  ∃ h (s : EpollServer.t Buffer.t) st, run Scheduler.granted 16 h 8 hasty (s, (NodeF.init, st)) = Undef ∧
    run Scheduler.granted 16 h 8 broken (s, (NodeF.init, st)) = Raise LengthError.
Proof.
  destruct (Application.server_hosts (B := Buffer.t) Scheduler.granted (λ _, eq_refl) id
    Application.hello_config Application.system_answers NodeF.init)
    as (hs & a & h & m' & st & Hst & _ & Hbg & Hacc & Hwr).
  - reflexivity.
  - discriminate.
  - discriminate.
  - discriminate.
  - discriminate.
  - discriminate.
  - destruct (server_start_models _ _ _ _ Hacc Hwr) as (ad & name & gi & Hm).
    destruct (server_refines Scheduler.granted (λ _, eq_refl) 16 h 8 id ad name gi hasty _ _ Hm hasty_allowed) as [Hr _].
    destruct (server_refines Scheduler.granted (λ _, eq_refl) 16 h 8 id ad name gi broken _ _ Hm broken_allowed) as [Hb _].
    exists h, (Application.epollServer_ a), st.
    assert (spec_run id hasty empty = Undef) as Hu by (vm_compute; reflexivity).
    assert (spec_run id broken empty = Raise LengthError) as Hv by (vm_compute; reflexivity).
    rewrite Hu in Hr. rewrite Hv in Hb. change (Application.adapter_fd Application.system_answers) with 8 in Hr, Hb.
    split.
    + destruct (run _ _ _ _ hasty _); try contradiction. reflexivity.
    + destruct (run _ _ _ _ broken _); try contradiction. by rewrite Hb.
Defined.

(** What [mixed] leaves. *)
Definition after_mixed : net :=
  match spec_run id mixed empty with Ok st => st | _ => empty end.

Lemma after_mixed_run : spec_run id mixed empty = Ok after_mixed.
Proof. vm_compute. reflexivity. Qed.

Lemma responses_in_order_witness :
  ∃ h (s : EpollServer.t Buffer.t) st x,
    run Scheduler.granted 16 h 8 mixed (s, (NodeF.init, st)) = Ok x ∧ Rpc.sent_by x.1 = [(10, hey)].
Proof.
  destruct (responses_in_order (B := Buffer.t) Scheduler.granted (λ _, eq_refl) 16 id
    Application.hello_config Application.system_answers NodeF.init mixed after_mixed)
    as (hs & a & h & m' & st & x & _ & _ & Hrun & Hse & _).
  - reflexivity.
  - discriminate.
  - discriminate.
  - discriminate.
  - discriminate.
  - discriminate.
  - exact mixed_allowed.
  - exact after_mixed_run.
  - exists h, (Application.epollServer_ a), st, x. split; [exact Hrun|]. rewrite Hse. vm_compute. reflexivity.
Defined.

Lemma every_request_answered_witness :
  ∃ h (s : EpollServer.t Buffer.t) st x,
    run Scheduler.granted 16 h 8 (mixed ++ passes [(1, 1, true)] []) (s, (NodeF.init, st)) = Ok x ∧
    Rpc.sent_by x.1 = [(10, hey); (9, NetThread.hello)].
Proof.
  destruct (every_request_answered (B := Buffer.t) Scheduler.granted (λ _, eq_refl) 16 id
    Application.hello_config Application.system_answers NodeF.init mixed after_mixed [(1, 1, true)] [])
    as (hs & a & h & m' & st & x & _ & _ & Hrun & Hse).
  - reflexivity.
  - discriminate.
  - discriminate.
  - discriminate.
  - discriminate.
  - discriminate.
  - exact mixed_allowed.
  - exact after_mixed_run.
  - vm_compute. repeat constructor. eexists. reflexivity.
  - vm_compute. lia.
  - vm_compute. reflexivity.
  - exists h, (Application.epollServer_ a), st, x. split; [exact Hrun|]. rewrite Hse. vm_compute. reflexivity.
Defined.

End Server.
