(* ===== verification/System.v ===== *)
(** * System: many clients and a server, in any order

    Clients connect to a server and make asynchronous calls; the network delivers
    what they write in pieces of any size, the server's threads and the threads of
    the clients make their steps, and the responses are delivered one by one.  All
    this happens in any order, so that calls of all clients are on their way at the
    same time.  The abstract system puts the abstract server of Server and the
    abstract clients of AsyncClient together. *)

From S2P Require Import Prelude ByteQueue Buffer Wire Message AsyncProcThread Connection Transceiver ObjectProxy.
From S2P Require Import LoopQueue CommunicatorEpoll ServantProxy NetThread EpollServer ServantManager Servants.
From S2P Require Import Scheduler ServantHandle HandlerRun Rpc Pipeline AsyncClient Application Server.

Module System.

(** ** Whole frames *)

(** How many of the requests [l] the first [n] bytes of their frames complete. *)
Fixpoint whole (l : list bytes) (n : nat) : nat :=
  match l with
  | [] => 0
  | m :: l =>
      if decide (length (Wire.frame m) ≤ n)%nat then S (whole l (n - length (Wire.frame m))) else 0
  end.

Lemma frame_positive m : (0 < length (Wire.frame m))%nat.
Proof. pose proof (Wire.length_frame m) as Hl. unfold Wire.kHeaderSize in Hl. lia. Qed.

Lemma whole_le l : ∀ n, (whole l n ≤ length l)%nat.
Proof.
  induction l as [|m l IH]; intros n; [done|]. cbn [whole length]. destruct (decide _); [|lia].
  specialize (IH (n - length (Wire.frame m))%nat). lia.
Qed.

Lemma whole_mono l : ∀ n n', (n ≤ n')%nat → (whole l n ≤ whole l n')%nat.
Proof.
  induction l as [|m l IH]; intros n n' Hn; [done|]. cbn [whole].
  destruct (decide (length (Wire.frame m) ≤ n)%nat), (decide (length (Wire.frame m) ≤ n')%nat); try lia.
  pose proof (IH (n - length (Wire.frame m)) (n' - length (Wire.frame m)))%nat. lia.
Qed.

Lemma whole_app l l' : ∀ n,
  (n ≤ length (concat (Wire.frame <$> l)))%nat → whole (l ++ l') n = whole l n.
Proof.
  induction l as [|m l IH]; intros n Hn.
  - cbn in Hn. destruct l' as [|m l']; [done|]. cbn. pose proof (frame_positive m).
    destruct (decide _); [lia|done].
  - rewrite fmap_cons in Hn. cbn [concat] in Hn. rewrite length_app in Hn. cbn [app whole].
    destruct (decide _); [|done]. rewrite IH by lia. done.
Qed.

Lemma whole_spec l : ∀ n,
  (n ≤ length (concat (Wire.frame <$> l)))%nat → Forall (λ m, zlen m < 2 ^ 31) l →
  ∃ part, take n (concat (Wire.frame <$> l)) = concat (Wire.frame <$> take (whole l n) l) ++ part ∧
          Connection.incomplete part.
Proof.
  induction l as [|m l IH]; intros n Hn Hl.
  - exists []. cbn in *. rewrite take_nil. split; [done|apply Connection.incomplete_nil].
  - apply Forall_cons in Hl as [Hm Hl]. rewrite fmap_cons in Hn |- *. cbn [concat whole] in *.
    rewrite length_app in Hn. destruct (decide _) as [Hle|Hlt].
    + destruct (IH (n - length (Wire.frame m))%nat) as (part & Heq & Hp); [lia|done|]. exists part.
      rewrite take_app_ge, Heq by lia. cbn [take]. rewrite fmap_cons. cbn [concat]. by rewrite <- app_assoc.
    + exists (take n (Wire.frame m)). rewrite take_app_le by lia. split; [done|].
      exists m, (drop n (Wire.frame m)). split; [apply take_drop|]. split; [|done].
      intros Hnil. apply (f_equal length) in Hnil. rewrite length_drop in Hnil. cbn [length] in Hnil. lia.
Qed.

(** ** The system *)

(** How a client calls: its thread, its object, network thread and entry of
    [notify_], and the ids that are left. *)
Record port := mk_port { self : nat; k : nat; e : nat; seq : nat; cap : Z }.

(** A client, the descriptor that the server has for it, how many bytes the network
    has delivered to the server, and how many responses to the client. *)
Record peer := mk_peer { port_ : port; fd : Z; prog : AsyncClient.client; up : nat; down : nat }.

Inductive event :=
| Connects (p : port) (c : AsyncClient.client) (garbage : bool) (acc : NetThread.accept_result)
| Calls (i : nat) (env : ServantProxy.answers) (c : ServantProxy.call)
| Sends (i : nat) (events : Z) (sends : list (Z * Transceiver.send_result))
| Runs (i : nat)
| Delivers (i n : nat) (env : list Connection.send_result)
| Responds (i : nat)
| Serves (now cur : Z) (notified : bool)
| Writes (envs : list (list Connection.send_result)).

(** Connections get the ids 1, 2, ... *)
Definition uid (i : nat) : Z := Z.of_nat i + 1.

Section system.
Context {B : Type} `{ByteQueueLaws B}.
Context (log : outcome unit) (address : nat → CommunicatorEpoll.fd_pointer → Z).
Context (alloc_ok : nat → bool) (maxIOVcount : nat) (h : ServantHandle.t) (lfd : Z).

Abbreviation server := (EpollServer.t B * (NodeF.t * Scheduler.t HandlerRun.task))%type.
Abbreviation system := (list peer * server)%type.

Definition set_prog (c : AsyncClient.client) (p : peer) : peer := mk_peer (port_ p) (fd p) c (up p) (down p).

(** A step of the threads of client [i]. *)
Definition local (i : nat) (ev : AsyncClient.event) (x : system) : outcome system :=
  let '(ps, s) := x in
  p ← deref (ps !! i);
  let a := port_ p in
  c ← AsyncClient.step log address (self a) (k a) (e a) (seq a) 0 ev (prog p);
  Ok (<[i := set_prog c p]> ps, s).

(** A step of the server. *)
Definition remote (ev : Server.event) (x : system) : outcome system :=
  let '(ps, s) := x in s ← Server.step alloc_ok maxIOVcount h lfd ev s; Ok (ps, s).

Definition step (ev : event) (x : system) : outcome system :=
  match ev with
  | Connects a c garbage acc =>
      '(ps, s) ← remote (Server.Accepts garbage acc) x;
      Ok (ps ++ [mk_peer a (NetThread.acc_ret acc) c 0 0], s)
  | Calls i env c => local i (AsyncClient.Calls env c) x
  | Sends i events sends => local i (AsyncClient.Sends events sends) x
  | Runs i => local i AsyncClient.Runs x
  | Delivers i n env =>
      p ← deref (x.1 !! i);
      let bytes := take n (drop (up p) (Rpc.wire (k (port_ p)) (prog p).2)) in
      '(ps, s) ← remote (Server.Reads (uid i) (Rpc.chunks bytes) [] env) x;
      Ok (<[i := mk_peer (port_ p) (fd p) (prog p) (up p + n) (down p)]> ps, s)
  | Responds i =>
      p ← deref (x.1 !! i);
      b ← deref (Rpc.sent_to (fd p) x.2.1 !! down p);
      c ← AsyncClient.receive log address (k (port_ p)) (e (port_ p)) b (prog p);
      Ok (<[i := mk_peer (port_ p) (fd p) c (up p) (S (down p))]> x.1, x.2)
  | Serves now cur notified => remote (Server.Serves now cur notified) x
  | Writes envs => remote (Server.Writes envs) x
  end.

Fixpoint run (evs : list event) (x : system) : outcome system :=
  match evs with [] => Ok x | ev :: evs => x ← step ev x; run evs x end.

End system.

(** ** The specification *)

Section specification.
Context (func reply : bytes → bytes).

Record view := mk_view { v_port : port; v_net : AsyncClient.net; v_up : nat; v_down : nat }.
Abbreviation abstract := (list view * Server.net)%type.

(** The requests that a client has written, and their bytes. *)
Definition payloads (v : view) : list bytes := (λ ec, ServantProxy.payload ec.2) <$> AsyncClient.made (v_net v).
Definition requests (v : view) : list bytes :=
  Pipeline.numbered 0 (take (AsyncClient.sent (v_net v)) (payloads v)).
Definition wire (v : view) : bytes := concat (Wire.frame <$> requests v).

(** The requests that the next [n] bytes complete. *)
Definition news (v : view) (n : nat) : list bytes :=
  drop (whole (requests v) (v_up v)) (take (whole (requests v) (v_up v + n)) (requests v)).

(** What the calls of a client should get, by their numbers. *)
Definition results (v : view) : list (nat * bytes) := imap (λ j b, (j, reply b)) (payloads v).

Definition run_net (ev : AsyncClient.event) (v : view) : view :=
  mk_view (v_port v) (AsyncClient.spec_step ev (v_net v)) (v_up v) (v_down v).

Definition deliver (n : nat) (v : view) : view := mk_view (v_port v) (v_net v) (v_up v + n) (v_down v).

(** The responses come in the order of the calls. *)
Definition respond (v : view) : view :=
  let body := default [] (reply <$> payloads v !! v_down v) in
  mk_view (v_port v) (AsyncClient.spec_step (AsyncClient.Arrives (v_down v) body) (v_net v))
    (v_up v) (S (v_down v)).

Definition spec_step (ev : event) (x : abstract) : outcome abstract :=
  let '(vs, st) := x in
  match ev with
  | Connects a _ garbage acc =>
      st ← Server.spec_step func (Server.Accepts garbage acc) st;
      Ok (vs ++ [mk_view a AsyncClient.empty 0 0], st)
  | Calls i env c => Ok (alter (run_net (AsyncClient.Calls env c)) i vs, st)
  | Sends i events sends => Ok (alter (run_net (AsyncClient.Sends events sends)) i vs, st)
  | Runs i => Ok (alter (run_net AsyncClient.Runs) i vs, st)
  | Delivers i n env =>
      v ← deref (vs !! i);
      let bytes := take n (drop (v_up v) (wire v)) in
      st ← Server.spec_step func (Server.Reads (uid i) (Rpc.chunks bytes) (news v n) env) st;
      Ok (alter (deliver n) i vs, st)
  | Responds i => Ok (alter respond i vs, st)
  | Serves now cur notified => st ← Server.spec_step func (Server.Serves now cur notified) st; Ok (vs, st)
  | Writes envs => st ← Server.spec_step func (Server.Writes envs) st; Ok (vs, st)
  end.

Fixpoint spec_run (evs : list event) (x : abstract) : outcome abstract :=
  match evs with [] => Ok x | ev :: evs => x ← spec_step ev x; spec_run evs x end.

(** The responses to connection [u] among [l]. *)
Definition mine (u : Z) (l : list (Z * bytes)) : list bytes := (filter (λ x, x.1 = u) l).*2.

(** The server answers call [j] of a client with [reply], under the call's id. *)
Definition answers (j : nat) (c : ServantProxy.call) : Prop :=
  let response := ObjectProxy.response_to (Z.of_nat j + 1) (reply (ServantProxy.payload c)) in
  func (Wire.request_payload (Z.of_nat j + 1) (ServantProxy.payload c)) = response ∧ zlen response ≤ 2 ^ 61.

(** A client that has made no call. *)
Definition fresh (a : port) (c : AsyncClient.client) : Prop :=
  ServantProxy.usable c.1 c.2 (self a) (k a) (e a) (seq a) ∧
  CommunicatorEpoll.connected c.2 (k a) (e a) (cap a) 0 [] ∧ 0 ≤ cap a ∧
  CommunicatorEpoll.async_waiting c.2 (e a) [] ∧ CommunicatorEpoll.events c.2 = [].

Definition allowed (ev : event) (x : abstract) : Prop :=
  let '(vs, st) := x in
  match ev with
  | Connects a c _ acc =>
      fresh a c ∧ 0 < NetThread.acc_ret acc ∧ NetThread.acc_ret acc ∉ Server.socks st ∧ zlen vs < 2000
  | Calls i env c =>
      ∃ v, vs !! i = Some v ∧
        AsyncClient.allowed (k (v_port v)) 0 (cap (v_port v)) (AsyncClient.Calls env c) (v_net v) ∧
        answers (length (payloads v)) c
  | Sends i events sends =>
      ∃ v, vs !! i = Some v ∧
        AsyncClient.allowed (k (v_port v)) 0 (cap (v_port v)) (AsyncClient.Sends events sends) (v_net v)
  | Runs i => ∃ v, vs !! i = Some v ∧ AsyncClient.arrived (v_net v) ≠ []
  | Delivers i n _ =>
      ∃ v, vs !! i = Some v ∧ (v_up v + n ≤ length (wire v))%nat ∧ Z.of_nat (v_up v + n) ≤ bq_limit ∧
        zlen (news v n) < 2 ^ 31 - 1 ∧ zlen (Server.queued st) + zlen (news v n) ≤ 2 ^ 62
  | Responds i =>
      ∃ v, vs !! i = Some v ∧ (v_down v < length (mine (uid i) (Server.sent st)))%nat ∧
        zlen (AsyncClient.arrived (v_net v)) < 100
  | Serves now cur notified => Server.allowed (Server.Serves now cur notified) st
  | Writes _ => True
  end.

Fixpoint all_allowed (evs : list event) (x : abstract) : Prop :=
  match evs with
  | [] => True
  | ev :: evs => allowed ev x ∧ match spec_step ev x with Ok x' => all_allowed evs x' | _ => True end
  end.

(** *** What holds in every state *)

Record view_ok (st : Server.net) (i : nat) (v : view) : Prop := {
  vo_wf : AsyncClient.wf (v_net v);
  vo_up : (v_up v ≤ length (wire v))%nat;
  vo_part : ∃ part, Server.parts st !! uid i = Some part ∧
    take (v_up v) (wire v) = concat (Wire.frame <$> take (whole (requests v) (v_up v)) (requests v)) ++ part;
  vo_due : mine (uid i) (Server.due func st) = func <$> take (whole (requests v) (v_up v)) (requests v);
  vo_down : (v_down v ≤ length (mine (uid i) (Server.sent st)))%nat;
  vo_ran : AsyncClient.ran (v_net v) ++ AsyncClient.arrived (v_net v) = take (v_down v) (results v);
  vo_awaited j : j ∈ AsyncClient.awaited (v_net v) ↔ (v_down v ≤ j < AsyncClient.sent (v_net v))%nat;
  vo_answers j ec : AsyncClient.made (v_net v) !! j = Some ec → answers j ec.2
}.

Record inv (x : abstract) : Prop := {
  inv_view i v : x.1 !! i = Some v → view_ok x.2 i v;
  inv_socks : length (Server.socks x.2) = length x.1;
  inv_distinct : NoDup (Server.socks x.2);
  inv_due : Forall (λ y, ∃ i, (i < length x.1)%nat ∧ y.1 = uid i) (Server.due func x.2)
}.

Lemma mine_app u l1 l2 : mine u (l1 ++ l2) = mine u l1 ++ mine u l2.
Proof. unfold mine. by rewrite filter_app, fmap_app. Qed.

Lemma mine_own u (l : list bytes) : mine u (pair u <$> l) = l.
Proof.
  unfold mine. induction l as [|m l IH]; [done|].
  rewrite fmap_cons, filter_cons_True by done. rewrite fmap_cons. by rewrite IH.
Qed.

Lemma mine_other u u' (l : list bytes) : u ≠ u' → mine u (pair u' <$> l) = [].
Proof.
  intros Hne. unfold mine. induction l as [|m l IH]; [done|].
  rewrite fmap_cons, filter_cons_False by (cbn; congruence). exact IH.
Qed.

Lemma answer_pair u (l : list bytes) : Server.answer func <$> (pair u <$> l) = pair u <$> (func <$> l).
Proof. by rewrite <- !list_fmap_compose. Qed.

Lemma numbered_app (l1 l2 : list bytes) : ∀ id,
  Pipeline.numbered id (l1 ++ l2) = Pipeline.numbered id l1 ++ Pipeline.numbered (id + zlen l1) l2.
Proof.
  induction l1 as [|m l1 IH]; intros id; [by rewrite Z.add_0_r|]. cbn [app Pipeline.numbered length].
  rewrite IH. by replace (id + 1 + zlen l1) with (id + Z.of_nat (S (length l1))) by lia.
Qed.

Lemma numbered_lookup (l : list bytes) : ∀ id j,
  Pipeline.numbered id l !! j = Wire.request_payload (id + 1 + Z.of_nat j) <$> l !! j.
Proof.
  induction l as [|m l IH]; intros id [|j]; try done; cbn [Pipeline.numbered lookup list_lookup].
  - by rewrite Z.add_0_r.
  - rewrite IH. by replace (id + 1 + 1 + Z.of_nat j) with (id + 1 + Z.of_nat (S j)) by lia.
Qed.

Lemma length_numbered (l : list bytes) : ∀ id, length (Pipeline.numbered id l) = length l.
Proof. induction l as [|m l IH]; intros id; [done|]. cbn. by rewrite IH. Qed.

Lemma length_payloads v : length (payloads v) = length (AsyncClient.made (v_net v)).
Proof. apply length_fmap. Qed.

Lemma length_requests v : AsyncClient.wf (v_net v) → length (requests v) = AsyncClient.sent (v_net v).
Proof.
  intros Hwf. unfold requests. rewrite length_numbered, length_take, length_payloads.
  pose proof (AsyncClient.wf_sent _ Hwf). lia.
Qed.

Lemma requests_lookup v j m :
  requests v !! j = Some m →
  ∃ ec, AsyncClient.made (v_net v) !! j = Some ec ∧ (j < AsyncClient.sent (v_net v))%nat ∧
    m = Wire.request_payload (Z.of_nat j + 1) (ServantProxy.payload ec.2).
Proof.
  unfold requests. rewrite numbered_lookup. intros (b & Hb & ->)%fmap_Some.
  apply lookup_take_Some in Hb as [Hb Hlt]. unfold payloads in Hb. rewrite list_lookup_fmap in Hb.
  apply fmap_Some in Hb as (ec & Hec & ->). exists ec. split; [done|]. split; [done|]. f_equal. lia.
Qed.

(** The requests fit into their length headers. *)
Lemma requests_small v : AsyncClient.wf (v_net v) → Forall (λ m, zlen m < 2 ^ 31) (requests v).
Proof.
  intros Hwf. apply Forall_lookup_2. intros j m (ec & Hec & _ & ->)%requests_lookup.
  pose proof (Forall_lookup_1 _ _ _ _ (AsyncClient.wf_size _ Hwf) Hec) as Hsz. cbv beta in Hsz.
  pose proof (Wire.length_request (Z.of_nat j + 1) (ServantProxy.payload ec.2)) as Hlr.
  rewrite Wire.length_frame in Hlr. unfold Wire.kHeaderSize in Hlr. lia.
Qed.

(** The responses that a client is due are those to its calls. *)
Lemma due_lookup st i v j b :
  view_ok st i v → mine (uid i) (Server.due func st) !! j = Some b →
  ∃ ec, AsyncClient.made (v_net v) !! j = Some ec ∧ (j < AsyncClient.sent (v_net v))%nat ∧
    b = ObjectProxy.response_to (Z.of_nat j + 1) (reply (ServantProxy.payload ec.2)) ∧ zlen b ≤ 2 ^ 61.
Proof.
  intros Hv. rewrite (vo_due _ _ _ Hv), list_lookup_fmap. intros (m & Hm & ->)%fmap_Some.
  apply lookup_take_Some in Hm as [(ec & Hec & Hlt & ->)%requests_lookup _].
  destruct (vo_answers _ _ _ Hv j ec Hec) as [Hf Hl]. exists ec. rewrite Hf. done.
Qed.

Lemma mine_sent st u : (length (mine u (Server.sent st)) ≤ length (mine u (Server.due func st)))%nat.
Proof. unfold Server.due. rewrite mine_app, length_app. lia. Qed.

Lemma down_sent st i v : view_ok st i v → (v_down v ≤ AsyncClient.sent (v_net v))%nat.
Proof.
  intros Hv. pose proof (vo_down _ _ _ Hv). pose proof (mine_sent st (uid i)) as Hs.
  rewrite (vo_due _ _ _ Hv), length_fmap, length_take, length_requests in Hs by apply Hv. lia.
Qed.

(** A step of the server that has nothing to do with the client. *)
Lemma view_server st st' i v more :
  view_ok st i v → Server.parts st' !! uid i = Server.parts st !! uid i →
  mine (uid i) (Server.due func st') = mine (uid i) (Server.due func st) →
  Server.sent st' = Server.sent st ++ more → view_ok st' i v.
Proof.
  intros [Hwf Hup Hp Hd Hdn Hr Ha Hans] Hparts Hdue Hsent. split; try done.
  - by rewrite Hparts.
  - by rewrite Hdue.
  - rewrite Hsent, mine_app, length_app. lia.
Qed.

(** *** The steps of a client *)

Lemma view_calls st i v env c cap0 :
  view_ok st i v → AsyncClient.allowed (k (v_port v)) 0 cap0 (AsyncClient.Calls env c) (v_net v) →
  answers (length (payloads v)) c → view_ok st i (run_net (AsyncClient.Calls env c) v).
Proof.
  intros Hv Hal Hans. pose proof (down_sent _ _ _ Hv) as Hdn. destruct Hv as [Hwf Hup Hp Hd Hdw Hr Ha Hanss].
  pose proof (AsyncClient.wf_sent _ Hwf) as Hs.
  assert (payloads (run_net (AsyncClient.Calls env c) v) = payloads v ++ [ServantProxy.payload c]) as Hpay
    by (unfold payloads; cbn [v_net run_net AsyncClient.spec_step AsyncClient.made]; by rewrite fmap_app).
  assert (requests (run_net (AsyncClient.Calls env c) v) = requests v) as Hreq.
  { unfold requests. rewrite Hpay. cbn [v_net run_net AsyncClient.spec_step AsyncClient.sent].
    by rewrite take_app_le by (rewrite length_payloads; lia). }
  split; unfold wire in *; rewrite ?Hreq; try done.
  - by eapply AsyncClient.wf_step.
  - unfold results. rewrite Hpay, imap_app, take_app_le; [exact Hr|].
    rewrite length_imap, length_payloads. cbn [v_down run_net]. lia.
  - intros j ec Hj. cbn [v_net run_net AsyncClient.spec_step AsyncClient.made] in Hj.
    apply lookup_app_Some in Hj as [Hj|[Hge Hj]]; [by apply Hanss|].
    apply list_lookup_singleton_Some in Hj as [Hj <-]. rewrite length_payloads in Hans.
    by replace j with (length (AsyncClient.made (v_net v))) by lia.
Qed.

Lemma view_sends st i v events sends cap0 :
  view_ok st i v → AsyncClient.allowed (k (v_port v)) 0 cap0 (AsyncClient.Sends events sends) (v_net v) →
  view_ok st i (run_net (AsyncClient.Sends events sends) v).
Proof.
  intros Hv Hal. pose proof (down_sent _ _ _ Hv) as Hdn. destruct Hv as [Hwf Hup Hp Hd Hdw Hr Ha Hanss].
  pose proof (AsyncClient.wf_sent _ Hwf) as Hs.
  assert (∃ more, requests (run_net (AsyncClient.Sends events sends) v) = requests v ++ more) as (more & Hreq).
  { unfold requests. cbn [v_net run_net AsyncClient.spec_step AsyncClient.sent]. unfold payloads.
    cbn [v_net run_net AsyncClient.spec_step AsyncClient.made].
    rewrite (take_ge _ (length _)) by by rewrite length_fmap.
    set (l := _ <$> _). set (n := AsyncClient.sent (v_net v)). eexists.
    rewrite <- numbered_app. by rewrite (take_drop n l). }
  unfold wire in *. split; unfold wire; rewrite ?Hreq; cbn [v_up v_down run_net]; try done.
  - by eapply AsyncClient.wf_step.
  - rewrite fmap_app, concat_app, length_app. lia.
  - destruct Hp as (part & Hpart & Heq). exists part. split; [done|].
    pose proof (whole_le (requests v) (v_up v)).
    by rewrite whole_app, take_app_le, fmap_app, concat_app, take_app_le by done.
  - pose proof (whole_le (requests v) (v_up v)). by rewrite whole_app, take_app_le by done.
  - intros j. cbn [v_net run_net AsyncClient.spec_step AsyncClient.awaited AsyncClient.sent].
    rewrite elem_of_union, Ha, elem_of_list_to_set, elem_of_seq. lia.
Qed.

Lemma view_runs st i v :
  view_ok st i v → AsyncClient.arrived (v_net v) ≠ [] → view_ok st i (run_net AsyncClient.Runs v).
Proof.
  intros [Hwf Hup Hp Hd Hdw Hr Ha Hanss] Hne. split; try done.
  - by eapply (AsyncClient.wf_step 0 0 0).
  - cbn [v_net run_net AsyncClient.spec_step AsyncClient.ran AsyncClient.arrived].
    destruct (AsyncClient.arrived (v_net v)) as [|a l]; [done|]. cbn [head option_list tail].
    rewrite <- app_assoc. exact Hr.
Qed.

(** A response to a client. *)
Lemma respond_arrives st i v :
  view_ok st i v → (v_down v < length (mine (uid i) (Server.sent st)))%nat →
  ∃ ec b, AsyncClient.made (v_net v) !! v_down v = Some ec ∧ (v_down v < AsyncClient.sent (v_net v))%nat ∧
    mine (uid i) (Server.sent st) !! v_down v = Some b ∧
    b = AsyncClient.response 0 (v_down v, reply (ServantProxy.payload ec.2)) ∧ zlen b ≤ 2 ^ 61 ∧
    default [] (reply <$> payloads v !! v_down v) = reply (ServantProxy.payload ec.2).
Proof.
  intros Hv Hlt. apply lookup_lt_is_Some_2 in Hlt as [b Hb].
  destruct (due_lookup st i v (v_down v) b Hv) as (ec & Hec & Hsent & Heq & Hl).
  { unfold Server.due. rewrite mine_app. by apply lookup_app_l_Some. }
  exists ec, b. do 3 (split; [done|]). split; [|split; [done|]].
  - rewrite Heq. unfold AsyncClient.response, AsyncClient.id_of. cbn [fst snd]. f_equal. lia.
  - unfold payloads. by rewrite list_lookup_fmap, Hec.
Qed.

Lemma view_respond st i v :
  view_ok st i v → (v_down v < length (mine (uid i) (Server.sent st)))%nat →
  zlen (AsyncClient.arrived (v_net v)) < 100 →
  AsyncClient.allowed (k (v_port v)) 0 (cap (v_port v))
    (AsyncClient.Arrives (v_down v) (default [] (reply <$> payloads v !! v_down v))) (v_net v) ∧
  view_ok st i (respond v).
Proof.
  intros Hv Hlt Hroom. destruct (respond_arrives st i v Hv Hlt) as (ec & b & Hec & Hsent & _ & Hb & Hl & Hbody).
  destruct Hv as [Hwf Hup Hp Hd Hdw Hr Ha Hanss]. unfold respond. rewrite Hbody.
  assert (AsyncClient.allowed (k (v_port v)) 0 (cap (v_port v))
    (AsyncClient.Arrives (v_down v) (reply (ServantProxy.payload ec.2))) (v_net v)) as Hal.
  { split; [apply Ha; lia|]. split; [done|]. by rewrite <- Hb. }
  split; [exact Hal|]. split; cbn [v_net v_up v_down]; try done.
  - by eapply AsyncClient.wf_step.
  - cbn [AsyncClient.spec_step AsyncClient.ran AsyncClient.arrived]. rewrite app_assoc, Hr.
    symmetry. apply take_S_r. unfold results, payloads. rewrite list_lookup_imap, list_lookup_fmap.
    cbn [v_net AsyncClient.spec_step AsyncClient.made]. by rewrite Hec.
  - intros j. cbn [AsyncClient.spec_step AsyncClient.awaited AsyncClient.sent].
    rewrite elem_of_difference, elem_of_singleton, Ha. lia.
Qed.

(** *** The steps of the server *)

Lemma take_news v n :
  take (whole (requests v) (v_up v + n)) (requests v) =
    take (whole (requests v) (v_up v)) (requests v) ++ news v n.
Proof.
  unfold news. set (l := requests v). pose proof (whole_mono l (v_up v) (v_up v + n) ltac:(lia)) as Hd.
  rewrite <- (take_drop (whole l (v_up v)) (take (whole l (v_up v + n)) l)) at 1.
  by rewrite take_take, Nat.min_l.
Qed.

(** The bytes that are delivered complete the requests [news]. *)
Lemma delivered st i v n :
  view_ok st i v → (v_up v + n ≤ length (wire v))%nat →
  ∃ part left, Server.parts st !! uid i = Some part ∧ Connection.incomplete left ∧
    part ++ take n (drop (v_up v) (wire v)) = concat (Wire.frame <$> news v n) ++ left ∧
    take (v_up v + n) (wire v) =
      concat (Wire.frame <$> take (whole (requests v) (v_up v + n)) (requests v)) ++ left ∧
    (length (part ++ take n (drop (v_up v) (wire v))) ≤ v_up v + n)%nat.
Proof.
  intros Hv Hn. destruct (vo_part _ _ _ Hv) as (part & Hpart & Heq).
  destruct (whole_spec (requests v) (v_up v + n) Hn (requests_small v (vo_wf _ _ _ Hv))) as (left & Hleft & Hinc).
  exists part, left. split; [done|]. split; [done|].
  assert (part ++ take n (drop (v_up v) (wire v)) = concat (Wire.frame <$> news v n) ++ left) as Hcut.
  { assert (take (v_up v + n) (wire v) = take (v_up v) (wire v) ++ take n (drop (v_up v) (wire v))) as Hsplit.
    { rewrite <- (take_drop (v_up v) (take (v_up v + n) (wire v))) at 1.
      rewrite take_take, Nat.min_l by lia. f_equal. rewrite skipn_firstn_comm. f_equal. lia. }
    fold (wire v) in Hleft. rewrite Hsplit, Heq, take_news, fmap_app, concat_app, <- !app_assoc in Hleft.
    by apply app_inv_head in Hleft. }
  split; [exact Hcut|]. split; [exact Hleft|].
  apply (f_equal length) in Heq. rewrite length_take, length_app in Heq. rewrite length_app, length_take. lia.
Qed.

(** What the server finds in the bytes of a delivery. *)
Lemma delivered_requests st i v n :
  view_ok st i v → (v_up v + n ≤ length (wire v))%nat →
  ∃ part left, Server.parts st !! uid i = Some part ∧
    let q := part ++ concat (Rpc.chunks (take n (drop (v_up v) (wire v)))) in
    Connection.requests_in q = Ok (news v n, left) ∧ zlen q ≤ Z.of_nat (v_up v + n) ∧
    take (v_up v + n) (wire v) =
      concat (Wire.frame <$> take (whole (requests v) (v_up v + n)) (requests v)) ++ left.
Proof.
  intros Hv Hn. destruct (delivered st i v n Hv Hn) as (part & left & Hpart & Hinc & Heq & Hleft & Hlen).
  destruct (Rpc.chunks_spec (take n (drop (v_up v) (wire v)))) as [Hcat _].
  exists part, left. cbv zeta. rewrite Hcat. split; [done|]. split; [|split; [lia|done]].
  rewrite Heq. apply Connection.requests_in_frames; [done|].
  unfold news. by apply Forall_drop, Forall_take, requests_small, Hv.
Qed.

Lemma delivers_announced st i v n env :
  view_ok st i v → (v_up v + n ≤ length (wire v))%nat →
  Server.announced (Server.Reads (uid i) (Rpc.chunks (take n (drop (v_up v) (wire v)))) (news v n) env) st.
Proof.
  intros Hv Hn part reqs left Hp Hr.
  destruct (delivered_requests st i v n Hv Hn) as (part' & left' & Hp' & Hr' & _). cbv zeta in Hr'. congruence.
Qed.

Lemma delivers_allowed st i v n env :
  view_ok st i v → (v_up v + n ≤ length (wire v))%nat → Z.of_nat (v_up v + n) ≤ bq_limit →
  zlen (news v n) < 2 ^ 31 - 1 → zlen (Server.queued st) + zlen (news v n) ≤ 2 ^ 62 →
  Server.allowed (Server.Reads (uid i) (Rpc.chunks (take n (drop (v_up v) (wire v)))) (news v n) env) st.
Proof.
  intros Hv Hn Hlim Hnum Hroom.
  destruct (delivered_requests st i v n Hv Hn) as (part & left & Hpart & Hr & Hlen & _). cbv zeta in Hr, Hlen.
  exists part. split; [done|]. split; [apply Rpc.chunks_spec|]. split; [lia|].
  intros reqs left' Hr'. rewrite Hr in Hr'. by injection Hr' as <- <-.
Qed.

Lemma view_delivers st st' i v n env :
  view_ok st i v → (v_up v + n ≤ length (wire v))%nat →
  Server.spec_step func (Server.Reads (uid i) (Rpc.chunks (take n (drop (v_up v) (wire v)))) (news v n) env) st
    = Ok st' →
  view_ok st' i (deliver n v).
Proof.
  intros Hv Hn Hst. destruct (delivered_requests st i v n Hv Hn) as (part & left & Hpart & Hreq & _ & Hleft).
  pose proof (Server.step_due func _ _ _ (delivers_announced st i v n env Hv Hn) Hst) as Hdue.
  cbn [Server.spec_step] in Hst. rewrite Hpart in Hst.
  cbn [deref mbind outcome_bind] in Hst. cbv zeta in Hreq. rewrite Hreq in Hst. injection Hst as <-.
  destruct Hv as [Hwf Hup Hp Hd Hdw Hr Ha Hanss]. split; try done.
  - exists left. cbn [Server.parts]. rewrite lookup_insert_eq. split; [done|exact Hleft].
  - rewrite Hdue, mine_app, Hd. unfold Server.asked. cbn [fmap list_fmap concat]. rewrite app_nil_r.
    rewrite answer_pair, mine_own. change (requests (deliver n v)) with (requests v).
    change (v_up (deliver n v)) with (v_up v + n)%nat. by rewrite take_news, fmap_app.
Qed.

(** The other clients notice nothing of a client's requests. *)
Lemma view_delivers_other st st' i j v blocks l env :
  view_ok st j v → j ≠ i → Server.announced (Server.Reads (uid i) blocks l env) st →
  Server.spec_step func (Server.Reads (uid i) blocks l env) st = Ok st' → view_ok st' j v.
Proof.
  intros Hv Hne Han Hst. pose proof (Server.step_due func _ _ _ Han Hst) as Hdue. cbn [Server.spec_step] in Hst.
  apply bind_Ok in Hst as (part & _ & Hst). apply bind_Ok in Hst as ([reqs left] & _ & Hst). injection Hst as <-.
  assert (uid j ≠ uid i) as Hu by (unfold uid; lia).
  eapply (view_server st _ j v []); [done| | |by rewrite app_nil_r].
  - cbn [Server.parts]. by rewrite lookup_insert_ne.
  - rewrite Hdue, mine_app. unfold Server.asked. cbn [fmap list_fmap concat].
    by rewrite app_nil_r, answer_pair, mine_other, app_nil_r.
Qed.

(** *** Every step keeps it *)

Lemma inv_empty : inv ([], Server.empty).
Proof. split; cbn [fst snd]; try done. apply NoDup_nil_2. Qed.

Lemma inv_alter i f vs st v :
  inv (vs, st) → vs !! i = Some v → view_ok st i (f v) → inv (alter f i vs, st).
Proof.
  intros [Hv Hs Hd Hdue] Hi Hf. cbn [fst snd] in *. split; cbn [fst snd]; rewrite ?length_alter; try done.
  intros j v' Hj. destruct (decide (j = i)) as [->|Hne].
  - rewrite list_lookup_alter_eq, Hi in Hj. cbn in Hj. by injection Hj as <-.
  - rewrite list_lookup_alter_ne in Hj by done. by apply Hv.
Qed.

Lemma waiting_connected vs st :
  inv (vs, st) → Forall (λ x, is_Some (Server.parts st !! x.1)) (Server.answered st).
Proof.
  intros [Hv Hs Hd Hdue]. cbn [fst snd] in *. unfold Server.due, Server.waiting in Hdue.
  apply Forall_app in Hdue as [_ [Hdue _]%Forall_app]. eapply Forall_impl; [exact Hdue|].
  intros y (i & Hi & ->). apply lookup_lt_is_Some_2 in Hi as [v Hi].
  destruct (vo_part _ _ _ (Hv i v Hi)) as (part & Hp & _). by exists part.
Qed.

Lemma view_connects st st' garbage acc i v :
  Server.spec_step func (Server.Accepts garbage acc) st = Ok st' → 0 < NetThread.acc_ret acc →
  (i < length (Server.socks st))%nat → view_ok st i v → view_ok st' i v.
Proof.
  intros Hst Hacc Hi Hv. pose proof (Server.step_due func (Server.Accepts garbage acc) st st' I Hst) as Hdue. cbn [Server.spec_step] in Hst.
  rewrite (proj2 (Z.ltb_lt _ _) Hacc) in Hst. destruct (_ <? 2000); [|done]. injection Hst as <-.
  eapply (view_server st _ i v []); [done| | |by rewrite app_nil_r].
  - cbn [Server.parts]. rewrite lookup_insert_ne; [done|]. unfold uid. lia.
  - rewrite Hdue. unfold Server.asked. cbn. by rewrite app_nil_r.
Qed.

Lemma inv_connects vs st garbage acc a c :
  inv (vs, st) → allowed (Connects a c garbage acc) (vs, st) →
  ∃ st', Server.spec_step func (Server.Accepts garbage acc) st = Ok st' ∧
    Server.socks st' = Server.socks st ++ [NetThread.acc_ret acc] ∧
    inv (vs ++ [mk_view a AsyncClient.empty 0 0], st').
Proof.
  intros [Hv Hs Hd Hdue] (_ & Hacc & Hnew & Hroom). cbn [fst snd] in *.
  destruct (Server.spec_step func (Server.Accepts garbage acc) st) as [st'| | | |] eqn:Hst;
    cbn [Server.spec_step] in Hst; rewrite (proj2 (Z.ltb_lt _ _) Hacc), (proj2 (Z.ltb_lt _ _)) in Hst by lia; try done.
  exists st'. split; [done|].
  assert (Server.spec_step func (Server.Accepts garbage acc) st = Ok st') as Hst'.
  { cbn [Server.spec_step]. rewrite (proj2 (Z.ltb_lt _ _) Hacc), (proj2 (Z.ltb_lt _ _)) by lia. exact Hst. }
  injection Hst as <-. split; [done|].
  split; cbn [fst snd Server.socks]; rewrite ?length_app; cbn [length].
  - intros i v Hi. apply lookup_app_Some in Hi as [Hi|[Hge Hi]].
    + eapply view_connects; [exact Hst'|done| |by apply Hv]. rewrite Hs. by eapply lookup_lt_Some.
    + apply list_lookup_singleton_Some in Hi as [Hi <-]. assert (i = length vs) as -> by lia.
      assert (∀ l : list (Z * bytes), (∀ y, y ∈ l → y.1 ≠ uid (length vs)) → mine (uid (length vs)) l = []) as Hnil.
      { intros l Hl. unfold mine. assert (filter (λ x, x.1 = uid (length vs)) l = []) as ->; [|done].
        apply elem_of_nil_inv. intros y [Hy Hin]%list_elem_of_filter. by apply (Hl y). }
      assert (∀ y, y ∈ Server.due func st → y.1 ≠ uid (length vs)) as Hno.
      { intros y Hy Heq. apply (proj1 (Forall_forall _ _) Hdue) in Hy as (j & Hj & Hy). unfold uid in *. lia. }
      split; cbn [v_net v_up v_down].
      * apply AsyncClient.wf_empty.
      * cbn. lia.
      * exists []. cbn [Server.parts]. unfold uid. rewrite Hs, lookup_insert_eq. done.
      * unfold Server.due, Server.waiting. cbn [Server.sent Server.answered Server.taken Server.queued]. by apply Hnil.
      * cbn. lia.
      * done.
      * intros j. cbn. rewrite elem_of_empty. lia.
      * intros j ec Hj. done.
  - rewrite Hs. lia.
  - apply NoDup_app. split; [done|]. split; [|apply NoDup_singleton]. by intros y Hy ->%list_elem_of_singleton.
  - change (Server.due func _) with (Server.due func st). eapply Forall_impl; [exact Hdue|].
    intros y (i & Hi & Hy). exists i. split; [lia|done].
Qed.

Lemma inv_delivers vs st i v n env :
  inv (vs, st) → vs !! i = Some v → (v_up v + n ≤ length (wire v))%nat →
  ∃ st', Server.spec_step func
      (Server.Reads (uid i) (Rpc.chunks (take n (drop (v_up v) (wire v)))) (news v n) env) st = Ok st' ∧
    Server.socks st' = Server.socks st ∧ inv (alter (deliver n) i vs, st').
Proof.
  intros Hinv Hi Hn. pose proof Hinv as [Hv Hs Hd Hdue]. cbn [fst snd] in *.
  set (ev := Server.Reads _ _ _ _).
  destruct (delivered_requests st i v n (Hv i v Hi) Hn) as (part & left & Hpart & Hreq & _). cbv zeta in Hreq.
  pose proof (delivers_announced st i v n env (Hv i v Hi) Hn) as Han. fold ev in Han.
  assert (∃ st', Server.spec_step func ev st = Ok st' ∧ Server.socks st' = Server.socks st) as (st' & Hst & Hso).
  { unfold ev. cbn [Server.spec_step]. rewrite Hpart. cbn [deref mbind outcome_bind]. rewrite Hreq. by eexists. }
  exists st'. split; [done|]. split; [exact Hso|].
  split; cbn [fst snd]; rewrite ?length_alter, ?Hso; try done.
  - intros j v' Hj. destruct (decide (j = i)) as [->|Hne].
    + rewrite list_lookup_alter_eq, Hi in Hj. cbn in Hj. injection Hj as <-.
      apply (view_delivers st st' i v n env); [by apply Hv|done|exact Hst].
    + rewrite list_lookup_alter_ne in Hj by done. eapply view_delivers_other; [by apply Hv|done|exact Han|exact Hst].
  - rewrite (Server.step_due func _ _ _ Han Hst). apply Forall_app. split; [done|].
    unfold ev, Server.asked. cbn [fmap list_fmap concat]. rewrite app_nil_r.
    apply Forall_fmap, Forall_fmap, Forall_true. intros m. exists i. split; [by eapply lookup_lt_Some|done].
Qed.

Lemma inv_quiet vs st st' :
  inv (vs, st) → Server.socks st' = Server.socks st → Server.parts st' = Server.parts st →
  Server.due func st' = Server.due func st → (∃ more, Server.sent st' = Server.sent st ++ more) → inv (vs, st').
Proof.
  intros [Hv Hs Hd Hdue] Hso Hpa Hdu (more & Hse). cbn [fst snd] in *. split; cbn [fst snd]; rewrite ?Hso, ?Hdu; try done.
  intros i v Hi. eapply (view_server st st' i v more); [by apply Hv|by rewrite Hpa|by rewrite Hdu|done].
Qed.

Lemma writes_step vs st envs :
  inv (vs, st) →
  ∃ st', Server.spec_step func (Server.Writes envs) st = Ok st' ∧ Server.socks st' = Server.socks st ∧
    st' = Server.mk (Server.socks st) (Server.parts st) (Server.queued st) (Server.taken st) []
            (Server.sent st ++ Server.answered st).
Proof.
  intros Hinv. eexists. cbn [Server.spec_step]. rewrite decide_True by by eapply waiting_connected. done.
Qed.

(** No step crashes. *)
Lemma spec_steps ev x : inv x → allowed ev x → ∃ x', spec_step ev x = Ok x' ∧ inv x'.
Proof.
  destruct x as [vs st]. intros Hinv Hal.
  destruct ev as [b c garbage acc|i env c|i events sends|i|i n env|i|now cur notified|envs]; cbn [spec_step].
  - destruct (inv_connects vs st garbage acc b c Hinv Hal) as (st' & -> & _ & Hinv').
    by eexists.
  - destruct Hal as (v & Hi & Hal & Hans). eexists. split; [done|]. apply (inv_alter _ _ _ _ v); [done..|].
    eapply view_calls; [exact (inv_view _ Hinv i v Hi)|done|done].
  - destruct Hal as (v & Hi & Hal). eexists. split; [done|]. apply (inv_alter _ _ _ _ v); [done..|].
    eapply view_sends; [exact (inv_view _ Hinv i v Hi)|done].
  - destruct Hal as (v & Hi & Hal). eexists. split; [done|]. apply (inv_alter _ _ _ _ v); [done..|].
    apply view_runs; [exact (inv_view _ Hinv i v Hi)|done].
  - destruct Hal as (v & Hi & Hn & _). rewrite Hi. cbn [deref mbind outcome_bind].
    destruct (inv_delivers vs st i v n env Hinv Hi Hn) as (st' & -> & _ & Hinv'). by eexists.
  - destruct Hal as (v & Hi & Hlt & Hroom). eexists. split; [done|]. apply (inv_alter _ _ _ _ v); [done..|].
    by apply (view_respond st i v (inv_view _ Hinv i v Hi)).
  - destruct (Server.pass_frame func st) as (Hso & Hpa & Hse). eexists. split; [done|].
    apply (inv_quiet vs st); [done..|apply Server.pass_due|]. exists []. by rewrite app_nil_r.
  - destruct (writes_step vs st envs Hinv) as (st' & Hst & Hso & ->). rewrite Hst. eexists. split; [done|].
    apply (inv_quiet vs st); [done..| |by eexists].
    pose proof (Server.step_due func (Server.Writes envs) st _ I Hst) as Hd.
    unfold Server.asked in Hd. cbn in Hd. by rewrite app_nil_r in Hd.
Qed.

Lemma allowed_app evs1 evs2 : ∀ x,
  all_allowed evs1 x → (∀ x', spec_run evs1 x = Ok x' → all_allowed evs2 x') → all_allowed (evs1 ++ evs2) x.
Proof.
  induction evs1 as [|ev evs1 IH]; intros x H1 H2; [by apply H2|]. destruct H1 as [Hev H1].
  split; [done|]. cbn [spec_run] in H2. destruct (spec_step ev x) as [x1| | | |]; try done. by apply IH.
Qed.

Lemma run_app evs1 evs2 : ∀ x, spec_run (evs1 ++ evs2) x = (x ← spec_run evs1 x; spec_run evs2 x).
Proof.
  induction evs1 as [|ev evs1 IH]; intros x; [done|]. cbn [app spec_run].
  destruct (spec_step ev x); [apply IH|done..].
Qed.

Lemma spec_runs evs : ∀ x x', inv x → all_allowed evs x → spec_run evs x = Ok x' → inv x'.
Proof.
  induction evs as [|ev evs IH]; intros x x' Hinv Hal Hr; [by injection Hr as <-|]. destruct Hal as [Hev Hal].
  destruct (spec_steps ev x Hinv Hev) as (x1 & H1 & Hinv1). cbn [spec_run] in Hr. rewrite H1 in Hal, Hr.
  by apply (IH x1).
Qed.

(** *** What is left to do *)

(** The calls of client [i]. *)
Definition called (i : nat) (evs : list event) : list (ServantProxy.answers * ServantProxy.call) :=
  omap (λ ev, match ev with Calls j env c => if decide (j = i) then Some (env, c) else None | _ => None end) evs.

Definition made_by (i : nat) (vs : list view) : list (ServantProxy.answers * ServantProxy.call) :=
  default [] ((λ v, AsyncClient.made (v_net v)) <$> vs !! i).

Lemma made_alter i j f vs :
  (∀ v, AsyncClient.made (v_net (f v)) = AsyncClient.made (v_net v)) → made_by i (alter f j vs) = made_by i vs.
Proof.
  intros Hf. unfold made_by. destruct (decide (i = j)) as [->|Hne].
  - rewrite list_lookup_alter_eq. destruct (vs !! j); [cbn; by rewrite Hf|done].
  - by rewrite list_lookup_alter_ne.
Qed.

Lemma step_made i ev vs st vs' st' :
  allowed ev (vs, st) → spec_step ev (vs, st) = Ok (vs', st') → made_by i vs' = made_by i vs ++ called i [ev].
Proof.
  destruct ev as [a c garbage acc|j env c|j events sends|j|j n env|j|now cur notified|envs];
    intros Hal; cbn [spec_step called omap list_omap]; rewrite ?app_nil_r.
  - intros (st1 & _ & Hs)%bind_Ok. injection Hs as <- <-. unfold made_by.
    destruct (vs !! i) as [v|] eqn:Hi; [by erewrite lookup_app_l_Some by done|].
    rewrite lookup_app_r by by apply lookup_ge_None. by destruct (i - length vs)%nat.
  - intros [= <- <-]. destruct Hal as (v & Hj & _). destruct (decide (j = i)) as [->|Hne].
    + unfold made_by. rewrite list_lookup_alter_eq, Hj. done.
    + unfold made_by. by rewrite list_lookup_alter_ne, app_nil_r.
  - intros [= <- <-]. by apply made_alter.
  - intros [= <- <-]. by apply made_alter.
  - intros (v & _ & (st1 & _ & Hs)%bind_Ok)%bind_Ok. injection Hs as <- <-. by apply made_alter.
  - intros [= <- <-]. by apply made_alter.
  - intros (st1 & _ & Hs)%bind_Ok. by injection Hs as <- <-.
  - intros (st1 & _ & Hs)%bind_Ok. by injection Hs as <- <-.
Qed.

Lemma run_made i evs : ∀ vs st vs' st',
  all_allowed evs (vs, st) → spec_run evs (vs, st) = Ok (vs', st') → made_by i vs' = made_by i vs ++ called i evs.
Proof.
  induction evs as [|ev evs IH]; intros vs st vs' st' Hal Hr; cbn [spec_run] in Hr.
  { injection Hr as <- <-. by rewrite app_nil_r. }
  destruct Hal as [Hev Hal]. apply bind_Ok in Hr as ([vs1 st1] & H1 & Hr). rewrite H1 in Hal.
  rewrite (IH _ _ _ _ Hal Hr), (step_made i _ _ _ _ _ Hev H1), <- app_assoc. f_equal.
  change (ev :: evs) with ([ev] ++ evs). unfold called. by rewrite omap_app.
Qed.

(** Nothing is on its way. *)
Definition quiet (x : abstract) : Prop :=
  Server.waiting func x.2 = [] ∧
  ∀ i v, x.1 !! i = Some v →
    AsyncClient.sent (v_net v) = length (AsyncClient.made (v_net v)) ∧ v_up v = length (wire v) ∧
    v_down v = length (mine (uid i) (Server.sent x.2)) ∧ AsyncClient.arrived (v_net v) = [].

Lemma whole_all l : whole l (length (concat (Wire.frame <$> l))) = length l.
Proof.
  induction l as [|m l IH]; [done|]. rewrite fmap_cons. cbn [concat whole length]. rewrite length_app.
  rewrite decide_True by lia. f_equal. rewrite <- IH. f_equal. lia.
Qed.

(** Then every call has got its result. *)
Lemma quiet_results vs st i v :
  inv (vs, st) → quiet (vs, st) → vs !! i = Some v → AsyncClient.ran (v_net v) = results v.
Proof.
  intros Hinv [Hw Hq] Hi. destruct (Hq i v Hi) as (Hs & Hup & Hdn & Har). pose proof (inv_view _ Hinv i v Hi) as Hv.
  cbn [fst snd] in *. pose proof (vo_ran _ _ _ Hv) as Hr. rewrite Har, app_nil_r in Hr. rewrite Hr.
  apply take_ge. pose proof (vo_due _ _ _ Hv) as Hd. unfold Server.due in Hd.
  rewrite Hw, app_nil_r, Hup in Hd. unfold wire in Hd. rewrite whole_all, take_ge in Hd by done.
  rewrite Hdn, Hd, length_fmap, length_requests, Hs by apply Hv.
  unfold results. by rewrite length_imap, length_payloads.
Qed.

(** The callbacks so far are the first ones. *)
Lemma ran_results st i v :
  view_ok st i v → ∃ n, (n ≤ length (results v))%nat ∧ AsyncClient.ran (v_net v) = take n (results v).
Proof.
  intros Hv. pose proof (vo_ran _ _ _ Hv) as Hr. pose proof (f_equal length Hr) as Hl.
  rewrite length_app, length_take in Hl. exists (length (AsyncClient.ran (v_net v))). split; [lia|].
  apply (f_equal (take (length (AsyncClient.ran (v_net v))))) in Hr. rewrite take_app_length, take_take in Hr.
  rewrite Hr at 1. f_equal. lia.
Qed.

End specification.

(** ** The system refines it *)

Section refinement.
Context {B : Type} `{ByteQueueLaws B}.
Context (log : outcome unit) (address : nat → CommunicatorEpoll.fd_pointer → Z).
Context (alloc_ok : nat → bool) (maxIOVcount : nat) (h : ServantHandle.t) (lfd : Z).
Context (func reply : bytes → bytes) (a : nat) (name : bytes) (gi : nat).
Hypothesis alloc_total : ∀ n, alloc_ok n = true.

Abbreviation server := (EpollServer.t B * (NodeF.t * Scheduler.t HandlerRun.task))%type.
Abbreviation system := (list peer * server)%type.
Abbreviation abstract := (list view * Server.net)%type.

Record peer_ok (fds : list Z) (i : nat) (p : peer) (v : view) : Prop := {
  po_port : port_ p = v_port v;
  po_fd : fd p = Server.descriptor fds (uid i);
  po_up : up p = v_up v;
  po_down : down p = v_down v;
  po_prog : let q := v_port v in
    AsyncClient.models (self q) (k q) (e q) (seq q) 0 (cap q) [] [] (prog p) (v_net v)
}.

Record models (x : system) (y : abstract) : Prop := {
  mo_server : Server.models h lfd func a name gi x.2 y.2;
  mo_length : length x.1 = length y.1;
  mo_peer i p v : x.1 !! i = Some p → y.1 !! i = Some v → peer_ok (Server.socks y.2) i p v
}.

(** One client changes. *)
Lemma models_alter ps s vs st i p p' v f :
  models (ps, s) (vs, st) → ps !! i = Some p → vs !! i = Some v → peer_ok (Server.socks st) i p' (f v) →
  models (<[i := p']> ps, s) (alter f i vs, st).
Proof.
  intros [Hs Hl Hp] Hi Hiv Hok. cbn [fst snd] in *. split; cbn [fst snd].
  - done.
  - by rewrite length_insert, length_alter.
  - intros j q w Hj Hjw. destruct (decide (j = i)) as [->|Hne].
    + rewrite list_lookup_insert_eq in Hj by by eapply lookup_lt_Some. injection Hj as <-.
      rewrite list_lookup_alter_eq, Hiv in Hjw. cbn in Hjw. injection Hjw as <-. exact Hok.
    + rewrite list_lookup_insert_ne in Hj by done. rewrite list_lookup_alter_ne in Hjw by done. by apply Hp.
Qed.

Lemma peer_of ps s vs st i v :
  models (ps, s) (vs, st) → vs !! i = Some v → ∃ p, ps !! i = Some p ∧ peer_ok (Server.socks st) i p v.
Proof.
  intros [_ Hl Hp] Hi. cbn [fst snd] in *. destruct (lookup_lt_is_Some_2 ps i) as [p Hpi].
  { rewrite Hl. by eapply lookup_lt_Some. }
  exists p. split; [done|by apply Hp].
Qed.

Lemma local_refines ev ps s vs st i v :
  models (ps, s) (vs, st) → vs !! i = Some v →
  AsyncClient.allowed (k (v_port v)) 0 (cap (v_port v)) ev (v_net v) →
  ∃ x', local log address i ev (ps, s) = Ok x' ∧ models x' (alter (run_net ev) i vs, st).
Proof.
  intros Hm Hi Hal. destruct (peer_of _ _ _ _ _ _ Hm Hi) as (p & Hp & Hok). pose proof Hok as [Hpo Hfd Hup Hdn Hpr].
  destruct (AsyncClient.client_step_refines log address (self (v_port v)) (k (v_port v)) (e (v_port v)) (seq (v_port v)) 0
    (cap (v_port v)) [] [] ev (prog p) (v_net v) Hpr Hal) as (c & Hc & Hpr').
  cbn [local]. rewrite Hp. cbn [deref mbind outcome_bind]. rewrite Hpo, Hc. cbn [mbind outcome_bind].
  eexists. split; [done|]. by apply (models_alter ps s vs st i p _ v).
Qed.

(** The bytes that a client has written. *)
Lemma peer_wire fds i p v : peer_ok fds i p v → Rpc.wire (k (port_ p)) (prog p).2 = wire v.
Proof.
  intros [Hpo _ _ _ (addr & Hm)]. rewrite Hpo.
  rewrite (Rpc.wire_connected _ _ _ _ _ _ (AsyncClient.m_connected _ _ _ _ _ _ _ _ _ _ _ Hm)).
  cbn [app]. unfold wire, requests, payloads. by rewrite <- Pipeline.stream_numbered, fmap_take.
Qed.

(** What the server has passed to [::send] for a client. *)
Lemma descriptor_uid fds i : Server.descriptor fds (uid i) = default 0 (fds !! i).
Proof. unfold Server.descriptor, uid. by replace (Z.to_nat (Z.of_nat i + 1 - 1)) with i by lia. Qed.

Lemma on_wire_mine fds i l :
  NoDup fds → (i < length fds)%nat →
  Forall (λ y, y.2 ≠ [] ∧ ∃ j, (j < length fds)%nat ∧ y.1 = uid j) l →
  (filter (λ x, x.1 = Server.descriptor fds (uid i)) (Server.on_wire fds l)).*2 = mine (uid i) l.
Proof.
  intros Hnd Hi. unfold Server.on_wire, mine.
  induction 1 as [|[u m] l (Hne & j & Hj & Hu) _ IH]; [done|]. cbn [fst snd] in *. subst u.
  rewrite filter_cons_True by done. rewrite fmap_cons. cbn [fst snd]. rewrite !filter_cons. cbn [fst].
  destruct (lookup_lt_is_Some_2 fds i Hi) as [x Hx], (lookup_lt_is_Some_2 fds j Hj) as [y Hy].
  destruct (decide (uid j = uid i)) as [Heq|Hneq].
  - rewrite Heq, decide_True by done. rewrite !fmap_cons, IH. done.
  - rewrite decide_False; [exact IH|]. rewrite !descriptor_uid, Hx, Hy. cbn. intros ->.
    apply Hneq. by rewrite (NoDup_lookup fds i j x Hnd Hx Hy).
Qed.

Lemma sent_to_mine s vs st i :
  Server.models h lfd func a name gi s st → inv func reply (vs, st) → (i < length vs)%nat →
  Rpc.sent_to (Server.descriptor (Server.socks st) (uid i)) s.1 = mine (uid i) (Server.sent st).
Proof.
  intros Hm [Hv Hs Hd Hdue] Hi. cbn [fst snd] in *. unfold Rpc.sent_to.
  rewrite (Server.models_sent h lfd func a name gi s st Hm). apply on_wire_mine; [done|lia|].
  unfold Server.due in Hdue. apply Forall_app in Hdue as [Hdue _]. apply Forall_forall. intros y Hy.
  destruct (proj1 (Forall_forall _ _) Hdue y Hy) as (j & Hj & Hyj). rewrite Hs. split; [|by exists j].
  destruct (lookup_lt_is_Some_2 vs j Hj) as [v Hvj].
  assert (y.2 ∈ mine (uid j) (Server.due func st)) as Hin.
  { unfold mine, Server.due. apply list_elem_of_fmap_2, list_elem_of_filter. split; [done|]. apply elem_of_app. by left. }
  apply list_elem_of_lookup in Hin as [n Hn].
  destruct (due_lookup func reply st j v n y.2 (Hv j v Hvj) Hn) as (ec & _ & _ & -> & _).
  unfold ObjectProxy.response_to. by destruct (Wire.to_string _).
Qed.

(** A step of the server that leaves the clients alone. *)
Lemma remote_refines ev ps s vs st st' :
  models (ps, s) (vs, st) → Server.allowed ev st → Server.spec_step func ev st = Ok st' →
  Server.socks st' = Server.socks st →
  ∃ x', remote alloc_ok maxIOVcount h lfd ev (ps, s) = Ok x' ∧ models x' (vs, st').
Proof.
  intros [Hs Hl Hp] Hal Hst Hso. cbn [fst snd] in *.
  pose proof (Server.server_step_refines alloc_ok maxIOVcount h lfd func alloc_total a name gi ev s st Hs Hal) as Hr.
  apply (outcome_rel_Ok _ _ _ _ Hr) in Hst as (s' & Hs' & Hm'). cbn [remote]. rewrite Hs'.
  eexists. split; [done|]. split; cbn [fst snd]; [done|done|]. by rewrite Hso.
Qed.

Lemma connects_refines c b garbage acc ps s vs st :
  models (ps, s) (vs, st) → inv func reply (vs, st) → allowed func reply (Connects b c garbage acc) (vs, st) →
  ∃ st' x', Server.spec_step func (Server.Accepts garbage acc) st = Ok st' ∧
    step log address alloc_ok maxIOVcount h lfd (Connects b c garbage acc) (ps, s) = Ok x' ∧
    models x' (vs ++ [mk_view b AsyncClient.empty 0 0], st').
Proof.
  intros [Hs Hl Hp] Hinv Hal. cbn [fst snd] in *.
  destruct (inv_connects func reply vs st garbage acc b c Hinv Hal) as (st' & Hst & Hso & _).
  destruct Hal as ((Hu & Hc & Hcap & Haw & Hev) & _). destruct c as [sp w]. cbn [fst snd] in *.
  pose proof (Server.server_step_refines alloc_ok maxIOVcount h lfd func alloc_total a name gi (Server.Accepts garbage acc)
    s st Hs I) as Hr.
  apply (outcome_rel_Ok _ _ _ _ Hr) in Hst as Hx. destruct Hx as (s' & Hs' & Hm').
  exists st'. eexists. cbn [step remote]. rewrite Hs'. split; [done|]. split; [done|].
  pose proof (inv_socks _ _ _ Hinv) as Hlen. cbn [fst snd] in Hlen.
  split; cbn [fst snd]; [done|rewrite !length_app; cbn; lia|].
  intros i p v Hi Hv. rewrite Hso. apply lookup_app_Some in Hi as [Hi|[Hge Hi]].
  - pose proof (lookup_lt_Some _ _ _ Hi) as Hlt. rewrite lookup_app_l in Hv by lia.
    destruct (Hp i p v Hi Hv) as [H1 H2 H3 H4 H5]. split; try done. rewrite H2.
    rewrite Server.descriptor_app; [done|]. unfold Server.known, uid. lia.
  - rewrite lookup_app_r in Hv by lia. apply list_lookup_singleton_Some in Hi as [Hi <-].
    apply list_lookup_singleton_Some in Hv as [_ <-]. assert (i = length ps) as -> by lia.
    split; cbn [port_ fd up down prog v_port v_up v_down v_net]; try done.
    + rewrite descriptor_uid, lookup_app_r by lia. by replace (length ps - length (Server.socks st))%nat with 0%nat by lia.
    + by apply AsyncClient.client_start_models.
Qed.

Lemma delivers_refines i n env ps s vs st v :
  models (ps, s) (vs, st) → inv func reply (vs, st) → vs !! i = Some v →
  allowed func reply (Delivers i n env) (vs, st) →
  ∃ st' x', Server.spec_step func
      (Server.Reads (uid i) (Rpc.chunks (take n (drop (v_up v) (wire v)))) (news v n) env) st = Ok st' ∧
    step log address alloc_ok maxIOVcount h lfd (Delivers i n env) (ps, s) = Ok x' ∧
    models x' (alter (deliver n) i vs, st').
Proof.
  intros Hm Hinv Hi (v' & Hi' & Hn & Hlim & Hnum & Hroom). assert (v' = v) as -> by congruence.
  destruct (peer_of _ _ _ _ _ _ Hm Hi) as (p & Hp & Hok). pose proof Hok as [Hpo Hfd Hup Hdn Hpr].
  pose proof (inv_view _ _ _ Hinv i v Hi) as Hv.
  destruct (inv_delivers func reply vs st i v n env Hinv Hi Hn) as (st' & Hst & Hso & _).
  destruct (remote_refines _ ps s vs st st' Hm (delivers_allowed func reply st i v n env Hv Hn Hlim Hnum Hroom) Hst Hso)
    as ([ps' s'] & Hx & Hm').
  assert (ps' = ps) as ->.
  { cbn [remote] in Hx. destruct (Server.step _ _ _ _ _ _); try discriminate. by injection Hx as <- <-. }
  exists st'. eexists. split; [done|]. cbn [step fst]. rewrite Hp. cbn [deref mbind outcome_bind].
  rewrite (peer_wire _ _ _ _ Hok), Hup.
  change (remote alloc_ok maxIOVcount h lfd (Server.Reads (uid i) (Rpc.chunks (take n (drop (v_up v) (wire v)))) [] env) (ps, s))
    with (remote alloc_ok maxIOVcount h lfd (Server.Reads (uid i) (Rpc.chunks (take n (drop (v_up v) (wire v)))) (news v n) env) (ps, s)).
  rewrite Hx. cbn [mbind outcome_bind]. split; [done|].
  apply (models_alter ps s' vs st' i p _ v); [done..|]. rewrite Hso. by split.
Qed.

Lemma responds_refines i ps s vs st :
  models (ps, s) (vs, st) → inv func reply (vs, st) → allowed func reply (Responds i) (vs, st) →
  ∃ x', step log address alloc_ok maxIOVcount h lfd (Responds i) (ps, s) = Ok x' ∧
    models x' (alter (respond reply) i vs, st).
Proof.
  intros Hm Hinv (v & Hi & Hlt & Hroom).
  destruct (peer_of _ _ _ _ _ _ Hm Hi) as (p & Hp & Hok). pose proof Hok as [Hpo Hfd Hup Hdn Hpr].
  pose proof (inv_view _ _ _ Hinv i v Hi) as Hv. cbn [fst snd] in *.
  destruct (respond_arrives func reply st i v Hv Hlt) as (ec & b & Hec & Hsent & Hb & Hbr & Hl & Hbody).
  destruct (view_respond func reply st i v Hv Hlt Hroom) as [Hal _].
  destruct (AsyncClient.client_step_refines log address (self (v_port v)) (k (v_port v)) (e (v_port v)) (seq (v_port v)) 0
    (cap (v_port v)) [] [] _ (prog p) (v_net v) Hpr Hal) as (c & Hc & Hpr').
  cbn [step fst snd]. rewrite Hp. cbn [deref mbind outcome_bind].
  pose proof (mo_server _ _ Hm) as Hsm. cbn [fst snd] in Hsm.
  rewrite Hfd, Hdn, (sent_to_mine s vs st i Hsm Hinv), Hb by by eapply lookup_lt_Some.
  cbn [deref mbind outcome_bind]. rewrite Hbody in Hc. rewrite Hbr, Hpo.
  assert (AsyncClient.receive log address (k (v_port v)) (e (v_port v))
    (AsyncClient.response 0 (v_down v, reply (ServantProxy.payload ec.2))) (prog p) = Ok c) as ->
    by (rewrite <- Hc; by destruct (prog p)).
  cbn [mbind outcome_bind]. eexists. split; [done|].
  apply (models_alter ps s vs st i p _ v); [done..|]. by split.
Qed.

(** *** The whole *)

Lemma step_models ev ps s vs st y :
  models (ps, s) (vs, st) → inv func reply (vs, st) → allowed func reply ev (vs, st) →
  spec_step func reply ev (vs, st) = Ok y →
  ∃ x', step log address alloc_ok maxIOVcount h lfd ev (ps, s) = Ok x' ∧ models x' y.
Proof.
  intros Hm Hinv Hal Hy.
  destruct ev as [b c garbage acc|i env c|i events sends|i|i n env|i|now cur notified|envs]; cbn [spec_step] in Hy.
  - destruct (connects_refines c b garbage acc ps s vs st Hm Hinv Hal) as (st' & x' & Hst & Hr).
    rewrite Hst in Hy. injection Hy as <-. by exists x'.
  - injection Hy as <-. destruct Hal as (v & Hi & Hal & _). by apply (local_refines _ ps s vs st i v).
  - injection Hy as <-. destruct Hal as (v & Hi & Hal). by apply (local_refines _ ps s vs st i v).
  - injection Hy as <-. destruct Hal as (v & Hi & Hal). by apply (local_refines _ ps s vs st i v).
  - pose proof Hal as (v & Hi & _). destruct (delivers_refines i n env ps s vs st v Hm Hinv Hi Hal)
      as (st' & x' & Hst & Hr).
    rewrite Hi in Hy. cbn [deref mbind outcome_bind] in Hy. rewrite Hst in Hy. injection Hy as <-. by exists x'.
  - injection Hy as <-. by apply responds_refines.
  - injection Hy as <-. apply (remote_refines _ ps s vs st); [done..|]. apply Server.pass_frame.
  - destruct (writes_step func reply vs st envs Hinv) as (st' & Hst & Hso & _). rewrite Hst in Hy. injection Hy as <-.
    by apply (remote_refines _ ps s vs st).
Qed.

Lemma run_refines evs : ∀ x y,
  models x y → inv func reply y → all_allowed func reply evs y →
  ∃ x' y', run log address alloc_ok maxIOVcount h lfd evs x = Ok x' ∧ spec_run func reply evs y = Ok y' ∧
    models x' y' ∧ inv func reply y'.
Proof.
  induction evs as [|ev evs IH]; intros [ps s] [vs st] Hm Hinv Hal; [by exists (ps, s), (vs, st)|].
  destruct Hal as [Hev Hal]. destruct (spec_steps func reply ev (vs, st) Hinv Hev) as (y1 & Hy1 & Hinv1).
  destruct (step_models ev ps s vs st y1 Hm Hinv Hev Hy1) as (x1 & H1 & Hm1). rewrite Hy1 in Hal.
  destruct (IH x1 y1 Hm1 Hinv1 Hal) as (x' & y' & Hr & Hry & Hm' & Hinv').
  exists x', y'. cbn [run]. rewrite H1. split; [exact Hr|]. split; [|done]. cbn [spec_run]. by rewrite Hy1.
Qed.

End refinement.

(** ** A system after the start of its server *)

(** What the calls of a client should get, by their numbers. *)
Definition expected (reply : bytes → bytes) (calls : list (ServantProxy.answers * ServantProxy.call)) : list (nat * bytes) :=
  imap (λ j ec, (j, reply (ServantProxy.payload ec.2))) calls.

(** For the results [l] of its [calls], the callback thread of [p] has run the
    callbacks of these calls, or printed the results. *)
Definition got (calls : list (ServantProxy.answers * ServantProxy.call)) (l : list (nat * bytes)) (p : peer) : Prop :=
  ∃ addr, NoDup addr ∧ length addr = length calls ∧
    Forall2 (AsyncClient.ends 0 addr (AsyncClient.mk calls 0 ∅ [] [])) (CommunicatorEpoll.events (prog p).2) l.

Lemma results_expected reply v : results reply v = expected reply (AsyncClient.made (v_net v)).
Proof. unfold results, payloads, expected. by rewrite imap_fmap. Qed.

Lemma peer_got fds i p v :
  peer_ok fds i p v → got (AsyncClient.made (v_net v)) (AsyncClient.ran (v_net v)) p.
Proof.
  intros [_ _ _ _ (addr & [_ Hla Hnd _ _ _ _ _ _ _ (evs & Hev & Hran)])]. exists addr.
  split; [done|]. split; [done|]. rewrite Hev. exact Hran.
Qed.

Lemma start_models {B : Type} `{ByteQueueLaws B} h lfd imp reply x :
  Rpc.accepting h lfd 2000 x imp → Rpc.sent_by x.1 = [] →
  ∃ a name gi, models h lfd imp a name gi (B := B) ([], x) ([], Server.empty) ∧ inv imp reply ([], Server.empty).
Proof.
  intros Ha Hse. destruct (Server.server_start_models h lfd imp x Ha Hse) as (a & name & gi & Hm).
  exists a, name, gi. split; [|apply inv_empty]. by split.
Qed.

Lemma start_runs {B : Type} `{ByteQueueLaws B} log address alloc_ok (alloc_total : ∀ n, alloc_ok n = true)
    maxIOVcount imp reply cfg env nf evs
    (H1 : Application.servantName1 cfg = [])
    (Hs : Application.adapterName cfg ≠ Application.servantName cfg)
    (Ho : Application.adapterName cfg ≠ Application.AdminObj)
    (Ha : Application.adapterName cfg ≠ Application.AdminAdapter)
    (Hfd0 : Application.admin_fd env ≠ -1) (Hfd : Application.adapter_fd env ≠ -1) :
  all_allowed imp reply evs ([], Server.empty) →
  ∃ hs (a : Application.t B) h m' st x y,
    Application.start_server (Application.add_first imp) cfg env = Ok (hs, a) ∧
    HandlerRun.begin alloc_ok (ServantHandle.mk [] (Some 1%nat)) (Application.manager a)
      (EpollServer.shared (Application.epollServer_ a)) = Ok (h, m', st) ∧
    run log address alloc_ok maxIOVcount h (Application.adapter_fd env) evs
      ([], (Application.epollServer_ a, (nf, st))) = Ok x ∧
    spec_run imp reply evs ([], Server.empty) = Ok y ∧ inv imp reply y ∧ length x.1 = length y.1 ∧
    ∀ i p, x.1 !! i = Some p → ∃ v, y.1 !! i = Some v ∧ AsyncClient.made (v_net v) = called i evs ∧
      got (called i evs) (AsyncClient.ran (v_net v)) p.
Proof.
  intros Hall. destruct (Application.server_hosts (B := B) alloc_ok alloc_total imp cfg env nf)
    as (hs & a & h & m' & st & Hst & _ & Hbg & Hacc & Hwr); [done..|].
  destruct (start_models _ _ _ reply _ Hacc Hwr) as (ad & name & gi & Hm & Hinv).
  destruct (run_refines log address alloc_ok maxIOVcount h (Application.adapter_fd env) imp reply ad name gi alloc_total
    evs _ _ Hm Hinv Hall) as (x & [vs srv] & Hx & Hy & Hmx & Hinv').
  exists hs, a, h, m', st, x, (vs, srv). do 5 (split; [done|]). pose proof (mo_length _ _ _ _ _ _ _ _ Hmx) as Hl.
  split; [done|]. intros i p Hp. destruct (lookup_lt_is_Some_2 vs i) as [v Hv].
  { cbn in Hl. rewrite <- Hl. by eapply lookup_lt_Some. }
  exists v. split; [done|]. assert (made_by i vs = called i evs) as Hmade by exact (run_made imp reply i evs _ _ _ _ Hall Hy).
  unfold made_by in Hmade. rewrite Hv in Hmade. cbn in Hmade. rewrite <- Hmade. split; [done|].
  apply (peer_got (Server.socks srv) i). by apply Hmx.
Qed.

(** ** Properties *)

(** C2: many clients at once, in any order: a program with one servant has
    started; clients connect, make asynchronous calls, send them when their threads
    come to it, the network delivers their bytes in pieces of any size, the server's
    threads make their passes, responses are delivered, and callbacks are run, all
    interleaved in any way that keeps to the bounds below: then nothing crashes, and
    what the callback thread of each client has done is to run the callbacks of the
    client's first calls, in the order of the calls and once each, with the results
    that the servant gives for exactly these calls; and of all its calls, when
    nothing is on its way.

    The bounds ([all_allowed]): at most 2000 clients connect, each on a descriptor
    of its own and with one thread that calls, and none hangs up; a client calls
    only while fewer than a thousand of its calls are unsent and it has ids left
    ([cap]), with a payload below 2^30 bytes; its socket takes each request whole; a
    response is read whole, one at a time, and only while fewer than a hundred wait
    for the callback thread; the servant answers in the format of a response, with
    2^61 bytes at most; buffers and the server's queues hold no more than 2^62
    bytes and requests, and one read completes less than 2^31 - 1 of them; every
    stack is granted.  Beyond them calls can be lost or the server can crash
    ([ServantProxy.full_queue_loses_call], [AsyncProcThread.async_thread_refines],
    [Server.server_refines]). *)
Theorem every_interleaving_answers {B : Type} `{ByteQueueLaws B} log address
    alloc_ok (alloc_total : ∀ n, alloc_ok n = true) maxIOVcount imp reply cfg env nf evs
    (H1 : Application.servantName1 cfg = [])
    (Hs : Application.adapterName cfg ≠ Application.servantName cfg)
    (Ho : Application.adapterName cfg ≠ Application.AdminObj)
    (Ha : Application.adapterName cfg ≠ Application.AdminAdapter)
    (Hfd0 : Application.admin_fd env ≠ -1) (Hfd : Application.adapter_fd env ≠ -1)
    (Hall : all_allowed imp reply evs ([], Server.empty)) :
  ∃ hs (a : Application.t B) h m' st x y,
    Application.start_server (Application.add_first imp) cfg env = Ok (hs, a) ∧
    HandlerRun.begin alloc_ok (ServantHandle.mk [] (Some 1%nat)) (Application.manager a)
      (EpollServer.shared (Application.epollServer_ a)) = Ok (h, m', st) ∧
    run log address alloc_ok maxIOVcount h (Application.adapter_fd env) evs
      ([], (Application.epollServer_ a, (nf, st))) = Ok x ∧
    spec_run imp reply evs ([], Server.empty) = Ok y ∧ length x.1 = length y.1 ∧
    ∀ i p, x.1 !! i = Some p →
      ∃ n, got (called i evs) (take n (expected reply (called i evs))) p ∧
           (quiet imp y → n = length (called i evs)).
Proof.
  destruct (start_runs (B := B) log address alloc_ok alloc_total maxIOVcount imp reply cfg env nf evs)
    as (hs & a & h & m' & st & x & [vs srv] & Hst & Hbg & Hx & Hy & Hinv & Hl & Hp); [done..|].
  exists hs, a, h, m', st, x, (vs, srv). do 5 (split; [assumption|]). intros i p Hi.
  destruct (Hp i p Hi) as (v & Hv & Hmade & Hgot).
  destruct (ran_results imp reply srv i v (inv_view _ _ _ Hinv i v Hv)) as (n & Hle & Hn).
  pose proof (quiet_results imp reply vs srv i v Hinv) as Hq.
  rewrite results_expected, Hmade in Hle, Hn, Hq. unfold expected in Hle. rewrite length_imap in Hle.
  exists n. split; [by rewrite <- Hn|]. intros Hquiet. specialize (Hq Hquiet Hv). rewrite Hn in Hq.
  apply (f_equal length) in Hq. unfold expected in Hq. rewrite length_take, length_imap in Hq. lia.
Qed.

(** ** Witness: two clients of an echo server *)

Lemma all_allowed_cons func reply ev evs x x' :
  allowed func reply ev x → spec_step func reply ev x = Ok x' → all_allowed func reply evs x' →
  all_allowed func reply (ev :: evs) x.
Proof. intros Ha Hs Hall. cbn [all_allowed]. by rewrite Hs. Qed.

Definition hello_port : port := mk_port 0 0 0 0 5.
Definition hello_client (Q : LoopQueue.t nat) : AsyncClient.client :=
  (ServantProxy.proxy 0, ServantProxy.two_threads Q Request.fresh).

Definition joins (Q : LoopQueue.t nat) (sock : Z) : event := Connects hello_port (hello_client Q) false (Server.peer sock).
Definition calls_hello (i : nat) : event := Calls i (Rpc.calling Rpc.hello_answers) AsyncClient.hello.
Definition sends_hello (i n : nat) : event := Sends i 1 (replicate n (5, Transceiver.Room 60)).

(** The requests of the second client arrive in the middle of the first one's, and
    the responses when the first one's next call has been made. *)
Definition two_clients (Q : LoopQueue.t nat) : list event :=
  [joins Q 9; joins Q 10; calls_hello 0; calls_hello 1; sends_hello 0 1; sends_hello 1 1;
   Delivers 0 7 []; Delivers 1 14 []; Serves 0 0 true; Delivers 0 7 []; calls_hello 0; Writes [];
   Responds 1; Serves 1 1 true; sends_hello 0 1; Writes []; Runs 1; Delivers 0 14 []; Serves 2 2 true;
   Responds 0; Writes []; Responds 0; Runs 0; Runs 0].

Lemma hello_answered j : answers id id j AsyncClient.hello.
Proof.
  split; [done|]. unfold ObjectProxy.response_to. rewrite length_app. cbn [length].
  pose proof (Wire.length_to_string (i32 (Z.of_nat j + 1))) as Hlen.
  change (length (id (ServantProxy.payload AsyncClient.hello))) with 7%nat. lia.
Qed.

Lemma hello_fresh Q : LoopQueue.repr 1000 Q [] → fresh hello_port (hello_client Q).
Proof.
  intros HQ. destruct (Rpc.hello_ready Q 5 HQ) as [Hu Hc]; [lia|]. split; [exact Hu|]. split; [exact Hc|].
  split; [discriminate|]. split; [apply (CommunicatorEpoll.started_async Request.fresh)|reflexivity].
Qed.

Ltac next_allowed := eapply all_allowed_cons; [|vm_compute; reflexivity|].
Ltac next_call :=
  eexists; split; [reflexivity|]; split;
    [apply AsyncClient.calls_hello_allowed; [apply Nat.ltb_lt; vm_compute; reflexivity|vm_compute; reflexivity]
    |apply hello_answered].

Ltac next_send made n :=
  eexists; split; [reflexivity|];
  apply (AsyncClient.sends_hello_allowed 0 5 (replicate made (Rpc.calling Rpc.hello_answers, AsyncClient.hello)) n);
    [discriminate|repeat constructor].
Ltac next_bytes :=
  eexists; split; [reflexivity|]; split; [apply Nat.leb_le; vm_compute; reflexivity|];
  split; [vm_compute; discriminate|]; split; [vm_compute; reflexivity|vm_compute; discriminate].
Ltac next_response :=
  eexists; split; [reflexivity|]; split; [apply Nat.ltb_lt; vm_compute; reflexivity|vm_compute; reflexivity].

Lemma two_clients_allowed Q :
  LoopQueue.repr 1000 Q [] →
  all_allowed id id (two_clients Q) ([], Server.empty).
Proof.
  intros HQ. pose proof (hello_fresh Q HQ) as Hf. unfold two_clients.
  next_allowed. { split; [exact Hf|]. split; [reflexivity|]. split; [apply not_elem_of_nil|reflexivity]. }
  next_allowed. { split; [exact Hf|]. split; [reflexivity|]. split; [|reflexivity]. refine (bool_decide_unpack _ _). vm_compute. exact I. }
  next_allowed. { next_call. }
  next_allowed. { next_call. }
  next_allowed. { next_send 1%nat 0%nat. }
  next_allowed. { next_send 1%nat 0%nat. }
  next_allowed. { next_bytes. }
  next_allowed. { next_bytes. }
  next_allowed. { vm_compute. reflexivity. }
  next_allowed. { next_bytes. }
  next_allowed. { next_call. }
  next_allowed. { exact I. }
  next_allowed. { next_response. }
  next_allowed. { vm_compute. reflexivity. }
  next_allowed. { next_send 2%nat 1%nat. }
  next_allowed. { exact I. }
  next_allowed. { eexists. split; [reflexivity|discriminate]. }
  next_allowed. { next_bytes. }
  next_allowed. { vm_compute. reflexivity. }
  next_allowed. { next_response. }
  next_allowed. { exact I. }
  next_allowed. { next_response. }
  next_allowed. { eexists. split; [reflexivity|discriminate]. }
  next_allowed. { eexists. split; [reflexivity|discriminate]. }
  exact I.
Qed.

Lemma every_interleaving_answers_witness :
  ∃ h (s : EpollServer.t Buffer.t) Q st p q x p1 p2 q1,
    run Assert ServantProxy.here Scheduler.granted 16 h 8 (two_clients Q) ([], (s, (NodeF.init, st))) = Ok ([p; q], x) ∧
    CommunicatorEpoll.events (prog p).2 =
      [AsyncProcThread.Called p1 (Str.str "1:test:hi"); AsyncProcThread.Called p2 (Str.str "2:test:hi")] ∧
    CommunicatorEpoll.events (prog q).2 = [AsyncProcThread.Called q1 (Str.str "1:test:hi")].
Proof.
  destruct (LoopQueue.new_spec (T := nat) 1000) as (Q & _ & HQ); [lia|].
  destruct (every_interleaving_answers (B := Buffer.t) Assert ServantProxy.here Scheduler.granted (λ _, eq_refl) 16
    id id Application.hello_config Application.system_answers NodeF.init
    (two_clients Q)) as (hs & a & h & m' & st & [ps x] & y & _ & _ & Hrun & Hy & Hl & Hgot).
  - reflexivity.
  - discriminate.
  - discriminate.
  - discriminate.
  - discriminate.
  - discriminate.
  - exact (two_clients_allowed Q HQ).
  - assert (length y.1 = 2%nat ∧ quiet id y) as [Hl2 Hq].
    { revert Hy. match goal with |- ?l = _ → _ => let l' := eval vm_compute in l in change (l = Ok y) with (l' = Ok y) end.
      intros Hy. injection Hy as <-. split; [reflexivity|]. split; [reflexivity|].
      intros [|[|i]] v Hv; [injection Hv as <-..|discriminate]; vm_compute; repeat split. }
    rewrite Hl2 in Hl. destruct ps as [|p [|q [|]]]; try discriminate Hl.
    destruct (Hgot 0%nat p eq_refl) as (n & Hp & Hn). rewrite (Hn Hq) in Hp.
    destruct (Hgot 1%nat q eq_refl) as (m & Hq' & Hm). rewrite (Hm Hq) in Hq'.
    destruct Hp as (addr & _ & _ & Hp), Hq' as (addr' & _ & _ & Hq').
    apply Forall2_cons_inv_r in Hp as (e1 & l1 & (p1 & ec1 & [_ H1] & ->) & Hp & Heq).
    apply Forall2_cons_inv_r in Hp as (e2 & l2 & (p2 & ec2 & [_ H2] & ->) & Hp & ->).
    apply Forall2_nil_inv_r in Hp as ->.
    apply Forall2_cons_inv_r in Hq' as (e3 & l3 & (q1 & ec3 & [_ H3] & ->) & Hq' & Heq').
    apply Forall2_nil_inv_r in Hq' as ->.
    injection H1 as <-. injection H2 as <-. injection H3 as <-.
    exists h, (Application.epollServer_ a), Q, st, p, q, x, p1, p2, q1. split; [exact Hrun|].
    rewrite Heq, Heq'. split; reflexivity.
Defined.

End System.
