(* ===== verification/Progress.v ===== *)
(** * Progress: every call comes to its end

    Whatever has happened in a system, no thread waits for ever: while something is
    on its way some thread has a step, every such step leaves less to do, and when
    nothing is left every call has got its result.  The steps are those of System. *)

From S2P Require Import Prelude LoopQueue ByteQueue Buffer Wire Message Connection AsyncProcThread ObjectProxy Transceiver.
From S2P Require Import CommunicatorEpoll ServantProxy NetThread EpollServer ServantManager Servants Scheduler ServantHandle.
From S2P Require Import HandlerRun Rpc Pipeline AsyncClient Application Server System.
Import System.

Module Progress.

Section progress.
Context (func reply : bytes → bytes).
Implicit Types (v : view) (vs : list view) (st : Server.net).

Abbreviation abstract := (list view * Server.net)%type.

(** ** What is left to do *)

(** All bytes of a client, when its calls have been sent. *)
Definition full (v : view) : bytes := concat (Wire.frame <$> Pipeline.numbered 0 (payloads v)).

Definition todo (v : view) : nat :=
  (length (AsyncClient.made (v_net v)) - AsyncClient.sent (v_net v)) + 3 * (length (full v) - v_up v) +
  2 * (length (AsyncClient.made (v_net v)) - v_down v) + length (AsyncClient.arrived (v_net v)).

Definition work (x : abstract) : nat :=
  sum_list (todo <$> x.1) + 2 * Server.pending x.2 + length (Server.answered x.2).

(** What fits into the queues and buffers. *)
Record small (x : abstract) : Prop := {
  sm_work : Z.of_nat (work x) ≤ 2 ^ 62;
  sm_bytes i v : x.1 !! i = Some v → zlen (full v) ≤ bq_limit;
  sm_calls i v : x.1 !! i = Some v → zlen (AsyncClient.made (v_net v)) < 2 ^ 31 - 1
}.

(** Events that are no new calls and clients. *)
Definition proceeds (ev : event) : bool :=
  match ev with Connects _ _ _ _ | Calls _ _ _ => false | _ => true end.

Lemma sum_alter f g i vs v :
  vs !! i = Some v → (sum_list (f <$> alter g i vs) + f v = sum_list (f <$> vs) + f (g v))%nat.
Proof.
  revert i. induction vs as [|w vs IH]; intros [|i] Hi; try done.
  - injection Hi as ->. cbn. lia.
  - specialize (IH i Hi). cbn in *. lia.
Qed.

Lemma wire_full v : AsyncClient.wf (v_net v) → (length (wire v) ≤ length (full v))%nat.
Proof.
  intros Hwf. unfold wire, requests, full.
  rewrite <- (take_drop (AsyncClient.sent (v_net v)) (payloads v)) at 2.
  rewrite numbered_app, fmap_app, concat_app, length_app. lia.
Qed.

Lemma wire_all v : AsyncClient.sent (v_net v) = length (AsyncClient.made (v_net v)) → wire v = full v.
Proof. intros Hs. unfold wire, requests, full. rewrite take_ge; [done|]. rewrite length_payloads. lia. Qed.

(** Frames are not empty. *)
Lemma whole_bytes l : ∀ n, (whole l n ≤ n)%nat.
Proof.
  induction l as [|m l IH]; intros n; cbn [whole]; [lia|]. pose proof (frame_positive m).
  destruct (decide _); [|lia]. specialize (IH (n - length (Wire.frame m))%nat). lia.
Qed.

Lemma whole_add l : ∀ n d, (whole l (n + d) ≤ whole l n + d)%nat.
Proof.
  induction l as [|m l IH]; intros n d; cbn [whole]; [lia|]. pose proof (frame_positive m) as Hm.
  destruct (decide (length (Wire.frame m) ≤ n + d)%nat) as [Hle|Hgt], (decide (length (Wire.frame m) ≤ n)%nat); try lia.
  - specialize (IH (n - length (Wire.frame m))%nat d).
    replace (n + d - length (Wire.frame m))%nat with (n - length (Wire.frame m) + d)%nat by lia. lia.
  - pose proof (whole_bytes l (n + d - length (Wire.frame m))). lia.
Qed.

Lemma news_le v n : (length (news v n) ≤ n)%nat.
Proof.
  unfold news. rewrite length_drop, length_take. pose proof (whole_add (requests v) (v_up v) n). lia.
Qed.

Lemma news_calls v n : AsyncClient.wf (v_net v) → (length (news v n) ≤ length (AsyncClient.made (v_net v)))%nat.
Proof.
  intros Hwf. unfold news. rewrite length_drop, length_take, length_requests by done.
  pose proof (AsyncClient.wf_sent _ Hwf). lia.
Qed.

(** A pass of the handler moves requests on. *)
Lemma pass_work st :
  Server.pending st ≠ 0%nat →
  (2 * Server.pending (Server.pass func st) + length (Server.answered (Server.pass func st)) <
     2 * Server.pending st + length (Server.answered st))%nat.
Proof.
  intros Hp. destruct (Server.pass_pending func st) as [Hlt _].
  assert (Server.pending (Server.pass func st) + length (Server.answered (Server.pass func st)) ≤
    Server.pending st + length (Server.answered st))%nat as Hle; [|lia].
  unfold Server.pass, Server.pending. destruct (decide _); cbn [Server.taken Server.queued Server.answered].
  - pose proof (Server.length_omap_le Server.question (take 100 (Server.queued st))) as Hlen.
    rewrite length_app, length_fmap, length_app, length_take, !length_drop. rewrite length_take in Hlen. lia.
  - rewrite length_app, length_fmap, length_take, length_drop. lia.
Qed.

Lemma reads_work uid blocks l env st st' :
  Server.announced (Server.Reads uid blocks l env) st →
  Server.spec_step func (Server.Reads uid blocks l env) st = Ok st' →
  Server.pending st' = (Server.pending st + length l)%nat ∧ Server.answered st' = Server.answered st.
Proof.
  cbn [Server.announced Server.spec_step].
  intros Han (part & Hp%deref_Ok & Hs)%bind_Ok. apply bind_Ok in Hs as ([reqs left] & Hr & Hs).
  injection Hs as <-. rewrite (Han part reqs left Hp Hr). unfold Server.pending.
  cbn [Server.taken Server.queued Server.answered]. rewrite length_app, length_fmap. split; [lia|done].
Qed.

(** ** A step that proceeds *)

(** What a step does. *)
Definition advances (ev : event) (x : abstract) : Prop :=
  proceeds ev = true ∧ allowed func reply ev x ∧
  ∃ x', spec_step func reply ev x = Ok x' ∧ (work x' < work x)%nat ∧ small x'.

Lemma small_less x x' :
  small x → (work x' < work x)%nat →
  (∀ i v', x'.1 !! i = Some v' →
     ∃ v, x.1 !! i = Some v ∧ AsyncClient.made (v_net v') = AsyncClient.made (v_net v)) → small x'.
Proof.
  intros [Hw Hb Hc] Hlt Hsame. split; [lia| |]; intros i v' Hi; destruct (Hsame i v' Hi) as (v & Hv & Heq).
  - unfold full, payloads. rewrite Heq. by apply (Hb i v).
  - rewrite Heq. by apply (Hc i v).
Qed.

(** A client gets on. *)
Lemma client_less f i v vs st st' :
  small (vs, st) → vs !! i = Some v →
  (∀ w, AsyncClient.made (v_net (f w)) = AsyncClient.made (v_net w)) →
  (todo (f v) + 2 * Server.pending st' + length (Server.answered st') <
     todo v + 2 * Server.pending st + length (Server.answered st))%nat →
  (work (alter f i vs, st') < work (vs, st))%nat ∧ small (alter f i vs, st').
Proof.
  intros Hsm Hi Hf Hlt. pose proof (sum_alter todo f i vs v Hi) as Hsum.
  assert (work (alter f i vs, st') < work (vs, st))%nat as Hw by (unfold work; cbn [fst snd]; lia).
  split; [done|]. apply (small_less (vs, st)); [done..|]. cbn [fst]. intros j v' Hj.
  destruct (decide (j = i)) as [->|Hne].
  - rewrite list_lookup_alter_eq, Hi in Hj. cbn in Hj. injection Hj as <-. by exists v.
  - rewrite list_lookup_alter_ne in Hj by done. by exists v'.
Qed.

(** The server gets on. *)
Lemma server_less vs st st' :
  small (vs, st) →
  (2 * Server.pending st' + length (Server.answered st') <
     2 * Server.pending st + length (Server.answered st))%nat →
  (work (vs, st') < work (vs, st))%nat ∧ small (vs, st').
Proof.
  intros Hsm Hlt. assert (work (vs, st') < work (vs, st))%nat as Hw by (unfold work; cbn [fst snd]; lia).
  split; [done|]. apply (small_less (vs, st)); [done..|]. intros j v Hj. by exists v.
Qed.

(** The socket takes everything. *)
Definition roomy (v : view) : list (Z * Transceiver.send_result) :=
  (λ m, (0, Transceiver.Room (length (Request.request m) + 17))) <$>
    (AsyncClient.message (k (v_port v)) <$> drop (AsyncClient.sent (v_net v)) (AsyncClient.made (v_net v))).

Lemma roomy_takes (l : list Request.ReqMessage) :
  Forall2 CommunicatorEpoll.takes l ((λ m, (0, Transceiver.Room (length (Request.request m) + 17))) <$> l).
Proof.
  induction l as [|m l IH]; [constructor|]. rewrite fmap_cons. constructor; [|done]. split; [done|].
  eexists. split; [done|]. lia.
Qed.

Lemma sends_advance vs st i v :
  inv func reply (vs, st) → small (vs, st) → vs !! i = Some v →
  AsyncClient.sent (v_net v) ≠ length (AsyncClient.made (v_net v)) → advances (Sends i 0 (roomy v)) (vs, st).
Proof.
  intros Hinv Hsm Hi Hne. pose proof (vo_wf _ _ _ _ _ (inv_view _ _ _ Hinv i v Hi)) as Hwf.
  pose proof (AsyncClient.wf_sent _ Hwf) as Hs. split; [done|]. split.
  - exists v. split; [done|]. split; [|apply roomy_takes].
    intros Hnil. rewrite Hnil in Hs, Hne. cbn in *. lia.
  - eexists. split; [done|]. apply (client_less _ i v); [done..|].
    unfold todo, full, payloads. cbn [run_net v_net v_up v_down AsyncClient.spec_step AsyncClient.made
      AsyncClient.sent AsyncClient.arrived]. lia.
Qed.

Lemma delivers_advance vs st i v :
  inv func reply (vs, st) → small (vs, st) → vs !! i = Some v →
  AsyncClient.sent (v_net v) = length (AsyncClient.made (v_net v)) → v_up v ≠ length (wire v) →
  advances (Delivers i (length (wire v) - v_up v) []) (vs, st).
Proof.
  intros Hinv Hsm Hi Hs Hne. pose proof (inv_view _ _ _ Hinv i v Hi) as Hv.
  pose proof (vo_up _ _ _ _ _ Hv) as Hup. pose proof (wire_all v Hs) as Hfull. set (n := (_ - _)%nat).
  assert (v_up v + n = length (wire v))%nat as Hn by (unfold n; lia). assert (n ≠ 0)%nat as Hpos by lia. clearbody n.
  pose proof (news_le v n) as Hnews. pose proof (news_calls v n (vo_wf _ _ _ _ _ Hv)) as Hcalls.
  pose proof (sm_bytes _ Hsm i v Hi) as Hbytes. pose proof (sm_calls _ Hsm i v Hi) as Hmade.
  rewrite <- Hfull in Hbytes.
  destruct (inv_delivers func reply vs st i v n [] Hinv Hi) as (st' & Hst & _); [lia|].
  destruct (reads_work _ _ _ _ _ _ (delivers_announced func reply st i v n [] (inv_view _ _ _ Hinv i v Hi) ltac:(lia)) Hst)
    as [Hpe Han].
  destruct (client_less (deliver n) i v vs st st' Hsm Hi) as [Hw Hsm'].
  { done. }
  { rewrite Hpe, Han. unfold todo. change (full (deliver n v)) with (full v). rewrite <- Hfull.
    cbn [deliver v_net v_up v_down]. lia. }
  split; [done|]. split.
  - exists v. split; [done|]. split; [lia|]. split; [lia|]. split; [lia|].
    pose proof (sm_work _ Hsm) as Hwork. unfold work in Hw, Hwork. cbn [fst snd] in *.
    rewrite Hpe in Hw. unfold Server.pending in Hw, Hwork. lia.
  - exists (alter (deliver n) i vs, st'). cbn [spec_step]. rewrite Hi. cbn [deref mbind outcome_bind].
    by rewrite Hst.
Qed.

Lemma serves_advance vs st :
  small (vs, st) → Server.pending st ≠ 0%nat → advances (Serves 0 0 true) (vs, st).
Proof.
  intros Hsm Hp. split; [done|]. split.
  - pose proof (sm_work _ Hsm) as Hwork. unfold work in Hwork. cbn [fst snd] in Hwork.
    cbn [allowed Server.allowed]. lia.
  - eexists. split; [done|]. by apply server_less, pass_work.
Qed.

Lemma writes_advance vs st :
  inv func reply (vs, st) → small (vs, st) → Server.answered st ≠ [] → advances (Writes []) (vs, st).
Proof.
  intros Hinv Hsm Hne. destruct (writes_step func reply vs st [] Hinv) as (st' & Hst & _ & Heq).
  split; [done|]. split; [exact I|]. exists (vs, st'). cbn [spec_step]. rewrite Hst. split; [done|].
  apply (server_less vs st); [done|]. rewrite Heq. unfold Server.pending.
  cbn [Server.taken Server.queued Server.answered length]. destruct (Server.answered st); [done|]. cbn. lia.
Qed.

Lemma runs_advance vs st i v :
  small (vs, st) → vs !! i = Some v → AsyncClient.arrived (v_net v) ≠ [] → advances (Runs i) (vs, st).
Proof.
  intros Hsm Hi Hne. split; [done|]. split; [by exists v|]. eexists. split; [done|].
  apply (client_less _ i v); [done..|]. unfold todo, full, payloads.
  cbn [run_net v_net v_up v_down AsyncClient.spec_step AsyncClient.made AsyncClient.sent AsyncClient.arrived].
  destruct (AsyncClient.arrived (v_net v)); [done|]. cbn. lia.
Qed.

Lemma responds_advance vs st i v :
  inv func reply (vs, st) → small (vs, st) → vs !! i = Some v → AsyncClient.arrived (v_net v) = [] →
  v_down v ≠ length (mine (uid i) (Server.sent st)) → advances (Responds i) (vs, st).
Proof.
  intros Hinv Hsm Hi Har Hne. pose proof (inv_view _ _ _ Hinv i v Hi) as Hv. cbn [snd] in Hv.
  pose proof (vo_down _ _ _ _ _ Hv) as Hdn.
  destruct (respond_arrives func reply st i v Hv) as (ec & _ & _ & Hlt & _); [lia|].
  pose proof (AsyncClient.wf_sent _ (vo_wf _ _ _ _ _ Hv)) as Hs. split; [done|]. split.
  - exists v. split; [done|]. split; [lia|]. by rewrite Har.
  - eexists. split; [done|]. apply (client_less _ i v); [done..|]. unfold todo, full, payloads, respond.
    cbn [v_net v_up v_down AsyncClient.spec_step AsyncClient.made AsyncClient.sent AsyncClient.arrived].
    rewrite Har. cbn [length app]. lia.
Qed.

(** While something is on its way there is such a step. *)
Lemma all_or_one (P : nat → view → Prop) (Hdec : ∀ i v, Decision (P i v)) vs :
  (∀ i v, vs !! i = Some v → P i v) ∨ (∃ i v, vs !! i = Some v ∧ ¬ P i v).
Proof.
  revert P Hdec. induction vs as [|w vs IH]; intros P Hdec; [by left|].
  destruct (decide (P 0%nat w)) as [Hw|Hw]; [|by right; exists 0%nat, w].
  destruct (IH (λ i, P (S i)) (λ i, Hdec (S i))) as [Hall|(i & v & Hi & Hv)].
  - left. intros [|i] v Hi; [by injection Hi as <-|by apply Hall].
  - right. by exists (S i), v.
Qed.

Lemma progress x : inv func reply x → small x → quiet func x ∨ ∃ ev, advances ev x.
Proof.
  destruct x as [vs st]. intros Hinv Hsm.
  destruct (all_or_one (λ _ v, AsyncClient.sent (v_net v) = length (AsyncClient.made (v_net v))) ltac:(intros; cbv beta; apply _) vs)
    as [Hs|(i & v & Hi & Hne)]; [|right; eexists; by eapply sends_advance].
  destruct (all_or_one (λ _ v, v_up v = length (wire v)) ltac:(intros; cbv beta; apply _) vs) as [Hup|(i & v & Hi & Hne)];
    [|right; eexists; eapply delivers_advance; eauto].
  destruct (decide (Server.pending st = 0%nat)) as [Hp|Hp]; [|right; eexists; by eapply serves_advance].
  destruct (decide (Server.answered st = [])) as [Han|Han]; [|right; eexists; by eapply writes_advance].
  destruct (all_or_one (λ _ v, AsyncClient.arrived (v_net v) = []) ltac:(intros; cbv beta; apply _) vs) as [Har|(i & v & Hi & Hne)];
    [|right; eexists; by eapply runs_advance].
  destruct (all_or_one (λ i v, v_down v = length (mine (uid i) (Server.sent st))) ltac:(intros; cbv beta; apply _) vs) as [Hdn|(i & v & Hi & Hne)];
    [|right; eexists; eapply responds_advance; eauto].
  left. split; cbn [fst snd].
  - unfold Server.waiting. rewrite Han. unfold Server.pending in Hp.
    destruct (Server.taken st), (Server.queued st); done || (cbn in Hp; lia).
  - intros i v Hi. repeat split; eauto.
Qed.

(** So the rest can be done. *)
Lemma completes x :
  inv func reply x → small x →
  ∃ evs x', Forall (λ ev, proceeds ev = true) evs ∧ (length evs ≤ work x)%nat ∧ all_allowed func reply evs x ∧
    spec_run func reply evs x = Ok x' ∧ quiet func x'.
Proof.
  remember (work x) as n eqn:Hn. revert x Hn.
  induction (lt_wf n) as [n _ IH]. intros x -> Hinv Hsm.
  destruct (progress x Hinv Hsm) as [Hq|(ev & Hpr & Hal & x1 & Hst & Hlt & Hsm1)].
  { exists [], x. split; [constructor|]. split; [cbn; lia|]. done. }
  destruct (spec_steps func reply ev x Hinv Hal) as (x1' & Hst' & Hinv1). rewrite Hst in Hst'. injection Hst' as <-.
  destruct (IH (work x1) Hlt x1 eq_refl Hinv1 Hsm1) as (evs & x' & Hp & Hlen & Hall & Hr & Hq).
  exists (ev :: evs), x'. split; [by constructor|]. split; [cbn; lia|]. cbn [all_allowed spec_run].
  by rewrite Hst.
Qed.

End progress.

Lemma called_proceeds i evs : Forall (λ ev, proceeds ev = true) evs → called i evs = [].
Proof.
  induction 1 as [|ev evs Hev _ IH]; [done|]. unfold called in *. destruct ev; try discriminate Hev; exact IH.
Qed.

Lemma proceeds_clients func reply evs : ∀ x x',
  Forall (λ ev, proceeds ev = true) evs → spec_run func reply evs x = Ok x' → length x'.1 = length x.1.
Proof.
  induction evs as [|ev evs IH]; intros [vs st] x' Hp Hr; [by injection Hr as <-|].
  apply Forall_cons in Hp as [Hev Hp]. cbn [spec_run] in Hr. apply bind_Ok in Hr as (x1 & H1 & Hr).
  rewrite (IH x1 x' Hp Hr). cbn [fst].
  destruct ev as [b c garbage acc|i env c|i events sends|i|i n env|i|now cur notified|envs];
    try discriminate Hev; cbn [spec_step] in H1; repeat (apply bind_Ok in H1 as (? & _ & H1));
    injection H1 as <-; cbn [fst]; by rewrite ?length_alter.
Qed.

(** ** Property *)

(** C3: no interleaving within the bounds gets stuck: from every state that a system
    reaches after the start of its server by events within the bounds of
    [System.every_interleaving_answers] ([all_allowed]: at most 2000 clients that
    stay connected, with fewer than a thousand unsent calls each when they call,
    fewer than a hundred responses that wait for their callbacks when one arrives,
    as many calls as they have ids, sockets that take requests whole, every stack
    granted), with requests, responses and pieces of them anywhere on their way,
    and in which what is left to do is [small] (at most 2^62 steps, and per client
    requests of at most 2^62 bytes in all and less than 2^31 - 1 calls), the threads and the
    network can finish what there is, keeping to the bounds, in a number of steps
    bounded by [work]; and then every call that a client has made has got the
    servant's result for it, the callbacks having been run once each and in the
    order of the calls. *)
Theorem every_call_completes {B : Type} `{ByteQueueLaws B} log address
    alloc_ok (alloc_total : ∀ n, alloc_ok n = true) maxIOVcount imp reply cfg env nf evs y
    (H1 : Application.servantName1 cfg = [])
    (Hs : Application.adapterName cfg ≠ Application.servantName cfg)
    (Ho : Application.adapterName cfg ≠ Application.AdminObj)
    (Ha : Application.adapterName cfg ≠ Application.AdminAdapter)
    (Hfd0 : Application.admin_fd env ≠ -1) (Hfd : Application.adapter_fd env ≠ -1)
    (Hall : all_allowed imp reply evs ([], Server.empty))
    (Hy : spec_run imp reply evs ([], Server.empty) = Ok y) (Hsmall : small y) :
  ∃ evs' hs (a : Application.t B) h m' st x,
    Forall (λ ev, proceeds ev = true) evs' ∧ (length evs' ≤ work y)%nat ∧
    all_allowed imp reply (evs ++ evs') ([], Server.empty) ∧
    Application.start_server (Application.add_first imp) cfg env = Ok (hs, a) ∧
    HandlerRun.begin alloc_ok (ServantHandle.mk [] (Some 1%nat)) (Application.manager a)
      (EpollServer.shared (Application.epollServer_ a)) = Ok (h, m', st) ∧
    run log address alloc_ok maxIOVcount h (Application.adapter_fd env) (evs ++ evs')
      ([], (Application.epollServer_ a, (nf, st))) = Ok x ∧
    length x.1 = length y.1 ∧
    ∀ i p, x.1 !! i = Some p → got (called i evs) (expected reply (called i evs)) p.
Proof.
  pose proof (spec_runs imp reply evs _ y (inv_empty imp reply) Hall Hy) as Hinv.
  destruct (completes imp reply y Hinv Hsmall) as (evs' & y' & Hpr & Hlen & Hall' & Hr & Hq).
  assert (all_allowed imp reply (evs ++ evs') ([], Server.empty)) as Hboth.
  { apply allowed_app; [done|]. intros z Hz. rewrite Hy in Hz. by injection Hz as <-. }
  destruct (start_runs (B := B) log address alloc_ok alloc_total maxIOVcount imp reply cfg env nf (evs ++ evs'))
    as (hs & a & h & m' & st & x & [vs srv] & Hst & Hbg & Hx & Hy' & Hinv' & Hl & Hp); [done..|].
  exists evs', hs, a, h, m', st, x. do 6 (split; [assumption|]).
  rewrite run_app, Hy in Hy'. cbn [mbind outcome_bind] in Hy'. rewrite Hr in Hy'. injection Hy' as ->.
  split; [rewrite Hl; exact (proceeds_clients _ _ _ _ _ Hpr Hr)|]. intros i p Hi.
  destruct (Hp i p Hi) as (v & Hv & Hmade & Hgot).
  assert (called i (evs ++ evs') = called i evs) as Hcalled.
  { unfold called at 1. rewrite omap_app. fold (called i evs) (called i evs').
    by rewrite (called_proceeds i evs' Hpr), app_nil_r. }
  rewrite Hcalled in Hmade, Hgot. rewrite (quiet_results imp reply vs srv i v Hinv' Hq Hv) in Hgot.
  by rewrite results_expected, Hmade in Hgot.
Qed.

(** ** Witness *)

(** The two clients of System when both requests are partly with the server. *)
Definition halfway (Q : LoopQueue.t nat) : list event := take 11 (two_clients Q).

Definition after_halfway (Q : LoopQueue.t nat) : list view * Server.net :=
  match spec_run id id (halfway Q) ([], Server.empty) with Ok y => y | _ => ([], Server.empty) end.

Lemma halfway_run Q : spec_run id id (halfway Q) ([], Server.empty) = Ok (after_halfway Q).
Proof. vm_compute. reflexivity. Qed.

Lemma allowed_take func reply n evs : ∀ x, all_allowed func reply evs x → all_allowed func reply (take n evs) x.
Proof.
  revert n. induction evs as [|ev evs IH]; intros [|n] x Hal; try exact I. destruct Hal as [Hev Hal].
  split; [done|]. destruct (spec_step func reply ev x); try exact I. by apply IH.
Qed.

Lemma halfway_small Q : small (after_halfway Q).
Proof.
  split; [vm_compute; discriminate| |]; intros [|[|i]] v Hv; vm_compute in Hv; try discriminate Hv;
    injection Hv as <-; vm_compute; reflexivity || discriminate.
Qed.

Lemma halfway_clients Q : length (after_halfway Q).1 = 2%nat.
Proof. vm_compute. reflexivity. Qed.

Lemma every_call_completes_witness :
  ∃ h (s : EpollServer.t Buffer.t) Q st evs' ps x p p1 p2,
    run Assert ServantProxy.here Scheduler.granted 16 h 8 (halfway Q ++ evs') ([], (s, (NodeF.init, st))) = Ok (p :: ps, x) ∧
    CommunicatorEpoll.events (prog p).2 =
      [AsyncProcThread.Called p1 (Str.str "1:test:hi"); AsyncProcThread.Called p2 (Str.str "2:test:hi")].
Proof.
  destruct (LoopQueue.new_spec (T := nat) 1000) as (Q & _ & HQ); [lia|].
  destruct (every_call_completes (B := Buffer.t) Assert ServantProxy.here Scheduler.granted (λ _, eq_refl) 16
    id id Application.hello_config Application.system_answers NodeF.init (halfway Q) (after_halfway Q))
    as (evs' & hs & a & h & m' & st & [ps x] & _ & _ & _ & _ & _ & Hrun & Hl & Hgot).
  - reflexivity.
  - discriminate.
  - discriminate.
  - discriminate.
  - discriminate.
  - discriminate.
  - exact (allowed_take id id 11 _ _ (two_clients_allowed Q HQ)).
  - exact (halfway_run Q).
  - exact (halfway_small Q).
  - rewrite halfway_clients in Hl. destruct ps as [|p ps]; [discriminate Hl|]. destruct (Hgot 0%nat p eq_refl) as (addr & _ & _ & Hp).
    apply Forall2_cons_inv_r in Hp as (e1 & l1 & (p1 & ec1 & [_ He1] & ->) & Hp & Heq).
    apply Forall2_cons_inv_r in Hp as (e2 & l2 & (p2 & ec2 & [_ He2] & ->) & Hp & ->).
    apply Forall2_nil_inv_r in Hp as ->. injection He1 as <-. injection He2 as <-.
    exists h, (Application.epollServer_ a), Q, st, evs', ps, x, p, p1, p2. split; [exact Hrun|].
    rewrite Heq. reflexivity.
Defined.

End Progress.
