(* ===== verification/Clients.v ===== *)
(** * Clients: many clients of one server

    Client programs connect to a server, call it and leave, in any order; the calls
    of different clients follow each other, as in Rpc.  The server tells the
    clients apart by the ids of their connections, the handler and its coroutines
    are the same for all of them. *)

From Stdlib Require Import Strings.String.
From S2P Require Import Prelude ByteQueue Buffer LoopQueue Wire Message Transceiver ObjectProxy Epoller.
From S2P Require Import Connection CommunicatorEpoll ServantProxy NetThread EpollServer ServantManager Servants Scheduler.
From S2P Require Import ServantHandle HandlerRun Rpc Application.

Module Clients.

Section clients.
Context {B : Type} `{ByteQueueLaws B}.
Context (log : outcome unit) (address : nat → CommunicatorEpoll.fd_pointer → Z).
Context (alloc_ok : nat → bool).

(** The clients are served by handler [hd] and connect to the socket [lfd]. *)
Context (hd : ServantHandle.t) (lfd : Z).

Abbreviation server := (EpollServer.t B * (NodeF.t * Scheduler.t HandlerRun.task))%type.

(** A thread of a client program with its proxy, and where its calls go. *)
Record client := mk_client {
  self : nat;
  proxy : ServantProxy.t;
  world : CommunicatorEpoll.world;
  to : Rpc.route
}.

(** The clients in the order in which they have connected; those that have left
    are [None]. *)
Record state := mk { clients : list (option client); rest : server }.

Inductive event :=
| Connects (cl : client) (garbage : bool) (acc : NetThread.accept_result)
| Calls (i : nat) (env : Rpc.answers) (c : Rpc.call)
| Leaves (i : nat) (events : Z) (reads : list Connection.read_result) (env : Rpc.answers).

(** The connection of a client: the ids are given out in order from 1. *)
Definition connect (uid fd : Z) (cl : client) : client :=
  mk_client (self cl) (proxy cl) (world cl)
    (Rpc.mk_route (Rpc.k (to cl)) (Rpc.e (to cl)) (Rpc.seq (to cl)) uid fd hd).

Definition called sp w (cl : client) : client := mk_client (self cl) sp w (to cl).

Definition step (ev : event) (st : state) : outcome (list (nat * bytes) * state) :=
  match ev with
  | Connects cl garbage acc =>
      s ← Rpc.take_client lfd garbage acc (rest st).1;
      Ok ([], mk (clients st ++ [Some (connect (zlen (clients st) + 1) (NetThread.acc_ret acc) cl)])
                 (s, (rest st).2))
  | Calls i env c =>
      cl ← deref (mjoin (clients st !! i));
      '(response, sp, (w, x)) ←
        ServantProxy.tars_invoke address (self cl) (Rpc.calling env)
          (Rpc.exchange log address alloc_ok (to cl) env) c.1 c.2 (proxy cl) (world cl, rest st);
      Ok ([(i, response)], mk (<[i := Some (called sp w cl)]> (clients st)) x)
  | Leaves i events reads env =>
      cl ← deref (mjoin (clients st !! i));
      x ← Rpc.leave alloc_ok events reads env (to cl) (rest st);
      Ok ([], mk (<[i := None]> (clients st)) x)
  end.

(** The responses, each with the number of the client that gets it. *)
Fixpoint run (evs : list event) (st : state) : outcome (list (nat * bytes) * state) :=
  match evs with
  | [] => Ok ([], st)
  | ev :: evs => '(rs, st) ← step ev st; '(rs', st) ← run evs st; Ok (rs ++ rs', st)
  end.

(** ** What the clients should get *)

Context (func reply : bytes → bytes).

(** [ids] are the numbers of calls that the clients have made. *)
Fixpoint spec (ids : list Z) (evs : list event) : list (nat * bytes) :=
  match evs with
  | [] => []
  | Connects _ _ _ :: evs => spec (ids ++ [0]) evs
  | Calls i _ c :: evs =>
      match ids !! i with
      | Some id => (i, ObjectProxy.response_to (id + 1) (reply (Rpc.payload c))) :: spec (<[i := id + 1]> ids) evs
      | None => []
      end
  | Leaves _ _ _ _ :: evs => spec ids evs
  end.

(** The descriptors that the server gets for its clients. *)
Definition accepted (evs : list event) : list Z :=
  omap (λ ev, match ev with Connects _ _ acc => Some (NetThread.acc_ret acc) | _ => None end) evs.

(** The responses to the clients that have had the descriptor [fd], in order. *)
Definition received (socks : list Z) (fd : Z) (rs : list (nat * bytes)) : bytes :=
  concat (filter (λ r, socks !! r.1 = Some fd) rs).*2.

(** A client that connects has made no call and has [n] ids left; a call is made
    by a client that has connected and not left, and fits into its socket. *)
Fixpoint well_formed (n : Z) (rs : list (option Rpc.route)) (ids : list Z) (evs : list event) : Prop :=
  match evs with
  | [] => True
  | Connects cl _ acc :: evs =>
      0 < NetThread.acc_ret acc ∧ Rpc.ready (to cl) (self cl) (proxy cl) (world cl) n 0 [] ∧
      well_formed n (rs ++ [Some (to (connect (zlen rs + 1) (NetThread.acc_ret acc) cl))]) (ids ++ [0]) evs
  | Calls i env c :: evs =>
      ∃ r id, rs !! i = Some (Some r) ∧ ids !! i = Some id ∧ Rpc.fine r func reply (id + 1) env c ∧
        well_formed n rs (<[i := id + 1]> ids) evs
  | Leaves i events reads _ :: evs =>
      (∃ r, rs !! i = Some (Some r)) ∧ NetThread.hang_up events reads ∧ well_formed n (<[i := None]> rs) ids evs
  end.

(** ** That they get it *)

Hypothesis alloc_total : ∀ n, alloc_ok n = true.

(** Every client that has not left is served and can make [n] more calls; [socks]
    are the descriptors of all of them. *)
Record inv (n : Z) (socks ids : list Z) (st : state) : Prop := {
  inv_accepting : Rpc.accepting hd lfd (2000 - zlen (clients st)) (rest st) func;
  inv_ids : length ids = length (clients st);
  inv_socks : length socks = length (clients st);
  inv_client i cl id : clients st !! i = Some (Some cl) → ids !! i = Some id →
    Rpc.uid (to cl) = Z.of_nat i + 1 ∧ Rpc.h (to cl) = hd ∧ socks !! i = Some (Rpc.fd (to cl)) ∧
    Rpc.serving (to cl) (rest st) func ∧
    ∃ bs, Rpc.ready (to cl) (self cl) (proxy cl) (world cl) n id bs
}.

Lemma inv_weaken n n' socks ids st : n' ≤ n → inv n socks ids st → inv n' socks ids st.
Proof.
  intros Hn [? ? ? Hcl]. split; [done..|]. intros i cl id Hi Hid.
  destruct (Hcl i cl id Hi Hid) as (? & ? & ? & ? & bs & Hrd). do 4 (split; [done|]). exists bs.
  by apply (Rpc.ready_weaken _ _ _ _ n).
Qed.

Definition written (fd : Z) (st : state) : bytes := Rpc.written fd (rest st).1.

Definition route_of (o : option client) : option Rpc.route := to <$> o.
Definition routes (st : state) : list (option Rpc.route) := route_of <$> clients st.

Lemma routes_client st i r : routes st !! i = Some (Some r) → ∃ cl, clients st !! i = Some (Some cl) ∧ r = to cl.
Proof.
  unfold routes. rewrite list_lookup_fmap. intros (o & Hi & Ho)%fmap_Some.
  destruct o as [cl|]; [|done]. injection Ho as ->. by exists cl.
Qed.

Lemma connects_spec n m socks ids st cl garbage acc :
  inv n socks ids st → n ≤ m → zlen (clients st) < 2000 → 0 < NetThread.acc_ret acc →
  Rpc.ready (to cl) (self cl) (proxy cl) (world cl) m 0 [] →
  ∃ st', step (Connects cl garbage acc) st = Ok ([], st') ∧
    inv n (socks ++ [NetThread.acc_ret acc]) (ids ++ [0]) st' ∧
    routes st' = routes st ++ [Some (to (connect (zlen (clients st) + 1) (NetThread.acc_ret acc) cl))] ∧
    ∀ fd, written fd st' = written fd st.
Proof.
  intros [Ha Hids Hsocks Hcl] Hn Hroom Hacc Hr. destruct st as [cls [s y]]. cbn [clients rest fst snd] in *.
  destruct (Rpc.accept_serves hd lfd _ s y func garbage acc Ha) as (s' & Hs' & Ha' & Hnew & Hold & Hwr);
    [lia|done|].
  eexists. cbn [step rest clients fst snd]. rewrite Hs'. split; [done|].
  split; [|split; [unfold routes; cbn [clients]; by rewrite fmap_app|done]]. split.
  - cbn [clients rest]. rewrite length_app. cbn [length].
    by replace (2000 - Z.of_nat (length cls + 1)) with (2000 - zlen cls - 1) by lia.
  - cbn [clients]. by rewrite !length_app, Hids.
  - cbn [clients]. by rewrite !length_app, Hsocks.
  - cbn [clients rest]. intros i cl' id Hi Hid.
    destruct (decide (i < length cls)%nat) as [Hlt|Hge].
    + rewrite lookup_app_l in Hi by done. rewrite lookup_app_l in Hid by lia.
      destruct (Hcl i cl' id Hi Hid) as (Hu & Hh & Hfd & Hsv & Hrd). split; [done|]. split; [done|].
      split; [by apply lookup_app_l_Some|]. split; [by apply Hold|done].
    + apply lookup_app_Some in Hi as [Hi|[_ Hi]]; [by apply lookup_lt_Some in Hi|].
      apply lookup_app_Some in Hid as [Hid|[_ Hid]]; [apply lookup_lt_Some in Hid; lia|].
      apply list_lookup_singleton_Some in Hi as [Hlen [= <-]], Hid as [_ <-].
      assert (i = length cls) as -> by lia. split; [done|]. split; [done|]. split; [|split].
      * rewrite lookup_app_r, Hsocks by lia. by rewrite Nat.sub_diag.
      * cbn [to connect]. replace (zlen cls + 1) with (2001 - (2000 - zlen cls)) by lia. apply Hnew.
      * exists []. by apply (Rpc.ready_weaken _ _ _ _ m).
Qed.

(** What an event of client [i] does to the others. *)
Lemma inv_others n n' socks ids st i cl x o ids' :
  inv n socks ids st → n' ≤ n → clients st !! i = Some (Some cl) → Rpc.keeps (to cl) (rest st) x →
  length ids' = length ids → (∀ j, j ≠ i → ids' !! j = ids !! j) →
  (∀ cl' id, o = Some cl' → ids' !! i = Some id →
     to cl' = to cl ∧ Rpc.serving (to cl) x func ∧
     ∃ bs, Rpc.ready (to cl') (self cl') (proxy cl') (world cl') n' id bs) →
  inv n' socks ids' (mk (<[i := o]> (clients st)) x).
Proof.
  intros [Ha Hids Hsocks Hcl] Hn Hi [Hks Hkw Hka] Hlen Hids' Ho.
  destruct (lookup_lt_is_Some_2 ids i) as [id Hid]; [rewrite Hids; by eapply lookup_lt_Some|].
  destruct (Hcl i cl id Hi Hid) as (Hu & Hh & Hfd & _).
  split; cbn [clients rest]; rewrite ?length_insert; try congruence.
  - rewrite Hh in Hka. by apply Hka.
  - intros j cl' id' Hj Hid'. destruct (decide (j = i)) as [->|Hne].
    + rewrite list_lookup_insert_eq in Hj by by eapply lookup_lt_Some. injection Hj as ->.
      destruct (Ho cl' id' eq_refl Hid') as (Hto & Hsv & Hrd). rewrite Hto in Hrd |- *. done.
    + rewrite list_lookup_insert_ne in Hj by done. rewrite Hids' in Hid' by done.
      destruct (Hcl j cl' id' Hj Hid') as (Hu' & Hh' & Hfd' & Hsv' & bs & Hrd).
      split; [done|]. split; [done|]. split; [done|]. split; [apply Hks; [lia|congruence|done]|].
      exists bs. by apply (Rpc.ready_weaken _ _ _ _ n).
Qed.

Lemma calls_spec n socks ids st i env c r id :
  inv (n + 1) socks ids st → 0 ≤ n → routes st !! i = Some (Some r) → ids !! i = Some id →
  Rpc.fine r func reply (id + 1) env c →
  let response := ObjectProxy.response_to (id + 1) (reply (Rpc.payload c)) in
  ∃ st', step (Calls i env c) st = Ok ([(i, response)], st') ∧
    inv n socks (<[i := id + 1]> ids) st' ∧ routes st' = routes st ∧
    ∀ fd, written fd st' = written fd st ++ (if bool_decide (socks !! i = Some fd) then response else []).
Proof.
  intros Hinv Hn (cl & Hi & ->)%routes_client Hid Hf response.
  destruct (inv_client _ _ _ _ Hinv i cl id Hi Hid) as (Hu & Hh & Hfd & Hsv & bs & Hrd).
  destruct st as [cls x]. cbn [clients rest] in *.
  destruct (Rpc.tars_invoke_spec log address alloc_ok alloc_total (self cl) (to cl) env c (proxy cl) (world cl)
    x n id bs func reply Hrd Hn Hsv Hf)
    as (sp' & w' & x' & Hcall & Hrd' & _ & _ & _ & _ & _ & Hsv' & Hwr & Hk).
  exists (mk (<[i := Some (called sp' w' cl)]> cls) x'). cbn [step clients rest]. rewrite Hi.
  cbn [mjoin option_join deref mbind outcome_bind]. rewrite Hcall. split; [done|]. split; [|split].
  - apply (inv_others (n + 1) n socks ids (mk cls x) i cl); try done; [lia|by rewrite length_insert| |].
    + intros j Hj. by apply list_lookup_insert_ne.
    + intros cl' id' [= <-]. rewrite list_lookup_insert_eq by by eapply lookup_lt_Some.
      intros [= <-]. split; [done|]. split; [done|]. by eexists.
  - unfold routes. cbn [clients]. rewrite list_fmap_insert. apply list_insert_id.
    by rewrite list_lookup_fmap, Hi.
  - intros fd. rewrite Hfd. case_bool_decide as Heq; [by injection Heq as <-|].
    rewrite app_nil_r. apply (Rpc.keeps_written _ _ _ Hk). congruence.
Qed.

Lemma leaves_spec n socks ids st i events reads env r :
  inv n socks ids st → routes st !! i = Some (Some r) → NetThread.hang_up events reads →
  ∃ st', step (Leaves i events reads env) st = Ok ([], st') ∧ inv n socks ids st' ∧
    routes st' = <[i := None]> (routes st) ∧ ∀ fd, written fd st' = written fd st.
Proof.
  intros Hinv (cl & Hi & ->)%routes_client Hup.
  destruct (lookup_lt_is_Some_2 ids i) as [id Hid].
  { rewrite (inv_ids _ _ _ _ Hinv). by eapply lookup_lt_Some. }
  destruct (inv_client _ _ _ _ Hinv i cl id Hi Hid) as (_ & _ & _ & Hsv & _).
  destruct (Rpc.leave_spec alloc_ok alloc_total events reads env (to cl) (rest st) func Hsv Hup)
    as (x' & Hx & Hk & Hwr).
  eexists. cbn [step]. rewrite Hi. cbn [mjoin option_join deref mbind outcome_bind]. rewrite Hx.
  split; [done|]. split; [|split; [unfold routes; cbn [clients]; by rewrite list_fmap_insert|done]].
  by apply (inv_others n n socks ids st i cl).
Qed.

Lemma received_cons socks fd i b rs :
  received socks fd ((i, b) :: rs) =
    (if bool_decide (socks !! i = Some fd) then b else []) ++ received socks fd rs.
Proof.
  unfold received. case_bool_decide as Hj; [by rewrite filter_cons_True|by rewrite filter_cons_False].
Qed.

Lemma clients_run_spec n m evs : ∀ socks ids st,
  inv (n + zlen evs) socks ids st → 0 ≤ n → n + zlen evs ≤ m → well_formed m (routes st) ids evs →
  zlen (clients st) + zlen (accepted evs) ≤ 2000 →
  ∃ st' ids', run evs st = Ok (spec ids evs, st') ∧ inv n (socks ++ accepted evs) ids' st' ∧
    ∀ fd, written fd st' = written fd st ++ received (socks ++ accepted evs) fd (spec ids evs).
Proof.
  induction evs as [|ev evs IH]; intros socks ids st Hinv Hn Hm Hwf Hlen.
  { exists st, ids. cbn in *. rewrite Z.add_0_r in Hinv. rewrite app_nil_r. split; [done|]. split; [done|].
    intros fd. unfold received. by rewrite app_nil_r. }
  cbn [length] in Hinv, Hm. apply (inv_weaken _ (n + zlen evs + 1)) in Hinv; [|lia].
  assert (zlen (clients st) = zlen (routes st)) as Hroutes by (unfold routes; by rewrite length_fmap).
  destruct ev as [cl garbage acc|i env c|i events reads env]; cbn [well_formed] in Hwf.
  - destruct Hwf as (Hacc & Hr & Hwf). rewrite <- Hroutes in Hwf.
    change (accepted (Connects cl garbage acc :: evs)) with (NetThread.acc_ret acc :: accepted evs) in *.
    cbn [length] in Hlen.
    destruct (connects_spec (n + zlen evs) m socks ids st cl garbage acc)
      as (st1 & H1 & Hinv1 & Hro1 & Hwr1); [eapply inv_weaken; [|done]; lia|lia|lia|done|done|].
    rewrite <- Hro1 in Hwf. destruct (IH _ _ st1 Hinv1 Hn) as (st2 & ids2 & H2 & Hinv2 & Hwr2); [lia|done| |].
    { rewrite <- (length_fmap route_of). fold (routes st1). rewrite Hro1, length_app. cbn [length]. lia. }
    change (NetThread.acc_ret acc :: accepted evs) with ([NetThread.acc_ret acc] ++ accepted evs).
    rewrite (app_assoc socks).
    exists st2, ids2. cbn [run spec]. rewrite H1. cbn [mbind outcome_bind]. rewrite H2.
    split; [done|]. split; [done|]. intros fd. by rewrite Hwr2, Hwr1.
  - destruct Hwf as (r & id & Hi & Hid & Hf & Hwf).
    change (accepted (Calls i env c :: evs)) with (accepted evs) in *.
    destruct (calls_spec (n + zlen evs) socks ids st i env c r id) as (st1 & H1 & Hinv1 & Hro1 & Hwr1);
      [done|lia|done..|].
    rewrite <- Hro1 in Hwf. destruct (IH _ _ st1 Hinv1 Hn) as (st2 & ids2 & H2 & Hinv2 & Hwr2); [lia|done| |].
    { rewrite <- (length_fmap route_of). fold (routes st1). rewrite Hro1. lia. }
    exists st2, ids2. cbn [run spec]. rewrite H1, Hid. cbn [mbind outcome_bind]. rewrite H2.
    split; [done|]. split; [done|]. intros fd. rewrite Hwr2, Hwr1, received_cons, <- app_assoc. f_equal.
    f_equal. assert (is_Some (socks !! i)) as [s Hs].
    { apply lookup_lt_is_Some_2. rewrite (inv_socks _ _ _ _ Hinv), <- (inv_ids _ _ _ _ Hinv).
      by eapply lookup_lt_Some. }
    by rewrite Hs, (lookup_app_l_Some _ _ _ _ Hs).
  - destruct Hwf as ([r Hi] & Hup & Hwf).
    change (accepted (Leaves i events reads env :: evs)) with (accepted evs) in *.
    destruct (leaves_spec (n + zlen evs) socks ids st i events reads env r)
      as (st1 & H1 & Hinv1 & Hro1 & Hwr1); [eapply inv_weaken; [|done]; lia|done..|].
    rewrite <- Hro1 in Hwf. destruct (IH _ _ st1 Hinv1 Hn) as (st2 & ids2 & H2 & Hinv2 & Hwr2); [lia|done| |].
    { rewrite <- (length_fmap route_of). fold (routes st1). rewrite Hro1, length_insert. lia. }
    exists st2, ids2. cbn [run spec]. rewrite H1. cbn [mbind outcome_bind]. rewrite H2.
    split; [done|]. split; [done|]. intros fd. by rewrite Hwr2, Hwr1.
Qed.

End clients.

(** ** Properties *)


(** ** Witness *)

(** A client of the Hello server that has not made a call. *)
Definition hello_client (Q : LoopQueue.t nat) : client :=
  mk_client 0 (ServantProxy.proxy 0) (ServantProxy.two_threads Q Request.fresh) Rpc.hello_route.

Definition peer (fd : Z) : NetThread.accept_result := NetThread.mk_accept fd [] 80 false.

(** Two clients that take turns; the second stays when the first has left. *)
Definition two_clients (Q : LoopQueue.t nat) : list event :=
  [Connects (hello_client Q) false (peer 9); Calls 0 Rpc.hello_answers Rpc.hello_call;
   Connects (hello_client Q) false (peer 10); Calls 0 Rpc.hello_answers Rpc.hello_call;
   Calls 1 Rpc.hello_answers Rpc.hello_call;
   Leaves 0 Epoller.EPOLLIN [Connection.Rd []] Rpc.hello_answers;
   Calls 1 Rpc.hello_answers Rpc.hello_call].


End Clients.
