(* ===== verification/Programs.v ===== *)
(** * Programs: client_test.cc and client_async_test.cc against HelloServer.cc

    The two client programs, and runs of the server program with each of them: from
    the start of both to the end of the client, and to the callback. *)

From Stdlib Require Import Strings.String.
From S2P Require Import Prelude ByteQueue Buffer Wire Message AsyncProcThread Epoller BindAdapter NetThread EpollServer.
From S2P Require Import ServantManager Servants LoopQueue Transceiver ObjectProxy CommunicatorEpoll ThreadData.
From S2P Require Import ServantProxy Scheduler ServantHandle HandlerRun Rpc Communicator Application.

Module Programs.

Import Str.

Section programs.
Context (address : nat → CommunicatorEpoll.fd_pointer → Z).

(** [funcNames] is what the program's other files define.  [env] answers the
    registrations, [cenv] the call; the second components are what happens while
    they wait. *)
Context (funcNames : list bytes) (self : nat) (shutdown : nat → Z) (garbage : Z).

Definition localhost : bytes := str "127.0.0.1".

(** client_test.cc: what the registrations print and what the program logs.  The
    communicator is destroyed at the end. *)
Definition client_test {X}
    (env : nat → ServantProxy.answers * (Communicator.world * X → outcome (Communicator.world * X)))
    (cenv : ServantProxy.answers * (Communicator.world * X → outcome (Communicator.world * X)))
    (wx : Communicator.world * X) : outcome (list bytes * bytes * Communicator.t * (Communicator.world * X)) :=
  '(printed, prx, comm, wx) ← Communicator.stringToProxy address funcNames self shutdown env
                                localhost 9000 garbage Communicator.new wx;
  '(response, prx, wx) ← ServantProxy.tars_invoke address self cenv.1 cenv.2 (str "test") (str "hello") prx wx;
  let '(w, x) := wx in
  '(comm, w) ← Communicator.terminate comm w;
  Ok (printed, response, comm, (w, x)).

(** client_async_test.cc up to [getchar]; the callback logs the response. *)
Definition client_async_test {X}
    (env : nat → ServantProxy.answers * (Communicator.world * X → outcome (Communicator.world * X)))
    (cenv : ServantProxy.answers) (wx : Communicator.world * X)
    : outcome (list bytes * Communicator.t * (Communicator.world * X)) :=
  '(printed, prx, comm, wx) ← Communicator.stringToProxy address funcNames self shutdown env
                                localhost 9000 garbage Communicator.new wx;
  let '(w, x) := wx in
  '(prx, w) ← ServantProxy.tars_invoke_async address self cenv (str "test") (str "hello world") true prx w;
  Ok (printed, comm, (w, x)).

End programs.

(** ** A server and a client *)

Definition hello : bytes → bytes := Application.servant Servants.HelloImp.

Definition test_call (request : bytes) : Rpc.call := (str "test", request).

(** A call of a client's program, to a connection with room for [n] bytes. *)
Definition roomy (n : nat) (env : Rpc.answers) : Prop :=
  ServantProxy.gives_key (Rpc.calling env) ∧
  (Rpc.sending env).1 ≠ -1 ∧ ∃ k, (Rpc.sending env).2 = Transceiver.Room k ∧ (n ≤ k)%nat.

Lemma test_fine r i env request :
  zlen request < 1000 → roomy (22 + length request) env →
  Rpc.fine r hello id i env (test_call request).
Proof.
  intros Hl (Hkey & Hs & k & Hk & Hroom). pose proof (Wire.length_to_string (i32 i)) as Hlen.
  assert (zlen (Rpc.payload (test_call request)) = 5 + zlen request) as Hp.
  { unfold Rpc.payload, test_call. rewrite length_app. cbn [fst snd length].
    change (length (str "test")) with 4%nat. lia. }
  split; [done|]. split; [lia|]. split; [|split].
  - split; [done|]. exists k. split; [done|].
    change (zlen (Request.request _)) with (zlen (Rpc.payload (test_call request))). lia.
  - unfold hello, Application.servant.
    change (Wire.request_payload i (Rpc.payload (test_call request))) with
      (Servants.request (Wire.to_string (i32 i)) (str "test") (Wire.colon :: request)).
    rewrite Servants.HelloImp_spec; [done| |by left]. split.
    + apply Wire.to_string_no_colon.
    + by repeat constructor.
    + right. by eexists.
    + cbn [length]. change (zlen (str "test")) with 4. lia.
  - unfold ObjectProxy.response_to. rewrite length_app. cbn [length].
    change (length (id (Rpc.payload (test_call request)))) with
      (length (Rpc.payload (test_call request))). lia.
Qed.

(** The network thread that a call needs is there. *)
Lemma ready_epoll r self sp w n i bs :
  Rpc.ready r self sp w n i bs → ∃ ce, CommunicatorEpoll.epolls w !! Rpc.e r = Some ce.
Proof.
  intros [[(p & q & Hc)|[_ Hu]] _].
  - destruct (ServantProxy.cl_notify _ _ _ _ _ _ _ _ Hc) as (c & nf & Hce & _). by exists c.
  - destruct (ServantProxy.un_notify _ _ _ _ _ Hu) as (c & nf & Hce & _). by exists c.
Qed.

(** With no functions to register the first proxy is made without a call. *)
Lemma first_proxy_silent {B : Type} `{ByteQueueLaws B} address self shutdown ip port garbage env n w
    (x : EpollServer.t B * (NodeF.t * Scheduler.t HandlerRun.task)) uid fd h func :
  let r := Communicator.first_route uid fd h in
  Communicator.blank self w → 0 ≤ n < 2 ^ 32 → Rpc.serving r x func →
  ∃ sp w' x',
    Communicator.stringToProxy address [] self shutdown env ip port garbage Communicator.new (w, x)
      = Ok ([], sp, Communicator.running true, (w', x')) ∧
    Rpc.ready r self sp w' n 0 [] ∧ Rpc.serving r x' func ∧
    Rpc.written fd x'.1 = Rpc.written fd x.1 ∧
    (∀ i, (CommunicatorEpoll.next w' ≤ i)%nat → CommunicatorEpoll.heap w' !! i = None) ∧
    CommunicatorEpoll.events w' = CommunicatorEpoll.events w ∧ CommunicatorEpoll.async_waiting w' 0 [].
Proof.
  intros r Hb Hn Hsv.
  destruct (Communicator.first_proxy_registers Assert address (λ _, true) (λ _, eq_refl) [] self shutdown ip
    port garbage n w x uid fd h func id (λ _, Rpc.hello_answers))
    as (sp & w1 & x1 & Hpx & Hrd & Hsv1 & Hwr1 & _ & Hfr); [done|lia|cbn; lia|done..|].
  cbn [fmap list_fmap Rpc.responses Wire.stream concat] in *. rewrite app_nil_r in Hwr1.
  exists sp, w1, x1. split; [|done]. rewrite <- Hpx.
  unfold Communicator.stringToProxy, Communicator.get_servantProxy. cbn [Communicator.register_names].
  done.
Qed.


(** The same for client_async_test: its main function goes on to [getchar] at
    once, and when the network threads, the handler and the callback thread of both
    programs have done their parts, the callback has been run once, with the answer
    to that call, and the message is gone. *)
Theorem async_client_meets_server {B : Type} `{ByteQueueLaws B} log address alloc_ok
    (alloc_total : ∀ n, alloc_ok n = true) senv acc garbage_c garbage self shutdown nf env cenv n
    (w : Communicator.world)
    (Hfd0 : Application.admin_fd senv ≠ -1) (Hfd : Application.adapter_fd senv ≠ -1)
    (Hacc : 0 < NetThread.acc_ret acc) (Hb : Communicator.blank self w) (Hn : 0 ≤ n < 2 ^ 32 - 1)
    (Hroom : roomy 33 cenv) :
  ∃ hs (a : Application.t B) h m' st s',
    Application.start_server Application.hello_initialize Application.hello_config senv = Ok (hs, a) ∧
    HandlerRun.begin alloc_ok (ServantHandle.mk [] (Some 1%nat)) (Application.manager a)
      (EpollServer.shared (Application.epollServer_ a)) = Ok (h, m', st) ∧
    Rpc.take_client (Application.adapter_fd senv) garbage_c acc (Application.epollServer_ a) = Ok s' ∧
    let r := Communicator.first_route 1 (NetThread.acc_ret acc) h in
    ∃ comm w1 x1 w2 x2 w3 msg,
      client_async_test address [] self shutdown garbage env (Rpc.calling cenv) (w, (s', (nf, st)))
        = Ok ([], comm, (w1, x1)) ∧
      Rpc.exchange log address alloc_ok r cenv (w1, x1) = Ok (w2, x2) ∧
      CommunicatorEpoll.async_pass 0 0 w2 = Ok w3 ∧
      CommunicatorEpoll.events w3 =
        CommunicatorEpoll.events w ++ [AsyncProcThread.Called msg (str "1:test:hello world")] ∧
      CommunicatorEpoll.heap w3 !! msg = None ∧
      Rpc.written (NetThread.acc_ret acc) x2.1 = str "1:test:hello world" ∧ Rpc.serving r x2 hello.
Proof.
  destruct (Application.server_accepts alloc_ok alloc_total hello Application.hello_config senv
    acc garbage_c 0 0 0 nf) as (hs & a & h & m' & st & s' & Hst & _ & Hbg & Hac & Hsv & Hwr);
    [done..|].
  set (r := Communicator.first_route 1 (NetThread.acc_ret acc) h).
  destruct (first_proxy_silent address self shutdown localhost 9000 garbage env
    (n + 1) w (s', (nf, st)) 1 (NetThread.acc_ret acc) h hello)
    as (sp & w1 & x1 & Hpx & Hrd & Hsv1 & Hwr1 & _ & Hev1 & Ha1); [done|lia|done|].
  destruct (Rpc.async_call_spec log address alloc_ok alloc_total self r cenv
    (test_call (str "hello world")) sp w1 x1 n 0 [] hello id Hrd Ha1)
    as (sp2 & w2 & x2 & Hcall & _ & _ & Hh2 & _ & Hev2 & _ & Hsv2 & Hwr2 & _); [lia|done|by apply test_fine|].
  unfold Rpc.async_call in Hcall. cbn [fst snd test_call] in Hcall.
  apply bind_Ok in Hcall as ([sp3 w3] & Hinv & Hcall).
  apply bind_Ok in Hcall as ([w4 x4] & Hex & Hcall).
  apply bind_Ok in Hcall as (w5 & Hpass & [= -> -> ->]).
  exists hs, a, h, m', st, s'. split; [done|]. split; [done|]. split; [done|].
  cbv zeta. fold r. exists (Communicator.running true), w3, x1, w4, x2, w2, (CommunicatorEpoll.next w1).
  split; [|split; [done|split; [done|split; [by rewrite Hev2, Hev1|split; [|split; [|done]]]]]].
  - unfold client_async_test. rewrite Hpx. cbn [mbind outcome_bind]. by rewrite Hinv.
  - rewrite Hh2. apply lookup_delete_eq.
  - cbn [Rpc.fd r Communicator.first_route] in Hwr2. rewrite Hwr2, Hwr1. cbn [fst]. by rewrite Hwr.
Qed.


Lemma async_client_meets_server_witness :
  ∃ h s' st comm w1 x1 w2 x2 w3 msg,
    client_async_test ServantProxy.here [] 0 (λ _, 3) 0 (λ _, (ServantProxy.mk_answers None 0 0 0 0, Ok))
      (Rpc.calling Rpc.hello_answers)
      (Communicator.empty_world, (s' : EpollServer.t Buffer.t, (NodeF.init, st))) = Ok ([], comm, (w1, x1)) ∧
    Rpc.exchange Assert ServantProxy.here Scheduler.granted (Communicator.first_route 1 9 h) Rpc.hello_answers
      (w1, x1) = Ok (w2, x2) ∧
    CommunicatorEpoll.async_pass 0 0 w2 = Ok w3 ∧
    CommunicatorEpoll.events w3 = [AsyncProcThread.Called msg (str "1:test:hello world")].
Proof.
  destruct (async_client_meets_server (B := Buffer.t) Assert ServantProxy.here Scheduler.granted (λ _, eq_refl)
    Application.system_answers Application.a_peer false 0 0 (λ _, 3) NodeF.init
    (λ _, (ServantProxy.mk_answers None 0 0 0 0, Ok)) Rpc.hello_answers 3 Communicator.empty_world)
    as (hs & a & h & m' & st & s' & _ & _ & _ & comm & w1 & x1 & w2 & x2 & w3 & msg & H1 & H2 & H3 & H4 & _).
  - discriminate.
  - discriminate.
  - reflexivity.
  - apply Communicator.empty_blank.
  - lia.
  - split; [split; [by exists 1|reflexivity]|]. split; [discriminate|]. exists 60%nat. split; [reflexivity|lia].
  - exists h, s', st, comm, w1, x1, w2, x2, w3, msg.
    split; [exact H1|]. split; [exact H2|]. split; [exact H3|exact H4].
Defined.

End Programs.
